(* ===== verification/_CoqProject ===== *)
-Q . S2P
Prelude.v
Blocks.v
KVSpec.v
KVHistory.v
LightKVS.v
RevertibleKVS.v
Codec.v
PebbleCodec.v
PebbleKVS.v
PebbleKVSProps.v
Geth.v
AccessList.v
StateDB.v
StateDBProps.v
NonceGate.v
NonceGateProps.v
TxQueues.v
TxQueueProps.v
TxQueueV2Props.v
Domain.v
Convert.v
Store.v
StoreProps.v
Trie.v
Chain.v
Filters.v
FilterProps.v
DepGraph.v
DepGraphProps.v
Hybrid.v
HybridProps.v
Executor.v
Engine.v
EngineProps.v
Endorse.v
EndorseProps.v
Commit.v
Remote.v
RemoteProps.v
Gateway.v
GatewayQueues.v
GatewayProps.v
Rpc.v
RpcProps.v
QueryKVS.v
Config.v
Lifecycle.v
Fence.v
Evm.v
Metrics.v
Baseline.v
Hardhat.v
Wiring.v
