(* ===== verification/Prelude.v ===== *)
(** * fabric-x-evm: a verification library

    The program runs Ethereum transactions on Hyperledger Fabric and Fabric-X.
    A gateway (src/gateway) speaks Ethereum JSON-RPC: it checks and orders the
    transactions of each sender, has endorsers execute them, submits the
    endorsements to the orderers and keeps a block store for queries.  An
    endorser (src/endorser) holds the world state, runs the EVM of go-ethereum on
    a snapshot of it and signs the read-write set.  A synchronizer
    (src/synchronizer) feeds the committed blocks of the peer to both.

    ** The files

    Shared: [Prelude] (Go values and errors, machine integers, lists), [Blocks]
    (Fabric blocks and read-write sets), [Codec] (integers as bytes, hex), [Geth]
    (what is used of go-ethereum's types), [Domain] (the gateway's Ethereum
    blocks, common/events.go).

    Endorser:
    - [KVSpec], [KVHistory]: the ledger as a reference: the world state after a
      sequence of blocks, and superseded records.  No code; the stores refine it.
    - [LightKVS], [RevertibleKVS]: endorser/storage/lightkvs.go and
      revertible_lightkvs.go.  [PebbleCodec], [PebbleKVS], [PebbleKVSProps]:
      pebblekvs.go.  [QueryKVS]: endorser/query, the store that reads from the
      committer's query service.
    - [AccessList], [StateDB], [StateDBProps]: endorser/execution/statedb.go; the
      journal, snapshots, the read-write set.
    - [Executor], [Engine], [EngineProps]: executor.go and endorser/core.
    - [Remote], [RemoteProps]: the service contract and its gRPC client and
      server.
    - [Commit]: engine and store together.

    Gateway:
    - [NonceGate], [NonceGateProps]: core/nonce_parking.go.
    - [TxQueues], [TxQueueProps], [TxQueueV2Props]: core/txqueue.go and
      txqueue_v2.go.  [DepGraph], [DepGraphProps]: core/depgraph_queue.go.
    - [Endorse], [EndorseProps]: core/endorse.go.
    - [Convert]: conversion of blocks and logs.  [Store], [StoreProps]: the SQL
      block store.  [Trie]: storage/trie.  [Chain]: core/chain.go, which composes
      the three.
    - [Filters], [FilterProps]: api/filters.
    - [Gateway], [GatewayProps]: core/api.go, validate.go and batch_submitter.go
      over any queue.  The class [TxQueueInterface] is the interface of api.go,
      [TxQueueLaws] ([GatewayQueues]) what the gateway relies on, with an instance
      for each of the three queues.
    - [Rpc], [RpcProps]: api/eth.go, models.go, rpcerrors.go and rpcerr.
    - [Lifecycle]: [Start] and [Stop] of api.go and batch_submitter.go around the
      transitions of [Gateway].  [Metrics]: the time stamps of a transaction in
      metrics/metrics.go.
    - [Fence], [Evm]: the snapshots of a test node: testimpl/txfence.go and
      resettable_gate.go around [Gateway], evm_snapshot and evm_revert of
      hardhat_helpers.go over [RevertibleKVS] and [Chain].  [Hardhat]: the calls
      that set state and mine, with the primer that commits it, over
      [RevertibleKVS], [StateDB] and [Engine].

    Synchronizer: [Hybrid], [HybridProps].

    Process: [Config] (common/config.go, endorser/config, gateway/config),
    [Wiring] (cmd/fxevm, gateway/app, endorser/app: from a configuration to a
    running process), [Baseline] (cmd/baseline: the gate of expected failures).

    ** How the code is modelled

    A method under a lock is one function on a [Record] state; where a method
    gives the lock up, or uses atomics, it is several transitions and the
    goroutines interleave in a step relation with reachability ([NonceGate],
    [DepGraph], [Hybrid], [Gateway], [QueryKVS], the fan-out of [Endorse]).  A panic is [Panic], a
    [(value, error)] pair a [result]; a nil slice is [None].  [uint64] values are
    integers with [u64] where the code can wrap; time, fresh identifiers and map
    order are arguments.  Code outside the repository is a class with laws that
    state its documented behaviour, and each class has a concrete instance that
    the witnesses run on: go-ethereum ([GethTypes], [EthCodec], [GethEVM], the
    state database of [Trie]), protobuf and JSON ([Wire], [EndorsementSDK]),
    pebble ([PebbleDB]), the committer's dependency manager ([DepGraph]).  The EVM
    is a finite program over the operations of [StateDB]: gas bounds every run.
    The SQL of [Store] is modelled statement by statement with the constraints of
    schema.sql.

    Helper definitions that model a few lines of an operation are read together
    with that operation, whose lines contain theirs.

    Assumptions on the surroundings are in the step relations and hypotheses.
    [GatewayProps]: what a failed [Submit] carried was not ordered.  A block may
    bring any transaction; those that are tracked here and were ordered elsewhere are
    recorded ([gw_foreign]), and the theorems on the pipeline are for runs without
    them.  A submission takes several steps, between which the rest of the gateway
    moves ([send_next]).  [RpcProps]: the store was filled with blocks as the chain
    builds them, redelivered ones included ([filled]); [receipts_agree] is for a
    transaction that is in one block ([once]).  [Chain]: blocks come in the order of
    their numbers, and any delivered block may come again.  [QueryKVS]: the answers of
    a view are of one state ([answers]), and namespaces hold no NUL.  [Hybrid]:
    delivery hands over consecutive blocks and batches come in order.  [Wiring]: what
    a library call does, a panic included, is an argument ([World]).  [Lifecycle]: a
    closed queue hands out what it holds and then reports that it is closed, after
    its own goroutines are done ([TxQueueCloses]), proved for the FIFO queue and the
    dependency graph, which is the one the wiring builds; the rest of the gateway
    moves between the steps of [Stop].  [Fence]: a queue with nothing in flight has
    nothing pending ([TxQueueCounts]), proved for the three queues; transactions the
    node orders to prime balances may arrive during a rewind.  [Evm]: block numbers
    go up, as Fabric's do, also across reverts; a snapshot that left the window of
    the history is refused.  [TxQueueV2Props]: a transaction is completed after it was
    dequeued.  [Baseline]: [regexp] is the class [Regexp]; names are distinct
    ([well_named]).

    Fuel: [estimate_loop] gets fourteen rounds, since the guess starts at 2301 and
    doubles up to 10,000,000 (proved in [EstimateGas_verified]); the varint decoder
    of [PebbleCodec] gets ten, the longest encoding of a [uint64]; the eviction
    loops get the length of what they scan.  Everything else is structural.

    ** What the theorems show

    - Stores: a snapshot at a height reads as the ledger cut at that height, or is
      refused ([LightKVS_time_travel], [pebble_time_travel]); open readers are
      isolated from writers and pruning ([pebble_isolation]); the pebble store
      recovers what it acknowledged ([pebble_recovers]); concurrent reads through
      the query service are of one state ([snapshot_consistent]); rewinding restores
      values and keeps versions ([RevertToBlock_restores],
      [revertible_versions_track]).
    - Execution: reverts restore ([Snapshot_Revert_restores]); the read-write set
      is what the run did ([Result_rwset]) and its versions decide the run
      ([read_set_sound]); balances are conserved ([transfer_conserves]).
    - Endorsement: the receipt is that of the run ([endorsed_receipt]); the nonce
      is pinned ([endorsed_nonce_at_commit]); statuses ([Endorser_statuses]); the
      committed state is the executed one ([commit_matches_execution]); a remote
      endorser answers as a local one ([remote_transparent]) and endorsers at one
      height agree ([endorsers_agree]).
    - Gateway: nonces go out in order, nothing parked is lost; the queues exclude
      conflicting transactions, drain, and reuse endorsements exactly when they
      still hold; the fan-out reports the real error ([fanout_result]); gas
      estimates end and suffice ([EstimateGas_verified]).  Composed: what the queue
      handed out is with a worker, a submitter or the orderer, in one place
      ([pipeline_exact]); over the dependency graph no two of them clash
      ([inflight_independent]); every outcome of a submission
      ([SendTransaction_spec]).
    - Queries: stored blocks read back and form a hash chain, reverting the store
      truncates it; polling filters report each log once and agree with the log
      query; the trie follows the ledger; the receipts of a block are those of its
      transactions ([receipts_agree]) and its views agree ([block_views_agree]).
    - Start and stop: a validated configuration makes no code of the repository
      panic on its way up ([validated_starts]) and an address reads back
      ([Address_roundtrip]); [Stop] returns within a bound on its own steps
      ([Stop_terminates]) and leaves nothing that is still submitted ([Stop_quiesces]).
    - Rewinds: nothing is on its way while a test node rewinds
      ([rewind_exclusive]), and reverting to a snapshot gives back what both stores
      held ([evm_revert_restores]).  The calls that set state set what they are
      asked to, nothing else, and return ([directive_confirmed]).
    - Baseline: reconciling settles the gate ([Reconcile_settles]).
    - Synchronizer: the two block sources never overlap; no block is handled twice
      or lost at the hand-over, and after it only blocks without an EVM transaction
      do not reach the handlers ([hybrid_exclusive], [hybrid_ordered],
      [paths_agree]).
    Lemmas without a claim number that show a flaw are named in the findings:
    among them [restart_leaves_hole], [drop_loses_node], [label_refused],
    [server_fault_reported_as_gas], [exec_failure_is_endorsed], [lookup_race],
    [lookup_fault_rejected], [fee_caps_dropped], [stop_drops_endorsed],
    [negative_history_panics], [testnode_needs_gateway], [revert_keeps_prevHash],
    [delivered_stays_tracked], [crashed_parent_looks_clean],
    [alloc_numbers_misread], [mine_returns_early], [late_submission_taken],
    [priming_lands], [resubmitted_receipts_differ], [label_clash_drops_pattern],
    [quiet_block_unseen], [oversized_channel_panics], [logging_unchecked].

    ** Not modelled

    Decoding of the YAML files and the environment (viperutil), command lines
    (cobra) and the rendering of the baseline's report; gRPC, HTTP and WebSocket
    servers, health probes, TLS; the Prometheus registry, gauges and logging,
    including the logging wrappers of the state database; generated code
    (api/endorsementpb, contract bindings, query.sql.go beyond the statements);
    the rest of the test implementations and the trie-backed twin state they keep
    beside the real one (endorser/testimpl, gateway/testimpl, dual_statedb.go); the
    helpers of the integration suites; versioned_db_wrapper.go, which forwards to
    the SDK's database; JSON rendering of results; I/O errors of pebble.  These
    call into the modelled parts or into libraries and hold no state of their own
    that the properties depend on. *)

From Stdlib Require Import ZArith Lia.
From stdpp Require Import base numbers list gmap sets strings fin_maps.

Local Open Scope Z_scope.

(** ** Go results

    [outcome] separates a Go panic from a normal return; [result] is Go's
    [(value, error)] pair with exactly one of the two present. *)

Inductive outcome (A : Type) : Type :=
| Done (a : A)
| Panic (msg : string).
Arguments Done {_} _.
Arguments Panic {_} _.

Inductive result (E A : Type) : Type :=
| Ok (a : A)
| Err (e : E).
Arguments Ok {_ _} _.
Arguments Err {_ _} _.

#[global] Instance outcome_ret : MRet outcome := λ A a, Done a.
#[global] Instance outcome_bind : MBind outcome := λ A B f m,
  match m with Done a => f a | Panic s => Panic s end.

#[global] Instance result_ret {E} : MRet (result E) := λ A a, Ok a.
#[global] Instance result_bind {E} : MBind (result E) := λ A B f m,
  match m with Ok a => f a | Err e => Err e end.

(** A state-passing computation that may panic. *)
Definition st (S A : Type) : Type := S → outcome (A * S).

#[global] Instance st_ret {S} : MRet (st S) := λ A a s, Done (a, s).
#[global] Instance st_bind {S} : MBind (st S) := λ A B f m s,
  match m s with Done (a, s') => f a s' | Panic e => Panic e end.

Definition st_get {S} : st S S := λ s, Done (s, s).
Definition st_modify {S} (f : S → S) : st S unit := λ s, Done (tt, f s).
Definition st_panic {S A} (msg : string) : st S A := λ _, Panic msg.

Lemma st_bind_done {S A B} (m : st S A) (f : A → st S B) s r :
  (m ≫= f) s = Done r →
  ∃ a s', m s = Done (a, s') ∧ f a s' = Done r.
Proof.
  unfold mbind, st_bind. destruct (m s) as [[a s']|] eqn:E; [|done].
  intros H. eauto.
Qed.

(** A Go function that returns [(value, error)] and may also panic. *)
Definition go_ret {E A} (a : A) : outcome (result E A) := Done (Ok a).
Definition go_err {E A} (e : E) : outcome (result E A) := Done (Err e).
Definition go_bind {E A B} (m : outcome (result E A)) (f : A → outcome (result E B))
    : outcome (result E B) :=
  match m with
  | Done (Ok a) => f a
  | Done (Err e) => Done (Err e)
  | Panic msg => Panic msg
  end.

Declare Scope go_scope.
Delimit Scope go_scope with go.
Notation "'let?' x := m 'in' k" := (go_bind m (λ x, k))
  (at level 200, x pattern at level 0, m at level 100, k at level 200) : go_scope.

(** ** Fixed-width integers *)

(** A [uint64] is a [Z] in [[0, 2^64)]; arithmetic wraps through [u64]. *)
Definition u64 (z : Z) : Z := z mod 2 ^ 64.
Definition u64_max : Z := 2 ^ 64 - 1.
Definition is_u64 (z : Z) : Prop := 0 ≤ z < 2 ^ 64.

(** Conversion of a [uint64] to Go's 64-bit [int] (two's complement). *)
Definition int_of_u64 (z : Z) : Z := if z <? 2 ^ 63 then z else z - 2 ^ 64.

Create HintDb gomachine.
Create Rewrite HintDb gorewrite.

Lemma u64_range z : is_u64 (u64 z).
Proof. unfold is_u64, u64. apply Z.mod_pos_bound. lia. Qed.

Lemma u64_small z : is_u64 z → u64 z = z.
Proof. intros H. apply Z.mod_small, H. Qed.

Lemma u64_u64 z : u64 (u64 z) = u64 z.
Proof. apply u64_small, u64_range. Qed.

Lemma u64_add_l a b : u64 (u64 a + b) = u64 (a + b).
Proof. unfold u64. by rewrite Zplus_mod_idemp_l. Qed.

Lemma u64_0 : u64 0 = 0.
Proof. reflexivity. Qed.

#[export] Hint Resolve u64_range : gomachine.
#[export] Hint Rewrite u64_u64 u64_add_l u64_0 : gorewrite.

(** ** Byte slices

    A byte is a [Z] in [[0, 256)].  Where the code tells [nil] from an empty
    slice, the model uses [option (list Z)] with [None] for [nil]. *)

Abbreviation byte_slice := (list Z).

Definition is_byte (b : Z) : Prop := 0 ≤ b < 256.
Definition is_bytes (l : byte_slice) : Prop := Forall is_byte l.

(** [len] and content of a possibly-nil slice. *)
Definition slice_bytes (o : option byte_slice) : byte_slice := default [] o.
Definition slice_len (o : option byte_slice) : nat := length (slice_bytes o).

(** [bytes.Equal]: content only, so nil equals empty. *)
Definition bytes_Equal (a b : option byte_slice) : bool :=
  bool_decide (slice_bytes a = slice_bytes b).

Lemma bytes_Equal_refl a : bytes_Equal a a = true.
Proof. by apply bool_decide_eq_true. Qed.

(** ** Folds and lookups shared by the components *)

(** The last element of a list satisfying a boolean test. *)
Fixpoint find_last {A} (p : A → bool) (l : list A) : option A :=
  match l with
  | [] => None
  | x :: l =>
      match find_last p l with
      | Some y => Some y
      | None => if p x then Some x else None
      end
  end.

Lemma find_last_app {A} (p : A → bool) (l k : list A) :
  find_last p (l ++ k) =
  match find_last p k with Some y => Some y | None => find_last p l end.
Proof.
  induction l as [|x l IH]; simpl.
  - by destruct (find_last p k).
  - rewrite IH. by destruct (find_last p k).
Qed.

Lemma find_last_Some {A} (p : A → bool) (l : list A) x :
  find_last p l = Some x → x ∈ l ∧ p x = true.
Proof.
  induction l as [|y l IH]; simpl; [done|].
  destruct (find_last p l) as [z|].
  - intros [= ->]. destruct (IH eq_refl) as [Hin Hp].
    split; [by apply list_elem_of_further|done].
  - destruct (p y) eqn:E; [|done]. intros [= ->].
    split; [apply list_elem_of_here|done].
Qed.

Lemma find_last_None {A} (p : A → bool) (l : list A) :
  find_last p l = None ↔ Forall (λ x, p x = false) l.
Proof.
  induction l as [|y l IH]; simpl; [by split; [constructor|]|].
  rewrite Forall_cons, <-IH.
  destruct (find_last p l) as [z|]; [split; [done|intros [_ [=]]]|].
  destruct (p y); split; try done; by intros [[=] _].
Qed.

Lemma filter_fmap {A B} (f : A → B) (P : B → Prop) `{∀ x, Decision (P x)} (l : list A) :
  filter P (f <$> l) = f <$> filter (λ x, P (f x)) l.
Proof.
  induction l as [|x l IH]; [done|]. rewrite fmap_cons, !filter_cons, IH. by case_decide.
Qed.

Lemma NoDup_key {A B} (key : A → B) l x y :
  NoDup (key <$> l) → x ∈ l → y ∈ l → key x = key y → x = y.
Proof.
  induction l as [|z l IH]; [by intros _ []%not_elem_of_nil|]. rewrite fmap_cons, NoDup_cons.
  intros [Hn Hnd] [->|Hx]%elem_of_cons [->|Hy]%elem_of_cons He; auto; exfalso; apply Hn.
  - rewrite He. by apply list_elem_of_fmap_2.
  - rewrite <-He. by apply list_elem_of_fmap_2.
Qed.

Lemma filter_none {A} (P : A → Prop) `{∀ x, Decision (P x)} (l : list A) :
  (∀ x, x ∈ l → ¬ P x) → filter P l = [].
Proof.
  induction l as [|x l IH]; intros Hn; [done|].
  rewrite filter_cons_False by (apply Hn, list_elem_of_here).
  apply IH. intros y Hy. by apply Hn, list_elem_of_further.
Qed.

Lemma filter_every {A} (P : A → Prop) `{∀ x, Decision (P x)} (l : list A) :
  (∀ x, x ∈ l → P x) → filter P l = l.
Proof.
  induction l as [|x l IH]; intros Hp; [done|].
  rewrite filter_cons_True by (apply Hp, list_elem_of_here). f_equal.
  apply IH. intros y Hy. by apply Hp, list_elem_of_further.
Qed.

Lemma filter_ext_in {A} (P Q : A → Prop) `{∀ x, Decision (P x), ∀ x, Decision (Q x)} (l : list A) :
  (∀ x, x ∈ l → P x ↔ Q x) → filter P l = filter Q l.
Proof.
  induction l as [|x l IH]; intros Hpq; [done|]. rewrite !filter_cons.
  rewrite IH by (intros y Hy; by apply Hpq, list_elem_of_further).
  pose proof (Hpq x (list_elem_of_here x l)). repeat case_decide; tauto.
Qed.

Lemma string_app_inj s1 s2 t1 t2 :
  String.length s1 = String.length s2 → s1 +:+ t1 = s2 +:+ t2 → s1 = s2 ∧ t1 = t2.
Proof.
  revert s2. induction s1 as [|c s1 IH]; intros [|d s2] Hl H; simpl in *; try done.
  injection H as -> H. injection Hl as Hl. destruct (IH s2 Hl H) as [-> ->]. done.
Qed.

(** Case analysis on the first match in a hypothesis or the goal. *)
Ltac case_hyp :=
  match goal with
  | H : context [match ?x with _ => _ end] |- _ =>
      lazymatch x with
      | context [match _ with _ => _ end] => fail
      | _ => destruct x eqn:?; simplify_eq/=
      end
  end.

Ltac go_solve := repeat case_hyp; simplify_eq/=; eauto.
