(* ===== verification/Blocks.v ===== *)
(** * Blocks: the ledger data every store consumes

    The records of [fabric-x-sdk/blocks] that the repository reads and writes,
    restricted to the fields it uses, and the flattening of a block's write
    sets into the update batch the key-value stores apply
    ([collectWrites], endorser/storage/lightkvs.go). *)

From Stdlib Require Import ZArith Lia.
From stdpp Require Import base numbers list gmap strings.
From S2P Require Import Prelude.

Local Open Scope Z_scope.

(** ** SDK records *)

Record Version := { ver_BlockNum : Z; ver_TxNum : Z }.

Record KVRead := { kr_Key : string; kr_Version : option Version }.

Record KVWrite := {
  kw_Key : string;
  kw_IsDelete : bool;
  kw_Value : option byte_slice
}.

Record ReadWriteSet := { rws_Reads : list KVRead; rws_Writes : list KVWrite }.

Record NsReadWriteSet := { ns_Namespace : string; ns_RWS : ReadWriteSet }.

(** The protocol-neutral commit status; exactly one value is valid. *)
Inductive Status :=
| StatusUnknown
| StatusCommitted
| StatusMVCCConflict
| StatusInvalidSignature
| StatusOther (code : Z).

Definition status_Valid (s : Status) : bool :=
  match s with StatusCommitted => true | _ => false end.

Record Transaction := {
  tx_ID : string;
  tx_Number : Z;
  tx_Status : Status;
  tx_NsRWS : list NsReadWriteSet;
  tx_EventName : string;
  tx_Event : byte_slice;
  tx_InputArgs : list byte_slice;
  tx_Payload : byte_slice
}.

Definition tx_Valid (tx : Transaction) : bool := status_Valid (tx_Status tx).

Record Block := {
  b_Number : Z;
  b_Hash : byte_slice;
  b_ParentHash : byte_slice;
  b_Timestamp : Z;
  b_Transactions : list Transaction
}.

Record WriteRecord := {
  wr_Namespace : string;
  wr_Key : string;
  wr_BlockNum : Z;
  wr_TxNum : Z;
  wr_Version : Z;
  wr_Value : option byte_slice;
  wr_IsDelete : bool;
  wr_TxID : string
}.

(** ** Update batches *)

(** [KeyValueVersion]: one write of a block, keyed by ["namespace:key"]. *)
Record KeyValueVersion := {
  kvv_Key : string;
  kvv_Value : option byte_slice;
  kvv_BlockNum : Z;
  kvv_TxNum : Z;
  kvv_TxID : string;
  kvv_IsDelete : bool
}.

(** The key under which a namespaced state key is stored. *)
Definition fullKey (namespace key : string) : string :=
  namespace +:+ ":" +:+ key.

(** [collectWrites]: the writes of one transaction, none if it is invalid. *)
Definition collectWrites (updates : list KeyValueVersion)
    (nsrwsList : list NsReadWriteSet) (blockNum txNum : Z) (txID : string)
    (valid : bool) : list KeyValueVersion :=
  if negb valid then updates
  else
    foldl (λ acc nsrws,
      foldl (λ acc w,
        acc ++ [ {| kvv_Key := fullKey (ns_Namespace nsrws) (kw_Key w);
                    kvv_Value := kw_Value w;
                    kvv_BlockNum := blockNum;
                    kvv_TxNum := txNum;
                    kvv_TxID := txID;
                    kvv_IsDelete := kw_IsDelete w |} ])
        acc (rws_Writes (ns_RWS nsrws)))
      updates nsrwsList.

(** The loop over a block's transactions shared by the three [Handle]s. *)
Definition blockUpdates (b : Block) : list KeyValueVersion :=
  foldl (λ acc tx,
    collectWrites acc (tx_NsRWS tx) (b_Number b) (u64 (tx_Number tx))
      (tx_ID tx) (tx_Valid tx))
    [] (b_Transactions b).

(** Every update of a block's batch carries the block's number. *)
Lemma collectWrites_Forall (P : KeyValueVersion → Prop) acc l bn tn id v :
  Forall P acc →
  (∀ k x d, P {| kvv_Key := k; kvv_Value := x; kvv_BlockNum := bn;
                 kvv_TxNum := tn; kvv_TxID := id; kvv_IsDelete := d |}) →
  Forall P (collectWrites acc l bn tn id v).
Proof.
  intros Hacc HP. unfold collectWrites. destruct v; [simpl|done].
  revert acc Hacc. induction l as [|n l IH]; intros acc Hacc; simpl; [done|].
  apply IH. clear IH. revert acc Hacc.
  induction (rws_Writes (ns_RWS n)) as [|w ws IH]; intros acc Hacc; simpl; [done|].
  apply IH. rewrite Forall_app. auto.
Qed.

Lemma blockUpdates_BlockNum b :
  Forall (λ u, kvv_BlockNum u = b_Number b) (blockUpdates b).
Proof.
  unfold blockUpdates.
  assert (∀ txs acc, Forall (λ u, kvv_BlockNum u = b_Number b) acc →
    Forall (λ u, kvv_BlockNum u = b_Number b)
      (foldl (λ acc tx, collectWrites acc (tx_NsRWS tx) (b_Number b)
        (u64 (tx_Number tx)) (tx_ID tx) (tx_Valid tx)) acc txs)) as H; [|by apply H].
  induction txs as [|tx txs IH]; intros acc Hacc; simpl; [done|].
  apply IH, collectWrites_Forall; auto.
Qed.

#[export] Hint Resolve blockUpdates_BlockNum : gomachine.

(** ** A block's updates, flattened *)

Lemma foldl_append {A B} (g : A → list B) (l : list A) acc :
  foldl (λ acc x, acc ++ g x) acc l = acc ++ (l ≫= g).
Proof.
  revert acc. induction l as [|x l IH]; intros acc; simpl; [by rewrite app_nil_r|].
  by rewrite IH, app_assoc.
Qed.

Definition update_of (bn tn : Z) (id : string) (n : NsReadWriteSet) (w : KVWrite) : KeyValueVersion := {|
  kvv_Key := fullKey (ns_Namespace n) (kw_Key w); kvv_Value := kw_Value w; kvv_BlockNum := bn;
  kvv_TxNum := tn; kvv_TxID := id; kvv_IsDelete := kw_IsDelete w
|}.

Definition tx_updates (bn : Z) (tx : Transaction) : list KeyValueVersion :=
  if tx_Valid tx then
    n ← tx_NsRWS tx; w ← rws_Writes (ns_RWS n); [update_of bn (u64 (tx_Number tx)) (tx_ID tx) n w]
  else [].

Lemma blockUpdates_flat b : blockUpdates b = b_Transactions b ≫= tx_updates (b_Number b).
Proof.
  unfold blockUpdates. rewrite <-(app_nil_l (_ ≫= _)), <-foldl_append.
  generalize (@nil KeyValueVersion). induction (b_Transactions b) as [|tx txs IH]; intros acc; [done|].
  cbn [foldl]. rewrite <-IH. f_equal. unfold collectWrites, tx_updates.
  destruct (tx_Valid tx); [simpl|by rewrite app_nil_r].
  rewrite <-foldl_append. clear. revert acc.
  induction (tx_NsRWS tx) as [|n l IH]; intros acc; [done|]. cbn [foldl].
  rewrite <-IH. f_equal. apply (foldl_append (λ w, [update_of _ _ _ n w])).
Qed.

(** A block with one valid transaction writing one key: the smallest input the
    concrete instances of the theorems run on. *)
Definition put_block (n : Z) (ns key : string) (v : byte_slice) : Block := {|
  b_Number := n; b_Hash := [n]; b_ParentHash := [n - 1]; b_Timestamp := 1000 + n;
  b_Transactions := [ {|
    tx_ID := "tx"; tx_Number := 0; tx_Status := StatusCommitted;
    tx_NsRWS := [ {| ns_Namespace := ns;
      ns_RWS := {| rws_Reads := [];
        rws_Writes := [ {| kw_Key := key; kw_IsDelete := false; kw_Value := Some v |} ] |} |} ];
    tx_EventName := ""; tx_Event := []; tx_InputArgs := []; tx_Payload := [] |} ]
|}.
