(* ===== verification/KVSpec.v ===== *)
(** * KVSpec: what a versioned key-value store promises

    The abstract contract behind the three stores of endorser/storage: a ledger
    is the list of applied blocks, oldest first, each with its update batch; the
    world state after a prefix of it is computed one write at a time, every
    write taking the key's previous version plus one.  [LightKVS], its
    revertible variant and [PebbleKVS] are each related to this specification in
    their own files. *)

From Stdlib Require Import ZArith Lia.
From stdpp Require Import base numbers list gmap strings sorting.
From S2P Require Import Prelude Blocks.

Local Open Scope Z_scope.

(** [ValueVersion] (endorser/storage/lightkvs.go). *)
Record ValueVersion := {
  vv_Value : option byte_slice;
  vv_BlockNum : Z;
  vv_TxNum : Z;
  vv_Version : Z;
  vv_TxID : string;
  vv_IsDelete : bool
}.

Abbreviation worldstate := (gmap string ValueVersion).

(** ** The reference semantics *)

(** The version the next write of a key takes: 0 for a key never written. *)
Definition next_version (o : option ValueVersion) : Z :=
  match o with Some e => u64 (vv_Version e + 1) | None => 0 end.

Definition stamp (u : KeyValueVersion) (version : Z) : ValueVersion := {|
  vv_Value := kvv_Value u;
  vv_BlockNum := kvv_BlockNum u;
  vv_TxNum := kvv_TxNum u;
  vv_Version := version;
  vv_TxID := kvv_TxID u;
  vv_IsDelete := kvv_IsDelete u
|}.

(** One write: a delete leaves a tombstone, so the counter survives it. *)
Definition write1 (d : worldstate) (u : KeyValueVersion) : worldstate :=
  <[kvv_Key u := stamp u (next_version (d !! kvv_Key u))]> d.

Definition writes (d : worldstate) (us : list KeyValueVersion) : worldstate :=
  foldl write1 d us.

(** A ledger: applied blocks with their batches, oldest first. *)
Abbreviation ledger := (list (Z * list KeyValueVersion)).

Definition ledger_state (l : ledger) : worldstate :=
  foldl (λ d blk, writes d blk.2) ∅ l.

(** The world state as of height [n]: the blocks numbered at most [n]. *)
Definition ledger_at (n : Z) (l : ledger) : worldstate :=
  ledger_state (filter (λ blk, blk.1 ≤ n) l).

(** Block numbers strictly increase along the ledger. *)
Definition increasing (l : ledger) : Prop :=
  StronglySorted (λ a b : Z * list KeyValueVersion, a.1 < b.1) l.

(** The record a reader hands to the execution layer. *)
Definition toWriteRecord (namespace key : string) (vv : ValueVersion) : WriteRecord := {|
  wr_Namespace := namespace;
  wr_Key := key;
  wr_BlockNum := vv_BlockNum vv;
  wr_TxNum := vv_TxNum vv;
  wr_Version := vv_Version vv;
  wr_Value := vv_Value vv;
  wr_IsDelete := vv_IsDelete vv;
  wr_TxID := vv_TxID vv
|}.

(** ** Lemmas on single batches *)

Lemma writes_app d us vs : writes d (us ++ vs) = writes (writes d us) vs.
Proof. apply foldl_app. Qed.

Lemma writes_lookup_notin d us k :
  Forall (λ u, kvv_Key u ≠ k) us → writes d us !! k = d !! k.
Proof.
  intros H. revert d. induction H as [|u us Hu _ IH]; intros d; simpl; [done|].
  rewrite IH. unfold write1. by rewrite lookup_insert_ne.
Qed.

(** Keys are never removed. *)
Lemma writes_dom d us k : is_Some (d !! k) → is_Some (writes d us !! k).
Proof.
  revert d. induction us as [|u us IH]; intros d H; simpl; [done|].
  apply IH. unfold write1. rewrite lookup_insert. by case_decide.
Qed.

Lemma writes_Some d us k vv :
  writes d us !! k = Some vv →
  d !! k = Some vv ∨
  ∃ u, u ∈ us ∧ kvv_Key u = k ∧ vv = stamp u (vv_Version vv).
Proof.
  revert d. induction us as [|u us IH]; intros d; simpl; [by left|].
  intros H. apply IH in H as [H | (w & Hw & Hk & ->)].
  - unfold write1 in H. rewrite lookup_insert in H. case_decide; [|by left].
    simplify_eq. right. exists u. split_and!; [apply list_elem_of_here|done|done].
  - right. exists w. split_and!; [by apply list_elem_of_further|done|done].
Qed.

(** The number of writes a batch makes to a key. *)
Definition writes_to (k : string) (us : list KeyValueVersion) : list KeyValueVersion :=
  filter (λ u, kvv_Key u = k) us.

(** The record of a key after a batch: the last write wins, and every write of
    the batch bumps the version by one, wrapping at 64 bits. *)
Lemma writes_lookup d us k :
  writes d us !! k =
  match last (writes_to k us) with
  | None => d !! k
  | Some u => Some (stamp u
      (u64 (match d !! k with Some e => vv_Version e + 1 | None => 0 end
            + Z.of_nat (length (writes_to k us)) - 1)))
  end.
Proof.
  unfold writes_to. induction us as [|u us IH] using rev_ind; [done|].
  rewrite writes_app, filter_app, length_app. simpl. unfold write1.
  rewrite lookup_insert, filter_cons, filter_nil. case_decide as Hu.
  - rewrite last_snoc. f_equal. f_equal.
    rewrite Hu, IH. destruct (last (filter _ us)) as [w|] eqn:Hl; simpl.
    + rewrite u64_add_l. f_equal. lia.
    + apply last_None in Hl. rewrite Hl. simpl.
      destruct (d !! k); simpl; f_equal; lia.
  - rewrite IH, app_nil_r. simpl.
    by rewrite Nat.add_0_r.
Qed.

(** ** Lemmas on ledgers *)

Lemma ledger_state_snoc l n us :
  ledger_state (l ++ [(n, us)]) = writes (ledger_state l) us.
Proof. unfold ledger_state. by rewrite foldl_app. Qed.

Lemma increasing_snoc l n us :
  increasing (l ++ [(n, us)]) ↔ increasing l ∧ Forall (λ blk, blk.1 < n) l.
Proof.
  unfold increasing. induction l as [|b l IH]; simpl.
  - split; [by repeat constructor|intros _; by repeat constructor].
  - split.
    + intros [H1 H2]%StronglySorted_inv. apply IH in H1 as [H1 H3].
      rewrite Forall_app, Forall_singleton in H2. destruct H2 as [H2 H4].
      split; [by constructor|]. by constructor.
    + intros [[H1 H2]%StronglySorted_inv [H3 H4]%Forall_cons].
      constructor; [by apply IH|]. rewrite Forall_app, Forall_singleton. done.
Qed.

(** Reading at or past the tip is reading the whole ledger. *)
Lemma ledger_at_all n l :
  Forall (λ blk, blk.1 ≤ n) l → ledger_at n l = ledger_state l.
Proof.
  intros H. unfold ledger_at. f_equal.
  induction H as [|b l Hb _ IH]; [done|]. rewrite filter_cons_True by done. by f_equal.
Qed.

(** A later block does not disturb a read below it. *)
Lemma ledger_at_snoc_lt n m us l :
  n < m → ledger_at n (l ++ [(m, us)]) = ledger_at n l.
Proof.
  intros H. unfold ledger_at. rewrite filter_app, filter_cons_False by (simpl; lia).
  by rewrite filter_nil, app_nil_r.
Qed.

(** Reading at a height between two parts of the ledger. *)
Lemma ledger_at_app n l1 l2 :
  Forall (λ blk, blk.1 ≤ n) l1 → Forall (λ blk, n < blk.1) l2 →
  ledger_at n (l1 ++ l2) = ledger_state l1.
Proof.
  intros H1 H2. rewrite <-(ledger_at_all n l1) by done. unfold ledger_at.
  rewrite filter_app. f_equal.
  rewrite <-(app_nil_r (filter _ l1)) at 2. f_equal.
  induction H2 as [|b l Hb _ IH]; [done|]. by rewrite filter_cons_False by lia.
Qed.

(** In an increasing ledger every block is at most the last one. *)
Lemma increasing_le_last l n us :
  increasing (l ++ [(n, us)]) → Forall (λ blk, blk.1 ≤ n) (l ++ [(n, us)]).
Proof.
  intros [_ H]%increasing_snoc. rewrite Forall_app, Forall_singleton. simpl.
  split; [|lia]. eapply Forall_impl; [exact H|]. simpl. lia.
Qed.

#[export] Hint Resolve writes_dom : gomachine.
