(* ===== verification/KVHistory.v ===== *)
(** * KVHistory: superseded records of a ledger

    Which records a ledger's blocks supersede and when ([hist_of]), and how a
    read at an earlier height is answered from the current record or from the
    record superseded next after that height.  This is the specification side of
    the history kept by endorser/storage/pebblekvs.go. *)

From Stdlib Require Import ZArith Lia.
From stdpp Require Import base numbers list gmap strings sorting.
From S2P Require Import Prelude Blocks KVSpec.

Local Open Scope Z_scope.

(** Block numbers increase and every update carries its block's number. *)
Definition ledger_wf (l : ledger) : Prop :=
  increasing l ∧ Forall (λ blk, Forall (λ u, kvv_BlockNum u = blk.1) blk.2) l.

(** The batch writes the key. *)
Abbreviation writes_key us k := (writes_to k us ≠ []).

(** The record [vv] of [k] was superseded by block [c]. *)
Definition hist_of (l : ledger) (k : string) (vv : ValueVersion) (c : Z) : Prop :=
  ∃ l1 us l2, l = l1 ++ (c, us) :: l2 ∧ writes_key us k ∧ ledger_state l1 !! k = Some vv.

Lemma ledger_wf_snoc l n us :
  ledger_wf (l ++ [(n, us)]) ↔
  ledger_wf l ∧ Forall (λ blk, blk.1 < n) l ∧ Forall (λ u, kvv_BlockNum u = n) us.
Proof. unfold ledger_wf. rewrite increasing_snoc, Forall_app, Forall_singleton. simpl. tauto. Qed.

Lemma hist_of_nil k vv c : ¬ hist_of [] k vv c.
Proof. intros (l1 & us & l2 & H & _). by destruct l1. Qed.

Lemma hist_of_snoc l n us k vv c :
  hist_of (l ++ [(n, us)]) k vv c ↔
  hist_of l k vv c ∨ (c = n ∧ writes_key us k ∧ ledger_state l !! k = Some vv).
Proof.
  split.
  - intros (l1 & us' & l2 & H & Hw & Hs). destruct l2 as [|b l2 _] using rev_ind.
    + apply app_inj_tail in H as [-> [= <- <-]]. by right.
    + left. rewrite app_comm_cons, app_assoc in H. apply app_inj_tail in H as [-> _]. by exists l1, us', l2.
  - intros [(l1 & us' & l2 & -> & Hw & Hs)|(-> & Hw & Hs)].
    + exists l1, us', (l2 ++ [(n, us)]). split_and!; [by rewrite <-app_assoc|done|done].
    + by exists l, us, [].
Qed.

(** ** One more block *)

Section snoc.
Context (l : ledger) (n : Z) (us : list KeyValueVersion) (k : string).
Hypothesis Hwf : ledger_wf (l ++ [(n, us)]).

Lemma state_unwritten : ¬ writes_key us k → ledger_state (l ++ [(n, us)]) !! k = ledger_state l !! k.
Proof.
  intros H%dec_stable. rewrite ledger_state_snoc, writes_lookup, H. done.
Qed.

Lemma state_written :
  writes_key us k → ∃ vv, ledger_state (l ++ [(n, us)]) !! k = Some vv ∧ vv_BlockNum vv = n.
Proof.
  intros H. apply ledger_wf_snoc in Hwf as (_ & _ & Hus). rewrite ledger_state_snoc, writes_lookup.
  destruct (last (writes_to k us)) as [u|] eqn:E; [|by apply last_None in E].
  eexists. split; [done|]. simpl. rewrite Forall_forall in Hus. apply Hus.
  apply last_Some_elem_of in E. by apply list_elem_of_filter in E as [_ ?].
Qed.

Lemma ledger_at_snoc_ge h : n ≤ h → ledger_at h (l ++ [(n, us)]) = ledger_state (l ++ [(n, us)]).
Proof.
  intros H. apply ledger_at_all. eapply Forall_impl; [apply increasing_le_last; apply Hwf|].
  intros [m x]. simpl. lia.
Qed.
End snoc.

Lemma state_block l k vv :
  ledger_wf l → ledger_state l !! k = Some vv → ∃ us, (vv_BlockNum vv, us) ∈ l ∧ writes_key us k.
Proof.
  induction l as [|[n us] l IH] using rev_ind; [done|]. intros Hwf Hs. setoid_rewrite elem_of_app.
  destruct (decide (writes_key us k)) as [Hw|Hw].
  - destruct (state_written l n us k Hwf Hw) as (vv' & Hs' & Hb). exists us.
    assert (vv = vv') as -> by congruence. rewrite Hb. split; [right; apply list_elem_of_here|done].
  - rewrite state_unwritten in Hs by done. apply ledger_wf_snoc in Hwf as (Hwf & _).
    destruct (IH Hwf Hs) as (us' & ? & ?). eauto.
Qed.

Lemma state_lt l n k vv :
  ledger_wf l → Forall (λ blk, blk.1 < n) l → ledger_state l !! k = Some vv → vv_BlockNum vv < n.
Proof.
  intros Hwf Hn Hs. destruct (state_block l k vv Hwf Hs) as (us & Hin & _).
  rewrite Forall_forall in Hn. by apply (Hn _ Hin).
Qed.

(** ** Superseded records *)

(** A superseded record is older than the block that superseded it, which is no
    newer than the current record. *)
Lemma hist_lt_state l k vv c :
  ledger_wf l → hist_of l k vv c →
  vv_BlockNum vv < c ∧ ∃ vv', ledger_state l !! k = Some vv' ∧ c ≤ vv_BlockNum vv'.
Proof.
  induction l as [|[n us] l IH] using rev_ind; [by intros _ ?%hist_of_nil|].
  intros Hwf Hh. pose proof Hwf as (Hwl & Hlt & Hus)%ledger_wf_snoc.
  apply hist_of_snoc in Hh as [Hh|(-> & Hw & Hs)].
  - destruct (IH Hwl Hh) as (Hc & vv' & Hs & Hle). split; [done|].
    destruct (decide (writes_key us k)) as [Hw|Hw].
    + destruct (state_written l n us k Hwf Hw) as (vv2 & Hs2 & Hb). exists vv2. split; [done|].
      pose proof (state_lt l n k vv' Hwl Hlt Hs). lia.
    + exists vv'. by rewrite state_unwritten.
  - split; [by apply (state_lt l n k)|]. destruct (state_written l n us k Hwf Hw) as (vv2 & Hs2 & Hb).
    exists vv2. split; [done|lia].
Qed.

Lemma hist_unique l k vv c vv' c' :
  ledger_wf l → hist_of l k vv c → hist_of l k vv' c' → vv_BlockNum vv = vv_BlockNum vv' →
  vv = vv' ∧ c = c'.
Proof.
  revert vv c vv' c'. induction l as [|[n us] l IH] using rev_ind; [by intros ? ? ? ? _ ?%hist_of_nil|].
  intros vv c vv' c' Hwf. pose proof Hwf as (Hwl & Hlt & Hus)%ledger_wf_snoc.
  assert (∀ w d w', hist_of l k w d → ledger_state l !! k = Some w' → vv_BlockNum w < vv_BlockNum w') as Hcur.
  { intros w d w' Hh Hs. destruct (hist_lt_state l k w d Hwl Hh) as (? & w2 & ? & ?).
    assert (w' = w2) as -> by congruence. lia. }
  intros [Hh|(-> & Hw & Hs)]%hist_of_snoc [Hh'|(-> & Hw' & Hs')]%hist_of_snoc He.
  - by apply IH.
  - pose proof (Hcur _ _ _ Hh Hs'). lia.
  - pose proof (Hcur _ _ _ Hh' Hs). lia.
  - split; [congruence|done].
Qed.

(** ** Reads at a height *)

Lemma ledger_at_past h l l2 :
  Forall (λ blk, h < blk.1) l2 → ledger_at h (l ++ l2) = ledger_at h l.
Proof.
  induction l2 as [|[n us] l2 IH] using rev_ind; intros H; [by rewrite app_nil_r|].
  apply Forall_app in H as [H Hn]. rewrite Forall_singleton in Hn. rewrite app_assoc, ledger_at_snoc_lt; [auto|exact Hn].
Qed.

(** The current record answers if it is old enough. *)
Lemma at_current l k vv h :
  ledger_wf l → ledger_state l !! k = Some vv → vv_BlockNum vv ≤ h → ledger_at h l !! k = Some vv.
Proof.
  induction l as [|[n us] l IH] using rev_ind; [done|]. intros Hwf Hs Hb.
  pose proof Hwf as (Hwl & _)%ledger_wf_snoc. destruct (Z.le_gt_cases n h).
  - by rewrite ledger_at_snoc_ge.
  - rewrite ledger_at_snoc_lt by lia. destruct (decide (writes_key us k)) as [Hw|Hw].
    + destruct (state_written l n us k Hwf Hw) as (vv2 & Hs2 & Hb2). rewrite Hs in Hs2. simplify_eq. lia.
    + rewrite state_unwritten in Hs by done. by apply IH.
Qed.

(** Otherwise the answer is the record superseded first after the height. *)
Lemma at_cases l k vv h :
  ledger_wf l → ledger_at h l !! k = Some vv →
  vv_BlockNum vv ≤ h ∧
  (ledger_state l !! k = Some vv ∨
   (∃ c, hist_of l k vv c ∧ h < c) ∧ ∃ vv', ledger_state l !! k = Some vv' ∧ h < vv_BlockNum vv').
Proof.
  induction l as [|[n us] l IH] using rev_ind; [done|]. intros Hwf Hs.
  pose proof Hwf as (Hwl & Hlt & _)%ledger_wf_snoc. destruct (Z.le_gt_cases n h) as [Hn|Hn].
  - rewrite ledger_at_snoc_ge in Hs by done. split; [|by left].
    assert (vv_BlockNum vv < h + 1); [|lia]. apply (state_lt (l ++ [(n, us)]) (h + 1) k); [done| |done].
    eapply Forall_impl; [apply increasing_le_last; apply Hwf|]. intros [m x]. simpl. lia.
  - rewrite ledger_at_snoc_lt in Hs by lia. destruct (IH Hwl Hs) as (Hb & Hc). split; [done|].
    destruct (decide (writes_key us k)) as [Hw|Hw].
    + right. destruct (state_written l n us k Hwf Hw) as (vv2 & Hs2 & Hb2).
      split; [|exists vv2; split; [done|lia]].
      setoid_rewrite hist_of_snoc. destruct Hc as [Hc|[(c & Hh & Hlt') _]]; [|exists c; auto].
      exists n. split; [by right|lia].
    + rewrite state_unwritten by done. destruct Hc as [Hc|[(c & Hh & Hlt') Hc]]; [by left|right].
      split; [|done]. exists c. split; [apply hist_of_snoc; by left|done].
Qed.

(** Every superseded record at or below the height is no newer than the answer. *)
Lemma at_history l k vv c h :
  ledger_wf l → hist_of l k vv c → vv_BlockNum vv ≤ h →
  ∃ vv', ledger_at h l !! k = Some vv' ∧
    (vv_BlockNum vv < vv_BlockNum vv' ∨ vv = vv').
Proof.
  induction l as [|[n us] l IH] using rev_ind; [by intros _ ?%hist_of_nil|].
  intros Hwf Hh Hb. pose proof Hwf as (Hwl & _)%ledger_wf_snoc. destruct (Z.le_gt_cases n h) as [Hn|Hn].
  - rewrite ledger_at_snoc_ge by done. destruct (hist_lt_state _ k vv c Hwf Hh) as (? & vv' & ? & ?).
    exists vv'. split; [done|lia].
  - rewrite ledger_at_snoc_lt by lia. apply hist_of_snoc in Hh as [Hh|(-> & Hw & Hs)]; [by apply IH|].
    exists vv. split; [by apply at_current|by right].
Qed.
