(* ===== verification/LightKVS.v ===== *)
(** * LightKVS: the in-memory snapshot store

    endorser/storage/lightkvs.go.  A store is an immutable current snapshot and
    a ring buffer of the snapshots it replaced.  The atomic pointers hold
    immutable snapshots that are swapped whole, so they are modelled by the
    value they hold.  A [KVS] state is passed explicitly; [Handle] panics where
    the code indexes an empty ring. *)

From Stdlib Require Import ZArith Lia.
From stdpp Require Import base numbers list gmap strings sorting.
From S2P Require Import Prelude Blocks KVSpec.

Local Open Scope Z_scope.

(** ** State *)

Record Snapshot := {
  sn_BlockNumber : Z;
  sn_Data : worldstate;
  sn_Placeholder : bool
}.

Record LightKVS := {
  Current : Snapshot;
  History : list (option Snapshot);
  NextIndex : Z
}.

(** A reader holds its snapshot until closed. *)
Record Reader := { r_Snapshot : option Snapshot }.

Definition placeholder : Snapshot :=
  {| sn_BlockNumber := 0; sn_Data := ∅; sn_Placeholder := true |}.

(** [make] panics on a negative length. *)
Definition NewLightKVS (historySize : Z) : outcome LightKVS :=
  if historySize <? 0 then Panic "makeslice: len out of range"
  else Done {| Current := placeholder;
               History := replicate (Z.to_nat historySize) None;
               NextIndex := 0 |}.

(** ** Reads *)

(** The scan of the ring for an exact height. *)
Fixpoint findHistory (bn : Z) (hist : list (option Snapshot)) : option Snapshot :=
  match hist with
  | [] => None
  | Some s :: hist => if sn_BlockNumber s =? bn then Some s else findHistory bn hist
  | None :: hist => findHistory bn hist
  end.

(** [NewSnapshot]: [None] is the latest state, [Some n] the height [n].  The
    error carries the height that was not found. *)
Definition NewSnapshot (kvs : LightKVS) (blockNumber : option Z) : result Z Reader :=
  match blockNumber with
  | None => Ok {| r_Snapshot := Some (Current kvs) |}
  | Some bn =>
      if sn_BlockNumber (Current kvs) <=? bn then Ok {| r_Snapshot := Some (Current kvs) |}
      else
        match findHistory bn (History kvs) with
        | Some s => Ok {| r_Snapshot := Some s |}
        | None => Err bn
        end
  end.

Inductive read_error := ErrReaderClosed | ErrNoSnapshot (bn : Z).

(** [Reader.Get]. *)
Definition Reader_Get (r : Reader) (namespace key : string)
    : result read_error (option WriteRecord) :=
  match r_Snapshot r with
  | None => Err ErrReaderClosed
  | Some s => Ok (toWriteRecord namespace key <$> sn_Data s !! fullKey namespace key)
  end.

(** [Reader.Close]. *)
Definition Reader_Close (r : Reader) : Reader := {| r_Snapshot := None |}.

(** [LightKVS.Get]: the latest committed record. *)
Definition Get (kvs : LightKVS) (namespace key : string)
    : result read_error (option WriteRecord) :=
  match NewSnapshot kvs None with
  | Ok r => Reader_Get r namespace key
  | Err bn => Err (ErrNoSnapshot bn)
  end.

Definition BlockNumber (kvs : LightKVS) : Z := sn_BlockNumber (Current kvs).

(** ** Applying a block *)

(** The loop body of [applyUpdates]: [nextVersion] caches the version of the
    next write of each key seen in this batch. *)
Definition applyUpdates_step (oldData : worldstate)
    (acc : worldstate * gmap string Z) (update : KeyValueVersion)
    : worldstate * gmap string Z :=
  let '(newData, nextVersion) := acc in
  let version :=
    match nextVersion !! kvv_Key update with
    | Some v => v
    | None =>
        match oldData !! kvv_Key update with
        | Some existing => u64 (vv_Version existing + 1)
        | None => 0
        end
    end in
  (<[kvv_Key update := stamp update version]> newData,
   <[kvv_Key update := u64 (version + 1)]> nextVersion).

Definition applyUpdates (oldData : worldstate) (updates : list KeyValueVersion)
    : worldstate :=
  (foldl (applyUpdates_step oldData) (oldData, ∅) updates).1.

(** [uint32(len(kvs.History))]. *)
Definition u32 (z : Z) : Z := z mod 2 ^ 32.

(** [applyBlock]: an empty ring makes the indexing panic. *)
Definition applyBlock (blockNum : Z) (updates : list KeyValueVersion)
    (kvs : LightKVS) : outcome LightKVS :=
  let oldSnapshot := Current kvs in
  let newSnapshot := {|
    sn_BlockNumber := blockNum;
    sn_Data := applyUpdates (sn_Data oldSnapshot) updates;
    sn_Placeholder := false |} in
  let idx := NextIndex kvs in
  let len := Z.of_nat (length (History kvs)) in
  if (len <=? idx) then Panic "index out of range"
  else if (u32 len =? 0) then Panic "integer divide by zero"
  else Done {|
    Current := newSnapshot;
    History := <[Z.to_nat idx := Some oldSnapshot]> (History kvs);
    NextIndex := u32 (idx + 1) mod u32 len |}.

(** ** Replay of the tip *)

Inductive replay_error :=
| ReplayMissing (key : string) (isDelete : bool)
| ReplayKind (key : string) (isDelete : bool)
| ReplayTx (key : string)
| ReplayValue (key : string).

(** The last write per key of a batch: the map [final]. *)
Definition finalWrites (updates : list KeyValueVersion) : gmap string KeyValueVersion :=
  foldl (λ final u, <[kvv_Key u := u]> final) ∅ updates.

(** The body of [verifyReplay]'s loop for one key. *)
Definition replayCheck (data : worldstate) (key : string) (u : KeyValueVersion)
    : option replay_error :=
  match data !! key with
  | None => Some (ReplayMissing key (kvv_IsDelete u))
  | Some existing =>
      if negb (eqb (vv_IsDelete existing) (kvv_IsDelete u)) then
        Some (ReplayKind key (kvv_IsDelete u))
      else if negb (String.eqb (vv_TxID existing) (kvv_TxID u)) then
        Some (ReplayTx key)
      else if negb (kvv_IsDelete u) && negb (bytes_Equal (vv_Value existing) (kvv_Value u)) then
        Some (ReplayValue key)
      else None
  end.

(** Go ranges over [final] in an unspecified order, which is an argument here:
    it decides which mismatch is reported, never whether one is. *)
Fixpoint verifyReplay_in (data : worldstate) (order : list (string * KeyValueVersion))
    : option replay_error :=
  match order with
  | [] => None
  | (key, u) :: order =>
      match replayCheck data key u with
      | Some e => Some e
      | None => verifyReplay_in data order
      end
  end.

Definition verifyReplay (current : Snapshot) (updates : list KeyValueVersion)
    : option replay_error :=
  verifyReplay_in (sn_Data current) (map_to_list (finalWrites updates)).

(** ** The block handler *)

Definition Handle (b : Block) : st LightKVS (option replay_error) := λ kvs,
  let current := Current kvs in
  if negb (sn_Placeholder current) && (b_Number b <? sn_BlockNumber current) then
    Done (None, kvs)
  else
    let allUpdates := blockUpdates b in
    if negb (sn_Placeholder current) && (b_Number b =? sn_BlockNumber current) then
      Done (verifyReplay current allUpdates, kvs)
    else
      match applyBlock (b_Number b) allUpdates kvs with
      | Done kvs' => Done (None, kvs')
      | Panic msg => Panic msg
      end.

(** Delivering a sequence of blocks, stopping at the first error. *)
Fixpoint HandleAll (bs : list Block) : st LightKVS (option replay_error) := λ kvs,
  match bs with
  | [] => Done (None, kvs)
  | b :: bs =>
      match Handle b kvs with
      | Done (None, kvs') => HandleAll bs kvs'
      | r => r
      end
  end.

(** The ledger a sequence of blocks amounts to. *)
Definition ledger_of (bs : list Block) : ledger :=
  (λ b, (b_Number b, blockUpdates b)) <$> bs.

(** ** [applyUpdates] computes the reference semantics *)

(** What the version cache holds after a prefix of the batch. *)
Definition cache_ok (oldData newData : worldstate) (nv : gmap string Z) : Prop :=
  ∀ k, match nv !! k with
       | Some v => next_version (newData !! k) = v
       | None => newData !! k = oldData !! k
       end.

Lemma applyUpdates_step_spec oldData newData nv u :
  cache_ok oldData newData nv →
  ∃ nv', applyUpdates_step oldData (newData, nv) u = (write1 newData u, nv') ∧
         cache_ok oldData (write1 newData u) nv'.
Proof.
  intros Hc. unfold applyUpdates_step, write1.
  set (ver := match nv !! kvv_Key u with Some v => v | None => _ end).
  assert (ver = next_version (newData !! kvv_Key u)) as Hv.
  { unfold ver. specialize (Hc (kvv_Key u)). destruct (nv !! kvv_Key u); [done|].
    by rewrite Hc. }
  rewrite Hv. eexists. split; [done|]. intros k.
  rewrite !lookup_insert. case_decide as Hk; [done|]. exact (Hc k).
Qed.

Lemma applyUpdates_eq oldData updates :
  applyUpdates oldData updates = writes oldData updates.
Proof.
  unfold applyUpdates, writes.
  assert (∀ newData nv, cache_ok oldData newData nv →
    (foldl (applyUpdates_step oldData) (newData, nv) updates).1 =
    foldl write1 newData updates) as H; [|by apply H].
  induction updates as [|u us IH]; intros newData nv Hc; cbn [foldl]; [done|].
  destruct (applyUpdates_step_spec oldData newData nv u Hc) as (nv' & -> & Hc').
  by apply (IH _ nv').
Qed.

(** The record of a key after a batch.  A key the batch does not write is
    untouched; otherwise the last write wins, and the version is the key's
    previous version plus the number of writes the batch makes to it (counting
    from 0 for a key never written), deletes included, modulo 2^64. *)
Theorem applyUpdates_versions oldData updates k :
  applyUpdates oldData updates !! k =
  match last (writes_to k updates) with
  | None => oldData !! k
  | Some u => Some (stamp u
      (u64 (match oldData !! k with Some e => vv_Version e + 1 | None => 0 end
            + Z.of_nat (length (writes_to k updates)) - 1)))
  end.
Proof. rewrite applyUpdates_eq. apply writes_lookup. Qed.

(** ** Replay *)

Lemma finalWrites_lookup updates k :
  finalWrites updates !! k = last (writes_to k updates).
Proof.
  unfold finalWrites, writes_to.
  induction updates as [|u us IH] using rev_ind; [done|].
  rewrite foldl_app, filter_app, filter_cons, filter_nil. simpl.
  rewrite lookup_insert. case_decide.
  - by rewrite last_snoc.
  - by rewrite app_nil_r.
Qed.

Lemma verifyReplay_in_None data order :
  verifyReplay_in data order = None ↔
  Forall (λ ku, replayCheck data ku.1 ku.2 = None) order.
Proof.
  induction order as [|[k u] order IH]; simpl; [by split; [constructor|]|].
  rewrite Forall_cons, <-IH. simpl. destruct (replayCheck data k u); naive_solver.
Qed.

(** Whether a replay is refused does not depend on the iteration order. *)
Lemma verifyReplay_in_perm data o1 o2 :
  o1 ≡ₚ o2 → verifyReplay_in data o1 = None ↔ verifyReplay_in data o2 = None.
Proof. intros H. rewrite !verifyReplay_in_None. by rewrite H. Qed.

Lemma verifyReplay_None current updates :
  verifyReplay current updates = None ↔
  ∀ k u, last (writes_to k updates) = Some u → replayCheck (sn_Data current) k u = None.
Proof.
  unfold verifyReplay. rewrite verifyReplay_in_None, Forall_forall.
  setoid_rewrite <-finalWrites_lookup. split.
  - intros H k u Hk. apply (H (k, u)). by apply elem_of_map_to_list.
  - intros H [k u] Hk. apply H. by apply elem_of_map_to_list in Hk.
Qed.

Lemma replayCheck_None data k u :
  replayCheck data k u = None ↔
  ∃ e, data !! k = Some e ∧ vv_IsDelete e = kvv_IsDelete u ∧ vv_TxID e = kvv_TxID u ∧
       (kvv_IsDelete u = false → slice_bytes (vv_Value e) = slice_bytes (kvv_Value u)).
Proof.
  unfold replayCheck, bytes_Equal. destruct (data !! k) as [e|]; [|naive_solver].
  destruct (eqb_spec (vv_IsDelete e) (kvv_IsDelete u)); simpl; [|naive_solver].
  destruct (String.eqb_spec (vv_TxID e) (kvv_TxID u)); simpl; [|naive_solver].
  case_bool_decide; destruct (kvv_IsDelete u) eqn:?; simpl; naive_solver.
Qed.

(** The batch just applied passes its own replay check. *)
Lemma replay_after_apply d updates b :
  verifyReplay {| sn_BlockNumber := b; sn_Data := applyUpdates d updates;
                  sn_Placeholder := false |} updates = None.
Proof.
  apply verifyReplay_None. intros k u Hu. simpl.
  apply replayCheck_None. rewrite applyUpdates_eq, writes_lookup, Hu.
  eexists. split; [done|]. simpl. auto.
Qed.

(** Redelivery is harmless.  If a block was handled without an error, then
    handling the same block again succeeds and leaves the store exactly as it
    is: versions are not bumped twice. *)
Theorem Handle_redelivery b kvs kvs' :
  Handle b kvs = Done (None, kvs') → Handle b kvs' = Done (None, kvs').
Proof.
  unfold Handle. destruct (_ && (b_Number b <? _)) eqn:E1.
  { intros [= <-]. by rewrite E1. }
  destruct (_ && (b_Number b =? _)) eqn:E2.
  { intros H. injection H as H1 H2. subst kvs'. by rewrite E1, E2, H1. }
  destruct (applyBlock _ _ kvs) as [kvs1|] eqn:E3; [|done].
  intros [= <-]. unfold applyBlock in E3.
  do 2 (case_match; [done|]). injection E3 as <-. simpl.
  rewrite Z.ltb_irrefl, Z.eqb_refl. by rewrite replay_after_apply.
Qed.

(** ** Time travel through the ring

    [rl] is the applied ledger, newest block first. *)

Definition snap_of (rl : ledger) : Snapshot :=
  match rl with
  | [] => placeholder
  | blk :: _ => {| sn_BlockNumber := blk.1; sn_Data := ledger_state (reverse rl);
                   sn_Placeholder := false |}
  end.

(** The ring slot of the [j]-th most recently replaced snapshot. *)
Definition slot (h next j : Z) : Z :=
  if j <? next then next - 1 - j else next + h - 1 - j.

Record light_rep (h : Z) (rl : ledger) (kvs : LightKVS) : Prop := {
  lr_current : Current kvs = snap_of rl;
  lr_length : Z.of_nat (length (History kvs)) = h;
  lr_next : 0 ≤ NextIndex kvs < h;
  lr_ring : ∀ j : nat, Z.of_nat j < h →
    History kvs !! Z.to_nat (slot h (NextIndex kvs) (Z.of_nat j)) =
    Some (if decide (j < length rl)%nat then Some (snap_of (drop (S j) rl)) else None)
}.

Lemma snap_of_data rl : sn_Data (snap_of rl) = ledger_state (reverse rl).
Proof. by destruct rl. Qed.

Lemma slot_inj_next h next j : 0 ≤ next < h → 0 ≤ j < h →
  slot h next j ≠ next ∨ j = h - 1.
Proof. unfold slot. intros. destruct (Z.ltb_spec j next); lia. Qed.

Lemma slot_bound h next j : 0 ≤ next < h → 0 ≤ j < h → 0 ≤ slot h next j < h.
Proof. unfold slot. intros. destruct (Z.ltb_spec j next); lia. Qed.

(** Advancing the write index shifts every slot by one. *)
Lemma slot_next_0 h next : 0 ≤ next < h → slot h ((next + 1) mod h) 0 = next.
Proof.
  intros. unfold slot. destruct (Z.eq_dec (next + 1) h) as [E|].
  - rewrite E, Z.mod_same by lia. simpl. lia.
  - rewrite Z.mod_small by lia. destruct (Z.ltb_spec 0 (next + 1)); lia.
Qed.

Lemma slot_next_S h next j : 0 ≤ next < h → 0 ≤ j → j + 1 < h →
  slot h ((next + 1) mod h) (j + 1) = slot h next j.
Proof.
  intros. unfold slot. destruct (Z.eq_dec (next + 1) h) as [E|].
  - rewrite E, Z.mod_same by lia.
    destruct (Z.ltb_spec (j + 1) 0), (Z.ltb_spec j next); lia.
  - rewrite Z.mod_small by lia.
    destruct (Z.ltb_spec (j + 1) (next + 1)), (Z.ltb_spec j next); lia.
Qed.

(** Every slot of the ring is some [slot h next j]. *)
Lemma slot_surj h next i : 0 ≤ next < h → 0 ≤ i < h →
  ∃ j, 0 ≤ j < h ∧ slot h next j = i.
Proof.
  intros. destruct (Z.ltb_spec i next).
  - exists (next - 1 - i). unfold slot. destruct (Z.ltb_spec (next - 1 - i) next); lia.
  - exists (next + h - 1 - i). unfold slot.
    destruct (Z.ltb_spec (next + h - 1 - i) next); lia.
Qed.

Lemma NewLightKVS_rep h : 0 < h →
  ∃ kvs, NewLightKVS h = Done kvs ∧ light_rep h [] kvs.
Proof.
  intros Hh. unfold NewLightKVS. destruct (Z.ltb_spec h 0); [lia|].
  eexists. split; [done|]. split; simpl; try lia.
  - done.
  - rewrite length_replicate. lia.
  - intros j Hj. apply lookup_replicate_2.
    pose proof (slot_bound h 0 (Z.of_nat j)). lia.
Qed.

Lemma u32_small z : 0 ≤ z < 2 ^ 32 → u32 z = z.
Proof. apply Z.mod_small. Qed.

(** Applying a block keeps the representation. *)
Lemma applyBlock_rep h rl kvs n us :
  0 < h < 2 ^ 32 → light_rep h rl kvs →
  ∃ kvs', applyBlock n us kvs = Done kvs' ∧ light_rep h ((n, us) :: rl) kvs'.
Proof.
  intros Hh [Hc Hl Hn Hr]. unfold applyBlock. rewrite Hl.
  destruct (Z.leb_spec h (NextIndex kvs)); [lia|].
  rewrite (u32_small h), (u32_small (NextIndex kvs + 1)) by lia.
  destruct (Z.eqb_spec h 0); [lia|].
  eexists. split; [done|]. split; simpl.
  - unfold snap_of; simpl. f_equal.
    by rewrite applyUpdates_eq, Hc, snap_of_data, reverse_cons, ledger_state_snoc.
  - by rewrite length_insert.
  - apply Z.mod_pos_bound. lia.
  - intros [|j] Hj.
    + change (Z.of_nat 0) with 0. rewrite slot_next_0 by lia.
      rewrite list_lookup_insert_eq by lia. rewrite decide_True by lia. by rewrite Hc.
    + replace (Z.of_nat (S j)) with (Z.of_nat j + 1) in * by lia.
      rewrite slot_next_S by lia.
      pose proof (slot_inj_next h (NextIndex kvs) (Z.of_nat j)).
      pose proof (slot_bound h (NextIndex kvs) (Z.of_nat j)).
      rewrite list_lookup_insert_ne by lia. rewrite Hr by lia. simpl.
      destruct (decide (j < length rl)%nat).
      * by rewrite decide_True by lia.
      * by rewrite decide_False by lia.
Qed.

(** Delivering a block past the tip of a represented store applies it. *)
Lemma Handle_rep h rl kvs b :
  0 < h < 2 ^ 32 → light_rep h rl kvs →
  Forall (λ blk, blk.1 < b_Number b) rl →
  ∃ kvs', Handle b kvs = Done (None, kvs') ∧
          light_rep h ((b_Number b, blockUpdates b) :: rl) kvs'.
Proof.
  intros Hh Hrep Hlt. destruct (applyBlock_rep h rl kvs (b_Number b) (blockUpdates b))
    as (kvs' & Ha & Hrep'); [done..|].
  exists kvs'. split; [|done]. unfold Handle. rewrite Ha, (lr_current _ _ _ Hrep).
  destruct rl as [|blk rl]; [done|]. simpl.
  apply Forall_cons in Hlt as [Hlt _].
  destruct (Z.ltb_spec (b_Number b) blk.1); [lia|].
  destruct (Z.eqb_spec (b_Number b) blk.1); [lia|done].
Qed.

Lemma HandleAll_rep h bs : ∀ rl kvs,
  0 < h < 2 ^ 32 → light_rep h rl kvs →
  increasing (reverse rl ++ ledger_of bs) →
  ∃ kvs', HandleAll bs kvs = Done (None, kvs') ∧
          light_rep h (reverse (ledger_of bs) ++ rl) kvs'.
Proof.
  induction bs as [|b bs IH]; intros rl kvs Hh Hrep Hinc; [by exists kvs|].
  cbn [ledger_of fmap list_fmap] in *. rewrite cons_middle, app_assoc in Hinc.
  destruct (Handle_rep h rl kvs b) as (kvs1 & H1 & Hrep1); [done..| |].
  { unfold increasing in Hinc. apply StronglySorted_app_1_l in Hinc.
    apply increasing_snoc in Hinc as [_ Hinc]. by rewrite reverse_Permutation in Hinc. }
  cbn [HandleAll]. rewrite H1.
  destruct (IH ((b_Number b, blockUpdates b) :: rl) kvs1) as (kvs2 & H2 & Hrep2); [done..| |].
  { by rewrite reverse_cons. }
  exists kvs2. split; [done|]. by rewrite reverse_cons, <-app_assoc.
Qed.

Lemma findHistory_Some bn hist s :
  findHistory bn hist = Some s → Some s ∈ hist ∧ sn_BlockNumber s = bn.
Proof.
  induction hist as [|[t|] hist IH]; simpl; [done| |].
  - destruct (Z.eqb_spec (sn_BlockNumber t) bn).
    + intros [= ->]. split; [apply list_elem_of_here|done].
    + intros [??]%IH. split; [by apply list_elem_of_further|done].
  - intros [??]%IH. split; [by apply list_elem_of_further|done].
Qed.

Lemma findHistory_None bn hist s :
  findHistory bn hist = None → Some s ∈ hist → sn_BlockNumber s ≠ bn.
Proof.
  induction hist as [|[t|] hist IH]; simpl; [by intros _ ?%not_elem_of_nil| |].
  - destruct (Z.eqb_spec (sn_BlockNumber t) bn); [done|].
    intros Hf [Heq | Hs]%elem_of_cons; [by simplify_eq|auto].
  - intros Hf [Heq | Hs]%elem_of_cons; [done|auto].
Qed.

(** The ring holds exactly the [h] snapshots replaced last. *)
Lemma light_rep_elem h rl kvs s :
  0 < h → light_rep h rl kvs →
  Some s ∈ History kvs ↔
  ∃ j : nat, Z.of_nat j < h ∧ (j < length rl)%nat ∧ s = snap_of (drop (S j) rl).
Proof.
  intros Hh [Hc Hl Hn Hr]. rewrite list_elem_of_lookup. split.
  - intros [i Hi]. pose proof (lookup_lt_Some _ _ _ Hi) as Hlt.
    destruct (slot_surj h (NextIndex kvs) (Z.of_nat i)) as (j & Hj & Hs); [lia..|].
    specialize (Hr (Z.to_nat j)). rewrite Z2Nat.id, Hs, Nat2Z.id in Hr by lia.
    rewrite Hi in Hr. specialize (Hr ltac:(lia)). case_decide; simplify_eq.
    exists (Z.to_nat j). split_and!; [lia|lia|done].
  - intros (j & Hj & Hlt & ->). exists (Z.to_nat (slot h (NextIndex kvs) (Z.of_nat j))).
    rewrite Hr by lia. by rewrite decide_True.
Qed.

(** The snapshot taken after the block numbered [n] is the ledger at [n]. *)
Lemma snap_of_ledger_at rl j :
  increasing (reverse rl) → (sn_BlockNumber (snap_of (drop j rl)) = 0 → Forall (λ blk, 0 < blk.1) rl) →
  (j ≤ length rl)%nat →
  sn_Data (snap_of (drop j rl)) =
  ledger_at (sn_BlockNumber (snap_of (drop j rl))) (reverse rl).
Proof.
  intros Hinc Hpos Hj. rewrite snap_of_data.
  rewrite <-(take_drop j rl) in Hinc. rewrite <-(take_drop j rl) at 3.
  rewrite reverse_app in Hinc |- *. symmetry. apply ledger_at_app.
  - apply StronglySorted_app_1_l in Hinc. destruct (drop j rl) as [|[n us] r]; [by constructor|].
    simpl. rewrite reverse_cons in Hinc |- *. by apply increasing_le_last.
  - rewrite Forall_forall. intros blk Hblk. destruct (drop j rl) as [|[n us] r] eqn:Hd; simpl.
    + specialize (Hpos eq_refl). rewrite Forall_forall in Hpos. apply Hpos. rewrite elem_of_reverse in Hblk.
      apply elem_of_take in Hblk as (i & Hi & _). by eapply list_elem_of_lookup_2.
    + eapply (StronglySorted_app_1_elem_of _ _ _ (n, us) blk Hinc); [|done].
      rewrite reverse_cons. set_solver.
Qed.

(** The delivered heights, newest first, down to the pre-genesis height 0. *)
Definition heights (bs : list Block) : list Z :=
  reverse (b_Number <$> bs) ++ [0].

(** Heights answerable below the tip: the [h] heights preceding it. *)
Definition retained (h : Z) (bs : list Block) : list Z :=
  take (Z.to_nat h) (tail (heights bs)).

Definition tip (bs : list Block) : Z := default 0 (head (heights bs)).

(** A reader sees exactly the world state [d]. *)
Definition reads_as (r : Reader) (d : worldstate) : Prop :=
  ∀ ns key, Reader_Get r ns key = Ok (toWriteRecord ns key <$> d !! fullKey ns key).

Lemma reads_as_snapshot s : reads_as {| r_Snapshot := Some s |} (sn_Data s).
Proof. by intros ns key. Qed.


Lemma heights_lookup bs j :
  heights bs !! j =
  if decide (j ≤ length bs)%nat
  then Some (sn_BlockNumber (snap_of (drop j (reverse (ledger_of bs))))) else None.
Proof.
  unfold heights.
  assert (reverse (b_Number <$> bs) = fst <$> reverse (ledger_of bs)) as ->.
  { rewrite fmap_reverse. f_equal. unfold ledger_of. by rewrite <-list_fmap_compose. }
  assert (length bs = length (reverse (ledger_of bs))) as ->.
  { unfold ledger_of. by rewrite length_reverse, length_fmap. }
  generalize (reverse (ledger_of bs)) as rl. intros rl. revert j.
  induction rl as [|blk rl IH]; intros [|j]; simpl; try done.
  rewrite IH. repeat case_decide; try lia; done.
Qed.

Lemma retained_elem h bs n :
  n ∈ retained h bs ↔
  ∃ j : nat, Z.of_nat j < h ∧ (j < length bs)%nat ∧
    n = sn_BlockNumber (snap_of (drop (S j) (reverse (ledger_of bs)))).
Proof.
  unfold retained. rewrite list_elem_of_lookup. setoid_rewrite lookup_take_Some.
  setoid_rewrite lookup_tail. setoid_rewrite heights_lookup. split.
  - intros (j & Hl & Hj). case_decide; simplify_eq. exists j. split_and!; [lia..|done].
  - intros (j & Hh & Hj & ->). exists j. rewrite decide_True by lia. split; [done|lia].
Qed.

(** At or past the tip the current snapshot answers. *)
Lemma NewSnapshot_tip h rl kvs n :
  light_rep h rl kvs → increasing (reverse rl) →
  sn_BlockNumber (snap_of rl) ≤ n →
  ∃ r, NewSnapshot kvs (Some n) = Ok r ∧ reads_as r (ledger_at n (reverse rl)).
Proof.
  intros [Hc _ _ _] Hinc Hn. exists {| r_Snapshot := Some (snap_of rl) |}. split.
  - simpl. rewrite Hc. by destruct (Z.leb_spec (sn_BlockNumber (snap_of rl)) n); [|lia].
  - rewrite ledger_at_all, <-snap_of_data; [apply reads_as_snapshot|].
    destruct rl as [|[m us] rl]; [by constructor|]. rewrite reverse_cons in Hinc |- *.
    eapply Forall_impl; [by apply increasing_le_last|]. simpl in *. lia.
Qed.

(** Below the tip the ring decides. *)
Lemma NewSnapshot_below h rl kvs n :
  0 < h → light_rep h rl kvs → increasing (reverse rl) → (n = 0 → Forall (λ blk, 0 < blk.1) rl) →
  n < sn_BlockNumber (snap_of rl) →
  (∃ r, NewSnapshot kvs (Some n) = Ok r ∧ reads_as r (ledger_at n (reverse rl)) ∧
     ∃ j : nat, Z.of_nat j < h ∧ (j < length rl)%nat ∧ n = sn_BlockNumber (snap_of (drop (S j) rl))) ∨
  (NewSnapshot kvs (Some n) = Err n ∧
     ∀ j : nat, Z.of_nat j < h → (j < length rl)%nat → n ≠ sn_BlockNumber (snap_of (drop (S j) rl))).
Proof.
  intros Hh Hrep Hinc Hpos Hn. pose proof (lr_current _ _ _ Hrep) as Hc.
  assert (sn_BlockNumber (Current kvs) <=? n = false) as Hlt by (rewrite Hc; lia).
  destruct (findHistory n (History kvs)) as [s|] eqn:Hf; [left|right].
  - exists {| r_Snapshot := Some s |}. simpl. rewrite Hlt, Hf. split; [done|].
    apply findHistory_Some in Hf as [Hin <-].
    apply (light_rep_elem h rl) in Hin as (j & Hj & Hjl & ->); [|done..].
    rewrite <-snap_of_ledger_at by (done || lia).
    split; [apply reads_as_snapshot|by exists j].
  - simpl. rewrite Hlt, Hf. split; [done|]. intros j Hj Hjl Heq.
    apply (findHistory_None _ _ (snap_of (drop (S j) rl)) Hf); [|done].
    apply (light_rep_elem h rl); [done..|]. by exists j.
Qed.

Lemma tip_snap_of bs : tip bs = sn_BlockNumber (snap_of (reverse (ledger_of bs))).
Proof.
  unfold tip. rewrite head_lookup, heights_lookup. rewrite decide_True by lia. done.
Qed.

Lemma NewLightKVS_HandleAll h bs :
  0 < h < 2 ^ 32 → increasing (ledger_of bs) →
  ∃ kvs0 kvs, NewLightKVS h = Done kvs0 ∧ HandleAll bs kvs0 = Done (None, kvs) ∧
              light_rep h (reverse (ledger_of bs)) kvs.
Proof.
  intros Hh Hinc. destruct (NewLightKVS_rep h) as (kvs0 & H0 & Hrep0); [lia|].
  destruct (HandleAll_rep h bs [] kvs0) as (kvs & H1 & Hrep); [done..|].
  exists kvs0, kvs. rewrite app_nil_r in Hrep. done.
Qed.

(** C1: time travel.  Deliver any blocks with strictly increasing numbers to a
    store with a history of [h] slots: no delivery fails, and a snapshot at
    height [n] is granted exactly when [n] is at or past the tip or one of the
    [h] heights before it; a granted snapshot reads, key by key, as the ledger
    cut at [n], and a refused one is reported with its height.  Height 0 is
    only covered for ledgers without a block 0, which the pre-genesis height
    shadows (see below). *)
Theorem LightKVS_time_travel h bs n :
  0 < h < 2 ^ 32 → increasing (ledger_of bs) → (n = 0 → Forall (λ b, 0 < b_Number b) bs) →
  ∃ kvs0 kvs, NewLightKVS h = Done kvs0 ∧ HandleAll bs kvs0 = Done (None, kvs) ∧
    if decide (tip bs ≤ n ∨ n ∈ retained h bs)
    then ∃ r, NewSnapshot kvs (Some n) = Ok r ∧ reads_as r (ledger_at n (ledger_of bs))
    else NewSnapshot kvs (Some n) = Err n.
Proof.
  intros Hh Hinc Hpos.
  destruct (NewLightKVS_HandleAll h bs Hh Hinc) as (kvs0 & kvs & H0 & H1 & Hrep).
  exists kvs0, kvs. split_and!; [done..|].
  set (rl := reverse (ledger_of bs)) in *.
  assert (increasing (reverse rl)) as Hinc' by (unfold rl; by rewrite reverse_involutive).
  assert (ledger_of bs = reverse rl) as -> by (unfold rl; by rewrite reverse_involutive).
  assert (n = 0 → Forall (λ blk, 0 < blk.1) rl) as Hpos'.
  { intros ?%Hpos. unfold rl. rewrite Forall_reverse. unfold ledger_of. by rewrite Forall_fmap. }
  assert (length rl = length bs) as Hlen.
  { unfold rl, ledger_of. by rewrite length_reverse, length_fmap. }
  destruct (decide (sn_BlockNumber (snap_of rl) ≤ n)) as [Hge|Hlt].
  { rewrite decide_True by (left; by rewrite tip_snap_of). by eapply NewSnapshot_tip. }
  case_decide as Hd; rewrite tip_snap_of, retained_elem in Hd; fold rl in Hd;
    destruct (NewSnapshot_below h rl kvs n) as [(r & Hr & Hreads & Hj)|[Hr Hj]];
    try (lia || done); [by exists r| |].
  - destruct Hd as [?|(j & ? & ? & ?)]; [done|]. exfalso. eapply (Hj j); lia || done.
  - destruct Hd. right. rewrite <-Hlen. done.
Qed.

(** Block 0 is shadowed.  A store that has applied block 0 and then exactly
    one later block answers a request for height 0 with the empty pre-genesis
    placeholder, whatever block 0 wrote: the placeholder is the first slot of
    the ring that carries the number 0. *)
Theorem LightKVS_genesis_shadowed h b0 b1 :
  1 < h < 2 ^ 32 → b_Number b0 = 0 → 0 < b_Number b1 →
  ∃ kvs0 kvs, NewLightKVS h = Done kvs0 ∧ HandleAll [b0; b1] kvs0 = Done (None, kvs) ∧
    NewSnapshot kvs (Some 0) = Ok {| r_Snapshot := Some placeholder |}.
Proof.
  intros Hh H0 H1. unfold NewLightKVS.
  destruct (Z.ltb_spec h 0); [lia|].
  assert (∃ m, Z.to_nat h = S (S m)) as [m Hm] by (exists (Z.to_nat h - 2)%nat; lia).
  eexists. eexists. split; [done|]. rewrite Hm. cbn [HandleAll].
  unfold Handle at 1, applyBlock. simpl. rewrite length_replicate.
  assert (u32 (Z.of_nat (S (S m))) = h) as Hu by (unfold u32; rewrite Z.mod_small; lia).
  assert (Z.of_nat (S (S m)) = h) as Hz by lia.
  rewrite ?Hz in *. rewrite Hu.
  destruct (Z.leb_spec h 0); [lia|]. destruct (Z.eqb_spec h 0); [lia|].
  unfold Handle, applyBlock. simpl. rewrite H0.
  replace (u32 (0 + 1) mod h) with 1 by (change (u32 (0 + 1)) with 1; rewrite Z.mod_small; lia).
  rewrite length_replicate, Hz.
  destruct (Z.ltb_spec (b_Number b1) 0); [lia|]. destruct (Z.eqb_spec (b_Number b1) 0); [lia|].
  destruct (Z.leb_spec h 1); [lia|]. rewrite Hu. destruct (Z.eqb_spec h 0); [lia|].
  split; [done|]. simpl. by destruct (Z.leb_spec (b_Number b1) 0); [lia|].
Qed.

(** ** Concrete instances *)

Lemma Handle_redelivery_witness :
  match NewLightKVS 2 with
  | Done kvs0 =>
      match Handle (put_block 1 "ns" "k" [7]) kvs0 with
      | Done (None, kvs) => Handle (put_block 1 "ns" "k" [7]) kvs = Done (None, kvs)
      | _ => False
      end
  | Panic _ => False
  end.
Proof. apply (Handle_redelivery _ {| Current := placeholder; History := [None; None]; NextIndex := 0 |}). reflexivity. Defined.

Definition three_blocks : list Block :=
  [put_block 1 "ns" "k" [7]; put_block 2 "ns" "k" [8]; put_block 4 "ns" "k" [9]].

Lemma LightKVS_time_travel_witness :
  ∃ kvs0 kvs, NewLightKVS 1 = Done kvs0 ∧ HandleAll three_blocks kvs0 = Done (None, kvs) ∧
    ∃ r, NewSnapshot kvs (Some 2) = Ok r ∧ reads_as r (ledger_at 2 (ledger_of three_blocks)).
Proof.
  destruct (LightKVS_time_travel 1 three_blocks 2) as (kvs0 & kvs & H0 & H1 & H).
  - split; reflexivity.
  - repeat constructor.
  - repeat constructor.
  - exists kvs0, kvs. split; [exact H0|]. split; [exact H1|].
    destruct (decide _) as [_|Hn] in H; [exact H|].
    exfalso. apply Hn. right. apply list_elem_of_here.
Defined.

Lemma LightKVS_genesis_shadowed_witness :
  ∃ kvs0 kvs, NewLightKVS 8 = Done kvs0 ∧
    HandleAll [put_block 0 "ns" "k" [7]; put_block 1 "ns" "j" [8]] kvs0 = Done (None, kvs) ∧
    NewSnapshot kvs (Some 0) = Ok {| r_Snapshot := Some placeholder |}.
Proof. apply LightKVS_genesis_shadowed; [split|..]; reflexivity. Defined.
