(* ===== verification/RevertibleKVS.v ===== *)
(** * RevertibleKVS: the snapshot store that can be rewound

    endorser/storage/revertible_lightkvs.go.  The store embeds a [LightKVS] and
    keeps its history oldest first: a full window shifts down by one, and
    [RevertToBlock] merges an old snapshot's values with the current versions.
    The mutex makes every method atomic, so a method is one state transition. *)

From Stdlib Require Import ZArith Lia.
From stdpp Require Import base numbers list gmap strings sorting.
From S2P Require Import Prelude Blocks KVSpec LightKVS.

Local Open Scope Z_scope.

(** ** State: a [LightKVS] whose ring index counts the snapshots held *)

Definition NewRevertibleLightKVS (lightKVS : LightKVS) : LightKVS :=
  {| Current := Current lightKVS; History := History lightKVS; NextIndex := 0 |}.

(** ** The history scan *)

(** The last exact match and the best older snapshot found so far, each with
    its index. *)
Definition scan_acc : Type := option (nat * Snapshot) * option (nat * Snapshot).

Definition scan_step (bn : Z) (acc : scan_acc) (slot : nat * option Snapshot) : scan_acc :=
  let '(exact, best) := acc in
  match slot with
  | (i, None) => acc
  | (i, Some snap) =>
      if sn_BlockNumber snap =? bn then (Some (i, snap), best)
      else if (sn_BlockNumber snap <? bn) &&
              match best with
              | None => true
              | Some (_, b) => sn_BlockNumber b <? sn_BlockNumber snap
              end
      then (exact, Some (i, snap))
      else acc
  end.

Definition scanHistory (bn : Z) (hist : list (option Snapshot)) : scan_acc :=
  foldl (scan_step bn) (None, None) (imap pair hist).

(** [NewSnapshot]: exact match, else the nearest older snapshot. *)
Definition rev_NewSnapshot (kvs : LightKVS) (blockNumber : option Z) : result Z Reader :=
  match blockNumber with
  | None => Ok {| r_Snapshot := Some (Current kvs) |}
  | Some bn =>
      if sn_BlockNumber (Current kvs) <=? bn then Ok {| r_Snapshot := Some (Current kvs) |}
      else
        match scanHistory bn (History kvs) with
        | (Some (_, exact), _) => Ok {| r_Snapshot := Some exact |}
        | (None, Some (_, best)) => Ok {| r_Snapshot := Some best |}
        | (None, None) => Err bn
        end
  end.

(** [Get]: the latest record, through this type's own [NewSnapshot]. *)
Definition rev_Get (kvs : LightKVS) (namespace key : string)
    : result read_error (option WriteRecord) :=
  match rev_NewSnapshot kvs None with
  | Ok r => Reader_Get r namespace key
  | Err bn => Err (ErrNoSnapshot bn)
  end.

(** ** Applying a block *)

(** The loop [for i := 1; i < count; i++] moving every slot down by one. *)
Definition shift_down (hist : list (option Snapshot)) (count : nat) : list (option Snapshot) :=
  foldl (λ h i, <[(i - 1)%nat := default None (h !! i)]> h) hist (seq 1 (count - 1)).

Definition applyBlockSequential (blockNum : Z) (updates : list KeyValueVersion)
    (kvs : LightKVS) : outcome LightKVS :=
  let oldSnapshot := Current kvs in
  let newSnapshot := {|
    sn_BlockNumber := blockNum;
    sn_Data := applyUpdates (sn_Data oldSnapshot) updates;
    sn_Placeholder := false |} in
  let count := Z.to_nat (NextIndex kvs) in
  let len := length (History kvs) in
  if (0 <? len)%nat then
    let full := (count =? len)%nat in
    let hist := if full then shift_down (History kvs) count else History kvs in
    let count := if full then (count - 1)%nat else count in
    if (len <=? count)%nat then Panic "index out of range"
    else Done {| Current := newSnapshot;
                 History := <[count := Some oldSnapshot]> hist;
                 NextIndex := u32 (Z.of_nat count + 1) |}
  else Done {| Current := newSnapshot; History := History kvs; NextIndex := NextIndex kvs |}.

(** [Handle]: the replay guard of [LightKVS.Handle] over the sequential history. *)
Definition rev_Handle (b : Block) : st LightKVS (option replay_error) := λ kvs,
  let current := Current kvs in
  if negb (sn_Placeholder current) && (b_Number b <? sn_BlockNumber current) then
    Done (None, kvs)
  else
    let updates := blockUpdates b in
    if negb (sn_Placeholder current) && (b_Number b =? sn_BlockNumber current) then
      Done (verifyReplay current updates, kvs)
    else
      match applyBlockSequential (b_Number b) updates kvs with
      | Done kvs' => Done (None, kvs')
      | Panic msg => Panic msg
      end.

(** ** Reverting *)

(** One key of the merged snapshot: the target's value and delete flag, or a
    tombstone for a key created later, with the current version info. *)
Definition merge_value (target : option ValueVersion) (currentValue : ValueVersion)
    : ValueVersion := {|
  vv_Value := match target with Some t => vv_Value t | None => None end;
  vv_BlockNum := vv_BlockNum currentValue;
  vv_TxNum := vv_TxNum currentValue;
  vv_Version := vv_Version currentValue;
  vv_TxID := vv_TxID currentValue;
  vv_IsDelete := match target with Some t => vv_IsDelete t | None => true end
|}.

Definition mergedData (target current : worldstate) : worldstate :=
  map_imap (λ key currentValue, Some (merge_value (target !! key) currentValue)) current.

(** The loop clearing the slots from [targetIndex] up to the count. *)
Definition trim (hist : list (option Snapshot)) (targetIndex count : nat)
    : list (option Snapshot) :=
  foldl (λ h i, <[i := None]> h) hist (seq targetIndex (count - targetIndex)).

(** [RevertToBlock]; the error carries the height that was not found. *)
Definition RevertToBlock (blockNumber : Z) : st LightKVS (option Z) := λ kvs,
  let currentSnapshot := Current kvs in
  if sn_BlockNumber currentSnapshot =? blockNumber then Done (None, kvs)
  else
    let '(exact, best) := scanHistory blockNumber (History kvs) in
    let target :=
      match exact with
      | Some t => Some t
      | None => if blockNumber <? sn_BlockNumber currentSnapshot then best else None
      end in
    match target with
    | None => Done (Some blockNumber, kvs)
    | Some (targetIndex, targetSnapshot) =>
        let count := Z.to_nat (NextIndex kvs) in
        if (length (History kvs) <? count)%nat then Panic "index out of range"
        else Done (None, {|
          Current := {| sn_BlockNumber := blockNumber;
                        sn_Data := mergedData (sn_Data targetSnapshot) (sn_Data currentSnapshot);
                        sn_Placeholder := false |};
          History := trim (History kvs) targetIndex count;
          NextIndex := u32 (Z.of_nat targetIndex) |})
    end.

(** ** Runs *)

Inductive rev_op :=
| OpHandle (b : Block)
| OpRevert (n : Z).

(** A run ignores returned errors, as the callers of both methods go on after
    reporting one; a panic stops it. *)
Definition rev_exec (op : rev_op) (kvs : LightKVS) : outcome LightKVS :=
  match op with
  | OpHandle b => match rev_Handle b kvs with Done (_, kvs') => Done kvs' | Panic m => Panic m end
  | OpRevert n => match RevertToBlock n kvs with Done (_, kvs') => Done kvs' | Panic m => Panic m end
  end.

Fixpoint rev_run (ops : list rev_op) (kvs : LightKVS) : outcome LightKVS :=
  match ops with
  | [] => Done kvs
  | op :: ops => match rev_exec op kvs with Done kvs' => rev_run ops kvs' | Panic m => Panic m end
  end.

(** The blocks a run delivers, in order. *)
Definition delivered (ops : list rev_op) : list Block :=
  omap (λ op, match op with OpHandle b => Some b | OpRevert _ => None end) ops.

(** ** The invariant *)

(** The history slots: the held snapshots, oldest first, then empty slots. *)
Definition slots (len : nat) (hs : list Snapshot) : list (option Snapshot) :=
  (Some <$> hs) ++ replicate (len - length hs) None.

Definition num_le (s t : Snapshot) : Prop := sn_BlockNumber s ≤ sn_BlockNumber t.

Record rev_inv (len : nat) (hs : list Snapshot) (kvs : LightKVS) : Prop := {
  ri_len : Z.of_nat len < 2 ^ 32;
  ri_fit : (length hs ≤ len)%nat;
  ri_hist : History kvs = slots len hs;
  ri_next : NextIndex kvs = Z.of_nat (length hs);
  ri_sorted : StronglySorted num_le (hs ++ [Current kvs]);
  ri_dom : Forall (λ s, dom (sn_Data s) ⊆ dom (sn_Data (Current kvs))) hs
}.

(** What an MVCC check sees of a record. *)
Definition meta (vv : ValueVersion) : Z * Z * Z * string :=
  (vv_BlockNum vv, vv_TxNum vv, vv_Version vv, vv_TxID vv).

(** What a read sees of a key: nothing if it is absent or a tombstone. *)
Definition visible (o : option ValueVersion) : option byte_slice :=
  match o with
  | Some vv => if vv_IsDelete vv then None else Some (slice_bytes (vv_Value vv))
  | None => None
  end.

(** ** Loops in closed form *)

Lemma insert_prefix_step {A} (pre : list A) x y l :
  <[length pre := y]> (pre ++ x :: l) = pre ++ y :: l.
Proof. rewrite insert_app_r_alt by lia. by rewrite Nat.sub_diag. Qed.

Lemma shift_down_aux (pre : list (option Snapshot)) x l :
  foldl (λ h i, <[(i - 1)%nat := default None (h !! i)]> h) (pre ++ x :: l)
    (seq (S (length pre)) (length l)) = pre ++ l ++ [default x (last l)].
Proof.
  revert pre x. induction l as [|z l IH]; intros pre x; simpl; [done|].
  rewrite Nat.sub_0_r, insert_prefix_step.
  rewrite lookup_app_r by lia. replace (S (length pre) - length pre)%nat with 1%nat by lia.
  simpl. replace (pre ++ z :: z :: l) with ((pre ++ [z]) ++ z :: l) by by rewrite <-app_assoc.
  replace (S (S (length pre))) with (S (length (pre ++ [z]))) by (rewrite length_app; simpl; lia).
  rewrite IH, <-app_assoc. simpl. rewrite last_cons. by destruct (last l).
Qed.

(** A full window: the oldest entry is dropped and the new one appended. *)
Lemma shift_store x (l : list (option Snapshot)) old :
  <[length l := old]> (shift_down (x :: l) (S (length l))) = l ++ [old].
Proof.
  unfold shift_down. replace (S (length l) - 1)%nat with (length l) by lia.
  pose proof (shift_down_aux [] x l) as H. cbn [app length] in H. rewrite H.
  apply insert_prefix_step.
Qed.

Lemma trim_aux (pre tl : list (option Snapshot)) (l : list Snapshot) :
  foldl (λ h i, <[i := None]> h) (pre ++ (Some <$> l) ++ tl) (seq (length pre) (length l)) =
  pre ++ replicate (length l) None ++ tl.
Proof.
  revert pre. induction l as [|s l IH]; intros pre; [done|].
  cbn [length seq foldl fmap list_fmap app replicate]. rewrite insert_prefix_step.
  rewrite !(cons_middle None pre), !app_assoc.
  replace (S (length pre)) with (length (pre ++ [None : option Snapshot]))
    by (rewrite length_app; simpl; lia).
  by rewrite <-!app_assoc, (app_assoc pre), IH, <-app_assoc.
Qed.

Lemma trim_slots len hs i :
  (i ≤ length hs ≤ len)%nat →
  trim (slots len hs) i (length hs) = slots len (take i hs).
Proof.
  intros Hi. unfold trim, slots.
  pose proof (trim_aux (Some <$> take i hs) (replicate (len - length hs) None) (drop i hs)) as H.
  rewrite length_fmap, length_take, length_drop, Nat.min_l in H by lia.
  rewrite app_assoc, <-fmap_app, take_drop in H. rewrite H, length_take, Nat.min_l by lia.
  f_equal. rewrite <-replicate_add. f_equal. lia.
Qed.

(** ** The scan in closed form *)

(** Entries of a sorted history, by position relative to a height. *)
Lemma scan_slots bn len hs :
  scanHistory bn (slots len hs) = scanHistory bn (Some <$> hs).
Proof.
  unfold scanHistory, slots. rewrite imap_app, foldl_app.
  generalize (foldl (scan_step bn) (None, None) (imap pair (Some <$> hs))) as acc.
  generalize (length (Some <$> hs)) as k. induction (len - length hs)%nat as [|n IH]; [done|].
  intros k [e b]. simpl. specialize (IH (S k) (e, b)).
  rewrite <-IH at 2. f_equal. apply imap_ext. intros. simpl. f_equal. lia.
Qed.

Lemma scan_snoc bn hs s :
  scanHistory bn (Some <$> (hs ++ [s])) =
  scan_step bn (scanHistory bn (Some <$> hs)) (length hs, Some s).
Proof.
  unfold scanHistory. rewrite fmap_app, imap_app, foldl_app. simpl.
  by rewrite length_fmap, Nat.add_0_r.
Qed.

(** What the scan returns: valid positions, the right numbers, and an exact
    match that is the last one. *)
Lemma scan_spec bn hs :
  let '(exact, best) := scanHistory bn (Some <$> hs) in
  (∀ i s, exact = Some (i, s) → hs !! i = Some s ∧ sn_BlockNumber s = bn ∧
     ∀ j t, (i < j)%nat → hs !! j = Some t → sn_BlockNumber t ≠ bn) ∧
  (exact = None → Forall (λ t, sn_BlockNumber t ≠ bn) hs) ∧
  (∀ i s, best = Some (i, s) → hs !! i = Some s ∧ sn_BlockNumber s < bn) ∧
  (best = None → Forall (λ t, bn ≤ sn_BlockNumber t) hs).
Proof.
  induction hs as [|s hs IH] using rev_ind; [done|].
  rewrite scan_snoc. destruct (scanHistory bn (Some <$> hs)) as [exact best].
  destruct IH as (He & Hne & Hb & Hnb). simpl.
  assert (∀ i t, hs !! i = Some t → (hs ++ [s]) !! i = Some t) as Hmono.
  { intros. by apply lookup_app_l_Some. }
  destruct (Z.eqb_spec (sn_BlockNumber s) bn) as [Heq|Hneq].
  { split_and!; [|done| |].
    - intros i t [= <- <-]. rewrite lookup_app_r, Nat.sub_diag by lia. split_and!; [done..|].
      intros j t Hj [Hl|[_ Hl]]%lookup_app_Some; [apply lookup_lt_Some in Hl; lia|].
      apply list_lookup_singleton_Some in Hl. lia.
    - intros i t [? ?]%Hb. auto.
    - intros Hn. rewrite Forall_app, Forall_singleton. split; [auto|lia]. }
  assert (∀ i t, exact = Some (i, t) → (hs ++ [s]) !! i = Some t ∧ sn_BlockNumber t = bn ∧
     ∀ j t, (i < j)%nat → (hs ++ [s]) !! j = Some t → sn_BlockNumber t ≠ bn) as He'.
  { intros i t (Hl & Hn & Hlast)%He. split_and!; [auto..|].
    intros j u Hj [Hl'|[_ Hl']]%lookup_app_Some; [by eapply Hlast|].
    apply list_lookup_singleton_Some in Hl' as [_ <-]. done. }
  assert (exact = None → Forall (λ t, sn_BlockNumber t ≠ bn) (hs ++ [s])) as Hne'.
  { intros Hn. rewrite Forall_app, Forall_singleton. auto. }
  destruct (_ && _) eqn:Hc.
  - split_and!; [done..| |done]. intros i t [= <- <-].
    rewrite lookup_app_r, Nat.sub_diag by lia. split; [done|].
    apply andb_true_iff in Hc as [Hc _]. lia.
  - split_and!; [done..| |].
    + intros i t [? ?]%Hb. auto.
    + intros Hn. specialize (Hnb Hn). subst best. rewrite andb_true_r in Hc.
      rewrite Forall_app, Forall_singleton. split; [done|lia].
Qed.

(** ** Preservation *)

(** The history after one more block: appended, with the oldest entry dropped
    when the window is full. *)
Definition push_history (len : nat) (hs : list Snapshot) (s : Snapshot) : list Snapshot :=
  drop (S (length hs) - len) (hs ++ [s]).

Lemma push_history_slots len hs s :
  (0 < len)%nat → (length hs ≤ len)%nat →
  <[(if (length hs =? len)%nat then (length hs - 1)%nat else length hs) := Some s]>
    (if (length hs =? len)%nat then shift_down (slots len hs) (length hs) else slots len hs)
  = slots len (push_history len hs s).
Proof.
  intros Hl Hle. unfold push_history. destruct (Nat.eqb_spec (length hs) len) as [Heq|Hne].
  - destruct hs as [|x hs]; simpl in *; [lia|]. unfold slots at 1. simpl.
    replace (len - S (length hs))%nat with 0%nat by lia. simpl. rewrite app_nil_r, Nat.sub_0_r.
    replace (S (S (length hs)) - len)%nat with 1%nat by lia. simpl.
    pose proof (shift_store (Some x) (Some <$> hs) (Some s)) as H.
    rewrite length_fmap in H. etrans; [exact H|]. unfold slots. rewrite drop_0, length_app, fmap_app. simpl.
    replace (len - (length hs + 1))%nat with 0%nat by lia. simpl. by rewrite app_nil_r.
  - replace (S (length hs) - len)%nat with 0%nat by lia. rewrite drop_0. unfold slots.
    rewrite length_app, fmap_app, <-app_assoc. simpl.
    replace (len - length hs)%nat with (S (len - (length hs + 1))) by lia. simpl.
    pose proof (insert_prefix_step (Some <$> hs) None (Some s)) as H.
    rewrite length_fmap in H. apply H.
Qed.

Lemma applyUpdates_dom d us : dom d ⊆ dom (applyUpdates d us).
Proof.
  intros k. rewrite !elem_of_dom, applyUpdates_eq. apply writes_dom.
Qed.

Lemma applyBlockSequential_inv len hs kvs n us :
  rev_inv len hs kvs → sn_BlockNumber (Current kvs) ≤ n →
  ∃ kvs', applyBlockSequential n us kvs = Done kvs' ∧
    rev_inv len (push_history len hs (Current kvs)) kvs' ∧
    Current kvs' = {| sn_BlockNumber := n; sn_Data := applyUpdates (sn_Data (Current kvs)) us;
                      sn_Placeholder := false |}.
Proof.
  intros [Hlen Hfit Hh Hn Hs Hd] Hle. unfold applyBlockSequential.
  assert (length (History kvs) = len) as Hhl.
  { rewrite Hh. unfold slots. rewrite length_app, length_fmap, length_replicate. lia. }
  rewrite Hhl, Hn, Nat2Z.id, Hh.
  assert (StronglySorted num_le (push_history len hs (Current kvs))) as Hs'.
  { unfold push_history. rewrite <-(take_drop (S (length hs) - len) (hs ++ [_])) in Hs.
    by apply StronglySorted_app_1_r in Hs. }
  set (cur' := {| sn_BlockNumber := n; sn_Data := _; sn_Placeholder := false |}).
  assert (∀ h i, h = slots len (push_history len hs (Current kvs)) →
    i = Z.of_nat (length (push_history len hs (Current kvs))) →
    rev_inv len (push_history len hs (Current kvs))
      {| Current := cur'; History := h; NextIndex := i |}) as Hinv.
  { intros h i Hh' Hi. constructor; [done| |done|done| |]; simpl.
    - unfold push_history. rewrite length_drop, length_app. simpl. lia.
    - apply StronglySorted_app_2; [|done|by repeat constructor].
      intros s t Hin Ht%list_elem_of_singleton. subst t. unfold num_le. simpl. trans (sn_BlockNumber (Current kvs)); [|done].
      apply subseteq_drop in Hin. apply elem_of_app in Hin as [Hin|Hin%list_elem_of_singleton]; [|by subst].
      by eapply (StronglySorted_app_1_elem_of _ hs [Current kvs] s) in Hs; [| |apply list_elem_of_here].
    - rewrite Forall_forall in Hd |- *. intros s Hin. trans (dom (sn_Data (Current kvs))); [|apply applyUpdates_dom].
      apply subseteq_drop in Hin. apply elem_of_app in Hin as [Hin|Hin%list_elem_of_singleton]; [auto|by subst]. }
  destruct (Nat.ltb_spec 0 len) as [Hpos|Hz].
  - destruct (Nat.leb_spec len (if (length hs =? len)%nat then (length hs - 1)%nat else length hs)) as [Hbad|_].
    { exfalso. destruct (Nat.eqb_spec (length hs) len); lia. }
    eexists. split; [done|]. split; [|done]. apply Hinv; [by apply push_history_slots|].
    unfold u32. rewrite Z.mod_small; unfold push_history;
      rewrite ?length_drop, ?length_app; simpl; destruct (Nat.eqb_spec (length hs) len); lia.
  - assert (len = 0%nat) as -> by lia. assert (length hs = 0%nat) as H0 by lia.
    apply nil_length_inv in H0. subst hs. eexists. split; [done|]. split; [|done].
    by apply Hinv.
Qed.

Lemma mergedData_lookup t c k :
  mergedData t c !! k = merge_value (t !! k) <$> c !! k.
Proof. unfold mergedData. rewrite map_lookup_imap. by destruct (c !! k). Qed.

Lemma mergedData_dom t c : dom (mergedData t c) = dom c.
Proof.
  apply set_eq. intros k. rewrite !elem_of_dom, mergedData_lookup. by rewrite fmap_is_Some.
Qed.

Lemma mergedData_meta t c : meta <$> mergedData t c = meta <$> c.
Proof.
  apply map_eq. intros k. rewrite !lookup_fmap, mergedData_lookup.
  by destruct (c !! k).
Qed.

(** What a revert restores: the target's visible content. *)
Lemma mergedData_visible t c k :
  dom t ⊆ dom c → visible (mergedData t c !! k) = visible (t !! k).
Proof.
  intros Hd. rewrite mergedData_lookup. destruct (c !! k) as [cv|] eqn:Hc; simpl.
  - unfold visible. simpl. by destruct (t !! k).
  - apply not_elem_of_dom in Hc. assert (k ∉ dom t) as Ht by set_solver.
    apply not_elem_of_dom in Ht. by rewrite Ht.
Qed.

(** The snapshot a revert goes back to: the scan's choice, at or below the
    requested height. *)
Definition revert_target (kvs : LightKVS) (n : Z) : option (nat * Snapshot) :=
  match (scanHistory n (History kvs)).1 with
  | Some t => Some t
  | None => if n <? sn_BlockNumber (Current kvs) then (scanHistory n (History kvs)).2 else None
  end.

Lemma rev_inv_le len hs kvs s :
  rev_inv len hs kvs → s ∈ hs → sn_BlockNumber s ≤ sn_BlockNumber (Current kvs).
Proof.
  intros H Hs. apply (StronglySorted_app_1_elem_of _ _ _ s (Current kvs) (ri_sorted _ _ _ H)); [done|].
  apply list_elem_of_here.
Qed.

Lemma revert_target_spec len hs kvs n i t :
  rev_inv len hs kvs → n ≠ sn_BlockNumber (Current kvs) →
  revert_target kvs n = Some (i, t) →
  hs !! i = Some t ∧ sn_BlockNumber t ≤ n < sn_BlockNumber (Current kvs).
Proof.
  intros Hinv Hne. unfold revert_target. rewrite (ri_hist _ _ _ Hinv), scan_slots.
  pose proof (scan_spec n hs) as Hsp. destruct (scanHistory n (Some <$> hs)) as [exact best].
  destruct Hsp as (He & _ & Hb & _). simpl. destruct exact as [[j u]|].
  - intros [= -> ->]. destruct (He i t eq_refl) as (Hl & Hn & _). split; [done|].
    pose proof (rev_inv_le _ _ _ t Hinv (list_elem_of_lookup_2 _ _ _ Hl)). lia.
  - destruct (Z.ltb_spec n (sn_BlockNumber (Current kvs))); [|done].
    intros ->. destruct (Hb i t eq_refl) as [Hl Hn]. split; [done|lia].
Qed.

Lemma RevertToBlock_eq len hs kvs n :
  rev_inv len hs kvs → n ≠ sn_BlockNumber (Current kvs) →
  RevertToBlock n kvs =
  match revert_target kvs n with
  | None => Done (Some n, kvs)
  | Some (i, t) =>
      Done (None, {| Current := {| sn_BlockNumber := n;
                       sn_Data := mergedData (sn_Data t) (sn_Data (Current kvs));
                       sn_Placeholder := false |};
                     History := slots len (take i hs);
                     NextIndex := Z.of_nat (length (take i hs)) |})
  end.
Proof.
  intros Hinv Hne. pose proof (revert_target_spec len hs kvs n) as Hsp.
  unfold RevertToBlock, revert_target in *.
  destruct (Z.eqb_spec (sn_BlockNumber (Current kvs)) n); [lia|].
  destruct (scanHistory n (History kvs)) as [exact best]. simpl in *.
  destruct (match exact with Some t => Some t | None => _ end) as [[i t]|]; [|done].
  destruct (Hsp i t Hinv Hne eq_refl) as [Hi _]. clear Hsp. destruct Hinv as [Hlen Hfit Hh Hn Hs Hd].
  apply lookup_lt_Some in Hi. rewrite Hn, Nat2Z.id, Hh. unfold slots at 1.
  rewrite length_app, length_fmap, length_replicate.
  destruct (Nat.ltb_spec (length hs + (len - length hs)) (length hs)); [lia|].
  rewrite trim_slots, length_take by lia. do 3 f_equal. unfold u32. rewrite Z.mod_small; lia.
Qed.

Lemma RevertToBlock_inv len hs kvs n :
  rev_inv len hs kvs →
  ∃ r kvs' hs', RevertToBlock n kvs = Done (r, kvs') ∧ rev_inv len hs' kvs' ∧
    meta <$> sn_Data (Current kvs') = meta <$> sn_Data (Current kvs) ∧
    sn_BlockNumber (Current kvs') ≤ sn_BlockNumber (Current kvs) ∧
    (sn_Placeholder (Current kvs') = true → kvs' = kvs).
Proof.
  intros Hinv. destruct (decide (n = sn_BlockNumber (Current kvs))) as [Heq|Hne].
  { exists None, kvs, hs. unfold RevertToBlock. rewrite Heq, Z.eqb_refl. done. }
  rewrite (RevertToBlock_eq len hs) by done.
  destruct (revert_target kvs n) as [[i t]|] eqn:Ht; [|by exists (Some n), kvs, hs].
  eexists _, _, (take i hs). split; [done|]. simpl.
  eapply revert_target_spec in Ht as [Hl Hn]; [|done..].
  split_and!; [|apply mergedData_meta|lia|done].
  destruct Hinv as [Hlen Hfit Hh Hnx Hs Hd]. pose proof (lookup_lt_Some _ _ _ Hl).
  constructor; simpl; [done| |done|done| |].
  - rewrite length_take. lia.
  - rewrite <-(take_drop_middle hs i t Hl), <-app_assoc in Hs.
    apply StronglySorted_app_2; [|by eapply StronglySorted_app_1_l|by repeat constructor].
    intros s u Hsin ->%list_elem_of_singleton. unfold num_le. simpl. trans (sn_BlockNumber t); [|lia].
    eapply (StronglySorted_app_1_elem_of _ _ _ s t Hs Hsin), list_elem_of_here.
  - rewrite mergedData_dom. by apply Forall_take.
Qed.

(** ** Versions follow the ledger across reverts *)

Lemma meta_write1 d1 d2 u :
  meta <$> d1 = meta <$> d2 → meta <$> write1 d1 u = meta <$> write1 d2 u.
Proof.
  intros H. unfold write1. rewrite !fmap_insert, H. f_equal.
  assert (meta <$> d1 !! kvv_Key u = meta <$> d2 !! kvv_Key u) as Hk by by rewrite <-!lookup_fmap, H.
  destruct (d1 !! kvv_Key u), (d2 !! kvv_Key u); simpl in *; try done.
  unfold meta in *. simpl. injection Hk as _ _ Hv _. by rewrite Hv.
Qed.

Lemma meta_writes us : ∀ d1 d2,
  meta <$> d1 = meta <$> d2 → meta <$> writes d1 us = meta <$> writes d2 us.
Proof.
  induction us as [|u us IH]; intros d1 d2 H; simpl; [done|]. by apply IH, meta_write1.
Qed.

(** The states a run reaches after the blocks [bs] were delivered. *)
Definition rev_state (len : nat) (bs : list Block) (kvs : LightKVS) : Prop :=
  meta <$> sn_Data (Current kvs) = meta <$> ledger_state (ledger_of bs) ∧
  (bs = [] ∧ rev_inv len [] kvs ∧ Current kvs = placeholder ∨
   ∃ hs b, last bs = Some b ∧ rev_inv len hs kvs ∧
     sn_Placeholder (Current kvs) = false ∧ sn_BlockNumber (Current kvs) ≤ b_Number b).

Lemma rev_state_revert len bs kvs n :
  rev_state len bs kvs → ∃ kvs', rev_exec (OpRevert n) kvs = Done kvs' ∧ rev_state len bs kvs'.
Proof.
  intros (Hm & [(-> & Hinv & Hc)|(hs & b & Hb & Hinv & Hp & Hn)]).
  - exists kvs. split; [|by split; [|left]]. simpl.
    destruct (decide (n = sn_BlockNumber (Current kvs))) as [Heq|Hne].
    { unfold RevertToBlock. by rewrite Heq, Z.eqb_refl. }
    rewrite (RevertToBlock_eq len []) by done.
    destruct (revert_target kvs n) as [[i t]|] eqn:Ht; [|done].
    eapply revert_target_spec in Ht as [Ht _]; [|done..]. by rewrite lookup_nil in Ht.
  - destruct (RevertToBlock_inv len hs kvs n Hinv) as (r & kvs' & hs' & Hr & Hinv' & Hm' & Hle & Hp').
    exists kvs'. simpl. rewrite Hr. split; [done|]. split; [by rewrite Hm'|]. right.
    exists hs', b. split_and!; [done..| |lia].
    destruct (sn_Placeholder (Current kvs')) eqn:E; [|done]. rewrite Hp' in E by done. congruence.
Qed.

(** A block above the ones delivered is applied to the latest data. *)
Lemma rev_state_apply len bs b kvs :
  rev_state len bs kvs → increasing (ledger_of (bs ++ [b])) → 0 ≤ b_Number b →
  ∃ hs kvs', rev_Handle b kvs = Done (None, kvs') ∧ rev_inv len hs kvs' ∧
    Current kvs' = {| sn_BlockNumber := b_Number b; sn_Placeholder := false;
                      sn_Data := applyUpdates (sn_Data (Current kvs)) (blockUpdates b) |}.
Proof.
  intros [Hm Hst] Hinc Hb.
  assert (∃ hs, rev_inv len hs kvs ∧ sn_BlockNumber (Current kvs) ≤ b_Number b ∧
    rev_Handle b kvs = match applyBlockSequential (b_Number b) (blockUpdates b) kvs with
                       | Done kvs' => Done (None, kvs') | Panic msg => Panic msg end)
    as (hs & Hinv & Hle & Hh).
  { destruct Hst as [(-> & Hinv & Hc)|(hs & b' & Hb' & Hinv & Hp & Hn)].
    - exists []. unfold rev_Handle. rewrite Hc. done.
    - exists hs. unfold rev_Handle. rewrite Hp. simpl.
      assert (b_Number b' < b_Number b) as Hlt.
      { apply last_Some in Hb' as [pre ->]. unfold ledger_of in Hinc. rewrite !fmap_app in Hinc.
        apply increasing_snoc in Hinc as [_ Hf]. apply Forall_app in Hf as [_ Hf]. apply Forall_cons in Hf as [Hf _].
        apply Hf. }
      destruct (Z.ltb_spec (b_Number b) (sn_BlockNumber (Current kvs))); [lia|].
      destruct (Z.eqb_spec (b_Number b) (sn_BlockNumber (Current kvs))); [lia|].
      split_and!; [done|lia|done]. }
  destruct (applyBlockSequential_inv len hs kvs (b_Number b) (blockUpdates b) Hinv Hle)
    as (kvs' & Ha & Hinv' & Hc'). rewrite Ha in Hh. by eexists _, kvs'.
Qed.

Lemma rev_state_handle len bs b kvs :
  rev_state len bs kvs → increasing (ledger_of (bs ++ [b])) → 0 ≤ b_Number b →
  ∃ kvs', rev_exec (OpHandle b) kvs = Done kvs' ∧ rev_state len (bs ++ [b]) kvs'.
Proof.
  intros Hst Hinc Hb. destruct (rev_state_apply len bs b kvs Hst Hinc Hb) as (hs & kvs' & Hh & Hinv' & Hc').
  exists kvs'. simpl. rewrite Hh. split; [done|]. split.
  - rewrite Hc'. simpl. rewrite applyUpdates_eq. unfold ledger_of. rewrite fmap_app. simpl.
    rewrite ledger_state_snoc. apply meta_writes, Hst.
  - right. eexists _, b. rewrite last_snoc. split_and!; [done..|by rewrite Hc'|].
    by rewrite Hc'.
Qed.

Lemma rev_run_state len ops : ∀ bs kvs,
  rev_state len bs kvs → increasing (ledger_of (bs ++ delivered ops)) →
  Forall (λ b, 0 ≤ b_Number b) (delivered ops) →
  ∃ kvs', rev_run ops kvs = Done kvs' ∧ rev_state len (bs ++ delivered ops) kvs'.
Proof.
  induction ops as [|[b|n] ops IH]; intros bs kvs Hst Hinc Hpos; cbn [rev_run].
  - exists kvs. by rewrite app_nil_r.
  - change (delivered (OpHandle b :: ops)) with (b :: delivered ops) in *.
    rewrite cons_middle, app_assoc in *. apply Forall_cons in Hpos as [Hb Hpos].
    destruct (rev_state_handle len bs b kvs) as (kvs1 & -> & H1); [done| |done|by apply IH].
    unfold ledger_of in *. rewrite fmap_app in Hinc. by apply StronglySorted_app_1_l in Hinc.
  - destruct (rev_state_revert len bs kvs n Hst) as (kvs1 & -> & H1). by apply IH.
Qed.

Lemma NewRevertible_state h kvs0 :
  0 ≤ h < 2 ^ 32 → NewLightKVS h = Done kvs0 →
  rev_state (Z.to_nat h) [] (NewRevertibleLightKVS kvs0).
Proof.
  unfold NewLightKVS. intros Hh. destruct (Z.ltb_spec h 0); [lia|]. intros [= <-].
  split; [done|]. left. split_and!; [done| |done]. constructor; simpl.
  - lia.
  - lia.
  - unfold slots. simpl. by rewrite Nat.sub_0_r.
  - done.
  - by repeat constructor.
  - done.
Qed.

(** Versions follow the ledger across reverts.  Run any interleaving of
    block deliveries (numbers increasing, as the ledger produces them) and
    reverts, successful or not: nothing panics, and every key's version info
    (version, block, transaction, id) is that of a store that never reverted.
    So an endorsement simulated after a revert carries the versions the
    committer holds. *)
Theorem revertible_versions_track h ops kvs0 :
  0 ≤ h < 2 ^ 32 → NewLightKVS h = Done kvs0 →
  increasing (ledger_of (delivered ops)) →
  Forall (λ b, 0 ≤ b_Number b) (delivered ops) →
  ∃ kvs, rev_run ops (NewRevertibleLightKVS kvs0) = Done kvs ∧
    ∀ k, meta <$> sn_Data (Current kvs) !! k =
         meta <$> ledger_state (ledger_of (delivered ops)) !! k.
Proof.
  intros Hh H0 Hinc Hpos.
  destruct (rev_run_state (Z.to_nat h) ops [] (NewRevertibleLightKVS kvs0)) as (kvs & Hr & Hm & _);
    [by apply NewRevertible_state|done..|].
  exists kvs. split; [done|]. intros k. by rewrite <-!lookup_fmap, Hm.
Qed.

(** ** A revert restores what was visible *)

(** What a snapshot request shows of a key; [None] if it is refused. *)
Definition view (r : result Z Reader) (k : string) : option (option byte_slice) :=
  match r with
  | Ok {| r_Snapshot := Some s |} => Some (visible (sn_Data s !! k))
  | _ => None
  end.

Lemma scan_ignore m hs l :
  Forall (λ s, m < sn_BlockNumber s) l →
  scanHistory m (Some <$> (hs ++ l)) = scanHistory m (Some <$> hs).
Proof.
  induction l as [|s l IH] using rev_ind; intros Hl; [by rewrite app_nil_r|].
  rewrite app_assoc, scan_snoc. apply Forall_app in Hl as [Hl Hs]. apply Forall_cons in Hs as [Hs _].
  rewrite IH by done. destruct (scanHistory m (Some <$> hs)) as [e b]. simpl.
  destruct (Z.eqb_spec (sn_BlockNumber s) m); [lia|].
  by destruct (Z.ltb_spec (sn_BlockNumber s) m); [lia|].
Qed.

Lemma scan_exact len hs kvs n s :
  rev_inv len hs kvs → Some s ∈ History kvs → sn_BlockNumber s = n →
  ∃ i t, (scanHistory n (History kvs)).1 = Some (i, t) ∧ hs !! i = Some t ∧ sn_BlockNumber t = n.
Proof.
  intros Hinv Hin Hn. rewrite (ri_hist _ _ _ Hinv) in Hin |- *. rewrite scan_slots.
  unfold slots in Hin. apply elem_of_app in Hin as [Hin|Hin];
    [|apply list_elem_of_lookup in Hin as [j Hj]; by apply lookup_replicate in Hj as [? _]].
  apply list_elem_of_fmap in Hin as (s' & [= <-] & Hin).
  pose proof (scan_spec n hs) as Hsp. destruct (scanHistory n (Some <$> hs)) as [[[i t]|] best].
  - destruct Hsp as (He & _). destruct (He i t eq_refl) as (? & ? & _). by exists i, t.
  - destruct Hsp as (_ & Hne & _). specialize (Hne eq_refl). rewrite Forall_forall in Hne.
    by destruct (Hne s Hin).
Qed.

Lemma RevertToBlock_view len hs kvs n s :
  rev_inv len hs kvs → Some s ∈ History kvs → sn_BlockNumber s = n →
  n < sn_BlockNumber (Current kvs) →
  ∃ kvs', RevertToBlock n kvs = Done (None, kvs') ∧ sn_BlockNumber (Current kvs') = n ∧
    ∀ m k, m ≤ n → view (rev_NewSnapshot kvs' (Some m)) k = view (rev_NewSnapshot kvs (Some m)) k.
Proof.
  intros Hinv Hin Hn Hlt. destruct (scan_exact len hs kvs n s) as (i & t & He & Hi & Ht); [done..|].
  assert (revert_target kvs n = Some (i, t)) as Htgt by (unfold revert_target; by rewrite He).
  rewrite (RevertToBlock_eq len hs), Htgt by (done || lia).
  eexists. split; [done|]. split; [done|]. intros m k Hm. unfold rev_NewSnapshot. simpl.
  destruct (Z.leb_spec (sn_BlockNumber (Current kvs)) m); [lia|].
  destruct (Z.leb_spec n m) as [Hnm|Hnm].
  - assert (m = n) as -> by lia. destruct (scanHistory n (History kvs)) as [e b].
    simpl in He. subst e. simpl. f_equal. apply mergedData_visible.
    pose proof (ri_dom _ _ _ Hinv) as Hd. rewrite Forall_forall in Hd.
    by eapply Hd, list_elem_of_lookup_2.
  - rewrite (ri_hist _ _ _ Hinv), !scan_slots.
    rewrite <-(take_drop i hs) at 2. rewrite scan_ignore; [done|].
    pose proof (ri_sorted _ _ _ Hinv) as Hs. apply StronglySorted_app_1_l in Hs.
    rewrite <-(take_drop i hs), (drop_S hs t i Hi) in Hs. rewrite (drop_S hs t i Hi).
    apply StronglySorted_app_1_r, StronglySorted_inv in Hs as [_ Hs].
    constructor; [lia|]. eapply Forall_impl; [exact Hs|]. unfold num_le. simpl. lia.
Qed.

(** A revert to a height still in the history succeeds, moves the tip to
    that height, and from then on every height up to it shows, key by key,
    exactly what it showed before: values written later are gone, deleted keys
    are back, keys created later are absent. *)
Theorem RevertToBlock_restores h ops kvs0 kvs n s :
  0 ≤ h < 2 ^ 32 → NewLightKVS h = Done kvs0 →
  increasing (ledger_of (delivered ops)) → Forall (λ b, 0 ≤ b_Number b) (delivered ops) →
  rev_run ops (NewRevertibleLightKVS kvs0) = Done kvs →
  Some s ∈ History kvs → sn_BlockNumber s = n → n < sn_BlockNumber (Current kvs) →
  ∃ kvs', RevertToBlock n kvs = Done (None, kvs') ∧ sn_BlockNumber (Current kvs') = n ∧
    ∀ m k, m ≤ n → view (rev_NewSnapshot kvs' (Some m)) k = view (rev_NewSnapshot kvs (Some m)) k.
Proof.
  intros Hh H0 Hinc Hpos Hrun Hin Hn Hlt.
  destruct (rev_run_state (Z.to_nat h) ops [] (NewRevertibleLightKVS kvs0)) as (kvs1 & Hr & _ & Hst);
    [by apply NewRevertible_state|done..|].
  rewrite Hr in Hrun. injection Hrun as ->.
  destruct Hst as [(_ & Hinv & _)|(hs & _ & _ & Hinv & _)]; by eapply RevertToBlock_view.
Qed.

(** ** Concrete instances *)

Definition rev_ops : list rev_op :=
  [OpHandle (put_block 0 "ns" "k" [7]); OpHandle (put_block 1 "ns" "k" [8]);
   OpRevert 0; OpHandle (put_block 2 "ns" "k" [9])].

Definition fresh8 : LightKVS :=
  {| Current := placeholder; History := replicate 8 None; NextIndex := 0 |}.

Lemma revertible_versions_track_witness :
  ∃ kvs, rev_run rev_ops (NewRevertibleLightKVS fresh8) = Done kvs ∧
    ∀ k, meta <$> sn_Data (Current kvs) !! k =
         meta <$> ledger_state (ledger_of (delivered rev_ops)) !! k.
Proof.
  apply (revertible_versions_track 8 rev_ops fresh8).
  - split; [discriminate|reflexivity].
  - reflexivity.
  - repeat constructor.
  - repeat constructor; discriminate.
Defined.

Lemma RevertToBlock_restores_witness :
  match rev_run (take 2 rev_ops) (NewRevertibleLightKVS fresh8) with
  | Done kvs =>
      ∃ kvs', RevertToBlock 0 kvs = Done (None, kvs') ∧ sn_BlockNumber (Current kvs') = 0 ∧
      ∀ m k, m ≤ 0 → view (rev_NewSnapshot kvs' (Some m)) k = view (rev_NewSnapshot kvs (Some m)) k
  | Panic _ => False
  end.
Proof.
  destruct (rev_run _ _) as [kvs|] eqn:Hr; [|discriminate Hr].
  apply (RevertToBlock_restores 8 (take 2 rev_ops) fresh8 kvs 0
           {| sn_BlockNumber := 0; sn_Data := writes ∅ (blockUpdates (put_block 0 "ns" "k" [7]));
              sn_Placeholder := false |}).
  - split; [discriminate|reflexivity].
  - reflexivity.
  - repeat constructor.
  - repeat constructor; discriminate.
  - exact Hr.
  - vm_compute in Hr. injection Hr as <-. vm_compute. right. left.
  - reflexivity.
  - vm_compute in Hr. injection Hr as <-. reflexivity.
Defined.

(** Blocks 1 and 2, a revert to 1, then block 4: heights 2 and 3 are gaps. *)
Definition gap_ops : list rev_op :=
  [OpHandle (put_block 1 "ns" "k" [7]); OpHandle (put_block 2 "ns" "k" [8]);
   OpRevert 1; OpHandle (put_block 4 "ns" "k" [9])].

Definition view_after (ops : list rev_op) (n : Z) (k : string) : option (option byte_slice) :=
  match rev_run ops (NewRevertibleLightKVS fresh8) with
  | Done kvs => view (rev_NewSnapshot kvs (Some n)) k
  | Panic _ => None
  end.

(** Reverting to a gap height drops the snapshot it falls back to from the
    history: height 1 showed the value block 1 wrote, and after the revert to 3
    shows the empty pre-genesis store. *)
Theorem RevertToBlock_fallback_forgets :
  view_after gap_ops 1 "ns:k" = Some (Some [7]) ∧
  view_after (gap_ops ++ [OpRevert 3]) 3 "ns:k" = Some (Some [7]) ∧
  view_after (gap_ops ++ [OpRevert 3]) 1 "ns:k" = Some None.
Proof. split_and!; reflexivity. Qed.

(** The fallback takes the first of two snapshots with the same number: after
    block 0, block 1, a revert to 0 and block 2, height 1 shows the pre-genesis
    placeholder instead of the state of block 0. *)
Theorem NewSnapshot_fallback_first_zero :
  view_after rev_ops 0 "ns:k" = Some (Some [7]) ∧
  view_after rev_ops 1 "ns:k" = Some None.
Proof. split; reflexivity. Qed.
