(* ===== verification/Codec.v ===== *)
(** * Codec: byte encodings of integers

    The integer encodings the repository uses: fixed-width big endian
    ([encoding/binary]), minimal big endian ([math/big]'s [Bytes]), and the
    helpers of endorser/execution/statedb.go built on them. *)

From Stdlib Require Import ZArith Lia Ascii.
From stdpp Require Import base numbers list list_numbers strings.
From S2P Require Import Prelude.

Local Open Scope Z_scope.

(** ** Big endian *)

(** [n] bytes of [z], most significant first. *)
Definition be_fixed (n : Z) (z : Z) : byte_slice := reverse (Z_to_little_endian n 8 z).

(** The number a big-endian byte string denotes ([big.Int.SetBytes]). *)
Definition be_value (b : byte_slice) : Z := little_endian_to_Z 8 (reverse b).

(** The minimal number of bytes of a non-negative integer. *)
Definition byte_len (z : Z) : Z := if z =? 0 then 0 else Z.log2 z / 8 + 1.

(** [big.Int.Bytes]: no leading zero byte, empty for 0. *)
Definition be_min (z : Z) : byte_slice := be_fixed (byte_len z) z.

(** ** The helpers of statedb.go *)

Definition u256 (z : Z) : Z := z mod 2 ^ 256.
Definition is_u256 (z : Z) : Prop := 0 ≤ z < 2 ^ 256.

Definition uint256ToBytes (u : Z) : byte_slice := be_min u.

(** [uint256.FromBig] keeps the low 256 bits. *)
Definition bytesToUint256 (b : byte_slice) : Z :=
  match b with [] => 0 | _ => u256 (be_value b) end.

Definition uint64ToBytes (val : Z) : byte_slice := be_fixed 8 val.

(** [binary.BigEndian.Uint64] reads the first eight bytes and panics when there
    are fewer; the empty slice is tested first. *)
Definition bytesToUint64 (b : byte_slice) : outcome Z :=
  match b with
  | [] => Done 0
  | _ => if (length b <? 8)%nat then Panic "index out of range"
         else Done (be_value (take 8 b))
  end.

(** ** Lemmas *)

Lemma is_byte_pow l : is_bytes l ↔ Forall (λ b, 0 ≤ b < 2 ^ 8) l.
Proof. done. Qed.

Lemma be_fixed_length n z : 0 ≤ n → length (be_fixed n z) = Z.to_nat n.
Proof.
  intros Hn. unfold be_fixed. rewrite length_reverse.
  pose proof (length_Z_to_little_endian n 8 z Hn). lia.
Qed.

Lemma be_fixed_bytes n z : 0 ≤ n → is_bytes (be_fixed n z).
Proof.
  intros Hn. unfold be_fixed, is_bytes. apply Forall_reverse.
  apply (Z_to_little_endian_bound n 8 z); lia.
Qed.

Lemma be_value_fixed n z : 0 ≤ n → be_value (be_fixed n z) = z mod 2 ^ (8 * n).
Proof.
  intros Hn. unfold be_value, be_fixed. rewrite reverse_involutive.
  rewrite little_endian_to_Z_to_little_endian by lia. f_equal. f_equal. lia.
Qed.

Lemma be_fixed_value b :
  is_bytes b → be_fixed (Z.of_nat (length b)) (be_value b) = b.
Proof.
  intros Hb. unfold be_fixed, be_value.
  rewrite Z_to_little_endian_to_Z; [apply reverse_involutive| |lia|].
  - by rewrite length_reverse.
  - by apply Forall_reverse.
Qed.

Lemma be_value_range b :
  is_bytes b → 0 ≤ be_value b < 2 ^ (8 * Z.of_nat (length b)).
Proof.
  intros Hb. unfold be_value.
  pose proof (little_endian_to_Z_bound 8 (reverse b) ltac:(lia)) as H.
  rewrite length_reverse in H. rewrite Z.mul_comm. apply H. by apply Forall_reverse.
Qed.

Lemma byte_len_nonneg z : 0 ≤ byte_len z.
Proof.
  unfold byte_len. destruct (Z.eqb_spec z 0); [lia|].
  pose proof (Z.log2_nonneg z). pose proof (Z.div_pos (Z.log2 z) 8). lia.
Qed.

Lemma byte_len_bound z : 0 ≤ z → z < 2 ^ (8 * byte_len z).
Proof.
  intros Hz. unfold byte_len. destruct (Z.eqb_spec z 0) as [->|Hne]; [done|].
  apply Z.log2_lt_pow2; [lia|]. pose proof (Z.mod_pos_bound (Z.log2 z) 8 ltac:(lia)).
  pose proof (Z.div_mod (Z.log2 z) 8 ltac:(lia)). lia.
Qed.

Lemma be_value_min z : 0 ≤ z → be_value (be_min z) = z.
Proof.
  intros Hz. unfold be_min. rewrite be_value_fixed by apply byte_len_nonneg.
  apply Z.mod_small. split; [done|by apply byte_len_bound].
Qed.

Lemma be_min_nil z : 0 ≤ z → be_min z = [] ↔ z = 0.
Proof.
  intros Hz. split; [|by intros ->].
  intros H. rewrite <-(be_value_min z Hz), H. done.
Qed.

Lemma uint256_roundtrip u : is_u256 u → bytesToUint256 (uint256ToBytes u) = u.
Proof.
  intros Hu. unfold bytesToUint256, uint256ToBytes.
  destruct (be_min u) eqn:E; [symmetry; apply be_min_nil in E; [done|apply Hu]|].
  rewrite <-E, be_value_min by apply Hu. apply Z.mod_small, Hu.
Qed.

Lemma bytesToUint256_range b : is_u256 (bytesToUint256 b).
Proof.
  unfold bytesToUint256, u256, is_u256. destruct b; [lia|]. apply Z.mod_pos_bound. lia.
Qed.

Lemma uint64_roundtrip v : is_u64 v → bytesToUint64 (uint64ToBytes v) = Done v.
Proof.
  intros Hv. unfold bytesToUint64, uint64ToBytes.
  pose proof (be_fixed_length 8 v ltac:(lia)) as Hl.
  destruct (be_fixed 8 v) eqn:E; [done|]. rewrite <-E, be_fixed_length by lia.
  destruct (Nat.ltb_spec (Z.to_nat 8) 8) as [?|_]; [lia|].
  rewrite take_ge by (rewrite be_fixed_length; lia). rewrite be_value_fixed by lia.
  f_equal. apply Z.mod_small, Hv.
Qed.

#[export] Hint Resolve bytesToUint256_range be_fixed_bytes : gomachine.

(** ** Strings as byte slices

    [[]byte(s)] and [string(b)]: one character per byte. *)

Definition str_bytes (s : string) : byte_slice :=
  (λ c, Z.of_N (N_of_ascii c)) <$> String.list_ascii_of_string s.

Definition bytes_str (b : byte_slice) : string :=
  String.string_of_list_ascii ((λ z, ascii_of_N (Z.to_N z)) <$> b).

Lemma bytes_str_bytes s : bytes_str (str_bytes s) = s.
Proof.
  unfold bytes_str, str_bytes. rewrite <-list_fmap_compose.
  rewrite <-(String.string_of_list_ascii_of_string s) at 2. f_equal.
  induction (String.list_ascii_of_string s) as [|c l IH]; [done|]. rewrite fmap_cons, IH. f_equal.
  simpl. by rewrite N2Z.id, ascii_N_embedding.
Qed.

#[export] Instance str_bytes_inj : Inj (=) (=) str_bytes.
Proof. intros s t H. rewrite <-(bytes_str_bytes s), <-(bytes_str_bytes t). by rewrite H. Qed.

Lemma bytes_str_length b : String.length (bytes_str b) = length b.
Proof. induction b as [|x b IH]; [done|]. exact (f_equal S IH). Qed.

(** [hex.DecodeString]: an even number of hexadecimal digits of either case. *)
Definition hex_digit (c : ascii) : option Z :=
  let n := Z.of_N (N_of_ascii c) in
  if (48 <=? n) && (n <=? 57) then Some (n - 48)
  else if (97 <=? n) && (n <=? 102) then Some (n - 87)
  else if (65 <=? n) && (n <=? 70) then Some (n - 55)
  else None.

Fixpoint hex_DecodeString (s : string) : option byte_slice :=
  match s with
  | EmptyString => Some []
  | String a (String b s) =>
      x ← hex_digit a; y ← hex_digit b; rest ← hex_DecodeString s; Some (16 * x + y :: rest)
  | String _ EmptyString => None
  end.

(** [hex.EncodeToString]. *)
Definition hex_char (z : Z) : ascii :=
  ascii_of_N (Z.to_N (if z <? 10 then z + 48 else z + 87)).

Definition hex_EncodeToString (l : byte_slice) : string :=
  foldr (λ b s, String (hex_char (b / 16)) (String (hex_char (b mod 16)) s)) EmptyString l.

Lemma hex_digit_char z : 0 ≤ z < 16 → hex_digit (hex_char z) = Some z.
Proof.
  intros H. assert (Forall (λ z, hex_digit (hex_char z) = Some z) (seqZ 0 16)) as Hf
    by (vm_compute; repeat constructor).
  rewrite Forall_forall in Hf. apply Hf, elem_of_seqZ. lia.
Qed.

Lemma hex_decode_encode l :
  Forall (λ b, 0 ≤ b < 256) l → hex_DecodeString (hex_EncodeToString l) = Some l.
Proof.
  induction 1 as [|b l Hb _ IH]; [done|].
  change (hex_EncodeToString (b :: l)) with
    (String (hex_char (b / 16)) (String (hex_char (b mod 16)) (hex_EncodeToString l))).
  cbn [hex_DecodeString].
  pose proof (Z.mod_pos_bound b 16 ltac:(lia)). pose proof (Z.div_mod b 16 ltac:(lia)) as Hd.
  rewrite (hex_digit_char (b / 16)) by lia. rewrite (hex_digit_char (b mod 16)) by lia. rewrite IH. simpl. do 2 f_equal. lia.
Qed.

Lemma hex_Encode_length l : String.length (hex_EncodeToString l) = (2 * length l)%nat.
Proof. induction l as [|b l IH]; [done|]. simpl in *. rewrite IH. lia. Qed.
