(* ===== verification/PebbleCodec.v ===== *)
(** * PebbleCodec: the byte layouts of the persistent store

    The key and value encodings of endorser/storage/pebblekvs.go (lines 632 to
    818) and the part of [encoding/binary] they use, with the round trips and
    the order they rely on: keys are compared byte by byte, and a history key
    carries the complement of its block number so that newer records sort
    first. *)

From Stdlib Require Import ZArith Lia Ascii String.
From stdpp Require Import base numbers list strings.
From S2P Require Import Prelude Blocks KVSpec Codec.

Local Open Scope Z_scope.

(** ** Varints ([encoding/binary]) *)

(** [binary.AppendUvarint]'s loop: seven bits at a time, least significant
    first, the high bit set on all bytes but the last.  Ten rounds cover 64
    bits. *)
Fixpoint uvarint (fuel : nat) (v : Z) : byte_slice :=
  match fuel with
  | O => []
  | S fuel => if v <? 128 then [v] else Z.lor (v mod 256) 128 :: uvarint fuel (Z.shiftr v 7)
  end.

Definition AppendUvarint (buf : byte_slice) (v : Z) : byte_slice := buf ++ uvarint 10 v.

(** [binary.Uvarint]: the value and the number of bytes read; 0 when the buffer
    is too short, negative when the value overflows. *)
Fixpoint Uvarint_loop (buf : byte_slice) (i x s : Z) : Z * Z :=
  match buf with
  | [] => (0, 0)
  | b :: buf =>
      if i =? 10 then (0, - (i + 1))
      else if b <? 128 then
        if (i =? 9) && (1 <? b) then (0, - (i + 1))
        else (Z.lor x (u64 (Z.shiftl b s)), i + 1)
      else Uvarint_loop buf (i + 1) (Z.lor x (u64 (Z.shiftl (Z.land b 127) s))) (s + 7)
  end.

Definition Uvarint (buf : byte_slice) : Z * Z := Uvarint_loop buf 0 0 0.

(** ** Keys *)

Definition prefixData : Z := 100.     (* 'd' *)
Definition prefixHistory : Z := 104.  (* 'h' *)
Definition prefixIndex : Z := 105.    (* 'i' *)
Definition prefixMeta : Z := 109.     (* 'm' *)

Definition metaBlockKey : byte_slice := prefixMeta :: str_bytes "block".
Definition metaOldestKey : byte_slice := prefixMeta :: str_bytes "oldest".

Definition u64be (v : Z) : byte_slice := be_fixed 8 v.

(** [^v] on a [uint64]. *)
Definition u64_not (v : Z) : Z := u64_max - v.

(** [uint32(len(fullKey))] truncates. *)
Definition keyForState (prefix : Z) (k : string) : byte_slice :=
  [prefix] ++ be_fixed 4 (Z.of_nat (String.length k) mod 2 ^ 32) ++ str_bytes k.

Definition dataKey (k : string) : byte_slice := keyForState prefixData k.
Definition historyPrefix (k : string) : byte_slice := keyForState prefixHistory k.

Definition historyKey (k : string) (block tx : Z) : byte_slice :=
  historyPrefix k ++ u64be (u64_not block) ++ u64be (u64_not tx).

Definition indexKey (block : Z) (histKey : byte_slice) : byte_slice :=
  [prefixIndex] ++ u64be block ++ histKey.

(** A key of nine bytes or fewer is corrupt. *)
Definition parseIndexKey (k : byte_slice) : option (Z * byte_slice) :=
  if (length k <=? 9)%nat then None
  else Some (be_value (take 8 (drop 1 k)), drop 9 k).

(** ** Values *)

Definition flagIsDelete : Z := 1.
Definition flagValueNonNil : Z := 2.

(** [record] has the fields of [ValueVersion]. *)
Definition encodeRecord (r : ValueVersion) : byte_slice :=
  let flags := if vv_IsDelete r then flagIsDelete else 0 in
  let flags := match vv_Value r with Some _ => Z.lor flags flagValueNonNil | None => flags end in
  let buf := [flags] in
  let buf := AppendUvarint buf (vv_BlockNum r) in
  let buf := AppendUvarint buf (vv_TxNum r) in
  let buf := AppendUvarint buf (vv_Version r) in
  let buf := AppendUvarint buf (u64 (Z.of_nat (String.length (vv_TxID r)))) in
  let buf := buf ++ str_bytes (vv_TxID r) in
  match vv_Value r with
  | Some v => AppendUvarint buf (u64 (Z.of_nat (length v))) ++ v
  | None => buf
  end.

Inductive decode_error :=
| CorruptEmpty | CorruptBlockNum | CorruptTxNum | CorruptVersion
| CorruptTxIDLen | TxIDOverrun | CorruptValueLen | ValueOverrun.

(** Addition on Go's [int]. *)
Definition int_add (a b : Z) : Z := int_of_u64 (u64 (a + b)).

(** [raw[lo:hi]] where [hi <= len(raw)] was checked: panics unless [lo <= hi]. *)
Definition reslice (raw : byte_slice) (lo hi : Z) : outcome byte_slice :=
  if hi <? lo then Panic "slice bounds out of range"
  else Done (take (Z.to_nat (hi - lo)) (drop (Z.to_nat lo) raw)).

(** The value part of [decodeRecord], from [pos].  A length that passes the test
    only because the addition wrapped makes [make] panic. *)
Definition decodeValue (flags : Z) (raw : byte_slice) (pos : Z)
    : outcome (result decode_error (option byte_slice)) :=
  if Z.land flags flagValueNonNil =? 0 then Done (Ok None)
  else
    let '(valLen, n) := Uvarint (drop (Z.to_nat pos) raw) in
    if n <=? 0 then Done (Err CorruptValueLen)
    else
      let pos := pos + n in
      let hi := int_add pos (int_of_u64 valLen) in
      if Z.of_nat (length raw) <? hi then Done (Err ValueOverrun)
      else if hi <? pos then Panic "makeslice: len out of range"
      else Done (Ok (Some (take (Z.to_nat (hi - pos)) (drop (Z.to_nat pos) raw)))).

Definition decodeRecord (raw : byte_slice) : outcome (result decode_error WriteRecord) :=
  match raw with
  | [] => Done (Err CorruptEmpty)
  | flags :: _ =>
      let pos := 1 in
      let '(blockNum, n) := Uvarint (drop (Z.to_nat pos) raw) in
      if n <=? 0 then Done (Err CorruptBlockNum) else
      let pos := pos + n in
      let '(txNum, n) := Uvarint (drop (Z.to_nat pos) raw) in
      if n <=? 0 then Done (Err CorruptTxNum) else
      let pos := pos + n in
      let '(version, n) := Uvarint (drop (Z.to_nat pos) raw) in
      if n <=? 0 then Done (Err CorruptVersion) else
      let pos := pos + n in
      let '(txIDLen, n) := Uvarint (drop (Z.to_nat pos) raw) in
      if n <=? 0 then Done (Err CorruptTxIDLen) else
      let pos := pos + n in
      let hi := int_add pos (int_of_u64 txIDLen) in
      if Z.of_nat (length raw) <? hi then Done (Err TxIDOverrun) else
      match reslice raw pos hi with
      | Panic msg => Panic msg
      | Done txID =>
          match decodeValue flags raw hi with
          | Panic msg => Panic msg
          | Done (Err e) => Done (Err e)
          | Done (Ok value) =>
              Done (Ok {| wr_Namespace := ""; wr_Key := ""; wr_BlockNum := blockNum;
                          wr_TxNum := txNum; wr_Version := version; wr_Value := value;
                          wr_IsDelete := negb (Z.land flags flagIsDelete =? 0);
                          wr_TxID := bytes_str txID |})
          end
      end
  end.

Lemma str_bytes_length s : length (str_bytes s) = String.length s.
Proof. unfold str_bytes. rewrite length_fmap. by induction s; simpl; f_equal. Qed.

(** ** Varint round trip *)

Lemma lor_shiftl x b s : 0 ≤ s → 0 ≤ x < 2 ^ s → 0 ≤ b → Z.lor x (Z.shiftl b s) = x + b * 2 ^ s.
Proof.
  intros Hs Hx Hb. rewrite <-Z.shiftl_mul_pow2 by done. rewrite <-Z.add_lor_land.
  assert (Z.land x (Z.shiftl b s) = 0) as ->; [|lia].
  apply Z.bits_inj'. intros n Hn. rewrite Z.land_spec, Z.bits_0, Z.shiftl_spec by done.
  destruct (Z.lt_ge_cases n s).
  - rewrite (Z.testbit_neg_r b) by lia. apply andb_false_r.
  - assert (Z.testbit x n = false) as ->; [|done].
    destruct (Z.eq_dec x 0) as [->|Hne]; [apply Z.bits_0|]. apply Z.bits_above_log2; [lia|].
    apply Z.log2_lt_pow2; [lia|]. apply Z.lt_le_trans with (2 ^ s); [lia|]. apply Z.pow_le_mono_r; lia.
Qed.

Lemma low_bits v : 0 ≤ v → Z.land (Z.lor (v mod 256) 128) 127 = v mod 128 ∧ 128 ≤ Z.lor (v mod 256) 128.
Proof.
  intros Hv. split.
  - rewrite Z.land_lor_distr_l. change (Z.land 128 127) with 0. rewrite Z.lor_0_r.
    change 127 with (Z.ones 7). rewrite Z.land_ones by lia. change (2 ^ 7) with 128.
    Z.to_euclidean_division_equations. lia.
  - pose proof (Z.add_lor_land (v mod 256) 128) as H.
    assert (Z.land (v mod 256) 128 ≤ v mod 256) as Hle; [|lia].
    pose proof (Z.mod_pos_bound v 256 ltac:(lia)).
    apply (Z.ldiff_le (Z.land (v mod 256) 128) (v mod 256)); [lia|].
    apply Z.bits_inj'. intros n Hn. rewrite Z.ldiff_spec, Z.land_spec, Z.bits_0.
    by destruct (Z.testbit (v mod 256) n), (Z.testbit 128 n).
Qed.

Lemma Uvarint_loop_uvarint fuel : ∀ i v x rest,
  Z.of_nat fuel = 10 - i → 0 ≤ i < 10 → 0 ≤ v < 2 ^ (64 - 7 * i) → 0 ≤ x < 2 ^ (7 * i) →
  Uvarint_loop (uvarint fuel v ++ rest) i x (7 * i) =
  (x + v * 2 ^ (7 * i), i + Z.of_nat (length (uvarint fuel v))).
Proof.
  induction fuel as [|fuel IH]; intros i v x rest Hf Hi Hv Hx; [lia|]. simpl.
  assert (2 ^ (7 * i) * 2 ^ (64 - 7 * i) = 2 ^ 64) as Hpow by (rewrite <-Z.pow_add_r by lia; f_equal; lia).
  assert (0 < 2 ^ (7 * i)) as Hpos by (apply Z.pow_pos_nonneg; lia).
  assert (∀ b, 0 ≤ b ≤ v → u64 (Z.shiftl b (7 * i)) = Z.shiftl b (7 * i)) as Hu.
  { intros b Hb. apply u64_small. rewrite Z.shiftl_mul_pow2 by lia. unfold is_u64. nia. }
  destruct (Z.ltb_spec v 128) as [Hlt|Hge]; simpl.
  - rewrite (proj2 (Z.eqb_neq i 10)) by lia. rewrite (proj2 (Z.ltb_lt v 128)) by lia.
    assert ((i =? 9) && (1 <? v) = false) as ->.
    { destruct (Z.eqb_spec i 9) as [->|]; [|done]. simpl. apply Z.ltb_ge. change (2 ^ (64 - 7 * 9)) with 2 in Hv. lia. }
    rewrite Hu, lor_shiftl by lia. f_equal; lia.
  - destruct (low_bits v ltac:(lia)) as [Hl Hg].
    rewrite (proj2 (Z.eqb_neq i 10)) by lia. rewrite (proj2 (Z.ltb_ge _ 128)) by lia.
    rewrite Hl. pose proof (Z.mod_pos_bound v 128 ltac:(lia)). pose proof (Z.mod_le v 128 ltac:(lia) ltac:(lia)).
    rewrite Hu, lor_shiftl by lia.
    assert (i ≠ 9) by (intros ->; change (2 ^ (64 - 7 * 9)) with 2 in Hv; lia).
    replace (7 * i + 7) with (7 * (i + 1)) by lia.
    assert (2 ^ (7 * (i + 1)) = 2 ^ (7 * i) * 128) as Hp1.
    { replace (7 * (i + 1)) with (7 * i + 7) by lia. by rewrite Z.pow_add_r by lia. }
    assert (2 ^ (64 - 7 * i) = 2 ^ (64 - 7 * (i + 1)) * 128) as Hp2.
    { replace (64 - 7 * i) with ((64 - 7 * (i + 1)) + 7) by lia. by rewrite Z.pow_add_r by lia. }
    rewrite Z.shiftr_div_pow2 by lia. change (2 ^ 7) with 128.
    pose proof (Z.div_mod v 128 ltac:(lia)). rewrite IH; [|lia|lia| |nia].
    + rewrite Hp1. f_equal; [nia|lia].
    + split; [apply Z.div_pos; lia|]. apply Z.div_lt_upper_bound; lia.
Qed.

Lemma Uvarint_uvarint v rest :
  is_u64 v → Uvarint (uvarint 10 v ++ rest) = (v, Z.of_nat (length (uvarint 10 v))).
Proof.
  intros Hv. unfold Uvarint. replace 0 with (7 * 0) at 2 by done. rewrite Uvarint_loop_uvarint; [|lia|lia|done|done].
  f_equal; lia.
Qed.

Lemma uvarint_pos n v : 0 < Z.of_nat (length (uvarint (S n) v)).
Proof. simpl. destruct (v <? 128); simpl; lia. Qed.

Lemma uvarint_length n : ∀ v, (length (uvarint n v) ≤ n)%nat.
Proof.
  induction n as [|n IH]; intros v; [done|]. simpl. specialize (IH (Z.shiftr v 7)).
  destruct (v <? 128); simpl; lia.
Qed.

#[global] Opaque uvarint.

(** Reading a varint in the middle of a buffer. *)
Lemma Uvarint_at raw pre v rest pos :
  raw = pre ++ uvarint 10 v ++ rest → pos = Z.of_nat (length pre) → is_u64 v →
  Uvarint (drop (Z.to_nat pos) raw) = (v, Z.of_nat (length (uvarint 10 v))) ∧
  (Z.of_nat (length (uvarint 10 v)) <=? 0) = false ∧
  pos + Z.of_nat (length (uvarint 10 v)) = Z.of_nat (length (pre ++ uvarint 10 v)).
Proof.
  intros -> -> Hv. rewrite Nat2Z.id, drop_app_length, Uvarint_uvarint by done.
  pose proof (uvarint_pos 9 v). rewrite length_app. split_and!; [done|apply Z.leb_gt; lia|lia].
Qed.

(** ** Record round trip *)

(** The integer fields fit their type and the encoding fits in a slice, whose
    length is an [int]. *)
Definition record_ok (r : ValueVersion) : Prop :=
  is_u64 (vv_BlockNum r) ∧ is_u64 (vv_TxNum r) ∧ is_u64 (vv_Version r) ∧
  Z.of_nat (length (encodeRecord r)) < 2 ^ 63.

Definition record_flags (r : ValueVersion) : Z :=
  match vv_Value r with
  | Some _ => Z.lor (if vv_IsDelete r then flagIsDelete else 0) flagValueNonNil
  | None => if vv_IsDelete r then flagIsDelete else 0
  end.

Definition value_tail (v : option byte_slice) : byte_slice :=
  match v with Some v => uvarint 10 (u64 (Z.of_nat (length v))) ++ v | None => [] end.

Lemma encodeRecord_eq r :
  encodeRecord r =
  ((((([record_flags r] ++ uvarint 10 (vv_BlockNum r)) ++ uvarint 10 (vv_TxNum r)) ++
    uvarint 10 (vv_Version r)) ++ uvarint 10 (u64 (Z.of_nat (String.length (vv_TxID r))))) ++
    str_bytes (vv_TxID r)) ++ value_tail (vv_Value r).
Proof.
  unfold encodeRecord, AppendUvarint, record_flags, value_tail. destruct (vv_Value r).
  - by rewrite <-!app_assoc.
  - by rewrite app_nil_r.
Qed.

(** Records of reasonable size fit. *)
Lemma record_ok_bound r :
  is_u64 (vv_BlockNum r) → is_u64 (vv_TxNum r) → is_u64 (vv_Version r) →
  Z.of_nat (String.length (vv_TxID r)) + Z.of_nat (slice_len (vv_Value r)) < 2 ^ 62 → record_ok r.
Proof.
  intros HB HT HV Hlen. split_and!; [done..|]. rewrite encodeRecord_eq, !length_app, str_bytes_length.
  pose proof (uvarint_length 10 (vv_BlockNum r)). pose proof (uvarint_length 10 (vv_TxNum r)).
  pose proof (uvarint_length 10 (vv_Version r)).
  pose proof (uvarint_length 10 (u64 (Z.of_nat (String.length (vv_TxID r))))).
  assert (length (value_tail (vv_Value r)) ≤ 10 + slice_len (vv_Value r))%nat.
  { unfold value_tail, slice_len. destruct (vv_Value r) as [v|]; simpl; [|lia]. rewrite length_app.
    pose proof (uvarint_length 10 (u64 (Z.of_nat (length v)))). lia. }
  cbn [length]. lia.
Qed.

Lemma record_flags_bits r :
  negb (Z.land (record_flags r) flagIsDelete =? 0) = vv_IsDelete r ∧
  (Z.land (record_flags r) flagValueNonNil =? 0) = match vv_Value r with Some _ => false | None => true end.
Proof. unfold record_flags. by destruct (vv_IsDelete r), (vv_Value r). Qed.

(** A length that fits in what is left of the slice survives the conversions. *)
Lemma int_add_len pos n total :
  0 ≤ pos → pos + Z.of_nat n ≤ total → total < 2 ^ 63 →
  int_add pos (int_of_u64 (u64 (Z.of_nat n))) = pos + Z.of_nat n ∧
  (total <? pos + Z.of_nat n) = false ∧ (pos + Z.of_nat n <? pos) = false.
Proof.
  intros Hp Hn Ht. unfold int_add, int_of_u64. rewrite (u64_small (Z.of_nat n)) by (unfold is_u64; lia).
  rewrite (proj2 (Z.ltb_lt (Z.of_nat n) _)) by lia. rewrite u64_small by (unfold is_u64; lia).
  rewrite (proj2 (Z.ltb_lt _ (2 ^ 63))) by lia. split_and!; [done|apply Z.ltb_ge; lia|apply Z.ltb_ge; lia].
Qed.

Lemma decodeValue_tail flags pre v pos :
  pos = Z.of_nat (length pre) → Z.of_nat (length (pre ++ value_tail v)) < 2 ^ 63 →
  (Z.land flags flagValueNonNil =? 0) = match v with Some _ => false | None => true end →
  decodeValue flags (pre ++ value_tail v) pos = Done (Ok v).
Proof.
  intros Hpos Hlen Hf. unfold decodeValue. rewrite Hf. destruct v as [v|]; [|done]. simpl in *.
  set (L := u64 (Z.of_nat (length v))). assert (is_u64 L) as HL by apply u64_range.
  set (raw := pre ++ uvarint 10 L ++ v) in *.
  destruct (Uvarint_at raw pre L v pos eq_refl Hpos HL) as (-> & -> & Hp).
  assert (raw = (pre ++ uvarint 10 L) ++ v) as Hraw by apply app_assoc.
  destruct (int_add_len (Z.of_nat (length (pre ++ uvarint 10 L))) (length v) (Z.of_nat (length raw)))
    as (H1 & H2 & H3); [lia|rewrite Hraw, (length_app _ v); lia|done|].
  fold L in H1. rewrite Hp, H1, H2, H3. do 3 f_equal.
  rewrite Nat2Z.id, Hraw, drop_app_length. rewrite take_ge; [done|lia].
Qed.

Lemma decode_encode_record r :
  record_ok r → decodeRecord (encodeRecord r) = Done (Ok (toWriteRecord "" "" r)).
Proof.
  intros (HB & HT & HV & Hlen). pose proof (encodeRecord_eq r) as E.
  set (raw := encodeRecord r) in *. set (L := u64 (Z.of_nat (String.length (vv_TxID r)))) in *.
  set (p1 := [record_flags r] ++ uvarint 10 (vv_BlockNum r)) in *.
  set (p2 := p1 ++ uvarint 10 (vv_TxNum r)) in *. set (p3 := p2 ++ uvarint 10 (vv_Version r)) in *.
  set (p4 := p3 ++ uvarint 10 L) in *. set (p5 := p4 ++ str_bytes (vv_TxID r)) in *.
  assert (∃ rest, raw = record_flags r :: rest) as [rest Hrest].
  { rewrite E. unfold p5, p4, p3, p2, p1. rewrite <-!app_assoc. by eexists. }
  assert (is_u64 L) as HL by apply u64_range.
  destruct (Uvarint_at raw [record_flags r] (vv_BlockNum r) (uvarint 10 (vv_TxNum r) ++ uvarint 10 (vv_Version r) ++
    uvarint 10 L ++ str_bytes (vv_TxID r) ++ value_tail (vv_Value r)) 1) as (U1 & N1 & P1);
    [rewrite E; unfold p5, p4, p3, p2, p1; by rewrite <-!app_assoc|done|done|].
  destruct (Uvarint_at raw p1 (vv_TxNum r) (uvarint 10 (vv_Version r) ++
    uvarint 10 L ++ str_bytes (vv_TxID r) ++ value_tail (vv_Value r)) (Z.of_nat (length p1))) as (U2 & N2 & P2);
    [rewrite E; unfold p5, p4, p3, p2; by rewrite <-!app_assoc|done|done|].
  destruct (Uvarint_at raw p2 (vv_Version r) (uvarint 10 L ++ str_bytes (vv_TxID r) ++ value_tail (vv_Value r))
    (Z.of_nat (length p2))) as (U3 & N3 & P3); [rewrite E; unfold p5, p4, p3; by rewrite <-!app_assoc|done|done|].
  destruct (Uvarint_at raw p3 L (str_bytes (vv_TxID r) ++ value_tail (vv_Value r)) (Z.of_nat (length p3)))
    as (U4 & N4 & P4); [rewrite E; unfold p5, p4; by rewrite <-!app_assoc|done|done|].
  destruct (int_add_len (Z.of_nat (length p4)) (String.length (vv_TxID r)) (Z.of_nat (length raw)))
    as (H1 & H2 & H3); [lia| |done|].
  { rewrite E. unfold p5. rewrite !length_app, str_bytes_length. lia. }
  fold p1 p2 p3 p4 L in P1, P2, P3, P4, H1. unfold decodeRecord. rewrite Hrest at 1.
  rewrite U1, N1, P1, U2, N2, P2, U3, N3, P3, U4, N4, P4, H1, H2.
  unfold reslice. rewrite H3.
  assert (decodeValue (record_flags r) raw (Z.of_nat (length p4) + Z.of_nat (String.length (vv_TxID r))) =
    Done (Ok (vv_Value r))) as ->.
  { rewrite E. apply decodeValue_tail; [|by rewrite <-E|apply record_flags_bits].
    unfold p5. rewrite length_app, str_bytes_length. lia. }
  unfold toWriteRecord. rewrite (proj1 (record_flags_bits r)). do 3 f_equal.
  rewrite E, Nat2Z.id. unfold p5. rewrite <-app_assoc, drop_app_length.
  replace (Z.to_nat _) with (length (str_bytes (vv_TxID r))) by (rewrite str_bytes_length; lia).
  by rewrite take_app_length, bytes_str_bytes.
Qed.

(** ** Byte order *)

(** [bytes.Compare(a, b) < 0]: the order in which the database keeps its keys. *)
Fixpoint bytes_lt (a b : byte_slice) : bool :=
  match a, b with
  | _, [] => false
  | [], _ :: _ => true
  | x :: a, y :: b => (x <? y) || ((x =? y) && bytes_lt a b)
  end.

Lemma bytes_lt_irrefl a : bytes_lt a a = false.
Proof. induction a as [|x a IH]; [done|]. simpl. by rewrite Z.ltb_irrefl, Z.eqb_refl, IH. Qed.

Lemma bytes_lt_trans a : ∀ b c, bytes_lt a b = true → bytes_lt b c = true → bytes_lt a c = true.
Proof.
  induction a as [|x a IH]; intros [|y b] [|z c]; simpl; try done.
  destruct (Z.ltb_spec x y), (Z.ltb_spec y z), (Z.ltb_spec x z),
    (Z.eqb_spec x y), (Z.eqb_spec y z), (Z.eqb_spec x z); simpl; try done; try lia. apply IH.
Qed.

Lemma bytes_lt_total a : ∀ b, bytes_lt a b = false → bytes_lt b a = false → a = b.
Proof.
  induction a as [|x a IH]; intros [|y b]; simpl; try done.
  destruct (Z.ltb_spec x y), (Z.ltb_spec y x), (Z.eqb_spec x y), (Z.eqb_spec y x); simpl; try done; try lia.
  intros H1 H2. subst. f_equal. by apply IH.
Qed.

Lemma bytes_lt_app p a b : bytes_lt (p ++ a) (p ++ b) = bytes_lt a b.
Proof. induction p as [|x p IH]; [done|]. simpl. by rewrite Z.ltb_irrefl, Z.eqb_refl, IH. Qed.

Lemma bytes_lt_fixed a : ∀ b x y,
  length a = length b → bytes_lt (a ++ x) (b ++ y) = bytes_lt a b || (bool_decide (a = b) && bytes_lt x y).
Proof.
  induction a as [|c a IH]; intros [|d b] x y Hl; simpl in *; try done.
  rewrite IH by lia. destruct (Z.ltb_spec c d), (Z.eqb_spec c d); simpl; try done; try lia.
  - subst. f_equal. f_equal. apply bool_decide_ext. split; [by intros ->|by intros [=]].
  - rewrite bool_decide_eq_false_2; [done|]. by intros [=].
Qed.

Lemma le_value_snoc l x :
  is_bytes l → is_byte x →
  little_endian_to_Z 8 (l ++ [x]) = little_endian_to_Z 8 l + x * 2 ^ (8 * Z.of_nat (length l)).
Proof.
  intros Hl Hx. unfold is_byte in *. induction Hl as [|b l Hb Hl IH]; cbn [little_endian_to_Z app].
  { rewrite Z.shiftl_0_l, Z.lor_0_r. simpl. lia. }
  assert (0 ≤ little_endian_to_Z 8 l) as Hpos by (apply (little_endian_to_Z_bound 8 l); [lia|done]).
  assert (0 ≤ x * 2 ^ (8 * Z.of_nat (length l))) by (apply Z.mul_nonneg_nonneg; [lia|apply Z.pow_nonneg; lia]).
  unfold is_byte in Hb. rewrite IH, !lor_shiftl by (change (2 ^ 8) with 256; lia).
  cbn [length]. replace (8 * Z.of_nat (S (length l))) with (8 * Z.of_nat (length l) + 8) by lia.
  rewrite (Z.pow_add_r 2 (8 * Z.of_nat (length l)) 8) by lia. lia.
Qed.

Lemma be_value_cons x b :
  is_byte x → is_bytes b → be_value (x :: b) = x * 2 ^ (8 * Z.of_nat (length b)) + be_value b.
Proof.
  intros Hx Hb. unfold be_value. rewrite reverse_cons, le_value_snoc, length_reverse; [lia| |done].
  by apply Forall_reverse.
Qed.

(** On byte strings of the same length the order is that of the numbers. *)
Lemma bytes_lt_value a : ∀ b,
  length a = length b → is_bytes a → is_bytes b → bytes_lt a b = (be_value a <? be_value b).
Proof.
  induction a as [|x a IH]; intros [|y b] Hl Ha Hb; simpl in *; try done.
  apply Forall_cons in Ha as [Hx Ha], Hb as [Hy Hb]. rewrite IH by (done || lia).
  rewrite !be_value_cons by done. injection Hl as Hl. rewrite Hl.
  pose proof (be_value_range a Ha) as Ra. pose proof (be_value_range b Hb) as Rb. rewrite Hl in Ra.
  set (p := 2 ^ (8 * Z.of_nat (length b))) in *.
  destruct (Z.ltb_spec x y), (Z.eqb_spec x y), (Z.ltb_spec (be_value a) (be_value b)); simpl; symmetry;
    try lia; first [apply Z.ltb_lt; nia|apply Z.ltb_ge; nia].
Qed.

(** ** Fixed-width integers in keys *)

Lemma u64be_length v : length (u64be v) = 8%nat.
Proof. unfold u64be. by rewrite be_fixed_length. Qed.

Lemma u64be_value v : is_u64 v → be_value (u64be v) = v.
Proof. intros Hv. unfold u64be. rewrite be_value_fixed by lia. by apply Z.mod_small. Qed.

Lemma u64be_lt a b : is_u64 a → is_u64 b → bytes_lt (u64be a) (u64be b) = (a <? b).
Proof.
  intros Ha Hb. rewrite bytes_lt_value, !u64be_value; [done..| | |].
  - by rewrite !u64be_length.
  - apply be_fixed_bytes; lia.
  - apply be_fixed_bytes; lia.
Qed.

Lemma u64be_inj a b : is_u64 a → is_u64 b → u64be a = u64be b → a = b.
Proof. intros Ha Hb H. rewrite <-(u64be_value a), <-(u64be_value b), H; done. Qed.

Lemma u64_not_range v : is_u64 v → is_u64 (u64_not v).
Proof. unfold is_u64, u64_not, u64_max. lia. Qed.

(** ** Keys *)

(** A state key whose length the four-byte prefix can hold. *)
Definition key_ok (k : string) : Prop := Z.of_nat (String.length k) < 2 ^ 32.

Lemma keyForState_length p k : length (keyForState p k) = (5 + String.length k)%nat.
Proof. unfold keyForState. rewrite !length_app, be_fixed_length, str_bytes_length by lia. done. Qed.

(** The length prefix makes the encoding of state keys prefix-free. *)
Lemma keyForState_prefix p q k k' x y :
  key_ok k → key_ok k' → keyForState p k ++ x = keyForState q k' ++ y → p = q ∧ k = k' ∧ x = y.
Proof.
  intros Hk Hk' H. unfold keyForState in H. rewrite <-!app_assoc in H.
  apply app_inj_1 in H as [Hp H]; [|done]. injection Hp as ->.
  apply app_inj_1 in H as [Hlen H]; [|by rewrite !be_fixed_length by lia].
  apply (f_equal be_value) in Hlen. rewrite !be_value_fixed in Hlen by lia. unfold key_ok in *.
  change (2 ^ (8 * 4)) with (2 ^ 32) in Hlen. rewrite !Zmod_mod, !Z.mod_small in Hlen by lia.
  apply app_inj_1 in H as [H1 H2]; [|rewrite !str_bytes_length; lia]. by apply (inj str_bytes) in H1.
Qed.

Lemma dataKey_inj k k' : key_ok k → key_ok k' → dataKey k = dataKey k' → k = k'.
Proof.
  intros Hk Hk' H. apply (keyForState_prefix prefixData prefixData k k' [] []); [done..|]. by rewrite !app_nil_r.
Qed.

Lemma historyKey_inj k b t k' b' t' :
  key_ok k → key_ok k' → is_u64 b → is_u64 b' → is_u64 t → is_u64 t' →
  historyKey k b t = historyKey k' b' t' → k = k' ∧ b = b' ∧ t = t'.
Proof.
  intros Hk Hk' Hb Hb' Ht Ht' (_ & -> & H)%keyForState_prefix; [|done..].
  apply app_inj_1 in H as [H1 H2]; [|by rewrite !u64be_length].
  apply u64be_inj in H1, H2; try by apply u64_not_range. unfold u64_not in *. split_and!; [done|lia|lia].
Qed.

Lemma indexKey_inj b h b' h' : is_u64 b → is_u64 b' → indexKey b h = indexKey b' h' → b = b' ∧ h = h'.
Proof.
  intros Hb Hb' H. unfold indexKey in H. apply (inj (app [prefixIndex])) in H.
  apply app_inj_1 in H as [H1 H2]; [|by rewrite !u64be_length]. split; [by apply u64be_inj|done].
Qed.

Lemma parseIndexKey_indexKey b h :
  is_u64 b → h ≠ [] → parseIndexKey (indexKey b h) = Some (b, h).
Proof.
  intros Hb Hh. unfold parseIndexKey. assert (length (indexKey b h) = 9 + length h)%nat as ->.
  { unfold indexKey. by rewrite !length_app, u64be_length. }
  destruct h as [|x h]; [done|]. set (h' := x :: h).
  assert (drop 1 (indexKey b h') = u64be b ++ h') as H1 by done.
  assert (drop 9 (indexKey b h') = drop 8 (drop 1 (indexKey b h'))) as -> by by rewrite drop_drop.
  rewrite H1, take_app_length', drop_app_length' by by rewrite u64be_length.
  by rewrite u64be_value.
Qed.

(** Newer records come first: the order of history keys is the descending order
    of (block, transaction). *)
Lemma historyKey_lt k b t b' t' :
  is_u64 b → is_u64 b' → is_u64 t → is_u64 t' →
  bytes_lt (historyKey k b t) (historyKey k b' t') = true ↔ b' < b ∨ (b' = b ∧ t' < t).
Proof.
  intros Hb Hb' Ht Ht'. pose proof (u64_not_range b Hb). pose proof (u64_not_range b' Hb').
  pose proof (u64_not_range t Ht). pose proof (u64_not_range t' Ht').
  unfold historyKey. rewrite bytes_lt_app, bytes_lt_fixed, !u64be_lt by (rewrite ?u64be_length; done).
  rewrite orb_true_iff, andb_true_iff, bool_decide_eq_true, !Z.ltb_lt. unfold u64_not in *. split.
  - intros [?|[E ?]]; [lia|]. apply u64be_inj in E; [lia|done..].
  - intros [?|[-> ?]]; [lia|right; split; [done|lia]].
Qed.

(** The start of a scan as of block [n] is at or before exactly the keys of
    blocks up to [n]. *)
Lemma historyKey_start k b t n :
  is_u64 b → is_u64 n →
  bytes_lt (historyKey k b t) (historyPrefix k ++ u64be (u64_not n)) = false ↔ b ≤ n.
Proof.
  intros Hb Hn. pose proof (u64_not_range b Hb). pose proof (u64_not_range n Hn).
  unfold historyKey. rewrite bytes_lt_app, <-(app_nil_r (u64be (u64_not n))), bytes_lt_fixed, u64be_lt
    by (rewrite ?u64be_length; done).
  assert (bytes_lt (u64be (u64_not t)) [] = false) as -> by by destruct (u64be (u64_not t)).
  rewrite andb_false_r, orb_false_r, Z.ltb_ge. unfold u64_not. lia.
Qed.

(** The record encoding is lossless.  Decoding an encoded record gives back
    every field, a nil value staying distinct from an empty one; so two records
    with the same encoding are the same. *)
Theorem record_roundtrip r r' :
  record_ok r → record_ok r' →
  decodeRecord (encodeRecord r) = Done (Ok (toWriteRecord "" "" r)) ∧
  (encodeRecord r = encodeRecord r' → r = r').
Proof.
  intros Hr Hr'. split; [by apply decode_encode_record|]. intros H.
  pose proof (decode_encode_record r Hr) as D. rewrite H, (decode_encode_record r' Hr') in D.
  injection D as E1 E2 E3 E4 E5 E6. destruct r, r'. simpl in *. congruence.
Qed.

(** The key layout.  A scan of one state key's history from block [n] sees
    the records of the blocks up to [n], newest first, and no record of another
    key; index keys split back into what they were built from. *)
Theorem history_keys_ordered k k' b t b' t' n :
  key_ok k → key_ok k' → is_u64 b → is_u64 b' → is_u64 t → is_u64 t' → is_u64 n →
  (bytes_lt (historyKey k b t) (historyKey k b' t') = true ↔ b' < b ∨ (b' = b ∧ t' < t)) ∧
  (bytes_lt (historyKey k b t) (historyPrefix k ++ u64be (u64_not n)) = false ↔ b ≤ n) ∧
  (historyPrefix k `prefix_of` historyKey k' b' t' ↔ k = k') ∧
  parseIndexKey (indexKey n (historyKey k b t)) = Some (n, historyKey k b t).
Proof.
  intros Hk Hk' Hb Hb' Ht Ht' Hn. split_and!.
  - by apply historyKey_lt.
  - by apply historyKey_start.
  - split; [|intros ->; by apply prefix_app_r]. intros [x Hx].
    by apply (keyForState_prefix _ _ k' k) in Hx as (_ & -> & _).
  - by apply parseIndexKey_indexKey.
Qed.

(** A length of 2^64 - 1 in a corrupt value converts to -1: the bounds test
    passes and the slice expression panics. *)
Lemma decodeRecord_length_panics :
  decodeRecord ([0; 0; 0; 0] ++ replicate 9 255 ++ [1]) = Panic "slice bounds out of range".
Proof. vm_compute. reflexivity. Qed.

#[global] Arguments be_fixed : simpl never.
#[global] Arguments bytes_lt : simpl never.
#[global] Arguments encodeRecord : simpl never.
#[global] Arguments historyKey : simpl never.
#[global] Arguments dataKey : simpl never.
#[global] Arguments indexKey : simpl never.

(** ** Concrete instances *)

Definition sample_record : ValueVersion := {|
  vv_Value := Some []; vv_BlockNum := 300; vv_TxNum := 1; vv_Version := 7; vv_TxID := "tx"; vv_IsDelete := false |}.

Lemma sample_record_ok : record_ok sample_record.
Proof. unfold record_ok, is_u64. vm_compute. repeat split; discriminate || reflexivity. Qed.

Lemma record_roundtrip_witness :
  decodeRecord (encodeRecord sample_record) = Done (Ok (toWriteRecord "" "" sample_record)).
Proof. exact (proj1 (record_roundtrip sample_record sample_record sample_record_ok sample_record_ok)). Defined.

Lemma history_keys_ordered_witness :
  bytes_lt (historyKey "ns:a" 7 0) (historyKey "ns:a" 5 3) = true.
Proof.
  apply (proj2 (proj1 (history_keys_ordered "ns:a" "ns:ab" 7 0 5 3 6 ltac:(done) ltac:(done)
    ltac:(done) ltac:(done) ltac:(done) ltac:(done) ltac:(done)))). left. reflexivity.
Defined.
