(* ===== verification/PebbleKVS.v ===== *)
(** * PebbleKVS: the persistent snapshot store

    endorser/storage/pebblekvs.go.  The pebble database is a parameter: a map
    from byte strings to byte strings with atomic batches and iteration in byte
    order ([PebbleDB], [PebbleLaws]).  Its I/O errors are not modelled; corrupt
    contents are.  A method under the store's locks is one function on the
    state; a reader is a value, and its [Get] reads the database as it is at the
    time of the call, as the code does. *)

From Stdlib Require Import ZArith Lia.
From stdpp Require Import base numbers list gmap strings sorting.
From S2P Require Import Prelude Blocks KVSpec Codec PebbleCodec.
From S2P Require LightKVS.

Local Open Scope Z_scope.
Local Open Scope go_scope.

(** ** The database *)

Inductive batch_op := Put (k v : byte_slice) | Delete (k : byte_slice).

(** [db_Iterate db prefix start]: what an iterator over [prefix] from [start] on
    yields. *)
Class PebbleDB := {
  DB : Type;
  db_Get : DB → byte_slice → option byte_slice;
  db_Write : DB → list batch_op → DB;
  db_Iterate : DB → byte_slice → byte_slice → list (byte_slice * byte_slice)
}.

(** The contents of a database, and the effect of one operation on them. *)
Abbreviation content := (byte_slice → option byte_slice).

Definition op_apply (g : content) (op : batch_op) : content := λ x,
  match op with
  | Put k v => if decide (x = k) then Some v else g x
  | Delete k => if decide (x = k) then None else g x
  end.

(** A batch applies its operations in order; an iterator yields the keys with the
    prefix, from [prefix ++ start] on, in byte order. *)
Class PebbleLaws (D : PebbleDB) := {
  get_write db ops x : db_Get (db_Write db ops) x = foldl op_apply (db_Get db) ops x;
  iterate_elem db p s k v :
    (k, v) ∈ db_Iterate db p s ↔
    db_Get db k = Some v ∧ p `prefix_of` k ∧ bytes_lt k (p ++ s) = false;
  iterate_sorted db p s :
    StronglySorted (λ a b : byte_slice * byte_slice, bytes_lt a.1 b.1 = true) (db_Iterate db p s)
}.

(** ** State *)

Section store.
Context {D : PebbleDB}.

Record PebbleKVS := {
  pk_db : DB;
  historySize : Z;
  currentBlock : Z;
  hasCheckpoint : bool;
  oldestRetained : Z;
  openReaders : gmap Z Z
}.

Record pebbleSnapshot := { lastBlock : Z; closed : bool }.

Inductive pebble_error :=
| EmptyDir
| CorruptMeta (key : byte_slice)
| CorruptRecord (e : decode_error)
| CorruptIndexKey
| MissingWrite (key : string) (block : Z)
| ConflictingWrite (key : string) (block : Z)
| SnapshotNotFound (bn oldest head : Z)
| ReaderClosed.

Definition defaultHistorySize : Z := 128.

(** [readMeta]: the value and whether it was present. *)
Definition readMeta (db : DB) (key : byte_slice) : result pebble_error (Z * bool) :=
  match db_Get db key with
  | None => Ok (0, false)
  | Some raw =>
      if negb (length raw =? 8)%nat then Err (CorruptMeta key) else Ok (be_value raw, true)
  end.

Definition readMetaBlock (db : DB) : result pebble_error (Z * bool) := readMeta db metaBlockKey.

(** Opening the database found at [dir]. *)
Definition NewPebbleKVS (dir : string) (db : DB) (hs : Z) : result pebble_error PebbleKVS :=
  if decide (dir = "") then Err EmptyDir
  else
    let hs := if hs <=? 0 then defaultHistorySize else hs in
    match readMetaBlock db with
    | Err e => Err e
    | Ok (block, found) =>
        match readMeta db metaOldestKey with
        | Err e => Err e
        | Ok (oldest, _) =>
            Ok {| pk_db := db; historySize := hs; currentBlock := block;
                  hasCheckpoint := found; oldestRetained := oldest; openReaders := ∅ |}
        end
    end.

(** ** Reading records *)

(** The decoded record of a key and its raw bytes. *)
Definition currentRecord (db : DB) (k : string)
    : outcome (result pebble_error (option (WriteRecord * byte_slice))) :=
  match db_Get db (dataKey k) with
  | None => go_ret None
  | Some raw =>
      match decodeRecord raw with
      | Panic msg => Panic msg
      | Done (Err e) => go_err (CorruptRecord e)
      | Done (Ok rec) => go_ret (Some (rec, raw))
      end
  end.

Definition with_key (namespace key : string) (r : WriteRecord) : WriteRecord := {|
  wr_Namespace := namespace; wr_Key := key; wr_BlockNum := wr_BlockNum r; wr_TxNum := wr_TxNum r;
  wr_Version := wr_Version r; wr_Value := wr_Value r; wr_IsDelete := wr_IsDelete r; wr_TxID := wr_TxID r |}.

(** [pebbleSnapshot.Get]: the current record if the view covers its block, else
    the newest history record at or below the view's height. *)
Definition snap_Get (p : PebbleKVS) (s : pebbleSnapshot) (namespace key : string)
    : outcome (result pebble_error (option WriteRecord)) :=
  if closed s then go_err ReaderClosed
  else
    let k := fullKey namespace key in
    let history :=
      match db_Iterate (pk_db p) (historyPrefix k) (u64be (u64_not (lastBlock s))) with
      | [] => go_ret None
      | (_, raw) :: _ =>
          match decodeRecord raw with
          | Panic msg => Panic msg
          | Done (Err e) => go_err (CorruptRecord e)
          | Done (Ok rec) => go_ret (Some (with_key namespace key rec))
          end
      end in
    let? cur := currentRecord (pk_db p) k in
    match cur with
    | Some (rec, _) =>
        if wr_BlockNum rec <=? lastBlock s then go_ret (Some (with_key namespace key rec)) else history
    | None => history
    end.

(** ** Readers *)

Definition set_readers (m : gmap Z Z) (p : PebbleKVS) : PebbleKVS := {|
  pk_db := pk_db p; historySize := historySize p; currentBlock := currentBlock p;
  hasCheckpoint := hasCheckpoint p; oldestRetained := oldestRetained p; openReaders := m |}.

Definition lowestPinnedLocked (readers : gmap Z Z) : Z :=
  foldl (λ lowest bn, if bn <? lowest then bn else lowest) u64_max (map_to_list readers).*1.

Definition releaseReader (bn : Z) (p : PebbleKVS) : PebbleKVS :=
  let n := default 0 (openReaders p !! bn) in
  set_readers (if 1 <? n then <[bn := n - 1]> (openReaders p) else delete bn (openReaders p)) p.

Definition NewSnapshot (blockNumber : option Z) (p : PebbleKVS)
    : result pebble_error (pebbleSnapshot * PebbleKVS) :=
  let head := currentBlock p in
  let bn := match blockNumber with Some n => if n <? head then n else head | None => head end in
  if bn <? oldestRetained p then Err (SnapshotNotFound bn (oldestRetained p) head)
  else Ok ({| lastBlock := bn; closed := false |},
           set_readers (<[bn := default 0 (openReaders p !! bn) + 1]> (openReaders p)) p).

(** [pebbleSnapshot.Close]: the pin is released once. *)
Definition snap_Close (s : pebbleSnapshot) (p : PebbleKVS) : pebbleSnapshot * PebbleKVS :=
  if closed s then (s, p)
  else ({| lastBlock := lastBlock s; closed := true |}, releaseReader (lastBlock s) p).

(** [PebbleKVS.Get]. *)
Definition Get (namespace key : string) (p : PebbleKVS)
    : outcome (result pebble_error (option WriteRecord)) * PebbleKVS :=
  match NewSnapshot None p with
  | Err e => (go_err e, p)
  | Ok (s, p1) => (snap_Get p1 s namespace key, (snap_Close s p1).2)
  end.

(** ** Committing a block *)

Definition stageHistory (batch : list batch_op) (blockNum : Z) (k : string)
    (prev : WriteRecord) (raw : byte_slice) : list batch_op :=
  let histKey := historyKey k (wr_BlockNum prev) (wr_TxNum prev) in
  batch ++ [Put histKey raw] ++ [Put (indexKey blockNum histKey) []].

(** The loop body of [commitBlock]. *)
Definition stage_update (db : DB) (blockNum : Z) (acc : list batch_op * gmap string Z)
    (u : KeyValueVersion) : outcome (result pebble_error (list batch_op * gmap string Z)) :=
  let '(batch, nextVersion) := acc in
  let k := kvv_Key u in
  let? (version, batch) :=
    match nextVersion !! k with
    | Some v => go_ret (v, batch)
    | None =>
        let? cur := currentRecord db k in
        match cur with
        | None => go_ret (0, batch)
        | Some (prev, raw) =>
            go_ret (u64 (wr_Version prev + 1), stageHistory batch blockNum k prev raw)
        end
    end in
  go_ret (batch ++ [Put (dataKey k) (encodeRecord (stamp u version))],
          <[k := u64 (version + 1)]> nextVersion).

Fixpoint stage_updates (db : DB) (blockNum : Z) (updates : list KeyValueVersion)
    (acc : list batch_op * gmap string Z)
    : outcome (result pebble_error (list batch_op * gmap string Z)) :=
  match updates with
  | [] => go_ret acc
  | u :: updates => let? acc := stage_update db blockNum acc u in stage_updates db blockNum updates acc
  end.

(** The walk over the index, in block order. *)
Fixpoint prune_scan (cutoff : Z) (it : list (byte_slice * byte_slice)) (batch : list batch_op)
    : result pebble_error (list batch_op) :=
  match it with
  | [] => Ok batch
  | (k, _) :: it =>
      match parseIndexKey k with
      | None => Err CorruptIndexKey
      | Some (block, histKey) =>
          if cutoff <? block then Ok batch
          else prune_scan cutoff it (batch ++ [Delete histKey] ++ [Delete k])
      end
  end.

(** The new oldest answerable block (0: unchanged) and the batch. *)
Definition pruneLocked (p : PebbleKVS) (batch : list batch_op) (blockNum : Z)
    : result pebble_error (Z * list batch_op) :=
  if blockNum <? u64 (historySize p + 1) then Ok (0, batch)
  else
    let cutoff := u64 (blockNum - historySize p - 1) in
    let pin := lowestPinnedLocked (openReaders p) in
    let cutoff := if pin <? cutoff then pin else cutoff in
    match prune_scan cutoff (db_Iterate (pk_db p) [prefixIndex] []) batch with
    | Err e => Err e
    | Ok batch =>
        let oldest := u64 (cutoff + 1) in
        if oldest <=? oldestRetained p then Ok (0, batch)
        else Ok (oldest, batch ++ [Put metaOldestKey (u64be oldest)])
    end.

(** The check of one key of a redelivered tip. *)
Definition replay_key (db : DB) (k : string) (u : KeyValueVersion)
    : outcome (result pebble_error unit) :=
  let? stored := currentRecord db k in
  match stored with
  | None => go_err (MissingWrite k (kvv_BlockNum u))
  | Some (rec, _) =>
      if negb (wr_BlockNum rec =? kvv_BlockNum u) then go_err (MissingWrite k (kvv_BlockNum u))
      else if negb (eqb (wr_IsDelete rec) (kvv_IsDelete u)) || negb (bytes_Equal (wr_Value rec) (kvv_Value u))
              || negb (String.eqb (wr_TxID rec) (kvv_TxID u))
      then go_err (ConflictingWrite k (kvv_BlockNum u))
      else go_ret tt
  end.

Fixpoint replay_keys (db : DB) (final : list (string * KeyValueVersion))
    : outcome (result pebble_error unit) :=
  match final with
  | [] => go_ret tt
  | (k, u) :: final => let? _ := replay_key db k u in replay_keys db final
  end.

(** Go ranges over the last writes in an unspecified order; it decides which
    mismatch is reported, not whether one is. *)
Definition verifyTipReplay (db : DB) (updates : list KeyValueVersion)
    : outcome (result pebble_error unit) :=
  replay_keys db (map_to_list (LightKVS.finalWrites updates)).

Definition commitBlock (blockNum : Z) (updates : list KeyValueVersion) (p : PebbleKVS)
    : outcome (result pebble_error PebbleKVS) :=
  let head := currentBlock p in
  if hasCheckpoint p && (blockNum <=? head) then
    if blockNum <? head then go_ret p
    else let? _ := verifyTipReplay (pk_db p) updates in go_ret p
  else
    let? (batch, _) := stage_updates (pk_db p) blockNum updates ([], ∅) in
    let? (oldest, batch) := Done (pruneLocked p batch blockNum) in
    let batch := batch ++ [Put metaBlockKey (u64be blockNum)] in
    go_ret {| pk_db := db_Write (pk_db p) batch; historySize := historySize p;
              currentBlock := blockNum; hasCheckpoint := true;
              oldestRetained := if 0 <? oldest then oldest else oldestRetained p;
              openReaders := openReaders p |}.

(** [Handle]: the writes of the valid transactions, then the commit. *)
Definition Handle (b : Block) (p : PebbleKVS) : outcome (result pebble_error PebbleKVS) :=
  commitBlock (b_Number b) (blockUpdates b) p.

Definition BlockNumber (p : PebbleKVS) : Z := currentBlock p.
End store.
