(* ===== verification/PebbleKVSProps.v ===== *)
(** * PebbleKVSProps: the persistent store refines the ledger

    The contents of the database are related to the ledger of committed blocks
    ([views]): the data keys hold the world state, the history keys the
    superseded records still retained, and the index keys name them by the block
    that superseded them.  Commits, prunes, readers and restarts preserve the
    relation, and every reader is answered with the state at its height. *)

From Stdlib Require Import ZArith Lia.
From stdpp Require Import base numbers list gmap strings sorting relations.
From S2P Require Import Prelude Blocks KVSpec KVHistory Codec PebbleCodec PebbleKVS.
From S2P Require LightKVS.

Local Open Scope Z_scope.
Local Open Scope go_scope.

(** ** Database contents *)

Definition hkey (k : string) (vv : ValueVersion) : byte_slice :=
  historyKey k (vv_BlockNum vv) (vv_TxNum vv).

Lemma dataKey_head k : ∃ x, dataKey k = prefixData :: x.
Proof. by eexists. Qed.
Lemma hkey_head k vv : ∃ x, hkey k vv = prefixHistory :: x.
Proof. by eexists. Qed.
Lemma indexKey_head c h : ∃ x, indexKey c h = prefixIndex :: x.
Proof. by eexists. Qed.

Lemma hkey_inj k vv k' vv' :
  key_ok k → key_ok k' → record_ok vv → record_ok vv' → hkey k vv = hkey k' vv' →
  k = k' ∧ vv_BlockNum vv = vv_BlockNum vv'.
Proof.
  intros Hk Hk' (B & T & _) (B' & T' & _) E.
  destruct (historyKey_inj _ _ _ _ _ _ Hk Hk' B B' T T' E) as (Ek & Eb & _). by split.
Qed.

Abbreviation history := (string → ValueVersion → Z → Prop).

(** [m] is the meta part: what is stored under each meta key. *)
Record views (g : content) (d : worldstate) (H : history) (m : content) : Prop := {
  v_data k : key_ok k → g (dataKey k) = encodeRecord <$> d !! k;
  v_dok k vv : d !! k = Some vv → key_ok k ∧ record_ok vv;
  v_hok k vv c : H k vv c → key_ok k ∧ record_ok vv ∧ is_u64 c;
  v_uniq k vv c vv' c' :
    H k vv c → H k vv' c' → vv_BlockNum vv = vv_BlockNum vv' → vv = vv' ∧ c = c';
  v_hist x v : g (prefixHistory :: x) = Some v ↔
    ∃ k vv c, H k vv c ∧ prefixHistory :: x = hkey k vv ∧ v = encodeRecord vv;
  v_idx x v : g (prefixIndex :: x) = Some v ↔
    ∃ k vv c, H k vv c ∧ prefixIndex :: x = indexKey c (hkey k vv) ∧ v = [];
  v_meta x : g (prefixMeta :: x) = m x
}.

Lemma views_ext g g' d H H' m :
  (∀ x, g' x = g x) → (∀ k vv c, H' k vv c ↔ H k vv c) → views g d H m → views g' d H' m.
Proof.
  intros Hg HH []. constructor; try setoid_rewrite HH; try setoid_rewrite Hg; assumption.
Qed.

Lemma op_apply_ne g op x :
  (match op with Put k _ | Delete k => x ≠ k end) → op_apply g op x = g x.
Proof. destruct op; intros Hx; simpl; by rewrite decide_False. Qed.

(** Writing a meta key changes the meta part alone. *)
Lemma views_put_meta g d H m x v :
  views g d H m →
  views (op_apply g (Put (prefixMeta :: x) v)) d H (λ y, if decide (y = x) then Some v else m y).
Proof.
  intros []. constructor; try assumption. intros y. unfold op_apply. rewrite v_meta0.
  destruct (decide (y = x)) as [->|Hne]; [by rewrite decide_True|]. rewrite decide_False; [done|]. by intros [=].
Qed.

Lemma views_put_data g d H m k vv :
  views g d H m → key_ok k → record_ok vv →
  views (op_apply g (Put (dataKey k) (encodeRecord vv))) (<[k := vv]> d) H m.
Proof.
  intros [] Hk Hvv. constructor; try assumption.
  - intros k' Hk'. unfold op_apply. rewrite lookup_insert. destruct (decide (k = k')) as [<-|Hne].
    + by rewrite decide_True.
    + rewrite decide_False; [auto|]. intros E%dataKey_inj; [|done..]. done.
  - intros k' vv'. rewrite lookup_insert. case_decide as Hd; [|auto]. subst. by intros [= <-].
Qed.

(** A new history entry with its index entry. *)
Lemma views_put_hist g d H m k vv c :
  views g d H m → key_ok k → record_ok vv → is_u64 c →
  (∀ vv' c', H k vv' c' → vv_BlockNum vv' = vv_BlockNum vv → vv' = vv ∧ c' = c) →
  views (op_apply (op_apply g (Put (hkey k vv) (encodeRecord vv))) (Put (indexKey c (hkey k vv)) [])) d
    (λ k' vv' c', H k' vv' c' ∨ (k' = k ∧ vv' = vv ∧ c' = c)) m.
Proof.
  intros [Hd Hdok Hhok Huniq Hh Hi Hm] Hk Hvv Hc Hfresh. constructor; try assumption.
  - intros k' vv' c' [?|(-> & -> & ->)]; eauto.
  - intros k' w e w' e' [Hw|(-> & -> & ->)] [Hw'|(? & -> & ->)] Hb; subst; eauto.
    destruct (Hfresh w' e' Hw') as [-> ->]; auto.
  - intros x v. rewrite op_apply_ne by by intros [=]. unfold op_apply. case_decide as Hx.
    + split; [intros <-%(inj Some); exists k, vv, c; split; [by right|by split]|].
      intros (k' & w & e & Hw & E & ->). destruct Hw as [Hw|(-> & -> & _)]; [|done].
      rewrite Hx in E. destruct (Hhok _ _ _ Hw) as (? & ? & _).
      apply hkey_inj in E as [<- Hb]; [|assumption..]. by destruct (Hfresh w e Hw) as [-> _].
    + rewrite Hh. split; [intros (k' & w & e & ? & ? & ?); eauto 10|].
      intros (k' & w & e & [?|(-> & -> & ->)] & E & ->); [eauto 10|done].
  - intros x v. unfold op_apply. destruct (decide (prefixIndex :: x = indexKey c (hkey k vv))) as [Hx|Hx].
    + split; [intros <-%(inj Some); exists k, vv, c; split; [by right|by split]|]. by intros (k' & w & e & Hw & E & ->).
    + rewrite decide_False by by intros [=]. rewrite Hi. split; [intros (k' & w & e & ? & ? & ?); eauto 10|].
      intros (k' & w & e & [?|(-> & -> & ->)] & E & ->); [eauto 10|done].
Qed.

(** Deleting a history entry with its index entry. *)
Lemma views_del_hist g d H m k vv c :
  views g d H m → H k vv c →
  views (op_apply (op_apply g (Delete (hkey k vv))) (Delete (indexKey c (hkey k vv)))) d
    (λ k' vv' c', H k' vv' c' ∧ ¬ (k' = k ∧ vv' = vv ∧ c' = c)) m.
Proof.
  intros [Hd Hdok Hhok Huniq Hh Hi Hm] Hin. destruct (Hhok _ _ _ Hin) as (Hk & Hvv & Hc).
  assert (∀ k' w e, H k' w e → hkey k' w = hkey k vv → k' = k ∧ w = vv ∧ e = c) as Hone.
  { intros k' w e Hw E. destruct (Hhok _ _ _ Hw) as (? & ? & _). apply hkey_inj in E as [-> Hb]; [|assumption..].
    destruct (Huniq _ _ _ _ _ Hw Hin Hb) as [-> ->]. done. }
  constructor; try assumption.
  - intros k' w e [? _]. eauto.
  - intros k' w e w' e' [? _] [? _]. eauto.
  - intros x v. rewrite op_apply_ne by by intros [=]. unfold op_apply. case_decide as Hx.
    + split; [done|]. intros (k' & w & e & [Hw Hn] & E & ->). destruct Hn. apply Hone; [done|congruence].
    + rewrite Hh. split.
      * intros (k' & w & e & Hw & E & ->). exists k', w, e. split_and!; [done| |done..].
        intros (-> & -> & ->). done.
      * intros (k' & w & e & [Hw _] & E & ->). eauto 10.
  - intros x v. unfold op_apply. destruct (decide (prefixIndex :: x = indexKey c (hkey k vv))) as [Hx|Hx].
    + split; [done|]. intros (k' & w & e & [Hw Hn] & E & ->). destruct Hn. rewrite Hx in E.
      destruct (Hhok _ _ _ Hw) as (_ & _ & He). apply indexKey_inj in E as [-> E]; [|done..]. apply Hone; done.
    + rewrite decide_False by by intros [=]. rewrite Hi. split.
      * intros (k' & w & e & Hw & E & ->). exists k', w, e. split_and!; [done| |done..].
        intros (-> & -> & ->). done.
      * intros (k' & w & e & [Hw _] & E & ->). eauto 10.
Qed.

(** ** Staging a block *)

(** What the code needs of an update: its key's length fits four bytes, its
    numbers are [uint64]s and its record is of sane size. *)
Definition update_ok (u : KeyValueVersion) : Prop :=
  key_ok (kvv_Key u) ∧ is_u64 (kvv_BlockNum u) ∧ is_u64 (kvv_TxNum u) ∧
  Z.of_nat (String.length (kvv_TxID u)) + Z.of_nat (slice_len (kvv_Value u)) < 2 ^ 62.

Lemma next_version_range o : is_u64 (next_version o).
Proof. destruct o; [apply u64_range|done]. Qed.

Lemma stamp_ok u o : update_ok u → record_ok (stamp u (next_version o)).
Proof. intros (_ & ? & ? & ?). apply record_ok_bound; [done..|apply next_version_range|done]. Qed.

(** The history retained after pruning to [oldest]. *)
Definition retained (l : ledger) (oldest : Z) : history := λ k vv c, hist_of l k vv c ∧ oldest ≤ c.

(** While block [n] is staged: what it supersedes by the updates done so far. *)
Definition staged (l : ledger) (oldest n : Z) (us : list KeyValueVersion) : history := λ k vv c,
  retained l oldest k vv c ∨ (c = n ∧ writes_key us k ∧ ledger_state l !! k = Some vv).

Section props.
Context {D : PebbleDB} {L : PebbleLaws D}.

Lemma currentRecord_views db d H m k :
  views (db_Get db) d H m → key_ok k →
  currentRecord db k = go_ret ((λ vv, (toWriteRecord "" "" vv, encodeRecord vv)) <$> d !! k).
Proof.
  intros Hv Hk. unfold currentRecord. rewrite (v_data _ _ _ _ Hv k Hk).
  destruct (d !! k) as [vv|] eqn:E; [|done]. simpl.
  rewrite decode_encode_record; [done|]. by eapply (v_dok _ _ _ _ Hv k).
Qed.

Section stage.
Context (db : DB) (l : ledger) (oldest n : Z) (m : content).
Hypothesis Hwf : ledger_wf l.
Hypothesis Hlt : Forall (λ blk, blk.1 < n) l.
Hypothesis Hn : is_u64 n.
Hypothesis Hviews : views (db_Get db) (ledger_state l) (retained l oldest) m.

Record stage_inv (us : list KeyValueVersion) (acc : list batch_op * gmap string Z) : Prop := {
  si_views : views (foldl op_apply (db_Get db) acc.1) (writes (ledger_state l) us) (staged l oldest n us) m;
  si_cache k : acc.2 !! k =
    if decide (writes_key us k) then Some (next_version (writes (ledger_state l) us !! k)) else None
}.

Lemma writes_to_snoc k us u :
  writes_key (us ++ [u]) k ↔ writes_key us k ∨ kvv_Key u = k.
Proof.
  unfold writes_to. rewrite filter_app, filter_cons, filter_nil. case_decide as Hd.
  - split; [by right|]. intros _ H. by apply app_nil in H as [_ ?].
  - rewrite app_nil_r. naive_solver.
Qed.

Lemma staged_step us u k vv c :
  staged l oldest n (us ++ [u]) k vv c ↔
  staged l oldest n us k vv c ∨ (k = kvv_Key u ∧ ledger_state l !! k = Some vv ∧ c = n).
Proof. unfold staged. rewrite writes_to_snoc. naive_solver. Qed.

(** The first write of a key in the block retains the record it supersedes. *)
Lemma stage_first us batch k vv :
  views (foldl op_apply (db_Get db) batch) (writes (ledger_state l) us) (staged l oldest n us) m →
  writes_to k us = [] → key_ok k → ledger_state l !! k = Some vv →
  views (foldl op_apply (db_Get db) (stageHistory batch n k (toWriteRecord "" "" vv) (encodeRecord vv)))
    (writes (ledger_state l) us)
    (λ k' vv' c', staged l oldest n us k' vv' c' ∨ (k' = k ∧ vv' = vv ∧ c' = n)) m.
Proof.
  intros Hv Hw Hk Hs. unfold stageHistory. rewrite !foldl_app. cbn [foldl].
  apply (views_put_hist _ _ _ _ k vv n); [done..|by eapply (v_dok _ _ _ _ Hviews k)|done|].
  intros vv' c' [[Hh _]|(-> & Hw' & _)] Hb; [|done].
  destruct (hist_lt_state l k vv' c' Hwf Hh) as (? & w & Hw' & ?). assert (vv = w) as <- by congruence. lia.
Qed.

Lemma stage_update_inv us acc u :
  stage_inv us acc → update_ok u →
  ∃ acc', stage_update db n acc u = go_ret acc' ∧ stage_inv (us ++ [u]) acc'.
Proof.
  intros [Hv Hc] Hu. destruct acc as [batch nv]. pose proof Hu as (Hk & _). set (k := kvv_Key u) in *.
  set (ver := next_version (writes (ledger_state l) us !! k)).
  assert (∃ batch', go_bind (match nv !! k with
      | Some v => go_ret (v, batch)
      | None => go_bind (currentRecord db k) (λ cur,
          match cur with
          | None => go_ret (0, batch)
          | Some (prev, raw) => go_ret (u64 (wr_Version prev + 1), stageHistory batch n k prev raw)
          end)
      end) (λ '(version, batch), go_ret (batch ++ [Put (dataKey k) (encodeRecord (stamp u version))],
          <[k := u64 (version + 1)]> nv)) =
      go_ret (E := pebble_error) (batch' ++ [Put (dataKey k) (encodeRecord (stamp u ver))], <[k := u64 (ver + 1)]> nv) ∧
      views (foldl op_apply (db_Get db) batch') (writes (ledger_state l) us) (staged l oldest n (us ++ [u])) m)
    as (batch' & E & Hv').
  { rewrite Hc. simpl in Hc. case_decide as Hw.
    - exists batch. split; [done|]. eapply views_ext; [done| |exact Hv]. intros k' vv c. rewrite staged_step.
      split; [|by left]. intros [?|(-> & Hs & ->)]; [done|]. right. done.
    - assert (writes (ledger_state l) us !! k = ledger_state l !! k) as Hsame.
      { rewrite writes_lookup. by rewrite Hw. }
      rewrite (currentRecord_views _ _ _ _ _ Hviews Hk). unfold ver. rewrite Hsame.
      destruct (ledger_state l !! k) as [vv|] eqn:Es; simpl.
      + eexists. split; [done|]. eapply views_ext; [done| |by apply (stage_first us batch k vv)].
        intros k' vv' c. rewrite staged_step. simpl. split.
        * intros [?|(-> & Hs & ->)]; [by left|]. right. fold k in Hs. rewrite Es in Hs. by injection Hs as ->.
        * intros [?|(-> & -> & ->)]; [by left|by right].
      + exists batch. split; [done|]. eapply views_ext; [done| |exact Hv]. intros k' vv c. rewrite staged_step.
        split; [|by left]. intros [?|(-> & Hs & ->)]; [done|]. fold k in Hs. by rewrite Es in Hs. }
  eexists. split; [exact E|]. split; simpl.
  - rewrite foldl_app, writes_app. cbn [foldl]. unfold writes at 1. cbn [foldl]. unfold write1. fold k.
    apply views_put_data; [done..|by apply stamp_ok].
  - intros k'. rewrite writes_app. unfold writes at 1. cbn [foldl]. unfold write1. fold k.
    rewrite !lookup_insert. destruct (decide (k = k')) as [<-|Hne].
    + rewrite decide_True; [done|]. apply writes_to_snoc. by right.
    + rewrite Hc. apply decide_ext. rewrite writes_to_snoc. naive_solver.
Qed.

Lemma stage_updates_inv rest : ∀ us acc,
  stage_inv us acc → Forall update_ok rest →
  ∃ acc', stage_updates db n rest acc = go_ret acc' ∧ stage_inv (us ++ rest) acc'.
Proof.
  induction rest as [|u rest IH]; intros us acc Hi Hok; cbn [stage_updates].
  { exists acc. by rewrite app_nil_r. }
  apply Forall_cons in Hok as [Hu Hok]. destruct (stage_update_inv us acc u Hi Hu) as (acc1 & -> & Hi1).
  simpl. destruct (IH _ _ Hi1 Hok) as (acc2 & H1 & H2). exists acc2. by rewrite <-app_assoc in H2.
Qed.
End stage.

(** ** Pruning *)

Lemma indexKey_le c h c' h' :
  is_u64 c → is_u64 c' → bytes_lt (indexKey c h) (indexKey c' h') = true → c ≤ c'.
Proof.
  intros Hc Hc'. unfold indexKey. rewrite bytes_lt_app, bytes_lt_fixed, u64be_lt by (rewrite ?u64be_length; done).
  rewrite orb_true_iff, andb_true_iff, bool_decide_eq_true, Z.ltb_lt.
  intros [?|[E _]]; [lia|]. apply u64be_inj in E; [lia|done..].
Qed.

Lemma prune_scan_inv g0 d m cutoff it : ∀ H batch,
  views (foldl op_apply g0 batch) d H m →
  StronglySorted (λ a b : byte_slice * byte_slice, bytes_lt a.1 b.1 = true) it →
  (∀ x v, (x, v) ∈ it → ∃ k vv c, H k vv c ∧ x = indexKey c (hkey k vv)) →
  (∀ k vv c, H k vv c → c ≤ cutoff → ∃ v, (indexKey c (hkey k vv), v) ∈ it) →
  ∃ batch', prune_scan cutoff it batch = Ok batch' ∧
    views (foldl op_apply g0 batch') d (λ k vv c, H k vv c ∧ cutoff < c) m.
Proof.
  induction it as [|[x v] it IH]; intros H batch Hv Hs Hin Hall; cbn [prune_scan].
  { exists batch. split; [done|]. eapply views_ext; [done| |exact Hv]. intros k vv c. split; [by intros [? _]|].
    intros HH. split; [done|]. apply Z.nle_gt. intros Hle. destruct (Hall k vv c HH Hle) as [? []%not_elem_of_nil]. }
  apply StronglySorted_inv in Hs as [Hs Hhd]. rewrite Forall_forall in Hhd.
  destruct (Hin x v) as (k & vv & c & HH & ->); [apply list_elem_of_here|].
  destruct (v_hok _ _ _ _ Hv k vv c HH) as (Hk & Hvv & Hc).
  rewrite parseIndexKey_indexKey by (done || destruct (hkey_head k vv) as [? ->]; done).
  destruct (Z.ltb_spec cutoff c) as [Hlt|Hge].
  - exists batch. split; [done|]. eapply views_ext; [done| |exact Hv]. intros k' vv' c'. split; [by intros [? _]|].
    intros HH'. split; [done|]. destruct (Z.le_gt_cases c' cutoff) as [Hle|]; [|done]. exfalso.
    destruct (Hall k' vv' c' HH' Hle) as [v' [E|Hit]%elem_of_cons]; [apply pair_equal_spec in E as [E _]|].
    + apply indexKey_inj in E as [-> _]; [lia|by apply (v_hok _ _ _ _ Hv k' vv')|done].
    + pose proof (Hhd _ Hit) as Hb. apply indexKey_le in Hb; [lia|done|]. by apply (v_hok _ _ _ _ Hv k' vv').
  - destruct (IH (λ k' vv' c', H k' vv' c' ∧ ¬ (k' = k ∧ vv' = vv ∧ c' = c))
      (batch ++ [Delete (hkey k vv)] ++ [Delete (indexKey c (hkey k vv))])) as (batch' & Hb & Hv').
    + rewrite !foldl_app. cbn [foldl]. by apply views_del_hist.
    + done.
    + intros y w Hy. destruct (Hin y w) as (k' & vv' & c' & HH' & ->); [by right|]. exists k', vv', c'.
      split_and!; [done| |done]. intros (-> & -> & ->). specialize (Hhd _ Hy). cbn [fst] in Hhd.
      by rewrite bytes_lt_irrefl in Hhd.
    + intros k' vv' c' [HH' Hn] Hle. destruct (Hall k' vv' c' HH' Hle) as [v' [E|Hit]%elem_of_cons]; [|eauto].
      apply pair_equal_spec in E as [E _]. destruct Hn. destruct (v_hok _ _ _ _ Hv k' vv' c' HH') as (? & ? & ?).
      apply indexKey_inj in E as [-> E]; [|assumption..]. apply hkey_inj in E as [-> Hbn]; [|assumption..].
      by destruct (v_uniq _ _ _ _ Hv k vv' c vv c HH' HH Hbn) as [-> _].
    + exists batch'. split; [done|]. eapply views_ext; [done| |exact Hv']. intros k' vv' c'. simpl. split.
      * intros [HH' Hlt]. split; [|done]. split; [done|]. intros (-> & -> & ->). lia.
      * intros [[HH' _] Hlt]. done.
Qed.

(** What an iteration over the index finds. *)
Lemma index_iterate db d H m x v :
  views (db_Get db) d H m →
  (x, v) ∈ db_Iterate db [prefixIndex] [] ↔ ∃ k vv c, H k vv c ∧ x = indexKey c (hkey k vv) ∧ v = [].
Proof.
  intros Hv. rewrite iterate_elem. split.
  - intros (Hg & [y ->] & _). by apply (v_idx _ _ _ _ Hv).
  - intros (k & vv & c & HH & -> & ->). destruct (indexKey_head c (hkey k vv)) as [y E]. rewrite E. split_and!.
    + apply (v_idx _ _ _ _ Hv). exists k, vv, c. by rewrite E.
    + by exists y.
    + simpl. by destruct y.
Qed.

(** ** Readers' pins *)

Lemma lowestPinned_spec readers :
  (∀ h, is_Some (readers !! h) → lowestPinnedLocked readers ≤ h) ∧
  (lowestPinnedLocked readers = u64_max ∨ is_Some (readers !! lowestPinnedLocked readers)).
Proof.
  unfold lowestPinnedLocked.
  assert (∀ l a, let r := foldl (λ lowest bn, if bn <? lowest then bn else lowest) a l in
    r ≤ a ∧ (∀ h, h ∈ l → r ≤ h) ∧ (r = a ∨ r ∈ l)) as Hf.
  { induction l as [|x l IH]; intros a; cbn [foldl]; simpl.
    - split_and!; [lia|by intros h ?%not_elem_of_nil|by left].
    - specialize (IH (if x <? a then x else a)). simpl in IH. destruct IH as (H1 & H2 & H3).
      set (r := foldl _ _ l) in *. destruct (Z.ltb_spec x a).
      + split_and!; [lia|intros h [->|?]%elem_of_cons; [lia|auto]|]. right. apply elem_of_cons. tauto.
      + split_and!; [lia|intros h [->|?]%elem_of_cons; [lia|auto]|]. rewrite elem_of_cons. tauto. }
  destruct (Hf (map_to_list readers).*1 u64_max) as (_ & H2 & H3).
  assert (∀ h, h ∈ (map_to_list readers).*1 ↔ is_Some (readers !! h)) as Hin.
  { intros h. rewrite list_elem_of_fmap. split.
    - intros ([h' v] & -> & ?%elem_of_map_to_list). by exists v.
    - intros [v ?]. exists (h, v). split; [done|]. by apply elem_of_map_to_list. }
  split; [intros h Hh; by apply H2, Hin|]. destruct H3 as [->|H3]; [by left|right]. by apply Hin.
Qed.

(** ** The store and its ledger *)

Definition metaBlock : byte_slice := str_bytes "block".
Definition metaOldest : byte_slice := str_bytes "oldest".

(** The meta part of a store whose last block is [last] and whose history starts
    at [oldest]. *)
Definition meta_of (head : option Z) (oldest : Z) (m : content) : Prop :=
  m metaBlock = u64be <$> head ∧
  m metaOldest = if oldest =? 0 then None else Some (u64be oldest).

Definition head_of (l : ledger) : option Z := fst <$> last l.

Record store_inv (p : PebbleKVS) (l : ledger) : Prop := {
  st_wf : ledger_wf l;
  st_nums : Forall (λ blk, is_u64 blk.1) l;
  st_views : ∃ m, views (db_Get (pk_db p)) (ledger_state l) (retained l (oldestRetained p)) m ∧
    meta_of (head_of l) (oldestRetained p) m;
  st_head : currentBlock p = default 0 (head_of l) ∧ hasCheckpoint p = bool_decide (is_Some (head_of l));
  st_oldest : 0 ≤ oldestRetained p ≤ currentBlock p;
  st_size : 1 ≤ historySize p < 2 ^ 63;
  st_pins : ∀ h, is_Some (openReaders p !! h) → is_u64 h
}.

Lemma head_snoc l n us : head_of (l ++ [(n, us)]) = Some n.
Proof. unfold head_of. by rewrite last_snoc. Qed.

Lemma store_current_u64 p l : store_inv p l → is_u64 (currentBlock p).
Proof.
  intros Hi. destruct (st_head _ _ Hi) as [-> _]. unfold head_of. destruct (last l) as [[n us]|] eqn:E; simpl; [|done].
  apply last_Some_elem_of in E. pose proof (st_nums _ _ Hi) as Hn. rewrite Forall_forall in Hn. by apply (Hn _ E).
Qed.

(** A block number past the head extends the ledger. *)
Lemma store_new_block p l n :
  store_inv p l → hasCheckpoint p && (n <=? currentBlock p) = false → is_u64 n →
  Forall (λ blk, blk.1 < n) l ∧ (currentBlock p ≤ n).
Proof.
  intros Hi Hc Hn. destruct (st_head _ _ Hi) as [Hcur Hcp]. unfold head_of in *.
  destruct l as [|[k us] l _] using rev_ind.
  { simpl in *. split; [constructor|]. unfold is_u64 in Hn. lia. }
  rewrite last_snoc in Hcur, Hcp. simpl in Hcur. rewrite Hcp, bool_decide_eq_true_2 in Hc by by eexists.
  apply Z.leb_gt in Hc. split; [|lia]. pose proof (increasing_le_last _ _ _ (proj1 (st_wf _ _ Hi))) as Hle.
  eapply Forall_impl; [exact Hle|]. intros [m x]. simpl. lia.
Qed.

(** Pruning at block [n], after the block is staged. *)
Lemma pruneLocked_inv p l n us batch m :
  store_inv p l → is_u64 n → currentBlock p ≤ n → Forall (λ blk, blk.1 < n) l →
  views (foldl op_apply (db_Get (pk_db p)) batch) (ledger_state (l ++ [(n, us)]))
    (staged l (oldestRetained p) n us) m →
  meta_of (head_of l) (oldestRetained p) m →
  ∃ old' batch' m', pruneLocked p batch n = Ok (old', batch') ∧
    let o := if 0 <? old' then old' else oldestRetained p in
    views (foldl op_apply (db_Get (pk_db p)) batch') (ledger_state (l ++ [(n, us)]))
      (retained (l ++ [(n, us)]) o) m' ∧
    meta_of (head_of l) o m' ∧
    oldestRetained p ≤ o ≤ n ∧ o ≤ Z.max (oldestRetained p) (n - historySize p) ∧
    (∀ h, is_Some (openReaders p !! h) → oldestRetained p ≤ h + 1 → o ≤ h + 1).
Proof.
  intros Hi Hn Hcur Hlt Hv Hm. destruct (st_oldest _ _ Hi) as [Ho1 Ho2]. pose proof (st_size _ _ Hi) as Hsz.
  destruct (st_views _ _ Hi) as (m0 & Hv0 & _). unfold is_u64 in Hn.
  assert (∀ k vv c, staged l (oldestRetained p) n us k vv c ↔ retained (l ++ [(n, us)]) (oldestRetained p) k vv c) as Hst.
  { intros k vv c. unfold staged, retained. rewrite hist_of_snoc. split.
    - intros [[? ?]|(-> & ? & ?)]; [tauto|]. split; [by right|lia].
    - intros [[?|(-> & ? & ?)] ?]; [by left|right; done]. }
  unfold pruneLocked. rewrite u64_small by (unfold is_u64; lia).
  destruct (Z.ltb_spec n (historySize p + 1)) as [Hs|Hs].
  { exists 0, batch, m. simpl. split_and!; [done|eapply views_ext; [| |exact Hv]; [done|]; intros; by rewrite Hst|done|lia|lia|lia|auto]. }
  rewrite (u64_small (n - historySize p - 1)) by (unfold is_u64; lia).
  destruct (lowestPinned_spec (openReaders p)) as [Hpin1 Hpin2]. set (pin := lowestPinnedLocked _) in *.
  assert (is_u64 pin) as Hpinu by (destruct Hpin2 as [->|?]; [done|by apply (st_pins _ _ Hi)]).
  set (cutoff := if pin <? n - historySize p - 1 then pin else n - historySize p - 1).
  assert (0 ≤ cutoff < n ∧ cutoff ≤ pin) as [Hc1 Hc2].
  { unfold cutoff. unfold is_u64 in Hpinu. destruct (Z.ltb_spec pin (n - historySize p - 1)); lia. }
  destruct (prune_scan_inv (db_Get (pk_db p)) _ m cutoff (db_Iterate (pk_db p) [prefixIndex] []) _ _ Hv
    (iterate_sorted _ _ _)) as (batch' & -> & Hv').
  { intros x v (k & vv & c & HH & -> & _)%(index_iterate _ _ _ _ _ _ Hv0). exists k, vv, c. split; [by left|done]. }
  { intros k vv c [HH|(-> & _)] Hle; [|lia]. exists []. apply (index_iterate _ _ _ _ _ _ Hv0). eauto 10. }
  rewrite (u64_small (cutoff + 1)) by (unfold is_u64; lia).
  destruct (Z.leb_spec (cutoff + 1) (oldestRetained p)) as [Hle|Hgt].
  - exists 0, batch', m. simpl. split_and!; [done| |done|lia|lia|lia|auto].
    eapply views_ext; [| |exact Hv']; [done|]. intros k vv c. cbn beta. rewrite Hst. unfold retained. split; [|tauto].
    intros [? ?]. split; [done|lia].
  - pose proof (views_put_meta _ _ _ _ metaOldest (u64be (cutoff + 1)) Hv') as Hv2.
    exists (cutoff + 1), (batch' ++ [Put metaOldestKey (u64be (cutoff + 1))]),
      (λ y, if decide (y = metaOldest) then Some (u64be (cutoff + 1)) else m y). rewrite (proj2 (Z.ltb_lt 0 (cutoff + 1))) by lia. split; [done|].
    rewrite foldl_app. cbn [foldl]. split_and!.
    + eapply views_ext; [| |exact Hv2]; [done|]. intros k vv c. cbn beta. rewrite Hst.
      unfold retained. simpl. split; [intros [? ?]; split_and!; [done|lia|lia]|]. intros [[? ?] ?]. split; [done|lia].
    + destruct Hm as [Hm1 Hm2]. split; [exact Hm1|]. simpl. rewrite (proj2 (Z.eqb_neq (cutoff + 1) 0)) by lia. done.
    + lia.
    + lia.
    + unfold cutoff in *. destruct (Z.ltb_spec pin (n - historySize p - 1)); lia.
    + intros h Hh _. specialize (Hpin1 h Hh). lia.
Qed.

(** ** Commits *)

Lemma commit_new p l n us :
  store_inv p l → is_u64 n → Forall update_ok us → Forall (λ u, kvv_BlockNum u = n) us →
  hasCheckpoint p && (n <=? currentBlock p) = false →
  ∃ p', commitBlock n us p = go_ret p' ∧ store_inv p' (l ++ [(n, us)]) ∧
    openReaders p' = openReaders p ∧
    (∀ h, is_Some (openReaders p !! h) → oldestRetained p ≤ h + 1 → oldestRetained p' ≤ h + 1) ∧
    oldestRetained p' ≤ Z.max (oldestRetained p) (n - historySize p).
Proof.
  intros Hi Hn Hok Hbn Hc. destruct (store_new_block p l n Hi Hc Hn) as [Hlt Hcur].
  destruct (st_views _ _ Hi) as (m & Hv & Hm). unfold commitBlock. rewrite Hc.
  destruct (stage_updates_inv (pk_db p) l (oldestRetained p) n m (st_wf _ _ Hi) Hn Hv us [] ([], ∅))
    as ([batch nv] & -> & [Hv1 _]).
  { split; simpl; [|intros k; by rewrite lookup_empty].
    eapply views_ext; [| |exact Hv]; [done|]. intros k vv c. unfold staged. split; [|by left].
    by intros [?|(_ & ? & _)]. }
  { done. }
  simpl in Hv1. rewrite <-(ledger_state_snoc l n us) in Hv1. cbn [go_bind go_ret].
  destruct (pruneLocked_inv p l n us batch m Hi Hn Hcur Hlt Hv1 Hm) as (old' & batch' & m' & Hpr & Hv2 & Hm2 & Ho & Hwin & Hpins).
  rewrite Hpr. set (o := if 0 <? old' then old' else oldestRetained p) in *.
  eexists. split; [done|]. split; [|done].
  pose proof (st_oldest _ _ Hi). pose proof (views_put_meta _ _ _ _ metaBlock (u64be n) Hv2) as Hv3.
  constructor; simpl.
  - apply ledger_wf_snoc. split_and!; [apply Hi|done|done].
  - rewrite Forall_app, Forall_singleton. split; [apply Hi|done].
  - eexists. split; [eapply views_ext; [|by intros|exact Hv3]; intros x; by rewrite get_write, foldl_app|].
    rewrite head_snoc. destruct Hm2 as [Hm21 Hm22]. split; [done|exact Hm22].
  - by rewrite head_snoc.
  - lia.
  - apply (st_size _ _ Hi).
  - apply (st_pins _ _ Hi).
Qed.

(** The meaning of a replay check. *)
Lemma replay_keys_ok db final :
  (∀ k u, (k, u) ∈ final → replay_key db k u = go_ret tt) → replay_keys db final = go_ret tt.
Proof.
  induction final as [|[k u] final IH]; intros H; cbn [replay_keys]; [done|].
  rewrite (H k u) by apply list_elem_of_here. simpl. apply IH. intros. apply H. by right.
Qed.

(** Redelivering the last block changes nothing and reports no error. *)
Lemma commit_replay p l n us :
  store_inv p (l ++ [(n, us)]) → Forall update_ok us → Forall (λ u, kvv_BlockNum u = n) us →
  commitBlock n us p = go_ret p.
Proof.
  intros Hi Hok Hbn. destruct (st_head _ _ Hi) as [Hcur Hcp]. rewrite head_snoc in Hcur, Hcp. simpl in Hcur.
  unfold commitBlock. rewrite Hcp, Hcur, Z.leb_refl, Z.ltb_irrefl. rewrite bool_decide_eq_true_2 by by eexists. simpl.
  destruct (st_views _ _ Hi) as (m & Hv & _).
  unfold verifyTipReplay. rewrite replay_keys_ok; [done|].
  intros k u Hin%elem_of_map_to_list. rewrite LightKVS.finalWrites_lookup in Hin.
  assert (u ∈ us ∧ kvv_Key u = k) as [Hu Hk].
  { apply last_Some_elem_of in Hin. by apply list_elem_of_filter in Hin as [? ?]. }
  rewrite Forall_forall in Hok, Hbn. pose proof (Hok u Hu) as (Hkk & _). rewrite Hk in Hkk.
  unfold replay_key. rewrite (currentRecord_views _ _ _ _ _ Hv Hkk).
  rewrite ledger_state_snoc, writes_lookup, Hin. simpl.
  by rewrite Z.eqb_refl, eqb_reflx, bytes_Equal_refl, String.eqb_refl.
Qed.

(** ** Reads *)

(** What the history scan of a reader at height [h] finds. *)
Lemma history_iterate db d l oldest m k h x v :
  views (db_Get db) d (retained l oldest) m → key_ok k → is_u64 h →
  (x, v) ∈ db_Iterate db (historyPrefix k) (u64be (u64_not h)) ↔
  ∃ vv c, retained l oldest k vv c ∧ vv_BlockNum vv ≤ h ∧ x = hkey k vv ∧ v = encodeRecord vv.
Proof.
  intros Hv Hk Hh. rewrite iterate_elem. split.
  - intros (Hg & [y ->] & Hlt). assert (∃ z, historyPrefix k ++ y = prefixHistory :: z) as [z E] by by eexists.
    rewrite E in Hg. apply (v_hist _ _ _ _ Hv) in Hg as (k' & vv & c & HH & E' & ->). rewrite <-E in E'.
    destruct (v_hok _ _ _ _ Hv _ _ _ HH) as (Hk' & (Hb & Ht & _) & _).
    destruct (keyForState_prefix _ _ k k' _ _ Hk Hk' E') as (_ & <- & _).
    exists vv, c. split_and!; [done| |done|done]. rewrite E' in Hlt. by apply (historyKey_start k _ (vv_TxNum vv)).
  - intros (vv & c & HH & Hle & -> & ->). destruct (v_hok _ _ _ _ Hv _ _ _ HH) as (_ & (Hb & Ht & _) & _). split_and!.
    + destruct (hkey_head k vv) as [z E]. rewrite E. apply (v_hist _ _ _ _ Hv). exists k, vv, c. by rewrite E.
    + by eexists.
    + exact (proj2 (historyKey_start k (vv_BlockNum vv) (vv_TxNum vv) h Hb Hh) Hle).
Qed.

(** When the current record is newer than the height, the first history record
    found is the answer. *)
Lemma history_first p l m k h :
  store_inv p l → views (db_Get (pk_db p)) (ledger_state l) (retained l (oldestRetained p)) m →
  key_ok k → is_u64 h → oldestRetained p ≤ h + 1 →
  (∀ vv, ledger_state l !! k = Some vv → h < vv_BlockNum vv) →
  match db_Iterate (pk_db p) (historyPrefix k) (u64be (u64_not h)) with
  | [] => ledger_at h l !! k = None
  | (_, raw) :: _ => ∃ vv, raw = encodeRecord vv ∧ record_ok vv ∧ ledger_at h l !! k = Some vv
  end.
Proof.
  intros Hi Hv Hk Hh Ho Hcur. pose proof (st_wf _ _ Hi) as Hwf.
  assert (∀ x v, (x, v) ∈ db_Iterate (pk_db p) (historyPrefix k) (u64be (u64_not h)) ↔
    ∃ vv c, retained l (oldestRetained p) k vv c ∧ vv_BlockNum vv ≤ h ∧ x = hkey k vv ∧ v = encodeRecord vv) as Hit
    by (intros x v; by eapply history_iterate).
  pose proof (iterate_sorted (pk_db p) (historyPrefix k) (u64be (u64_not h))) as Hs.
  destruct (db_Iterate _ _ _) as [|[x0 v0] it] eqn:E.
  - destruct (ledger_at h l !! k) as [vv|] eqn:Ea; [|done]. exfalso.
    destruct (at_cases l k vv h Hwf Ea) as (Hb & [Hc|[(c & Hh' & Hlt) _]]).
    + specialize (Hcur vv Hc). lia.
    + assert ((hkey k vv, encodeRecord vv) ∈ ([] : list (byte_slice * byte_slice))) as []%not_elem_of_nil.
      apply Hit. exists vv, c. split_and!; [split; [done|lia]|done|done|done].
  - apply StronglySorted_inv in Hs as [_ Hhd]. rewrite Forall_forall in Hhd.
    destruct (proj1 (Hit x0 v0)) as (vv0 & c0 & HH0 & Hb0 & -> & ->); [apply list_elem_of_here|].
    destruct (v_hok _ _ _ _ Hv _ _ _ HH0) as (_ & Hok0 & _). exists vv0. split_and!; [done..|].
    destruct (at_history l k vv0 c0 h Hwf (proj1 HH0) Hb0) as (vv & Ea & [Hlt|<-]); [exfalso|done].
    destruct (at_cases l k vv h Hwf Ea) as (Hb & [Hc|[(c & Hh' & Hlt') _]]).
    { specialize (Hcur vv Hc). lia. }
    assert (retained l (oldestRetained p) k vv c) as HH by (split; [done|lia]).
    destruct (v_hok _ _ _ _ Hv _ _ _ HH) as (_ & (Hb1 & Ht1 & _) & _). destruct Hok0 as (Hb2 & Ht2 & _).
    assert ((hkey k vv, encodeRecord vv) ∈ (hkey k vv0, encodeRecord vv0) :: it) as [Eq|Hin]%elem_of_cons
      by (apply Hit; eauto 10).
    + apply pair_equal_spec in Eq as [Eq _]. destruct (historyKey_inj _ _ _ _ _ _ Hk Hk Hb1 Hb2 Ht1 Ht2 Eq) as (_ & Eb & _). lia.
    + pose proof (Hhd _ Hin) as Hl. destruct (proj1 (historyKey_lt k _ _ _ _ Hb2 Hb1 Ht2 Ht1) Hl); lia.
Qed.

Lemma snap_Get_at p l h namespace key :
  store_inv p l → is_u64 h → oldestRetained p ≤ h + 1 → key_ok (fullKey namespace key) →
  snap_Get p {| lastBlock := h; closed := false |} namespace key =
  go_ret (toWriteRecord namespace key <$> ledger_at h l !! fullKey namespace key).
Proof.
  intros Hi Hh Ho Hk. destruct (st_views _ _ Hi) as (m & Hv & _). pose proof (st_wf _ _ Hi) as Hwf.
  unfold snap_Get. cbn [closed lastBlock]. set (k := fullKey namespace key) in *.
  rewrite (currentRecord_views _ _ _ _ _ Hv Hk). cbn [go_bind go_ret].
  assert ((∀ vv, ledger_state l !! k = Some vv → h < vv_BlockNum vv) →
    match db_Iterate (pk_db p) (historyPrefix k) (u64be (u64_not h)) with
    | [] => go_ret None
    | (_, raw) :: _ =>
        match decodeRecord raw with
        | Panic msg => Panic msg
        | Done (Err e) => go_err (CorruptRecord e)
        | Done (Ok rec) => go_ret (Some (with_key namespace key rec))
        end
    end = go_ret (toWriteRecord namespace key <$> ledger_at h l !! k)) as Hhist.
  { intros Hcur. pose proof (history_first p l m k h Hi Hv Hk Hh Ho Hcur) as H.
    destruct (db_Iterate _ _ _) as [|[x raw] it]; [by rewrite H|]. destruct H as (vv & -> & Hok & ->).
    by rewrite decode_encode_record. }
  destruct (ledger_state l !! k) as [vv|] eqn:E; simpl; [|by apply Hhist].
  destruct (Z.leb_spec (vv_BlockNum vv) h) as [Hle|Hgt].
  - by rewrite (at_current l k vv h).
  - apply Hhist. by intros vv' [= <-].
Qed.

(** ** Restart *)

Lemma readMeta_present db d H m x v :
  views (db_Get db) d H m → m x = Some (u64be v) → is_u64 v →
  readMeta db (prefixMeta :: x) = Ok (v, true).
Proof.
  intros Hv Hm Hu. unfold readMeta. rewrite (v_meta _ _ _ _ Hv), Hm, u64be_length. simpl. by rewrite u64be_value.
Qed.

Lemma readMeta_absent db d H m x :
  views (db_Get db) d H m → m x = None → readMeta db (prefixMeta :: x) = Ok (0, false).
Proof. intros Hv Hm. unfold readMeta. by rewrite (v_meta _ _ _ _ Hv), Hm. Qed.

Lemma restart_inv dir p l hs :
  store_inv p l → dir ≠ "" → hs < 2 ^ 63 →
  ∃ p', NewPebbleKVS dir (pk_db p) hs = Ok p' ∧ store_inv p' l ∧ pk_db p' = pk_db p ∧
    currentBlock p' = currentBlock p ∧ hasCheckpoint p' = hasCheckpoint p ∧
    oldestRetained p' = oldestRetained p ∧ openReaders p' = ∅.
Proof.
  intros Hi Hd Hhs. destruct (st_views _ _ Hi) as (m & Hv & Hm1 & Hm2). destruct (st_head _ _ Hi) as [Hc Hcp].
  pose proof (store_current_u64 p l Hi) as Hu. pose proof (st_oldest _ _ Hi) as Ho.
  assert (readMetaBlock (pk_db p) = Ok (currentBlock p, hasCheckpoint p)) as Hb.
  { unfold readMetaBlock. rewrite Hc, Hcp in *. destruct (head_of l) as [n|]; simpl in *.
    - exact (readMeta_present _ _ _ _ metaBlock n Hv Hm1 Hu).
    - exact (readMeta_absent _ _ _ _ metaBlock Hv Hm1). }
  assert (∃ f, readMeta (pk_db p) metaOldestKey = Ok (oldestRetained p, f)) as [f Hof].
  { destruct (Z.eqb_spec (oldestRetained p) 0) as [E|E].
    - exists false. rewrite E. by apply (readMeta_absent _ _ _ _ metaOldest Hv).
    - exists true. apply (readMeta_present _ _ _ _ metaOldest _ Hv Hm2). unfold is_u64 in *. lia. }
  unfold NewPebbleKVS. rewrite decide_False by done. rewrite Hb, Hof. eexists. split; [done|]. split; [|done].
  constructor; simpl; try apply Hi.
  - destruct (Z.leb_spec hs 0); [done|lia].
  - intros h. rewrite lookup_empty. by intros [? ?].
Qed.

(** ** The store with its readers *)

(** [ps_ledger] records the blocks committed so far; the code keeps it only in
    the database. *)
Record psys := {
  ps_store : PebbleKVS;
  ps_readers : gmap nat pebbleSnapshot;
  ps_ledger : ledger
}.

Definition block_ok (b : Block) : Prop := is_u64 (b_Number b) ∧ Forall update_ok (blockUpdates b).

Definition extend (p : PebbleKVS) (b : Block) (l : ledger) : ledger :=
  if hasCheckpoint p && (b_Number b <=? currentBlock p) then l else l ++ [(b_Number b, blockUpdates b)].

Inductive pstep : psys → psys → Prop :=
| p_handle b p p' rs l :
    block_ok b → Handle b p = go_ret p' →
    pstep {| ps_store := p; ps_readers := rs; ps_ledger := l |}
          {| ps_store := p'; ps_readers := rs; ps_ledger := extend p b l |}
| p_open id bn s p p' rs l :
    rs !! id = None → (∀ n, bn = Some n → is_u64 n) → NewSnapshot bn p = Ok (s, p') →
    pstep {| ps_store := p; ps_readers := rs; ps_ledger := l |}
          {| ps_store := p'; ps_readers := <[id := s]> rs; ps_ledger := l |}
| p_close id s p rs l :
    rs !! id = Some s →
    pstep {| ps_store := p; ps_readers := rs; ps_ledger := l |}
          {| ps_store := (snap_Close s p).2; ps_readers := <[id := (snap_Close s p).1]> rs; ps_ledger := l |}
| p_restart dir hs p p' rs l :
    hs < 2 ^ 63 → NewPebbleKVS dir (pk_db p) hs = Ok p' →
    pstep {| ps_store := p; ps_readers := rs; ps_ledger := l |}
          {| ps_store := p'; ps_readers := ∅; ps_ledger := l |}.

(** The number of open readers pinned to a height. *)
Definition pinned (h : Z) (rs : gmap nat pebbleSnapshot) : nat :=
  size (filter (λ '(_, s), closed s = false ∧ lastBlock s = h) rs).

Record sys_inv (s : psys) : Prop := {
  sy_store : store_inv (ps_store s) (ps_ledger s);
  sy_reader id r : ps_readers s !! id = Some r → closed r = false →
    is_u64 (lastBlock r) ∧ lastBlock r ≤ currentBlock (ps_store s) ∧
    oldestRetained (ps_store s) ≤ lastBlock r + 1;
  sy_pins h : openReaders (ps_store s) !! h =
    if decide (pinned h (ps_readers s) = 0)%nat then None else Some (Z.of_nat (pinned h (ps_readers s)))
}.

Lemma pinned_insert h id s rs :
  rs !! id = None →
  (pinned h (<[id := s]> rs) = (if decide (closed s = false ∧ lastBlock s = h) then 1 else 0) + pinned h rs)%nat.
Proof.
  intros Hid. unfold pinned. destruct (decide (closed s = false ∧ lastBlock s = h)) as [Hd|Hd].
  - rewrite map_filter_insert_True by done. rewrite map_size_insert_None; [done|].
    apply map_lookup_filter_None. by left.
  - rewrite map_filter_insert_not'; [done|done|]. intros y Hy. by rewrite Hid in Hy.
Qed.

(** Replacing an open reader by its closed version. *)
Lemma pinned_close h id s rs :
  rs !! id = Some s → closed s = false →
  (pinned h rs = (if decide (lastBlock s = h) then 1 else 0) +
     pinned h (<[id := {| lastBlock := lastBlock s; closed := true |}]> rs))%nat.
Proof.
  intros Hid Hc. rewrite <-(insert_delete_id rs id s Hid) at 1. rewrite <-(insert_delete_eq rs id).
  rewrite !pinned_insert by apply lookup_delete_eq. simpl. rewrite Hc.
  destruct (decide (lastBlock s = h)); repeat case_decide; naive_solver.
Qed.

Lemma commit_old b p p' :
  hasCheckpoint p && (b_Number b <=? currentBlock p) = true → Handle b p = go_ret p' → p' = p.
Proof.
  unfold Handle, commitBlock. intros ->. destruct (_ <? _); [by intros [= <-]|].
  destruct (verifyTipReplay _ _) as [[[]|e]|msg]; simpl; [by intros [= <-]|done..].
Qed.

Lemma psys_handle_inv b p p' rs l :
  sys_inv {| ps_store := p; ps_readers := rs; ps_ledger := l |} → block_ok b → Handle b p = go_ret p' →
  sys_inv {| ps_store := p'; ps_readers := rs; ps_ledger := extend p b l |}.
Proof.
  intros [Hs Hr Hp] [Hn Hok] Hh. simpl in *. unfold extend.
  destruct (hasCheckpoint p && (b_Number b <=? currentBlock p)) eqn:E.
  { apply commit_old in Hh as ->; [|done]. by split. }
  destruct (commit_new p l _ _ Hs Hn Hok (blockUpdates_BlockNum b) E) as (p2 & Hc & Hi & Hrd & Hpin & _).
  unfold Handle in Hh. rewrite Hc in Hh. injection Hh as <-. destruct (store_new_block p l _ Hs E Hn) as [_ Hcur].
  destruct (st_head _ _ Hi) as [Hh _]. rewrite head_snoc in Hh. simpl in Hh. split; simpl.
  - done.
  - intros id r Hid Hcl. destruct (Hr id r Hid Hcl) as (H1 & H2 & H3). split_and!; [done|lia|]. apply Hpin; [|done].
    rewrite Hp. destruct (decide (pinned (lastBlock r) rs = 0%nat)) as [H0|]; [|by eexists]. exfalso.
    apply map_size_empty_iff in H0. eapply map_empty in H0. rewrite map_lookup_filter_None in H0.
    destruct H0 as [H0|H0]; [by rewrite Hid in H0|]. by apply (H0 r Hid).
  - intros h. by rewrite Hrd.
Qed.

Lemma open_inv id bn s p p' rs l :
  sys_inv {| ps_store := p; ps_readers := rs; ps_ledger := l |} →
  rs !! id = None → (∀ n, bn = Some n → is_u64 n) → NewSnapshot bn p = Ok (s, p') →
  sys_inv {| ps_store := p'; ps_readers := <[id := s]> rs; ps_ledger := l |}.
Proof.
  intros [Hs Hr Hp] Hid Hbn Ho. simpl in *. pose proof (store_current_u64 p l Hs) as Hcu. unfold NewSnapshot in Ho.
  set (h := match bn with Some n => if n <? currentBlock p then n else currentBlock p | None => currentBlock p end) in *.
  assert (is_u64 h ∧ h ≤ currentBlock p) as [Hh Hle].
  { unfold h. destruct bn as [n|]; [|by split]. specialize (Hbn n eq_refl).
    destruct (Z.ltb_spec n (currentBlock p)); split; done || lia. }
  destruct (Z.ltb_spec h (oldestRetained p)) as [|Hold]; [done|]. injection Ho as <- <-. split; simpl.
  - destruct Hs. constructor; simpl; try done. intros h'. rewrite lookup_insert. case_decide; [by subst|auto].
  - intros id' r. rewrite lookup_insert. case_decide; [intros [= <-] _; simpl; split_and!; [done|done|lia]|apply Hr].
  - intros h'. rewrite lookup_insert, pinned_insert by done. simpl. destruct (decide (h = h')) as [<-|Hne].
    + rewrite (decide_True (P := false = false ∧ h = h)) by done. rewrite (decide_False (P := (1 + _ = 0)%nat)) by lia.
      f_equal. rewrite Hp. case_decide as H0; simpl; lia.
    + rewrite (decide_False (P := false = false ∧ h = h')) by naive_solver. apply Hp.
Qed.

Lemma close_inv id s p rs l :
  sys_inv {| ps_store := p; ps_readers := rs; ps_ledger := l |} → rs !! id = Some s →
  sys_inv {| ps_store := (snap_Close s p).2; ps_readers := <[id := (snap_Close s p).1]> rs; ps_ledger := l |}.
Proof.
  intros [Hs Hr Hp] Hid. simpl in *. unfold snap_Close. destruct (closed s) eqn:Hc; simpl.
  { rewrite insert_id by done. by split. }
  unfold releaseReader. split; simpl.
  - destruct Hs. constructor; simpl; try done. intros h'. destruct (1 <? _); [rewrite lookup_insert|rewrite lookup_delete].
    + case_decide as Hd; [|auto]. subst h'. intros _. by apply (Hr id s).
    + case_decide; [by intros [? ?]|auto].
  - intros id' r. rewrite lookup_insert. case_decide; [intros [= <-]; done|apply Hr].
  - intros h. pose proof (pinned_close h id s rs Hid Hc) as Hpc. specialize (Hp h) as Hph. rewrite Hpc in Hph.
    pose proof (Hp (lastBlock s)) as Hps. rewrite (pinned_close (lastBlock s) id s rs Hid Hc), (decide_True (P := lastBlock s = lastBlock s)) in Hps by done.
    set (rs' := <[id := _]> rs) in *. rewrite (decide_False (P := (1 + _ = 0)%nat)) in Hps by lia. rewrite Hps. simpl.
    destruct (decide (lastBlock s = h)) as [<-|Hne].
    + destruct (Z.ltb_spec 1 (Z.of_nat (S (pinned (lastBlock s) rs')))).
      * rewrite lookup_insert_eq, decide_False by lia. f_equal. lia.
      * rewrite lookup_delete_eq, decide_True by lia. done.
    + destruct (1 <? _); rewrite ?lookup_insert_ne, ?lookup_delete_ne by done; exact Hph.
Qed.

Lemma pstep_inv s s' : pstep s s' → sys_inv s → sys_inv s'.
Proof.
  intros Hst Hi. destruct Hst as [b p p' rs l Hb Hh|id bn s p p' rs l Hid Hbn Ho|id s p rs l Hid|dir hs p p' rs l Hhs Hn].
  - by apply (psys_handle_inv b p).
  - by apply (open_inv id bn s p).
  - by apply close_inv.
  - destruct Hi as [Hs Hr Hp]. simpl in *. assert (dir ≠ "") as Hd.
    { intros ->. unfold NewPebbleKVS in Hn. by rewrite decide_True in Hn. }
    destruct (restart_inv dir p l hs Hs Hd Hhs) as (p2 & Hn2 & Hi2 & _ & _ & _ & _ & Hrd).
    rewrite Hn in Hn2. injection Hn2 as <-. split; simpl; [done|by intros id r ?%lookup_empty_Some|].
    intros h. rewrite Hrd, lookup_empty. unfold pinned. rewrite map_filter_empty, map_size_empty. by rewrite decide_True.
Qed.

(** A store opened on an empty database. *)
Definition fresh (s : psys) : Prop :=
  (∀ x, db_Get (pk_db (ps_store s)) x = None) ∧
  (∃ dir db hs, hs < 2 ^ 63 ∧ NewPebbleKVS dir db hs = Ok (ps_store s)) ∧
  ps_readers s = ∅ ∧ ps_ledger s = [].

Lemma fresh_inv s : fresh s → sys_inv s.
Proof.
  destruct s as [p rs l]. unfold fresh. simpl. intros (Hempty & (dir & db & hs & Hhs & Hn) & -> & ->).
  unfold NewPebbleKVS in Hn. destruct (decide (dir = "")); [done|].
  assert (db = pk_db p) as ->.
  { destruct (readMetaBlock db) as [[? ?]|]; [|done]. destruct (readMeta db _) as [[? ?]|]; [|done]. by injection Hn as <-. }
  unfold readMetaBlock, readMeta in Hn. rewrite !Hempty in Hn. injection Hn as <-. simpl in *.
  split; simpl; [|by intros id r ?%lookup_empty_Some|].
  - constructor; simpl; try done.
    + split; constructor.
    + exists (λ _, None). split; [|done]. constructor; simpl; try done.
      * intros k vv c [[]%hist_of_nil _].
      * intros k vv c vv' c' [[]%hist_of_nil _].
      * intros x v. rewrite Hempty. split; [done|]. by intros (k & vv & c & [[]%hist_of_nil _] & _).
      * intros x v. rewrite Hempty. split; [done|]. by intros (k & vv & c & [[]%hist_of_nil _] & _).
    + destruct (Z.leb_spec hs 0); [done|lia].
    + intros h. rewrite lookup_empty. by intros [? ?].
  - intros h. rewrite lookup_empty. unfold pinned. rewrite map_filter_empty, map_size_empty. by rewrite decide_True.
Qed.

Lemma reachable_sys s0 s : fresh s0 → rtc pstep s0 s → sys_inv s.
Proof.
  intros Hf%fresh_inv Hr. induction Hr as [|x y z Hst _ IH]; [done|]. by apply IH, (pstep_inv x).
Qed.

(** The ledger only grows, by blocks past the head. *)
Lemma ledger_grows s s' :
  rtc pstep s s' → sys_inv s → hasCheckpoint (ps_store s) = true →
  ∃ l2, ps_ledger s' = ps_ledger s ++ l2 ∧ Forall (λ blk, currentBlock (ps_store s) < blk.1) l2.
Proof.
  induction 1 as [s|s t u Hst _ IH]; intros Hi Hc; [exists []; by rewrite app_nil_r|].
  pose proof (pstep_inv s t Hst Hi) as Ht.
  assert (∃ l1, ps_ledger t = ps_ledger s ++ l1 ∧ Forall (λ blk, currentBlock (ps_store s) < blk.1) l1 ∧
    hasCheckpoint (ps_store t) = true ∧ currentBlock (ps_store s) ≤ currentBlock (ps_store t)) as (l1 & E1 & F1 & C1 & B1).
  { destruct (st_head _ _ (sy_store _ Hi)) as [Hcs Hhs]. destruct (st_head _ _ (sy_store _ Ht)) as [Hct Hht].
    assert (is_Some (head_of (ps_ledger s))) as [n Hnl] by (rewrite Hhs in Hc; by apply bool_decide_eq_true in Hc).
    destruct Hst as [b p p' rs l Hb Hh|id bn r p p' rs l Hid Hbn Ho|id r p rs l Hid|dir hs p p' rs l Hhs' Hn']; simpl in *.
    - unfold extend in *. destruct (hasCheckpoint p && (b_Number b <=? currentBlock p)) eqn:E.
      { exists []. rewrite app_nil_r, Hht, Hct, Hcs. split_and!; [done|constructor|by rewrite Hnl|done]. }
      eexists. split; [done|]. rewrite Forall_singleton, Hct, Hht, head_snoc. simpl. rewrite Hc in E. apply Z.leb_gt in E.
      split_and!; [done|done|lia].
    - exists []. rewrite app_nil_r, Hht, Hct, Hcs. split_and!; [done|constructor|by rewrite Hnl|done].
    - exists []. rewrite app_nil_r, Hht, Hct, Hcs. split_and!; [done|constructor|by rewrite Hnl|done].
    - exists []. rewrite app_nil_r, Hht, Hct, Hcs. split_and!; [done|constructor|by rewrite Hnl|done]. }
  destruct (IH Ht C1) as (l2 & E2 & F2). exists (l1 ++ l2). rewrite E2, E1, app_assoc. split; [done|].
  rewrite Forall_app. split; [done|]. eapply Forall_impl; [exact F2|]. simpl. lia.
Qed.

(** C11: time travel.  In every state reached by commits, reads and restarts, an
    open reader at height [n] is answered with the state of the ledger as of
    block [n], and a new reader is given for every height the retained window
    covers (heights at or past the head are served by the head). *)
Theorem pebble_time_travel s0 s id r namespace key :
  fresh s0 → rtc pstep s0 s → ps_readers s !! id = Some r → closed r = false →
  key_ok (fullKey namespace key) →
  snap_Get (ps_store s) r namespace key =
    go_ret (toWriteRecord namespace key <$> ledger_at (lastBlock r) (ps_ledger s) !! fullKey namespace key) ∧
  ∀ n, oldestRetained (ps_store s) ≤ Z.min n (currentBlock (ps_store s)) →
    ∃ p', NewSnapshot (Some n) (ps_store s) =
      Ok ({| lastBlock := Z.min n (currentBlock (ps_store s)); closed := false |}, p').
Proof.
  intros Hf Hr Hid Hc Hk. pose proof (reachable_sys s0 s Hf Hr) as Hi. split.
  - destruct (sy_reader _ Hi id r Hid Hc) as (H1 & H2 & H3). destruct r as [h c]. simpl in *. subst c.
    apply snap_Get_at; [apply Hi|done..].
  - intros n Hn. unfold NewSnapshot. set (cur := currentBlock (ps_store s)) in *.
    replace (if n <? cur then n else cur) with (Z.min n cur) by (destruct (Z.ltb_spec n cur); lia).
    rewrite (proj2 (Z.ltb_ge _ _)) by lia. eauto.
Qed.

(** C31: snapshot isolation.  Once a block is committed, whatever is committed,
    pruned, opened or closed while a reader stays open does not change what it
    reads. *)
Theorem pebble_isolation s0 s s' id r namespace key :
  fresh s0 → rtc pstep s0 s → hasCheckpoint (ps_store s) = true →
  ps_readers s !! id = Some r → closed r = false →
  rtc pstep s s' → ps_readers s' !! id = Some r → key_ok (fullKey namespace key) →
  snap_Get (ps_store s') r namespace key = snap_Get (ps_store s) r namespace key.
Proof.
  intros Hf Hr Hcp Hid Hc Hr' Hid' Hk. pose proof (reachable_sys s0 s Hf Hr) as Hi.
  assert (sys_inv s') as Hi' by (apply (reachable_sys s0); [done|by trans s]).
  destruct (sy_reader _ Hi id r Hid Hc) as (H1 & H2 & H3). destruct (sy_reader _ Hi' id r Hid' Hc) as (_ & _ & H4).
  destruct (ledger_grows s s' Hr' Hi Hcp) as (l2 & El & Fl). destruct r as [h c]. simpl in *. subst c.
  rewrite (snap_Get_at _ (ps_ledger s')), (snap_Get_at _ (ps_ledger s)); try done; [|apply Hi|apply Hi'].
  do 2 f_equal. rewrite El, ledger_at_past; [done|]. eapply Forall_impl; [exact Fl|]. simpl. lia.
Qed.

(** Block handling.  A block past the head (or the first one) is always
    applied: the head moves to it, the reference semantics gives the new state,
    heights down to the configured window below it stay readable if they were,
    and redelivering the block is a no-op.  A block below the head is skipped. *)
Theorem pebble_Handle s0 s b :
  fresh s0 → rtc pstep s0 s → block_ok b →
  let p := ps_store s in
  if hasCheckpoint p && (b_Number b <=? currentBlock p) then
    b_Number b < currentBlock p → Handle b p = go_ret p
  else ∃ p', Handle b p = go_ret p' ∧ BlockNumber p' = b_Number b ∧ Handle b p' = go_ret p' ∧
    (∀ n, oldestRetained p ≤ n → b_Number b - historySize p ≤ n → oldestRetained p' ≤ n) ∧
    (∀ namespace key, key_ok (fullKey namespace key) →
       (Get namespace key p').1 =
         go_ret (toWriteRecord namespace key <$>
           writes (ledger_state (ps_ledger s)) (blockUpdates b) !! fullKey namespace key)).
Proof.
  intros Hf Hr Hb p. pose proof (reachable_sys s0 s Hf Hr) as Hi. destruct Hb as [Hn Hok].
  destruct (hasCheckpoint p && (b_Number b <=? currentBlock p)) eqn:E.
  { intros Hlt. unfold Handle, commitBlock. fold p. rewrite E. by rewrite (proj2 (Z.ltb_lt _ _)). }
  pose proof (sy_store _ Hi) as Hs. fold p in Hs.
  destruct (commit_new p _ _ _ Hs Hn Hok (blockUpdates_BlockNum b) E) as (p' & Hc & Hs' & _ & _ & Hwin).
  destruct (st_head _ _ Hs') as [Hh _]. rewrite head_snoc in Hh. simpl in Hh.
  exists p'. split_and!; [done|done| | |].
  - apply (commit_replay p' _ _ _ Hs' Hok). apply blockUpdates_BlockNum.
  - intros n H1 H2. lia.
  - intros namespace key Hk. pose proof (st_oldest _ _ Hs') as Ho. unfold Get, NewSnapshot.
    rewrite (proj2 (Z.ltb_ge _ _)) by lia. cbn [fst].
    set (p2 := set_readers _ p'). assert (store_inv p2 (ps_ledger s ++ [(b_Number b, blockUpdates b)])) as Hs2.
    { destruct Hs'. constructor; simpl; try done. intros h'. rewrite lookup_insert. case_decide; [|auto].
      intros _. subst h'. by rewrite Hh. }
    rewrite (snap_Get_at p2 (ps_ledger s ++ [(b_Number b, blockUpdates b)]) (currentBlock p')); [|done| |simpl; lia|done].
    + rewrite <-(ledger_state_snoc (ps_ledger s) (b_Number b)), ledger_at_snoc_ge; [done|apply Hs'|lia].
    + by rewrite Hh.
Qed.

(** C36: crash recovery.  Every commit is one atomic batch, so a crash leaves the
    database of a reached state; reopening it, with any window, recovers the head,
    the checkpoint and the history bound, and every key reads as before. *)
Theorem pebble_recovers s0 s dir hs namespace key :
  fresh s0 → rtc pstep s0 s → dir ≠ "" → hs < 2 ^ 63 → key_ok (fullKey namespace key) →
  ∃ p', NewPebbleKVS dir (pk_db (ps_store s)) hs = Ok p' ∧
    currentBlock p' = currentBlock (ps_store s) ∧ hasCheckpoint p' = hasCheckpoint (ps_store s) ∧
    oldestRetained p' = oldestRetained (ps_store s) ∧
    (Get namespace key p').1 = (Get namespace key (ps_store s)).1.
Proof.
  intros Hf Hr Hd Hhs Hk. pose proof (reachable_sys s0 s Hf Hr) as Hi. pose proof (sy_store _ Hi) as Hs.
  destruct (restart_inv dir _ _ hs Hs Hd Hhs) as (p' & Hn & Hs' & Hdb & H1 & H2 & H3 & _).
  exists p'. split_and!; [done..|]. unfold Get, NewSnapshot. rewrite H1, H3. destruct (_ <? _); [done|].
  unfold snap_Get. simpl. by rewrite Hdb.
Qed.
End props.

(** ** A database in memory *)

Definition key_le (a b : byte_slice * byte_slice) : Prop := bytes_lt b.1 a.1 = false.
#[local] Instance key_le_dec : RelDecision key_le := λ a b, bool_eq_dec (bytes_lt b.1 a.1) false.

(** An association list; the first binding of a key counts. *)
Abbreviation mem := (list (byte_slice * byte_slice)).

Fixpoint mem_Get (db : mem) (x : byte_slice) : option byte_slice :=
  match db with
  | [] => None
  | (k, v) :: db => if decide (x = k) then Some v else mem_Get db x
  end.

Definition mem_Iterate (db : mem) (p s : byte_slice) : mem :=
  merge_sort key_le ((λ k, (k, default [] (mem_Get db k))) <$>
    filter (λ k, p `prefix_of` k ∧ bytes_lt k (p ++ s) = false) (remove_dups db.*1)).

Definition mem_apply (db : mem) (op : batch_op) : mem :=
  match op with
  | Put k v => (k, v) :: filter (λ kv, kv.1 ≠ k) db
  | Delete k => filter (λ kv, kv.1 ≠ k) db
  end.

Definition mem_db : PebbleDB := {|
  DB := mem;
  db_Get := mem_Get;
  db_Write := λ db ops, foldl mem_apply db ops;
  db_Iterate := mem_Iterate
|}.

Lemma mem_Get_filter db k x :
  mem_Get (filter (λ kv, kv.1 ≠ k) db) x = if decide (x = k) then None else mem_Get db x.
Proof.
  induction db as [|[k' v] db IH]; [by case_decide|]. rewrite filter_cons. simpl.
  destruct (decide (k' ≠ k)) as [Hk|Hk]; simpl; rewrite IH; repeat case_decide; naive_solver.
Qed.

Lemma mem_Get_elem db k : is_Some (mem_Get db k) ↔ k ∈ db.*1.
Proof.
  induction db as [|[k' v] db IH]; simpl; [split; [by intros [? ?]|by intros ?%not_elem_of_nil]|].
  rewrite elem_of_cons, <-IH. case_decide; [naive_solver|]. naive_solver.
Qed.

#[local] Instance key_le_total : Total key_le.
Proof.
  intros [a x] [b y]. unfold key_le. simpl. destruct (bytes_lt b a) eqn:E1; [|by left]. right.
  destruct (bytes_lt a b) eqn:E2; [|done]. pose proof (bytes_lt_trans _ _ _ E1 E2) as H. by rewrite bytes_lt_irrefl in H.
Qed.

#[local] Instance key_le_trans : Transitive key_le.
Proof.
  intros [a x] [b y] [c z]. unfold key_le. simpl. intros H1 H2. destruct (bytes_lt c a) eqn:E; [|done].
  destruct (bytes_lt b c) eqn:E2.
  - by rewrite (bytes_lt_trans _ _ _ E2 E) in H1.
  - rewrite (bytes_lt_total b c) in H1 by done. congruence.
Qed.

#[export] Instance mem_laws : PebbleLaws mem_db.
Proof.
  constructor; simpl.
  - intros db ops x. revert db. induction ops as [|op ops IH]; intros db; cbn [foldl]; [done|]. rewrite IH.
    assert (∀ (g g' : content) l, (∀ y, g y = g' y) → foldl op_apply g l x = foldl op_apply g' l x) as Hext.
    { intros g g' l. revert g g'. induction l as [|o l IHl]; intros g g' Hg; cbn [foldl]; [apply Hg|].
      apply IHl. intros y. destruct o; simpl; by rewrite Hg. }
    apply Hext. intros y. destruct op; simpl.
    + rewrite mem_Get_filter. by case_decide.
    + by rewrite mem_Get_filter.
  - intros db p s k v. unfold mem_Iterate. rewrite merge_sort_Permutation, list_elem_of_fmap. split.
    + intros (k' & [= -> ->] & [[Hp Hs] Hk]%list_elem_of_filter). rewrite elem_of_remove_dups in Hk.
      apply mem_Get_elem in Hk as [w ->]. done.
    + intros (Hg & Hp & Hs). exists k. rewrite Hg, list_elem_of_filter, elem_of_remove_dups, <-mem_Get_elem, Hg.
      split_and!; [done..|by eexists].
  - intros db p s. unfold mem_Iterate. set (l := _ <$> _).
    assert (NoDup (merge_sort key_le l).*1) as Hnd.
    { rewrite merge_sort_Permutation. unfold l. rewrite <-list_fmap_compose.
      rewrite (list_fmap_ext _ id _ ltac:(done)), list_fmap_id. apply NoDup_filter, NoDup_remove_dups. }
    pose proof (StronglySorted_merge_sort key_le l) as Hs.
    induction Hs as [|a m Hs IH Ha]; [constructor|]. apply NoDup_cons in Hnd as [Hn Hnd]. constructor; [auto|].
    rewrite Forall_forall in Ha |- *. intros b Hb. specialize (Ha b Hb). unfold key_le in Ha.
    destruct (bytes_lt a.1 b.1) eqn:E; [done|]. destruct Hn. rewrite (bytes_lt_total _ _ E Ha).
    by apply list_elem_of_fmap_2.
Qed.

(** ** Concrete runs *)

Lemma put_block_ok n ns k v :
  is_u64 n → key_ok (fullKey ns k) → Z.of_nat (length v) < 2 ^ 61 → block_ok (put_block n ns k v).
Proof.
  intros Hn Hk Hv. split; [done|]. constructor; [|constructor].
  split_and!; [done|done|done|]. unfold slice_len, slice_bytes. cbn. lia.
Qed.

Definition kvs0 : @PebbleKVS mem_db :=
  @Build_PebbleKVS mem_db ([] : mem) 1 0 false 0 ∅.

Definition put (n v : Z) : Block := put_block n "ns" "k" [v].

Definition after (b : Block) (p : @PebbleKVS mem_db) : @PebbleKVS mem_db :=
  match Handle b p with Done (Ok p') => p' | _ => p end.

(** One block, a reader on it, and two more blocks in a window of one. *)
Definition reader1 : pebbleSnapshot := {| lastBlock := 1; closed := false |}.
Definition kvs1 : @PebbleKVS mem_db := set_readers {[1 := 1]} (after (put 1 10) kvs0).
Definition kvs3 : @PebbleKVS mem_db := after (put 3 30) (after (put 2 20) kvs1).

Definition ups (n v : Z) : Z * list KeyValueVersion := (n, blockUpdates (put n v)).

Definition sys0 : @psys mem_db := @Build_psys mem_db kvs0 ∅ [].
Definition sys1 : @psys mem_db := @Build_psys mem_db kvs1 {[0%nat := reader1]} [ups 1 10].
Definition sys3 : @psys mem_db :=
  @Build_psys mem_db kvs3 {[0%nat := reader1]} [ups 1 10; ups 2 20; ups 3 30].

Lemma sys0_fresh : fresh sys0.
Proof. split_and!; [done| |done|done]. exists "dir", ([] : mem), 1. by split. Qed.

Lemma handle_step n v p rs l l' :
  is_u64 n → Handle (put n v) p = go_ret (after (put n v) p) → extend p (put n v) l = l' →
  pstep (@Build_psys mem_db p rs l) (@Build_psys mem_db (after (put n v) p) rs l').
Proof. intros Hn Hh <-. apply p_handle; [|done]. apply put_block_ok; done. Qed.

Lemma sys1_reachable : rtc pstep sys0 sys1.
Proof.
  eapply rtc_l; [apply (handle_step 1 10 kvs0 ∅ [] [ups 1 10]); [done|vm_compute; reflexivity..]|].
  apply rtc_once. apply (p_open 0%nat None reader1 _ kvs1 ∅); [done|done|vm_compute; reflexivity].
Qed.

Lemma sys3_reachable : rtc pstep sys1 sys3.
Proof.
  eapply rtc_l; [apply (handle_step 2 20 kvs1 _ _ [ups 1 10; ups 2 20]); [done|vm_compute; reflexivity..]|].
  eapply rtc_l; [apply (handle_step 3 30 _ _ _ [ups 1 10; ups 2 20; ups 3 30]); [done|vm_compute; reflexivity..]|].
  apply rtc_refl.
Qed.

Lemma sys03_reachable : rtc pstep sys0 sys3.
Proof. trans sys1; [apply sys1_reachable|apply sys3_reachable]. Qed.

Lemma pebble_time_travel_witness :
  snap_Get kvs3 reader1 "ns" "k" =
    go_ret (toWriteRecord "ns" "k" <$> ledger_at 1 (ps_ledger sys3) !! fullKey "ns" "k") ∧
  oldestRetained kvs3 = 2.
Proof.
  split; [|vm_compute; reflexivity].
  apply (pebble_time_travel sys0 sys3 0 reader1 "ns" "k" sys0_fresh); [|reflexivity|reflexivity|reflexivity].
  exact sys03_reachable.
Defined.

Lemma pebble_isolation_witness :
  snap_Get kvs3 reader1 "ns" "k" = snap_Get kvs1 reader1 "ns" "k".
Proof.
  exact (pebble_isolation sys0 sys1 sys3 0 reader1 "ns" "k" sys0_fresh sys1_reachable eq_refl eq_refl eq_refl
    sys3_reachable eq_refl eq_refl).
Defined.

Lemma pebble_Handle_witness :
  ∃ p', Handle (put 2 20) kvs1 = go_ret p' ∧ Handle (put 2 20) p' = go_ret p'.
Proof.
  destruct (pebble_Handle sys0 sys1 (put 2 20) sys0_fresh sys1_reachable (put_block_ok 2 "ns" "k" [20] ltac:(done) ltac:(done) ltac:(done)))
    as (p' & H1 & _ & H2 & _). exists p'. exact (conj H1 H2).
Defined.

Lemma pebble_recovers_witness :
  ∃ p', NewPebbleKVS "dir" (pk_db kvs3) 9 = Ok p' ∧ currentBlock p' = 3.
Proof.
  destruct (pebble_recovers sys0 sys3 "dir" 9 "ns" "k" sys0_fresh
    sys03_reachable ltac:(done) ltac:(done) ltac:(done)) as (p' & H1 & H2 & _).
  exists p'. split; [exact H1|]. rewrite H2. vm_compute. reflexivity.
Defined.

(** On a store without a checkpoint the head reads as 0, so a reader opened
    before block 0 is committed is not isolated from it. *)
Lemma pebble_genesis_leak :
  let r := {| lastBlock := 0; closed := false |} in
  let p := set_readers {[0 := 1]} kvs0 in
  NewSnapshot None kvs0 = Ok (r, p) ∧ snap_Get p r "ns" "k" = go_ret None ∧
  ∃ rec, snap_Get (after (put 0 9) p) r "ns" "k" = go_ret (Some rec).
Proof. split_and!; [reflexivity|vm_compute; reflexivity|]. eexists. vm_compute. reflexivity. Qed.
