(* ===== verification/Geth.v ===== *)
(** * Geth: what the repository relies on of go-ethereum

    The value types of go-ethereum's [common] and [crypto] packages as an
    interface: [GethTypes] names the operations the sources call, [GethLaws]
    the documented behaviour the theorems rely on.  A small concrete instance
    at the end shows that the laws can hold together. *)

From Stdlib Require Import ZArith Lia.
From stdpp Require Import base numbers list countable strings.
From S2P Require Import Prelude.

Local Open Scope Z_scope.

(** [common.Address], [common.Hash] and the functions on them. *)
Class GethTypes := {
  Address : Type;
  Hash : Type;
  Address_eq_dec :: EqDecision Address;
  Address_countable :: Countable Address;
  Hash_eq_dec :: EqDecision Hash;
  Hash_countable :: Countable Hash;
  Hash_zero : Hash;                        (* common.Hash{} *)
  Address_Hex : Address → string;
  Hash_Hex : Hash → string;
  Address_Bytes : Address → byte_slice;
  Hash_Bytes : Hash → byte_slice;
  BytesToHash : byte_slice → Hash;
  Keccak256Hash : byte_slice → Hash
}.

(** An address prints as "0x" and 40 hex digits, a hash as "0x" and 64; both
    printings are injective; a hash is its 32 bytes. *)
Class GethLaws (G : GethTypes) := {
  Address_Hex_length a : String.length (Address_Hex a) = 42%nat;
  Address_Hex_inj :: Inj (=) (=) Address_Hex;
  Hash_Hex_length h : String.length (Hash_Hex h) = 66%nat;
  Hash_Hex_inj :: Inj (=) (=) Hash_Hex;
  Hash_Bytes_length h : length (Hash_Bytes h) = 32%nat;
  BytesToHash_Bytes h : BytesToHash (Hash_Bytes h) = h
}.

(** Signed transactions ([types.Transaction]) and the signer's sender recovery. *)
Class EthTxTypes (G : GethTypes) := {
  EthTx : Type;
  EthTx_eq_dec :: EqDecision EthTx;
  Tx_Nonce : EthTx → Z;
  Tx_Hash : EthTx → Hash;
  Tx_Sender : EthTx → option Address;
  Tx_To : EthTx → option Address;
  Tx_Gas : EthTx → Z
}.

(** A transaction is identified by its hash; its nonce and gas are [uint64]s. *)
Class EthTxLaws (G : GethTypes) (T : EthTxTypes G) := {
  Tx_Hash_inj :: Inj (=) (=) Tx_Hash;
  Tx_Nonce_range t : is_u64 (Tx_Nonce t);
  Tx_Gas_range t : is_u64 (Tx_Gas t)
}.

(** ** A concrete instance: two addresses and two hashes *)

Definition pad_string (n : nat) (c : string) : string :=
  "0x" +:+ String.concat "" (replicate n c).

Definition two_types : GethTypes := {|
  Address := bool;
  Hash := bool;
  Hash_zero := false;
  Address_Hex := λ a, pad_string 40 (if a then "a" else "0");
  Hash_Hex := λ h, pad_string 64 (if h then "1" else "0");
  Address_Bytes := λ a, replicate 20 (if a then 10 else 0);
  Hash_Bytes := λ h, replicate 32 (if h then 1 else 0);
  BytesToHash := λ b, bool_decide (last b = Some 1);
  Keccak256Hash := λ b, bool_decide (b ≠ [])
|}.

#[export] Instance two_laws : GethLaws two_types.
Proof.
  constructor; simpl.
  - by intros [].
  - by intros [] [].
  - by intros [].
  - by intros [] [].
  - by intros [].
  - by intros [].
Qed.

(** Four transactions: a sender and one of the nonces 4 and 5; a transaction is
    its own hash. *)
Definition four_types : GethTypes := {|
  Address := bool;
  Hash := bool * bool;
  Hash_zero := (false, false);
  Address_Hex := λ a, pad_string 40 (if a then "a" else "0");
  Hash_Hex := λ h, pad_string 63 (if h.1 then "1" else "0") +:+ (if h.2 then "1" else "0");
  Address_Bytes := λ a, replicate 20 (if a then 10 else 0);
  Hash_Bytes := λ h, (if h.1 then 1 else 0) :: replicate 31 (if h.2 then 1 else 0);
  BytesToHash := λ b, (bool_decide (head b = Some 1), bool_decide (last b = Some 1));
  Keccak256Hash := λ b, (bool_decide (b ≠ []), true)
|}.

#[export] Instance four_laws : GethLaws four_types.
Proof.
  constructor; simpl.
  - by intros [].
  - by intros [] [].
  - by intros [[] []].
  - by intros [[] []] [[] []].
  - by intros [[] []].
  - by intros [[] []].
Qed.

Definition four_txs : EthTxTypes four_types :=
  @Build_EthTxTypes four_types (bool * bool) _
    (λ t, if t.2 then 5 else 4) (λ t, t) (λ t, Some t.1) (λ _, Some false) (λ _, 21000).

#[export] Instance four_tx_laws : EthTxLaws four_types four_txs.
Proof.
  constructor; simpl.
  - by intros x y.
  - intros [? []]; unfold is_u64; simpl; lia.
  - intros t. unfold is_u64. lia.
Qed.
