(* ===== verification/AccessList.v ===== *)
(** * AccessList: the EIP-2929 access list of the state database

    endorser/execution/statedb.go, type [accessList]: a map from addresses to
    an index into a slice of slot sets, with -1 for an address without slots.
    The slices and sets are mutated in place and shared by index, so the model
    keeps the index indirection; [al_view] is the abstract map from addresses to
    slot sets it stands for. *)

From Stdlib Require Import ZArith Lia.
From stdpp Require Import base numbers list gmap sets.
From S2P Require Import Prelude Geth.

Local Open Scope Z_scope.

Section access_list.
Context `{G : GethTypes}.

Record accessList := {
  al_addresses : gmap Address Z;
  al_slots : list (gset Hash)
}.

Definition newAccessList : accessList := {| al_addresses := ∅; al_slots := [] |}.

Definition containsAddress (al : accessList) (addr : Address) : bool :=
  bool_decide (is_Some (al_addresses al !! addr)).

(** A slot index out of range would panic; [al_wf] below excludes it, and the
    lookup then falls back to the empty set. *)
Definition slot_set (al : accessList) (idx : Z) : gset Hash :=
  default ∅ (al_slots al !! Z.to_nat idx).

Definition al_contains (al : accessList) (addr : Address) (slot : Hash) : bool * bool :=
  match al_addresses al !! addr with
  | None => (false, false)
  | Some idx =>
      if idx =? -1 then (true, false)
      else (true, bool_decide (slot ∈ slot_set al idx))
  end.

Definition addAddress (addr : Address) (al : accessList) : accessList :=
  match al_addresses al !! addr with
  | Some _ => al
  | None => {| al_addresses := <[addr := -1]> (al_addresses al); al_slots := al_slots al |}
  end.

Definition addSlot (addr : Address) (slot : Hash) (al : accessList) : accessList :=
  let fresh :=
    {| al_addresses := <[addr := Z.of_nat (length (al_slots al))]> (al_addresses al);
       al_slots := al_slots al ++ [{[slot]}] |} in
  match al_addresses al !! addr with
  | None => fresh
  | Some idx =>
      if idx =? -1 then fresh
      else {| al_addresses := al_addresses al;
              al_slots := <[Z.to_nat idx := {[slot]} ∪ slot_set al idx]> (al_slots al) |}
  end.

Definition deleteAddress (addr : Address) (al : accessList) : accessList :=
  {| al_addresses := delete addr (al_addresses al); al_slots := al_slots al |}.

Definition deleteSlot (addr : Address) (slot : Hash) (al : accessList) : accessList :=
  match al_addresses al !! addr with
  | None => al
  | Some idx =>
      if idx =? -1 then al
      else {| al_addresses := al_addresses al;
              al_slots := <[Z.to_nat idx := slot_set al idx ∖ {[slot]}]> (al_slots al) |}
  end.

(** ** The abstract access list *)

Definition idx_set (al : accessList) (idx : Z) : gset Hash :=
  if idx =? -1 then ∅ else slot_set al idx.

Definition al_view (al : accessList) : gmap Address (gset Hash) :=
  idx_set al <$> al_addresses al.

(** Indices are -1 or in range, and two addresses never share a slot set. *)
Record al_wf (al : accessList) : Prop := {
  al_range a i : al_addresses al !! a = Some i →
    i = -1 ∨ 0 ≤ i < Z.of_nat (length (al_slots al));
  al_inj a b i : al_addresses al !! a = Some i → al_addresses al !! b = Some i →
    i ≠ -1 → a = b
}.

Lemma newAccessList_wf : al_wf newAccessList.
Proof. constructor; simpl; intros; by rewrite lookup_empty in *. Qed.

Lemma al_contains_view al a s :
  al_contains al a s =
  match al_view al !! a with
  | None => (false, false)
  | Some ss => (true, bool_decide (s ∈ ss))
  end.
Proof.
  unfold al_contains, al_view, idx_set. rewrite lookup_fmap.
  destruct (al_addresses al !! a) as [i|]; simpl; [|done].
  destruct (i =? -1); [|done]. by rewrite bool_decide_eq_false_2 by set_solver.
Qed.

Lemma containsAddress_view al a :
  containsAddress al a = bool_decide (is_Some (al_view al !! a)).
Proof. unfold containsAddress, al_view. rewrite lookup_fmap. apply bool_decide_ext. by rewrite fmap_is_Some. Qed.

Lemma addAddress_wf a al : al_wf al → al_wf (addAddress a al).
Proof.
  intros [Hr Hi]. unfold addAddress. destruct (al_addresses al !! a) eqn:E; [by constructor|].
  constructor; simpl.
  - intros b i. rewrite lookup_insert. case_decide; naive_solver.
  - intros b c i. rewrite !lookup_insert. repeat case_decide; naive_solver.
Qed.

Lemma addAddress_view a al :
  al_view (addAddress a al) =
  match al_view al !! a with Some _ => al_view al | None => <[a := ∅]> (al_view al) end.
Proof.
  unfold addAddress, al_view at 2. rewrite lookup_fmap.
  destruct (al_addresses al !! a) eqn:E; simpl; [done|].
  unfold al_view. simpl. by rewrite fmap_insert.
Qed.

Lemma addSlot_wf a s al : al_wf al → al_wf (addSlot a s al).
Proof.
  intros [Hr Hi]. unfold addSlot.
  assert (al_wf {| al_addresses := <[a := Z.of_nat (length (al_slots al))]> (al_addresses al);
       al_slots := al_slots al ++ [{[s]}] |}) as Hf.
  { constructor; simpl.
    - intros b i. rewrite lookup_insert, length_app. simpl. case_decide.
      + intros [= <-]. right. lia.
      + intros Hb. destruct (Hr b i Hb); [by left|right; lia].
    - intros b c i. rewrite !lookup_insert. repeat case_decide; intros Hb Hc Hne; simplify_eq; try done.
      + destruct (Hr c _ Hc); lia.
      + destruct (Hr b _ Hb); lia.
      + by eapply Hi. }
  destruct (al_addresses al !! a) as [i|] eqn:E; [|done].
  destruct (i =? -1); [done|]. constructor; simpl; [|done].
  intros b j. rewrite length_insert. apply Hr.
Qed.

Lemma fmap_ext_lookup {A} (f g : Z → A) (m : gmap Address Z) :
  (∀ a i, m !! a = Some i → f i = g i) → f <$> m = g <$> m.
Proof.
  intros H. apply map_eq. intros a. rewrite !lookup_fmap.
  destruct (m !! a) eqn:E; simpl; [|done]. by erewrite H.
Qed.

Lemma addSlot_view a s al :
  al_wf al →
  al_view (addSlot a s al) = <[a := {[s]} ∪ default ∅ (al_view al !! a)]> (al_view al).
Proof.
  intros [Hr Hi]. unfold addSlot.
  assert (∀ o, o = None ∨ o = Some (-1) → al_addresses al !! a = o →
    al_view {| al_addresses := <[a := Z.of_nat (length (al_slots al))]> (al_addresses al);
       al_slots := al_slots al ++ [{[s]}] |} =
    <[a := {[s]} ∪ default ∅ (al_view al !! a)]> (al_view al)) as Hf.
  { intros o Ho E. unfold al_view at 1. simpl. rewrite fmap_insert.
    assert (default ∅ (al_view al !! a) = (∅ : gset Hash)) as ->.
    { unfold al_view. rewrite lookup_fmap, E. by destruct Ho as [->| ->]. }
    assert (idx_set {| al_addresses := <[a:=Z.of_nat (length (al_slots al))]> (al_addresses al);
      al_slots := al_slots al ++ [{[s]}] |} (Z.of_nat (length (al_slots al))) = {[s]} ∪ ∅) as ->.
    { unfold idx_set, slot_set. simpl. destruct (Z.eqb_spec (Z.of_nat (length (al_slots al))) (-1)); [lia|].
      rewrite Nat2Z.id, lookup_app_r, Nat.sub_diag by lia. simpl. set_solver. }
    apply map_eq. intros b. rewrite !lookup_insert. case_decide; [done|].
    unfold al_view. rewrite !lookup_fmap. destruct (al_addresses al !! b) as [i|] eqn:Eb; simpl; [|done].
    unfold idx_set, slot_set. simpl. destruct (Z.eqb_spec i (-1)); [done|].
    destruct (Hr b i Eb); [done|]. by rewrite lookup_app_l by lia. }
  destruct (al_addresses al !! a) as [i|] eqn:E; [|by eapply Hf; [left|]].
  destruct (Z.eqb_spec i (-1)) as [->|Hne]; [by eapply Hf; [right|]|]. clear Hf.
  apply map_eq. intros b. rewrite lookup_insert. unfold al_view. simpl.
  rewrite !lookup_fmap, E. simpl. unfold idx_set. destruct (Hr a i E) as [?|Hi']; [done|].
  case_decide as Hab.
  - subst b. rewrite E. simpl. destruct (Z.eqb_spec i (-1)); [done|].
    unfold slot_set. simpl. by rewrite list_lookup_insert_eq by lia.
  - destruct (al_addresses al !! b) as [j|] eqn:Eb; simpl; [|done].
    destruct (Z.eqb_spec j (-1)); [done|]. unfold slot_set. simpl.
    rewrite list_lookup_insert_ne; [done|]. intros Hij. destruct (Hr b j Eb) as [?|Hj]; [done|].
    apply Hab, (Hi a b i); [done| |done]. by replace i with j by lia.
Qed.

Lemma deleteAddress_wf a al : al_wf al → al_wf (deleteAddress a al).
Proof.
  intros [Hr Hi]. constructor; simpl.
  - intros b i [_ Hb]%lookup_delete_Some. by eapply Hr.
  - intros b c i [_ Hb]%lookup_delete_Some [_ Hc]%lookup_delete_Some. by eapply Hi.
Qed.

Lemma deleteAddress_view a al : al_view (deleteAddress a al) = delete a (al_view al).
Proof. unfold al_view. simpl. by rewrite fmap_delete. Qed.

Lemma deleteSlot_wf a s al : al_wf al → al_wf (deleteSlot a s al).
Proof.
  intros [Hr Hi]. unfold deleteSlot. destruct (al_addresses al !! a) as [i|] eqn:E; [|by constructor].
  destruct (i =? -1); [by constructor|]. constructor; simpl; [|done].
  intros b j. rewrite length_insert. apply Hr.
Qed.

Lemma deleteSlot_view a s al :
  al_wf al → al_view (deleteSlot a s al) = alter (λ ss, ss ∖ {[s]}) a (al_view al).
Proof.
  intros [Hr Hi]. unfold deleteSlot.
  apply map_eq. intros b. rewrite lookup_alter. unfold al_view.
  destruct (al_addresses al !! a) as [i|] eqn:E.
  2: { case_decide; [subst b|done]. by rewrite lookup_fmap, E. }
  destruct (Z.eqb_spec i (-1)) as [->|Hne].
  { case_decide; [subst b|done]. rewrite lookup_fmap, E. simpl. unfold idx_set. simpl.
    f_equal. set_solver. }
  simpl. rewrite !lookup_fmap. destruct (Hr a i E) as [?|Hi']; [done|]. unfold idx_set. case_decide as Hab.
  - subst b. rewrite E. simpl. destruct (Z.eqb_spec i (-1)); [done|].
    unfold slot_set. simpl. by rewrite list_lookup_insert_eq by lia.
  - destruct (al_addresses al !! b) as [j|] eqn:Eb; simpl; [|done].
    destruct (Z.eqb_spec j (-1)); [done|]. unfold slot_set. simpl.
    rewrite list_lookup_insert_ne; [done|]. intros Hij. destruct (Hr b j Eb) as [?|Hj]; [done|].
    apply Hab, (Hi a b i); [done| |done]. by replace i with j by lia.
Qed.
End access_list.

#[export] Hint Resolve newAccessList_wf addAddress_wf addSlot_wf deleteAddress_wf deleteSlot_wf : gomachine.
