(* ===== verification/StateDB.v ===== *)
(** * StateDB: the EVM state over a versioned store

    endorser/execution/statedb.go.  One journal records reads, writes and the
    undo information of the runtime state (refund counter, access list,
    transient storage, new and destructed contracts); [writeIdx] caches the
    position of the latest write of each key.  Every method is a state-passing
    computation over [StateDB] that may panic; the ledger underneath is a
    function from keys to records, since a read store is pinned to a height. *)

From Stdlib Require Import ZArith Lia.
From stdpp Require Import base numbers list gmap sets strings.
From S2P Require Import Prelude Blocks Geth Codec AccessList.

Local Open Scope Z_scope.

Section statedb.
Context `{G : GethTypes}.

(** ** State *)

(** A log with its bytes, as the endorsement carries it. *)
Record Log := {
  log_Address : byte_slice;
  log_Topics : list byte_slice;
  log_Data : byte_slice
}.

Record revision := {
  rev_id : Z;
  rev_journalIndex : nat;
  rev_logIndex : nat
}.

(** The journal entry types. *)
Inductive entry :=
| readEntry (read : KVRead)
| writeEntry (write : KVWrite)
| refundEntry (prevRefund : Z)
| selfDestructEntry (addr : Address)
| newContractEntry (addr : Address)
| transientStorageChange (account : Address) (key prevalue : Hash)
| accessListAddAddressEntry (addr : Address)
| accessListAddSlotEntry (addr : Address) (slot : Hash).

(** The read store pinned to a height: a record, nothing, or an error. *)
Definition ReadStore : Type := string → string → result string (option WriteRecord).

(** The fields that never change after [NewStateDB]. *)
Record config := {
  cfg_namespace : string;
  cfg_store : ReadStore;
  cfg_monotonicVersions : bool
}.

Record StateDB := {
  writeIdx : option (gmap string nat);
  logs : list Log;
  refund : Z;
  selfDestructed : gset Address;
  newContracts : gset Address;
  access : accessList;
  transientStorage : gmap Address (gmap Hash Hash);
  journal : list entry;
  validRevisions : list revision;
  nextRevisionId : Z
}.

Definition NewStateDB : StateDB := {|
  writeIdx := None; logs := []; refund := 0; selfDestructed := ∅; newContracts := ∅;
  access := newAccessList; transientStorage := ∅; journal := [];
  validRevisions := []; nextRevisionId := 0
|}.

(** Field updates. *)
Definition set_writeIdx x s := {| writeIdx := x; logs := logs s; refund := refund s;
  selfDestructed := selfDestructed s; newContracts := newContracts s; access := access s;
  transientStorage := transientStorage s; journal := journal s;
  validRevisions := validRevisions s; nextRevisionId := nextRevisionId s |}.
Definition set_logs x s := {| writeIdx := writeIdx s; logs := x; refund := refund s;
  selfDestructed := selfDestructed s; newContracts := newContracts s; access := access s;
  transientStorage := transientStorage s; journal := journal s;
  validRevisions := validRevisions s; nextRevisionId := nextRevisionId s |}.
Definition set_refund x s := {| writeIdx := writeIdx s; logs := logs s; refund := x;
  selfDestructed := selfDestructed s; newContracts := newContracts s; access := access s;
  transientStorage := transientStorage s; journal := journal s;
  validRevisions := validRevisions s; nextRevisionId := nextRevisionId s |}.
Definition set_selfDestructed x s := {| writeIdx := writeIdx s; logs := logs s; refund := refund s;
  selfDestructed := x; newContracts := newContracts s; access := access s;
  transientStorage := transientStorage s; journal := journal s;
  validRevisions := validRevisions s; nextRevisionId := nextRevisionId s |}.
Definition set_newContracts x s := {| writeIdx := writeIdx s; logs := logs s; refund := refund s;
  selfDestructed := selfDestructed s; newContracts := x; access := access s;
  transientStorage := transientStorage s; journal := journal s;
  validRevisions := validRevisions s; nextRevisionId := nextRevisionId s |}.
Definition set_access x s := {| writeIdx := writeIdx s; logs := logs s; refund := refund s;
  selfDestructed := selfDestructed s; newContracts := newContracts s; access := x;
  transientStorage := transientStorage s; journal := journal s;
  validRevisions := validRevisions s; nextRevisionId := nextRevisionId s |}.
Definition set_transient x s := {| writeIdx := writeIdx s; logs := logs s; refund := refund s;
  selfDestructed := selfDestructed s; newContracts := newContracts s; access := access s;
  transientStorage := x; journal := journal s;
  validRevisions := validRevisions s; nextRevisionId := nextRevisionId s |}.
Definition set_journal x s := {| writeIdx := writeIdx s; logs := logs s; refund := refund s;
  selfDestructed := selfDestructed s; newContracts := newContracts s; access := access s;
  transientStorage := transientStorage s; journal := x;
  validRevisions := validRevisions s; nextRevisionId := nextRevisionId s |}.
Definition set_revisions x n s := {| writeIdx := writeIdx s; logs := logs s; refund := refund s;
  selfDestructed := selfDestructed s; newContracts := newContracts s; access := access s;
  transientStorage := transientStorage s; journal := journal s;
  validRevisions := x; nextRevisionId := n |}.

Abbreviation sdb := (st StateDB).

Definition append (e : entry) : sdb unit := st_modify (λ s, set_journal (journal s ++ [e]) s).

(** ** Keys *)

Definition accKey (addr : Address) (typ : string) : string :=
  "acc:" +:+ Address_Hex addr +:+ ":" +:+ typ.

Definition storeKey (addr : Address) (slot : Hash) : string :=
  "str:" +:+ Address_Hex addr +:+ ":" +:+ Hash_Hex slot.

(** ** Journal lookup *)

(** The loop that rebuilds the index from the journal. *)
Definition index_journal (j : list entry) : gmap string nat :=
  foldl (λ m iv, match iv with
                 | (i, writeEntry w) => <[kw_Key w := i]> m
                 | _ => m
                 end) ∅ (imap pair j).

(** [getStateFromJournal]: [Some v] when found, [v] being [None] for nil. *)
Definition getStateFromJournal (key : string) : sdb (option (option byte_slice)) := λ s,
  let idx := match writeIdx s with Some m => m | None => index_journal (journal s) end in
  let s := set_writeIdx (Some idx) s in
  match idx !! key with
  | None => Done (None, s)
  | Some i =>
      match journal s !! i with
      | Some (writeEntry w) => Done (Some (if kw_IsDelete w then None else kw_Value w), s)
      | Some _ => Panic "interface conversion"
      | None => Panic "index out of range"
      end
  end.

(** The value and the read-set entry a store record gives. *)
Definition readValue (o : option WriteRecord) : option byte_slice :=
  match o with Some r => wr_Value r | None => None end.

Definition readVersion (mono : bool) (o : option WriteRecord) : option Version :=
  match o with
  | Some r =>
      if wr_IsDelete r then None
      else if mono then Some {| ver_BlockNum := wr_Version r; ver_TxNum := 0 |}
      else Some {| ver_BlockNum := wr_BlockNum r; ver_TxNum := wr_TxNum r |}
  | None => None
  end.

(** [getStateFromStore]: reads the store and journals the read. *)
Definition getStateFromStore (c : config) (key : string)
    : sdb (result string (option byte_slice)) := λ s,
  match cfg_store c (cfg_namespace c) key with
  | Err e => Done (Err e, s)
  | Ok record =>
      let read := {| kr_Key := key; kr_Version := readVersion (cfg_monotonicVersions c) record |} in
      Done (Ok (readValue record), set_journal (journal s ++ [readEntry read]) s)
  end.

Definition getState (c : config) (key : string) : sdb (result string (option byte_slice)) :=
  found ← getStateFromJournal key;
  match found with
  | Some val => mret (Ok val)
  | None => getStateFromStore c key
  end.

(** [putState]: an empty value is a delete. *)
Definition putState (key : string) (value : option byte_slice) : sdb unit := λ s,
  let write :=
    if (slice_len value =? 0)%nat
    then {| kw_Key := key; kw_IsDelete := true; kw_Value := None |}
    else {| kw_Key := key; kw_IsDelete := false; kw_Value := value |} in
  let idx := match writeIdx s with
             | Some m => Some (<[key := length (journal s)]> m)
             | None => None
             end in
  Done (tt, set_journal (journal s ++ [writeEntry write]) (set_writeIdx idx s)).

(** Turns a store error into the panic every accessor raises. *)
Definition must {A} (r : result string A) : sdb A :=
  match r with Ok a => mret a | Err e => st_panic e end.

Definition lift {A} (o : outcome A) : sdb A := λ s,
  match o with Done a => Done (a, s) | Panic m => Panic m end.

(** ** Accounts *)

Definition markNewContract (addr : Address) : sdb unit := λ s,
  if decide (addr ∈ newContracts s) then Done (tt, s)
  else Done (tt, set_newContracts ({[addr]} ∪ newContracts s)
                   (set_journal (journal s ++ [newContractEntry addr]) s)).

Definition CreateAccount (addr : Address) : sdb unit :=
  putState (accKey addr "bal") (Some (uint256ToBytes 0));;
  putState (accKey addr "nonce") (Some (uint64ToBytes 0));;
  markNewContract addr.

Definition CreateContract (addr : Address) : sdb unit :=
  putState (accKey addr "code") (Some []);;
  markNewContract addr.

Definition GetBalance (c : config) (addr : Address) : sdb Z :=
  r ← getState c (accKey addr "bal");
  val ← must r;
  mret (bytesToUint256 (slice_bytes val)).

Definition AddBalance (c : config) (addr : Address) (amount : Z) : sdb Z :=
  if amount =? 0 then mret 0
  else
    prev ← GetBalance c addr;
    putState (accKey addr "bal") (Some (uint256ToBytes (u256 (prev + amount))));;
    mret prev.

Definition SubBalance (c : config) (addr : Address) (amount : Z) : sdb Z :=
  if amount =? 0 then mret 0
  else
    prev ← GetBalance c addr;
    putState (accKey addr "bal") (Some (uint256ToBytes (u256 (prev - amount))));;
    mret prev.

Definition GetNonce (c : config) (addr : Address) : sdb Z :=
  r ← getState c (accKey addr "nonce");
  val ← must r;
  lift (bytesToUint64 (slice_bytes val)).

Definition SetNonce (addr : Address) (nonce : Z) : sdb unit :=
  putState (accKey addr "nonce") (Some (uint64ToBytes nonce)).

Definition GetCode (c : config) (addr : Address) : sdb (option byte_slice) :=
  r ← getState c (accKey addr "code");
  must r.

(** [err == nil && val != nil]. *)
Definition present (r : result string (option byte_slice)) : bool :=
  match r with Ok (Some _) => true | _ => false end.

Definition Exist (c : config) (addr : Address) : sdb bool :=
  r ← getState c (accKey addr "bal");
  if present r then mret true else
  r ← getState c (accKey addr "nonce");
  if present r then mret true else
  r ← getState c (accKey addr "code");
  mret (present r).

Definition GetCodeHash (c : config) (addr : Address) : sdb Hash :=
  e ← Exist c addr;
  if negb e then mret Hash_zero
  else
    code ← GetCode c addr;
    mret (Keccak256Hash (slice_bytes code)).

Definition GetCodeSize (c : config) (addr : Address) : sdb Z :=
  code ← GetCode c addr;
  mret (Z.of_nat (slice_len code)).

Definition SetCode (c : config) (addr : Address) (code : option byte_slice)
    : sdb (option byte_slice) :=
  prev ← GetCode c addr;
  putState (accKey addr "code") code;;
  mret prev.

Definition Empty (c : config) (addr : Address) : sdb bool :=
  balance ← GetBalance c addr;
  if negb (balance =? 0) then mret false else
  nonce ← GetNonce c addr;
  if 0 <? nonce then mret false else
  codeSize ← GetCodeSize c addr;
  mret (codeSize =? 0).

(** ** Storage *)

(** [len(val) == 0] gives the zero hash, else [common.BytesToHash]. *)
Definition toHash (val : option byte_slice) : Hash :=
  if (slice_len val =? 0)%nat then Hash_zero else BytesToHash (slice_bytes val).

Definition GetState (c : config) (addr : Address) (slot : Hash) : sdb Hash :=
  r ← getState c (storeKey addr slot);
  val ← must r;
  mret (toHash val).

Definition GetStateAndCommittedState (c : config) (addr : Address) (slot : Hash)
    : sdb (Hash * Hash) :=
  found ← getStateFromJournal (storeKey addr slot);
  r ← getStateFromStore c (storeKey addr slot);
  committedVal ← must r;
  let committed := toHash committedVal in
  mret (match found with Some currentVal => toHash currentVal | None => committed end, committed).

(** The previous value when the journal has none: read from the store without
    journaling, and ignoring a deleted record. *)
Definition committedNoDep (c : config) (key : string) : sdb Hash :=
  match cfg_store c (cfg_namespace c) key with
  | Err e => st_panic e
  | Ok (Some record) =>
      if negb (wr_IsDelete record) then mret (toHash (wr_Value record)) else mret Hash_zero
  | Ok None => mret Hash_zero
  end.

Definition SetState (c : config) (addr : Address) (slot value : Hash) : sdb Hash :=
  let key := storeKey addr slot in
  found ← getStateFromJournal key;
  prev ← match found with
         | Some prevVal => mret (toHash prevVal)
         | None => committedNoDep c key
         end;
  (if decide (value = Hash_zero) then putState key None
   else putState key (Some (Hash_Bytes value)));;
  mret prev.

(** ** Self-destruct (EIP-6780) *)

Definition SelfDestruct (c : config) (addr : Address) : sdb unit :=
  prevBalance ← GetBalance c addr;
  (if negb (prevBalance =? 0)
   then putState (accKey addr "bal") (Some (uint256ToBytes 0)) else mret tt);;
  st_modify (λ s,
    if decide (addr ∈ newContracts s)
    then set_selfDestructed ({[addr]} ∪ selfDestructed s)
           (set_journal (journal s ++ [selfDestructEntry addr]) s)
    else s).

Definition HasSelfDestructed (addr : Address) : sdb bool := λ s,
  Done (bool_decide (addr ∈ selfDestructed s), s).

Definition IsNewContract (addr : Address) : sdb bool := λ s,
  Done (bool_decide (addr ∈ newContracts s), s).

(** ** Refund counter and logs *)

Definition GetRefund : sdb Z := λ s, Done (refund s, s).

Definition AddRefund (gas : Z) : sdb unit := λ s,
  Done (tt, set_refund (u64 (refund s + gas))
              (set_journal (journal s ++ [refundEntry (refund s)]) s)).

Definition SubRefund (gas : Z) : sdb unit := λ s,
  if refund s <? gas then Panic "Refund counter below zero"
  else Done (tt, set_refund (u64 (refund s - gas))
                   (set_journal (journal s ++ [refundEntry (refund s)]) s)).

Definition AddLog (addr : Address) (topics : list Hash) (data : byte_slice) : sdb unit := λ s,
  Done (tt, set_logs (logs s ++ [ {| log_Address := Address_Bytes addr;
                                     log_Topics := Hash_Bytes <$> topics;
                                     log_Data := data |} ]) s).

(** ** Transient storage (EIP-1153) *)

Definition transient_get (ts : gmap Address (gmap Hash Hash)) (addr : Address) (key : Hash) : Hash :=
  match ts !! addr with
  | Some storage => default Hash_zero (storage !! key)
  | None => Hash_zero
  end.

(** [m[addr][key] = value], creating the inner map when it is missing. *)
Definition transient_set (ts : gmap Address (gmap Hash Hash)) (addr : Address) (key value : Hash)
    : gmap Address (gmap Hash Hash) :=
  <[addr := <[key := value]> (default ∅ (ts !! addr))]> ts.

Definition GetTransientState (addr : Address) (key : Hash) : sdb Hash := λ s,
  Done (transient_get (transientStorage s) addr key, s).

Definition SetTransientState (addr : Address) (key value : Hash) : sdb unit := λ s,
  let prev := transient_get (transientStorage s) addr key in
  Done (tt, set_transient (transient_set (transientStorage s) addr key value)
              (set_journal (journal s ++ [transientStorageChange addr key prev]) s)).

(** ** Access list *)

Definition AddressInAccessList (addr : Address) : sdb bool := λ s,
  Done (containsAddress (access s) addr, s).

Definition SlotInAccessList (addr : Address) (slot : Hash) : sdb (bool * bool) := λ s,
  Done (al_contains (access s) addr slot, s).

Definition AddAddressToAccessList (addr : Address) : sdb unit := λ s,
  if containsAddress (access s) addr then Done (tt, s)
  else Done (tt, set_access (addAddress addr (access s))
                   (set_journal (journal s ++ [accessListAddAddressEntry addr]) s)).

Definition AddSlotToAccessList (addr : Address) (slot : Hash) : sdb unit := λ s,
  let '(addrOk, slotOk) := al_contains (access s) addr slot in
  if addrOk && slotOk then Done (tt, s)
  else
    let j := journal s ++ (if negb addrOk then [accessListAddAddressEntry addr] else [])
                       ++ [accessListAddSlotEntry addr slot] in
    Done (tt, set_access (addSlot addr slot (access s)) (set_journal j s)).

(** [Prepare]: the access list of a new transaction. *)
Definition Prepare (isShanghai : bool) (sender coinbase : Address) (dest : option Address)
    (precompiles : list Address) (txAccesses : list (Address * list Hash)) : sdb unit :=
  st_modify (λ s,
    let al := addAddress sender newAccessList in
    let al := match dest with Some d => addAddress d al | None => al end in
    let al := foldl (λ al a, addAddress a al) al precompiles in
    let al := foldl (λ al el, foldl (λ al k, addSlot el.1 k al) (addAddress el.1 al) el.2)
                al txAccesses in
    let al := if isShanghai then addAddress coinbase al else al in
    set_access al s).

(** ** Snapshots *)

Definition TakeSnapshot : sdb Z := λ s,
  let id := nextRevisionId s in
  Done (id, set_revisions
    (validRevisions s ++ [ {| rev_id := id; rev_journalIndex := length (journal s);
                              rev_logIndex := length (logs s) |} ])
    (id + 1) s).

(** Undoing one journal entry. *)
Definition undo (e : entry) (s : StateDB) : StateDB :=
  match e with
  | readEntry _ | writeEntry _ => s
  | refundEntry prev => set_refund prev s
  | selfDestructEntry addr => set_selfDestructed (selfDestructed s ∖ {[addr]}) s
  | newContractEntry addr => set_newContracts (newContracts s ∖ {[addr]}) s
  | transientStorageChange a k prev =>
      set_transient (transient_set (transientStorage s) a k prev) s
  | accessListAddAddressEntry addr => set_access (deleteAddress addr (access s)) s
  | accessListAddSlotEntry addr slot => set_access (deleteSlot addr slot (access s)) s
  end.

(** The loop from the end of the journal down to the snapshot. *)
Definition undo_all (es : list entry) (s : StateDB) : StateDB := foldr undo s es.

(** The position of the first revision with the given id. *)
Fixpoint find_revision (revid : Z) (rs : list revision) : option (nat * revision) :=
  match rs with
  | [] => None
  | r :: rs =>
      if rev_id r =? revid then Some (0%nat, r)
      else (λ p, (S p.1, p.2)) <$> find_revision revid rs
  end.

(** Reslicing past the end panics; the snapshot theorems show the indices never are. *)
Definition RevertToSnapshot (revid : Z) : sdb unit := λ s,
  match find_revision revid (validRevisions s) with
  | None => Done (tt, s)
  | Some (idx, snapshot) =>
      if (length (journal s) <? rev_journalIndex snapshot)%nat ||
         (length (logs s) <? rev_logIndex snapshot)%nat
      then Panic "slice bounds out of range"
      else
        let s1 := undo_all (drop (rev_journalIndex snapshot) (journal s)) s in
        Done (tt,
          set_revisions (take idx (validRevisions s1)) (nextRevisionId s1)
          (set_logs (take (rev_logIndex snapshot) (logs s1))
          (set_writeIdx None
          (set_journal (take (rev_journalIndex snapshot) (journal s1)) s1))))
  end.

(** ** The read-write set *)

Definition result_maps (j : list entry) : gmap string KVRead * gmap string KVWrite :=
  foldl (λ acc e,
    match e with
    | readEntry r => (<[kr_Key r := r]> acc.1, acc.2)
    | writeEntry w => (acc.1, <[kw_Key w := w]> acc.2)
    | _ => acc
    end) (∅, ∅) j.

(** Go's map order is unspecified; [map_to_list] is one order of many. *)
Definition Result (s : StateDB) : ReadWriteSet :=
  let '(reads, writes) := result_maps (journal s) in
  {| rws_Reads := (map_to_list reads).*2; rws_Writes := (map_to_list writes).*2 |}.
End statedb.

(** ** The key schema is injective *)

Section keys.
Context `{L : GethLaws}.

Lemma accKey_inj a t b u : accKey a t = accKey b u → a = b ∧ t = u.
Proof.
  unfold accKey. intros [_ H]%string_app_inj; [|done].
  apply string_app_inj in H as [Ha H]; [|by rewrite !Address_Hex_length].
  apply string_app_inj in H as [_ H]; [|done]. split; [by apply (inj Address_Hex)|done].
Qed.

Lemma storeKey_inj a k b l : storeKey a k = storeKey b l → a = b ∧ k = l.
Proof.
  unfold storeKey. intros [_ H]%string_app_inj; [|done].
  apply string_app_inj in H as [Ha H]; [|by rewrite !Address_Hex_length].
  apply string_app_inj in H as [_ H]; [|done].
  split; [by apply (inj Address_Hex)|by apply (inj Hash_Hex)].
Qed.

Lemma accKey_storeKey a t b l : accKey a t ≠ storeKey b l.
Proof. unfold accKey, storeKey. intros [H _]%string_app_inj; done. Qed.
End keys.
