(* ===== verification/StateDBProps.v ===== *)
(** * StateDBProps: correctness of the state database

    Four groups of theorems about StateDB.v: the write index is equivalent to a
    backward scan of the journal; a snapshot followed by anything and a revert
    restores every observable; the read-write set is sound for MVCC validation;
    and the account and storage operations obey the laws the EVM relies on. *)

From Stdlib Require Import ZArith Lia.
From stdpp Require Import base numbers list gmap sets strings sorting.
From S2P Require Import Prelude Blocks Geth Codec AccessList StateDB.

Local Open Scope Z_scope.

Section props.
Context `{G : GethTypes}.

(** ** The EVM as a client: programs over the state database *)

Inductive op :=
| OpCreateAccount (a : Address) | OpCreateContract (a : Address)
| OpGetBalance (a : Address) | OpAddBalance (a : Address) (v : Z) | OpSubBalance (a : Address) (v : Z)
| OpGetNonce (a : Address) | OpSetNonce (a : Address) (n : Z)
| OpGetCode (a : Address) | OpGetCodeHash (a : Address) | OpGetCodeSize (a : Address)
| OpSetCode (a : Address) (code : option byte_slice)
| OpGetState (a : Address) (k : Hash) | OpGetStateAndCommitted (a : Address) (k : Hash)
| OpSetState (a : Address) (k v : Hash)
| OpSelfDestruct (a : Address) | OpHasSelfDestructed (a : Address)
| OpExist (a : Address) | OpEmpty (a : Address) | OpIsNewContract (a : Address)
| OpGetRefund | OpAddRefund (g : Z) | OpSubRefund (g : Z)
| OpAddLog (a : Address) (topics : list Hash) (data : byte_slice)
| OpGetTransient (a : Address) (k : Hash) | OpSetTransient (a : Address) (k v : Hash)
| OpAddressInAccessList (a : Address) | OpSlotInAccessList (a : Address) (k : Hash)
| OpAddAddress (a : Address) | OpAddSlot (a : Address) (k : Hash)
| OpPrepare (isShanghai : bool) (sender coinbase : Address) (dest : option Address)
    (precompiles : list Address) (txAccesses : list (Address * list Hash))
| OpSnapshot | OpRevert (id : Z).

Inductive out :=
| OUnit | OZ (z : Z) | OBytes (b : option byte_slice) | OHash (h : Hash)
| OHashes (p : Hash * Hash) | OBool (b : bool) | OBools (p : bool * bool).

(** What an operation hands back to the EVM.  The previous value [SetState]
    returns feeds tracing only, so a program does not see it. *)
Definition exec (c : config) (o : op) : st StateDB out :=
  match o with
  | OpCreateAccount a => CreateAccount a;; mret OUnit
  | OpCreateContract a => CreateContract a;; mret OUnit
  | OpGetBalance a => z ← GetBalance c a; mret (OZ z)
  | OpAddBalance a v => z ← AddBalance c a v; mret (OZ z)
  | OpSubBalance a v => z ← SubBalance c a v; mret (OZ z)
  | OpGetNonce a => z ← GetNonce c a; mret (OZ z)
  | OpSetNonce a n => SetNonce a n;; mret OUnit
  | OpGetCode a => b ← GetCode c a; mret (OBytes b)
  | OpGetCodeHash a => h ← GetCodeHash c a; mret (OHash h)
  | OpGetCodeSize a => z ← GetCodeSize c a; mret (OZ z)
  | OpSetCode a code => b ← SetCode c a code; mret (OBytes b)
  | OpGetState a k => h ← GetState c a k; mret (OHash h)
  | OpGetStateAndCommitted a k => p ← GetStateAndCommittedState c a k; mret (OHashes p)
  | OpSetState a k v => _ ← SetState c a k v; mret OUnit
  | OpSelfDestruct a => SelfDestruct c a;; mret OUnit
  | OpHasSelfDestructed a => b ← HasSelfDestructed a; mret (OBool b)
  | OpExist a => b ← Exist c a; mret (OBool b)
  | OpEmpty a => b ← Empty c a; mret (OBool b)
  | OpIsNewContract a => b ← IsNewContract a; mret (OBool b)
  | OpGetRefund => z ← GetRefund; mret (OZ z)
  | OpAddRefund g => AddRefund g;; mret OUnit
  | OpSubRefund g => SubRefund g;; mret OUnit
  | OpAddLog a t d => AddLog a t d;; mret OUnit
  | OpGetTransient a k => h ← GetTransientState a k; mret (OHash h)
  | OpSetTransient a k v => SetTransientState a k v;; mret OUnit
  | OpAddressInAccessList a => b ← AddressInAccessList a; mret (OBool b)
  | OpSlotInAccessList a k => p ← SlotInAccessList a k; mret (OBools p)
  | OpAddAddress a => AddAddressToAccessList a;; mret OUnit
  | OpAddSlot a k => AddSlotToAccessList a k;; mret OUnit
  | OpPrepare sh sender coinbase dest pre acc => Prepare sh sender coinbase dest pre acc;; mret OUnit
  | OpSnapshot => z ← TakeSnapshot; mret (OZ z)
  | OpRevert id => RevertToSnapshot id;; mret OUnit
  end.

(** A program chooses each operation from the results so far. *)
Inductive prog (R : Type) :=
| PRet (ret : R)
| PStep (o : op) (k : out → prog R).
Arguments PRet {_} _.
Arguments PStep {_} _ _.

Context {R : Type}.
Implicit Types p : prog R.

Fixpoint run (c : config) (p : prog R) : st StateDB R :=
  match p with
  | PRet ret => mret ret
  | PStep o k => x ← exec c o; run c (k x)
  end.

(** ** The write index *)

(** The reference lookup: scan the journal backwards for a write of the key. *)
Definition is_write_of (key : string) (e : entry) : bool :=
  match e with writeEntry w => String.eqb (kw_Key w) key | _ => false end.

Definition entry_value (e : entry) : option byte_slice :=
  match e with writeEntry w => if kw_IsDelete w then None else kw_Value w | _ => None end.

Definition journal_value (key : string) (j : list entry) : option (option byte_slice) :=
  entry_value <$> find_last (is_write_of key) j.

Definition idx_ok (s : StateDB) : Prop :=
  match writeIdx s with None => True | Some m => m = index_journal (journal s) end.

Lemma index_journal_snoc j e :
  index_journal (j ++ [e]) =
  match e with
  | writeEntry w => <[kw_Key w := length j]> (index_journal j)
  | _ => index_journal j
  end.
Proof.
  unfold index_journal. rewrite imap_app, foldl_app. simpl. rewrite Nat.add_0_r.
  by destruct e.
Qed.

Lemma index_journal_lookup j key :
  match index_journal j !! key with
  | Some i => ∃ w, j !! i = Some (writeEntry w) ∧
      find_last (is_write_of key) j = Some (writeEntry w)
  | None => find_last (is_write_of key) j = None
  end.
Proof.
  induction j as [|e j IH] using rev_ind; [done|].
  rewrite index_journal_snoc, find_last_app. simpl.
  assert (∀ i w, j !! i = Some (writeEntry w) → (j ++ [e]) !! i = Some (writeEntry w)) as Hm.
  { intros. by apply lookup_app_l_Some. }
  assert (is_write_of key e = false →
    match index_journal j !! key with
    | Some i => ∃ w, (j ++ [e]) !! i = Some (writeEntry w) ∧
        match (if is_write_of key e then Some e else None) with
        | Some y => Some y | None => find_last (is_write_of key) j end = Some (writeEntry w)
    | None => match (if is_write_of key e then Some e else None) with
        | Some y => Some y | None => find_last (is_write_of key) j end = None
    end) as Hskip.
  { intros ->. destruct (index_journal j !! key); [|done].
    destruct IH as (w & ? & ?). eauto. }
  destruct e as [r|w| | | | | | ]; try by apply Hskip.
  rewrite lookup_insert. simpl in *. destruct (String.eqb_spec (kw_Key w) key) as [->|Hne].
  - rewrite decide_True by done. exists w. split; [|done].
    by rewrite lookup_app_r, Nat.sub_diag by lia.
  - rewrite decide_False by done. by apply Hskip.
Qed.

Lemma getStateFromJournal_spec key s :
  idx_ok s →
  getStateFromJournal key s =
  Done (journal_value key (journal s), set_writeIdx (Some (index_journal (journal s))) s).
Proof.
  intros Hok. unfold getStateFromJournal.
  assert (match writeIdx s with Some m => m | None => index_journal (journal s) end
          = index_journal (journal s)) as ->.
  { unfold idx_ok in Hok. by destruct (writeIdx s). }
  pose proof (index_journal_lookup (journal s) key) as H. unfold journal_value.
  destruct (index_journal (journal s) !! key) as [i|].
  - destruct H as (w & Hi & ->). simpl. by rewrite Hi.
  - by rewrite H.
Qed.

(** ** Runtime state and its undoing *)

(** The runtime state two databases show to a program; transient storage is
    compared by its reads, and the access lists, if [K] holds, through their
    abstract view. *)
Record rt_eq (K : Prop) (s t : StateDB) : Prop := {
  rt_refund : refund s = refund t;
  rt_new : newContracts s = newContracts t;
  rt_wf_l : al_wf (access s);
  rt_wf_r : al_wf (access t);
  rt_view : K → al_view (access s) = al_view (access t);
  rt_transient a k :
    transient_get (transientStorage s) a k = transient_get (transientStorage t) a k
}.

#[local] Instance rt_eq_sym K : Symmetric (rt_eq K).
Proof. intros s t []; constructor; naive_solver. Qed.

#[local] Instance rt_eq_trans K : Transitive (rt_eq K).
Proof. intros s t u [? ? ? ? Hv H] [? ? ? ? Hv' H']; constructor; try congruence. intros HK. by rewrite Hv, Hv'. Qed.

Lemma rt_eq_weaken (K K' : Prop) s t : (K' → K) → rt_eq K s t → rt_eq K' s t.
Proof. intros H []; constructor; auto. Qed.

Lemma rt_eq_refl K s : al_wf (access s) → rt_eq K s s.
Proof. by constructor. Qed.

Lemma transient_get_set ts a k v b l :
  transient_get (transient_set ts a k v) b l =
  if decide (a = b ∧ k = l) then v else transient_get ts b l.
Proof.
  unfold transient_get, transient_set. rewrite lookup_insert. case_decide as Hab.
  - subst b. rewrite lookup_insert. repeat case_decide; try naive_solver.
    by destruct (ts !! a); simpl.
  - rewrite decide_False by naive_solver. done.
Qed.

#[local] Instance undo_proper K e : Proper (rt_eq K ==> rt_eq K) (undo e).
Proof.
  intros s t [? ? Hs Ht Hv Htr]. destruct e; simpl; constructor; simpl;
    auto with gomachine; try congruence; try (by rewrite Hv).
  - intros b l. by rewrite !transient_get_set, Htr.
  - intros HK. by rewrite !deleteAddress_view, Hv.
  - intros HK. by rewrite !deleteSlot_view, Hv.
Qed.

Lemma undo_all_app es fs s : undo_all (es ++ fs) s = undo_all es (undo_all fs s).
Proof. apply foldr_app. Qed.

#[local] Instance undo_all_proper K es : Proper (rt_eq K ==> rt_eq K) (undo_all es).
Proof.
  intros s t H. induction es as [|e es IH]; simpl; [done|]. by apply undo_proper.
Qed.

Lemma undo_frame e s :
  journal (undo e s) = journal s ∧ logs (undo e s) = logs s ∧
  validRevisions (undo e s) = validRevisions s ∧ nextRevisionId (undo e s) = nextRevisionId s.
Proof. by destruct e. Qed.

Lemma undo_all_frame es s :
  journal (undo_all es s) = journal s ∧ logs (undo_all es s) = logs s ∧
  validRevisions (undo_all es s) = validRevisions s ∧
  nextRevisionId (undo_all es s) = nextRevisionId s.
Proof.
  induction es as [|e es (IH1 & IH2 & IH3 & IH4)]; simpl; [done|].
  destruct (undo_frame e (undo_all es s)) as (-> & -> & -> & ->). done.
Qed.

(** Undoing only removes destruction marks, and depends on nothing else. *)
Definition sd_addrs (es : list entry) : gset Address :=
  foldr (λ e acc, match e with selfDestructEntry a => {[a]} ∪ acc | _ => acc end) ∅ es.

Lemma undo_all_sd es s : selfDestructed (undo_all es s) = selfDestructed s ∖ sd_addrs es.
Proof.
  induction es as [|e es IH]; simpl; [set_solver|].
  destruct e; simpl; rewrite IH; set_solver.
Qed.

(** What comes back only under conditions: the destruction marks, and the access
    list, which [Prepare] replaces without a journal entry. *)
Inductive part := Marks | AccessList.

(** [s'] extends [s] by journal entries [es] and logs [ls], and undoing the
    entries brings the runtime state back, the two parts when [strict] holds of
    them. *)
Record ext (strict : part → Prop) (s s' : StateDB) (es : list entry) (ls : list Log) : Prop := {
  ext_journal : journal s' = journal s ++ es;
  ext_logs : logs s' = logs s ++ ls;
  ext_rt : rt_eq (strict AccessList) (undo_all es s') s;
  ext_sd : strict Marks → selfDestructed s' ∖ sd_addrs es = selfDestructed s
}.

Lemma sd_addrs_app es fs : sd_addrs (es ++ fs) = sd_addrs es ∪ sd_addrs fs.
Proof. induction es as [|e es IH]; simpl; [set_solver|]. destruct e; set_solver. Qed.

Lemma ext_trans P Q s1 s2 s3 es ls fs ms :
  ext P s1 s2 es ls → ext Q s2 s3 fs ms → ext (λ k, P k ∧ Q k) s1 s3 (es ++ fs) (ls ++ ms).
Proof.
  intros [Hj1 Hl1 Hr1 Hs1] [Hj2 Hl2 Hr2 Hs2]. constructor.
  - by rewrite Hj2, Hj1, app_assoc.
  - by rewrite Hl2, Hl1, app_assoc.
  - rewrite undo_all_app. trans (undo_all es s2); [apply undo_all_proper|];
      (eapply rt_eq_weaken; [|eassumption]); tauto.
  - intros [HP HQ]. rewrite sd_addrs_app. specialize (Hs1 HP). specialize (Hs2 HQ). set_solver.
Qed.

Lemma ext_refl P s : al_wf (access s) → ext P s s [] [].
Proof. intros. constructor; rewrite ?app_nil_r; [done..|by apply rt_eq_refl|set_solver]. Qed.

Lemma ext_weaken (P Q : part → Prop) s s' es ls : (∀ k, Q k → P k) → ext P s s' es ls → ext Q s s' es ls.
Proof. intros H []; constructor; auto. eapply rt_eq_weaken; [|eassumption]. auto. Qed.

(** ** Which operations grow the journal *)

Definition wf (s : StateDB) : Prop := idx_ok s ∧ al_wf (access s).

Definition grows (strict : part → Prop) (s s' : StateDB) : Prop :=
  validRevisions s' = validRevisions s ∧ nextRevisionId s' = nextRevisionId s ∧
  ∃ es ls, ext strict s s' es ls.

Lemma grows_trans P Q s1 s2 s3 : grows P s1 s2 → grows Q s2 s3 → grows (λ k, P k ∧ Q k) s1 s3.
Proof.
  intros (H1 & H2 & es & ls & He) (H3 & H4 & fs & ms & Hf).
  split_and!; [congruence..|]. eexists _, _. by eapply ext_trans.
Qed.

(** A computation that keeps the well-formedness, grows the journal by entries
    that undo it, and leaves the destruction marks alone. *)
Definition quiet {A} (m : st StateDB A) : Prop := ∀ s a s',
  wf s → m s = Done (a, s') →
  wf s' ∧ grows (λ _, True) s s' ∧ selfDestructed s' = selfDestructed s.

Lemma quiet_bind {A B} (m : st StateDB A) (f : A → st StateDB B) :
  quiet m → (∀ a, quiet (f a)) → quiet (m ≫= f).
Proof.
  intros Hm Hf s b s2 Hwf (a & s1 & H1 & H2)%st_bind_done.
  destruct (Hm s a s1 Hwf H1) as (Hw1 & Hg1 & Hs1).
  destruct (Hf a s1 b s2 Hw1 H2) as (Hw2 & Hg2 & Hs2).
  split_and!; [done| |congruence]. destruct (grows_trans _ _ _ _ _ Hg1 Hg2) as (? & ? & es & ls & He).
  split_and!; [done..|]. exists es, ls. by eapply ext_weaken; [|exact He].
Qed.

Lemma quiet_const {A} (f : StateDB → A) : quiet (λ s, Done (f s, s)).
Proof.
  intros s a s' Hwf [= _ <-]. split_and!; [done| |done].
  split_and!; [done..|]. exists [], []. apply ext_refl, Hwf.
Qed.

Lemma quiet_ret {A} (a : A) : quiet (mret a).
Proof. apply (quiet_const (λ _, a)). Qed.

Lemma quiet_panic {A} msg : quiet (st_panic (A := A) msg).
Proof. by intros s a s' _ H. Qed.

(** One appended entry whose undoing is [s] again. *)
Lemma grows_entry s s' e :
  idx_ok s' → al_wf (access s') →
  journal s' = journal s ++ [e] → logs s' = logs s →
  validRevisions s' = validRevisions s → nextRevisionId s' = nextRevisionId s →
  rt_eq True (undo e s') s → sd_addrs [e] = ∅ → selfDestructed s' = selfDestructed s →
  wf s' ∧ grows (λ _, True) s s' ∧ selfDestructed s' = selfDestructed s.
Proof.
  intros. split_and!; [done| |done]. split_and!; [done..|].
  exists [e], []. constructor; [done|by rewrite app_nil_r|done|set_solver].
Qed.

Lemma idx_ok_append s e idx :
  idx_ok s →
  idx = match e, writeIdx s with
        | writeEntry w, Some m => Some (<[kw_Key w := length (journal s)]> m)
        | _, o => o
        end →
  ∀ s', writeIdx s' = idx → journal s' = journal s ++ [e] → idx_ok s'.
Proof.
  unfold idx_ok. intros Hok -> s' Hi Hj. rewrite Hi, Hj, index_journal_snoc.
  destruct e, (writeIdx s); simplify_eq; done.
Qed.

Lemma quiet_getStateFromJournal key : quiet (getStateFromJournal key).
Proof.
  intros s a s' [Hi Ha] H. rewrite getStateFromJournal_spec in H by done.
  injection H as _ <-. split_and!; [by split|split_and!; [done..|]|done].
  exists [], []. constructor; simpl; [by rewrite app_nil_r..| |set_solver].
  by constructor.
Qed.

Lemma quiet_getStateFromStore c key : quiet (getStateFromStore c key).
Proof.
  intros s a s' [Hi Ha]. unfold getStateFromStore.
  destruct (cfg_store _ _ _) as [record|e]; intros [= _ <-].
  - eapply grows_entry; simpl; try done; try by constructor.
    by eapply (idx_ok_append s (readEntry _)).
  - split_and!; [done|split_and!; [done..|]|done]. exists [], []. by apply ext_refl.
Qed.

Lemma quiet_putState key v : quiet (putState key v).
Proof.
  intros s a s' [Hi Ha] [= _ <-].
  eapply grows_entry; simpl; try done; try by constructor.
  eapply (idx_ok_append s (writeEntry _) _ Hi eq_refl); simpl; [|done].
  by destruct (slice_len v =? 0)%nat, (writeIdx s).
Qed.

Lemma quiet_markNewContract addr : quiet (markNewContract addr).
Proof.
  intros s a s' Hwf. unfold markNewContract. case_decide as Hin; intros [= _ <-].
  { by apply (quiet_const (λ _, tt) s tt s Hwf). }
  destruct Hwf as [Hi Ha]. eapply grows_entry; simpl; try done.
  - by eapply (idx_ok_append s (newContractEntry addr)).
  - constructor; simpl; try done. set_solver.
Qed.

Lemma quiet_refund g j s s' u :
  wf s → j = journal s ++ [refundEntry (refund s)] →
  Done (u, set_refund g (set_journal j s)) = Done (tt, s') →
  wf s' ∧ grows (λ _, True) s s' ∧ selfDestructed s' = selfDestructed s.
Proof.
  intros [Hi Ha] -> [= _ <-]. eapply grows_entry; simpl; try done; try by constructor.
  by eapply (idx_ok_append s (refundEntry _)).
Qed.

Lemma quiet_AddRefund g : quiet (AddRefund g).
Proof. intros s [] s' Hwf H. by eapply quiet_refund. Qed.

Lemma quiet_SubRefund g : quiet (SubRefund g).
Proof. intros s [] s' Hwf. unfold SubRefund. case_match; [done|]. intros Hd. by eapply quiet_refund. Qed.

Lemma quiet_AddLog a t d : quiet (AddLog a t d).
Proof.
  intros s x s' [Hi Ha] [= _ <-]. split_and!; [done|split_and!; [done..|]|done].
  eexists [], _. constructor; simpl; [by rewrite app_nil_r|done|by constructor|set_solver].
Qed.

Lemma quiet_SetTransientState a k v : quiet (SetTransientState a k v).
Proof.
  intros s x s' [Hi Ha] [= _ <-]. eapply grows_entry; simpl; try done.
  - by eapply (idx_ok_append s (transientStorageChange _ _ _)).
  - constructor; simpl; try done. intros b l. rewrite !transient_get_set.
    repeat case_decide; naive_solver.
Qed.

Lemma quiet_AddAddress a : quiet (AddAddressToAccessList a).
Proof.
  intros s x s' Hwf. unfold AddAddressToAccessList.
  destruct (containsAddress (access s) a) eqn:E; intros [= _ <-].
  { by apply (quiet_const (λ _, tt) s tt s Hwf). }
  destruct Hwf as [Hi Ha]. rewrite containsAddress_view in E.
  apply bool_decide_eq_false, eq_None_not_Some in E.
  eapply grows_entry; simpl; auto with gomachine.
  - by eapply (idx_ok_append s (accessListAddAddressEntry _)).
  - constructor; simpl; auto with gomachine.
    rewrite deleteAddress_view, addAddress_view, E. by rewrite delete_insert_id.
Qed.

(** Deleting the slot, and the address if it was new, undoes an added slot. *)
Lemma undo_addSlot_view al a k :
  al_wf al → (al_contains al a k).2 = false →
  let al1 := deleteSlot a k (addSlot a k al) in
  al_view (if negb (al_contains al a k).1 then deleteAddress a al1 else al1) = al_view al.
Proof.
  intros Hw. rewrite al_contains_view. simpl.
  assert (al_view (deleteSlot a k (addSlot a k al)) =
    <[a := ({[k]} ∪ default ∅ (al_view al !! a)) ∖ {[k]}]> (al_view al)) as Hv.
  { rewrite deleteSlot_view, addSlot_view by auto with gomachine.
    apply map_eq. intros b. rewrite lookup_alter, !lookup_insert. by repeat case_decide. }
  destruct (al_view al !! a) as [ss|] eqn:E; simpl; intros Hk.
  - rewrite Hv. apply bool_decide_eq_false in Hk. rewrite insert_id; [done|].
    simpl. rewrite E. f_equal. set_solver.
  - rewrite deleteAddress_view, Hv. by rewrite delete_insert_id.
Qed.

Lemma quiet_AddSlot a k : quiet (AddSlotToAccessList a k).
Proof.
  intros s x s' Hwf. unfold AddSlotToAccessList.
  destruct (al_contains (access s) a k) as [addrOk slotOk] eqn:E.
  destruct (addrOk && slotOk) eqn:Eb; intros [= _ <-].
  { by apply (quiet_const (λ _, tt) s tt s Hwf). }
  destruct Hwf as [Hi Ha].
  assert (slotOk = false) as ->.
  { destruct addrOk; [by destruct slotOk|]. rewrite al_contains_view in E.
    by destruct (al_view (access s) !! a); simplify_eq. }
  pose proof (undo_addSlot_view (access s) a k Ha) as Hv. rewrite E in Hv. specialize (Hv eq_refl).
  split_and!; [split; simpl; auto with gomachine| |done].
  - unfold idx_ok in *. simpl. rewrite app_assoc, index_journal_snoc.
    destruct addrOk; simpl; by rewrite ?app_nil_r, ?index_journal_snoc.
  - split_and!; [done..|]. eexists _, []. constructor; simpl; [done|by rewrite app_nil_r| |].
    + destruct addrOk; simpl in *; constructor; simpl; auto with gomachine.
    + intros _. destruct addrOk; simpl; set_solver.
Qed.

Lemma quiet_must {A} (r : result string A) : quiet (must r).
Proof. destruct r; [apply quiet_ret|apply quiet_panic]. Qed.

Lemma quiet_lift {A} (o : outcome A) : quiet (lift o).
Proof. destruct o; [apply quiet_ret|apply quiet_panic]. Qed.

Lemma quiet_committedNoDep c key : quiet (committedNoDep c key).
Proof.
  unfold committedNoDep. repeat case_match; auto using quiet_ret, quiet_panic.
Qed.

#[local] Hint Resolve quiet_ret quiet_panic quiet_must quiet_lift quiet_getStateFromJournal
  quiet_getStateFromStore quiet_putState quiet_markNewContract quiet_committedNoDep
  quiet_AddRefund quiet_SubRefund quiet_AddLog quiet_SetTransientState quiet_AddAddress
  quiet_AddSlot : quiet.

Ltac quiet_tac :=
  repeat first
    [ apply quiet_bind; [|intros]
    | progress auto with quiet
    | match goal with |- quiet (match ?x with _ => _ end) => destruct x end
    | match goal with |- quiet (if ?x then _ else _) => destruct x end ].

Lemma quiet_getState c key : quiet (getState c key).
Proof. unfold getState. quiet_tac. Qed.
#[local] Hint Resolve quiet_getState : quiet.

Lemma quiet_GetBalance c a : quiet (GetBalance c a).
Proof. unfold GetBalance. quiet_tac. Qed.
Lemma quiet_GetCode c a : quiet (GetCode c a).
Proof. unfold GetCode. quiet_tac. Qed.
Lemma quiet_GetNonce c a : quiet (GetNonce c a).
Proof. unfold GetNonce. quiet_tac. Qed.
Lemma quiet_Exist c a : quiet (Exist c a).
Proof. unfold Exist. quiet_tac. Qed.
#[local] Hint Resolve quiet_GetBalance quiet_GetCode quiet_GetNonce quiet_Exist : quiet.

Definition is_structural (o : op) : bool :=
  match o with OpSelfDestruct _ | OpPrepare _ _ _ _ _ _ | OpSnapshot | OpRevert _ => true | _ => false end.

(** Every operation but the structural ones is quiet. *)
Lemma quiet_exec c o : is_structural o = false → quiet (exec c o).
Proof.
  destruct o; intros Hs; try discriminate Hs; unfold exec;
    unfold CreateAccount, CreateContract, AddBalance, SubBalance, SetNonce, GetCodeHash,
      GetCodeSize, SetCode, GetState, GetStateAndCommittedState, SetState, Empty,
      GetCode, GetCodeSize in *;
    quiet_tac; apply quiet_const.
Qed.

(** Destroying an account grows the journal too; the mark is undone exactly
    unless the account was marked before. *)
Lemma SelfDestruct_grows c a s u s' :
  wf s → SelfDestruct c a s = Done (u, s') → wf s' ∧ grows (λ k, k = Marks → a ∉ selfDestructed s) s s'.
Proof.
  intros Hwf H. unfold SelfDestruct in H.
  apply st_bind_done in H as (bal & s1 & H1 & H).
  apply st_bind_done in H as ([] & s2 & H2 & H).
  assert (quiet (GetBalance c a)) as Hq by apply quiet_GetBalance.
  destruct (Hq s bal s1 Hwf H1) as (Hw1 & Hg1 & Hs1).
  assert (quiet (if negb (bal =? 0) then putState (accKey a "bal") (Some (uint256ToBytes 0))
    else mret tt)) as Hq2 by (destruct (negb _); auto with quiet).
  destruct (Hq2 s1 tt s2 Hw1 H2) as (Hw2 & Hg2 & Hs2).
  unfold st_modify in H. injection H as _ <-.
  assert (∀ Q s3, grows Q s2 s3 → grows Q s s3) as Hgt.
  { intros Q s3 Hg3. destruct (grows_trans _ _ _ _ _ (grows_trans _ _ _ _ _ Hg1 Hg2) Hg3)
      as (? & ? & es & ls & He). split_and!; [done..|]. exists es, ls.
    by eapply ext_weaken; [|exact He]. }
  rewrite <-Hs1, <-Hs2. case_decide as Hn.
  - destruct Hw2 as [Hi Ha]. split.
    + split; [|done]. by eapply (idx_ok_append s2 (selfDestructEntry a)).
    + apply Hgt. split_and!; [done..|]. exists [selfDestructEntry a], [].
      constructor; simpl; [done|by rewrite app_nil_r|by constructor|set_solver].
  - split; [done|]. apply Hgt. split_and!; [done..|]. exists [], []. apply ext_refl, Hw2.
Qed.

(** [Prepare] only installs a new access list, without a journal entry. *)
Lemma Prepare_access sh sender coinbase dest pre acc s u s' :
  Prepare sh sender coinbase dest pre acc s = Done (u, s') → ∃ al, al_wf al ∧ s' = set_access al s.
Proof.
  assert (∀ A (f : A → accessList → accessList) (l : list A) al,
    (∀ x al, al_wf al → al_wf (f x al)) → al_wf al → al_wf (foldl (λ al x, f x al) al l)) as Hfold.
  { intros A f l. induction l as [|x l IH]; intros al Hf Hal; simpl; auto. }
  intros [= _ <-]. eexists. split; [|done].
  assert (∀ al b, al_wf al → al_wf (if b : bool then addAddress coinbase al else al)) as Hsh.
  { intros al [] Hal; auto with gomachine. }
  apply Hsh, (Hfold _ (λ el al, foldl (λ al k, addSlot el.1 k al) (addAddress el.1 al) el.2)).
  - intros el al Hal. apply (Hfold _ (λ k, addSlot el.1 k)); auto with gomachine.
  - apply (Hfold _ addAddress); [auto with gomachine|]. destruct dest; auto with gomachine.
Qed.

Lemma Prepare_grows sh sender coinbase dest pre acc s u s' :
  wf s → Prepare sh sender coinbase dest pre acc s = Done (u, s') →
  wf s' ∧ grows (λ k, k = Marks) s s'.
Proof.
  intros [Hi Ha] (al & Hal & ->)%Prepare_access. split; [done|]. split_and!; [done..|]. exists [], [].
  constructor; simpl; rewrite ?app_nil_r; [done..|by constructor|set_solver].
Qed.

(** ** Snapshots *)

(** Revision ids increase and stay below the next id. *)
Definition revs_ok (s : StateDB) : Prop :=
  StronglySorted (λ r1 r2, rev_id r1 < rev_id r2) (validRevisions s) ∧
  Forall (λ r, rev_id r < nextRevisionId s) (validRevisions s).

Lemma find_revision_Some id rs i r :
  find_revision id rs = Some (i, r) → rs !! i = Some r ∧ rev_id r = id.
Proof.
  revert i. induction rs as [|q rs IH]; intros i; simpl; [done|].
  destruct (Z.eqb_spec (rev_id q) id); [by intros [= <- <-]|].
  destruct (find_revision id rs) as [[j t]|]; simpl; [|done].
  intros [= <- <-]. by apply IH.
Qed.

Lemma find_revision_None id rs :
  find_revision id rs = None → Forall (λ r, rev_id r ≠ id) rs.
Proof.
  induction rs as [|q rs IH]; simpl; [constructor|].
  destruct (Z.eqb_spec (rev_id q) id); [done|].
  destruct (find_revision id rs) as [[j t]|]; simpl; [done|]. intros _. constructor; auto.
Qed.

Lemma undo_all_al_wf es s : al_wf (access s) → al_wf (access (undo_all es s)).
Proof.
  induction es as [|e es IH]; simpl; [done|]. intros H. specialize (IH H).
  destruct e; simpl; auto with gomachine.
Qed.

(** What a successful revert computes. *)
Lemma RevertToSnapshot_Done id s u s' :
  RevertToSnapshot id s = Done (u, s') →
  (find_revision id (validRevisions s) = None ∧ s' = s) ∨
  ∃ i r, validRevisions s !! i = Some r ∧ rev_id r = id ∧
    let s1 := undo_all (drop (rev_journalIndex r) (journal s)) s in
    s' = {| writeIdx := None; logs := take (rev_logIndex r) (logs s);
            refund := refund s1; selfDestructed := selfDestructed s1;
            newContracts := newContracts s1; access := access s1;
            transientStorage := transientStorage s1;
            journal := take (rev_journalIndex r) (journal s);
            validRevisions := take i (validRevisions s); nextRevisionId := nextRevisionId s |}.
Proof.
  unfold RevertToSnapshot. destruct (find_revision id (validRevisions s)) as [[i r]|] eqn:E;
    [|intros [= _ <-]; by left].
  apply find_revision_Some in E as [Hi Hid]. case_match; [done|]. intros [= _ <-]. right.
  exists i, r. split_and!; [done..|].
  destruct (undo_all_frame (drop (rev_journalIndex r) (journal s)) s) as (Hj & Hl & Hv & Hn).
  unfold set_revisions, set_logs, set_writeIdx, set_journal. simpl. by rewrite Hj, Hl, Hv, Hn.
Qed.

Lemma revs_ok_take s s' i :
  revs_ok s → validRevisions s' = take i (validRevisions s) →
  nextRevisionId s' = nextRevisionId s → revs_ok s'.
Proof.
  intros [H1 H2] Hv Hn. unfold revs_ok. rewrite Hv, Hn. split; [|by apply Forall_take].
  rewrite <-(take_drop i (validRevisions s)) in H1. by apply StronglySorted_app_1_l in H1.
Qed.

Lemma exec_wf c o s x s' :
  wf s → revs_ok s → exec c o s = Done (x, s') →
  wf s' ∧ revs_ok s' ∧ nextRevisionId s ≤ nextRevisionId s'.
Proof.
  intros Hwf Hr H. destruct (is_structural o) eqn:Ho.
  2: { destruct (quiet_exec c o Ho s x s' Hwf H) as (? & (Hv & Hn & _) & _).
       unfold revs_ok in *. rewrite Hv, Hn. split_and!; [done|apply Hr|apply Hr|lia]. }
  destruct o; try discriminate Ho; unfold exec in H; apply st_bind_done in H as (y & s1 & H & [= _ <-]).
  - apply SelfDestruct_grows in H as [? (Hv & Hn & _)]; [|done].
    unfold revs_ok in *. rewrite Hv, Hn. split_and!; [done|apply Hr|apply Hr|lia].
  - apply Prepare_grows in H as [? (Hv & Hn & _)]; [|done].
    unfold revs_ok in *. rewrite Hv, Hn. split_and!; [done|apply Hr|apply Hr|lia].
  - injection H as _ <-. split_and!; [done| |simpl; lia]. destruct Hr as [H1 H2]. split; simpl.
    + apply StronglySorted_app_2; [|done|by repeat constructor].
      intros r1 r2 Hr1 ->%list_elem_of_singleton. simpl. rewrite Forall_forall in H2. by apply H2.
    + apply Forall_app. split; [|repeat constructor; simpl; lia].
      eapply Forall_impl; [exact H2|]. simpl. lia.
  - apply RevertToSnapshot_Done in H as [[_ ->]|(i & r & _ & _ & ->)]; [split_and!; [done..|lia]|].
    split_and!; [|by eapply revs_ok_take|simpl; lia]. split; [done|].
    simpl. apply undo_all_al_wf, Hwf.
Qed.

Lemma run_wf c p : ∀ s x s',
  wf s → revs_ok s → run c p s = Done (x, s') → wf s' ∧ revs_ok s'.
Proof.
  induction p as [ret|o k IH]; intros s x s' Hwf Hr H; simpl in H; [by injection H as _ <-|].
  apply st_bind_done in H as (y & s1 & H1 & H2).
  destruct (exec_wf c o s y s1 Hwf Hr H1) as (? & ? & _). by eapply IH.
Qed.

(** The states at which the snapshots still valid were taken, newest first. *)
Inductive linked (strict : part → Prop) : list (revision * StateDB) → StateDB → Prop :=
| linked_nil s : linked strict [] s
| linked_cons r g gs s es ls :
    rev_journalIndex r = length (journal g) → rev_logIndex r = length (logs g) →
    ext strict g s es ls → linked strict gs g → linked strict ((r, g) :: gs) s.

Lemma linked_grows strict gs s s' :
  linked strict gs s → grows strict s s' → linked strict gs s'.
Proof.
  intros Hl (_ & _ & fs & ms & Hf). destruct Hl as [|r g gs s es ls Hj Hlg He Hl]; [constructor|].
  econstructor; [done..| |done]. eapply ext_weaken; [|exact (ext_trans _ _ _ _ _ _ _ _ _ He Hf)]. by intros k.
Qed.

Lemma linked_lookup strict gs1 r g gs2 s :
  linked strict (gs1 ++ (r, g) :: gs2) s →
  rev_journalIndex r = length (journal g) ∧ rev_logIndex r = length (logs g) ∧
  (∃ es ls, ext strict g s es ls) ∧ linked strict gs2 g.
Proof.
  revert s. induction gs1 as [|[r1 g1] gs1 IH]; intros s Hl; simpl in Hl; inversion Hl; subst.
  - eauto 10.
  - destruct (IH g1) as (? & ? & (es1 & ls1 & He1) & ?); [done|].
    split_and!; [done..| |done]. eexists _, _.
    eapply ext_weaken; [|eapply ext_trans; [exact He1|eassumption]]. by intros k.
Qed.

(** The same journal, logs and runtime state. *)
Record like (strict : part → Prop) (s g : StateDB) : Prop := {
  like_journal : journal s = journal g;
  like_logs : logs s = logs g;
  like_rt : rt_eq (strict AccessList) s g;
  like_sd : strict Marks → selfDestructed s = selfDestructed g
}.

Lemma linked_like strict gs g s : linked strict gs g → like strict s g → linked strict gs s.
Proof.
  intros Hl [Hj Hlg Hr Hs]. destruct Hl as [|r g0 gs g es ls ? ? [Hj' Hl' Hr' Hs'] Hl]; [constructor|].
  econstructor; [done..| |done]. constructor; [by rewrite Hj|by rewrite Hlg| |].
  - trans (undo_all es g); [by apply undo_all_proper|done].
  - intros Hst. by rewrite Hs, Hs'.
Qed.

(** Reverting to a revision taken at [g] gives a state like [g]. *)
Lemma revert_like strict g s es ls r u s' :
  ext strict g s es ls → rev_journalIndex r = length (journal g) →
  rev_logIndex r = length (logs g) →
  s' = {| writeIdx := None; logs := take (rev_logIndex r) (logs s);
          refund := refund (undo_all (drop (rev_journalIndex r) (journal s)) s);
          selfDestructed := selfDestructed (undo_all (drop (rev_journalIndex r) (journal s)) s);
          newContracts := newContracts (undo_all (drop (rev_journalIndex r) (journal s)) s);
          access := access (undo_all (drop (rev_journalIndex r) (journal s)) s);
          transientStorage := transientStorage (undo_all (drop (rev_journalIndex r) (journal s)) s);
          journal := take (rev_journalIndex r) (journal s);
          validRevisions := u.1; nextRevisionId := u.2 |} →
  like strict s' g.
Proof.
  intros [Hj Hl Hr Hs] Hrj Hrl ->. rewrite Hrj, Hrl, Hj, Hl.
  constructor; simpl.
  - by rewrite take_app_length.
  - by rewrite take_app_length.
  - rewrite drop_app_length. destruct Hr. by constructor.
  - intros Hst. rewrite drop_app_length, undo_all_sd. auto.
Qed.

(** While the snapshot [id] taken at [s1] is valid, the later ones are linked
    down to it; once gone it never comes back. *)
Definition snap_inv (strict : part → Prop) (id : Z) (s1 s : StateDB) : Prop :=
  wf s ∧ revs_ok s ∧ id < nextRevisionId s ∧
  ((∃ gs r0, rev_id r0 = id ∧ linked strict (gs ++ [(r0, s1)]) s ∧
     validRevisions s = validRevisions s1 ++ (reverse (gs ++ [(r0, s1)])).*1) ∨
   Forall (λ r, rev_id r ≠ id) (validRevisions s)).

Lemma snap_inv_grows strict id s1 s s' :
  snap_inv strict id s1 s → wf s' → grows strict s s' → snap_inv strict id s1 s'.
Proof.
  intros (Hwf & Hr & Hid & H) Hwf' Hg. pose proof Hg as (Hv & Hn & _).
  unfold snap_inv, revs_ok in *. rewrite Hv, Hn. split_and!; [done|apply Hr|apply Hr|done|].
  destruct H as [(gs & r0 & ? & ? & ?)|?]; [left|by right].
  exists gs, r0. split_and!; [done| |done]. by eapply linked_grows.
Qed.

Lemma snap_inv_snapshot strict id s1 s u s' :
  snap_inv strict id s1 s → TakeSnapshot s = Done (u, s') → snap_inv strict id s1 s'.
Proof.
  intros (Hwf & Hr & Hid & H) Hs.
  destruct (exec_wf {| cfg_namespace := ""; cfg_store := λ _ _, Ok None; cfg_monotonicVersions := true |}
    OpSnapshot s (OZ u) s') as (Hwf' & Hr' & _); [done..| |].
  { unfold exec, mbind, st_bind. by rewrite Hs. }
  injection Hs as <- <-. split_and!; [done..|simpl; lia|]. simpl.
  destruct H as [(gs & r0 & Hr0 & Hl & Hv)|Hf]; [left|right].
  - exists (({| rev_id := nextRevisionId s; rev_journalIndex := length (journal s);
                rev_logIndex := length (logs s) |}, s) :: gs), r0. split_and!; [done| |].
    + simpl. econstructor; [done..| |exact Hl].
      constructor; simpl; [by rewrite app_nil_r..| |intros _; set_solver].
      destruct Hwf. by constructor.
    + rewrite Hv. simpl. by rewrite reverse_cons, fmap_app, app_assoc.
  - apply Forall_app. split; [done|]. repeat constructor. simpl. lia.
Qed.

(** A list position inside [base ++ reverse gs]. *)
Lemma reverse_lookup_split {A B} (base : list A) (gs : list (A * B)) i r :
  (base ++ (reverse gs).*1) !! i = Some r → (length base ≤ i)%nat →
  ∃ gs1 b gs2, gs = gs1 ++ (r, b) :: gs2 ∧
    take i (base ++ (reverse gs).*1) = base ++ (reverse gs2).*1.
Proof.
  intros Hl Hi. rewrite lookup_app_r in Hl by done.
  rewrite list_lookup_fmap in Hl. destruct (reverse gs !! (i - length base)%nat) as [[r' b]|] eqn:E; [|done].
  simplify_eq/=. apply take_drop_middle in E as E'.
  exists (reverse (drop (S (i - length base)) (reverse gs))), b, (reverse (take (i - length base) (reverse gs))).
  split.
  - rewrite <-(reverse_involutive gs) at 1. rewrite <-E' at 1. by rewrite reverse_app, reverse_cons, <-app_assoc.
  - rewrite reverse_involutive, take_app, take_ge by lia. by rewrite fmap_take.
Qed.

Lemma snap_inv_base strict id s1 s gs r0 :
  revs_ok s → rev_id r0 = id →
  validRevisions s = validRevisions s1 ++ (reverse (gs ++ [(r0, s1)])).*1 →
  linked strict (gs ++ [(r0, s1)]) s → Forall (λ r, rev_id r ≠ id) (validRevisions s1).
Proof.
  intros [Hs _] Hid Hv _. rewrite Hv, reverse_app in Hs. apply Forall_forall. intros r Hr.
  enough (rev_id r < rev_id r0) by lia.
  apply (StronglySorted_app_1_elem_of _ _ _ r r0 Hs Hr), list_elem_of_here.
Qed.

Lemma snap_inv_revert strict id s1 s id' u s' :
  snap_inv strict id s1 s → RevertToSnapshot id' s = Done (u, s') → snap_inv strict id s1 s'.
Proof.
  intros (Hwf & Hr & Hid & H) HR.
  apply RevertToSnapshot_Done in HR as [[_ ->]|(i & r & Hi & Hid' & Hs')]; [exact (conj Hwf (conj Hr (conj Hid H)))|].
  simpl in Hs'.
  assert (wf s') as Hwf' by (subst s'; split; [done|apply undo_all_al_wf, Hwf]).
  assert (validRevisions s' = take i (validRevisions s)) as Hv' by by subst s'.
  assert (nextRevisionId s' = nextRevisionId s) as Hn' by by subst s'.
  assert (revs_ok s') as Hr' by by eapply revs_ok_take.
  split_and!; [done..|by rewrite Hn'|]. rewrite Hv'.
  destruct H as [(gs & r0 & Hr0 & Hl & Hv)|Hf]; [|right; by apply Forall_take].
  pose proof (snap_inv_base strict id s1 s gs r0 Hr Hr0 Hv Hl) as Hb.
  rewrite Hv in Hi |- *. destruct (decide (length (validRevisions s1) ≤ i)%nat) as [Hge|Hlt].
  2: { right. rewrite take_app_le by lia. by apply Forall_take. }
  destruct (reverse_lookup_split _ _ _ _ Hi Hge) as (gs1 & g & gs2 & Heq & Htk). rewrite Htk.
  destruct gs2 as [|p2 gs2 _] using rev_ind; [right; by rewrite app_nil_r|left].
  rewrite app_comm_cons, app_assoc in Heq. apply app_inj_tail in Heq as [Heq <-].
  exists gs2, r0. split_and!; [done| |done].
  rewrite Heq, <-app_assoc in Hl. apply linked_lookup in Hl as (Hj & Hlg & (es & ls & He) & Hl).
  eapply linked_like; [done|]. by eapply (revert_like _ g s es ls r (_, _)).
Qed.

(** A run that installs no new access list. *)
Fixpoint unprepared (c : config) (p : prog R) (s : StateDB) : Prop :=
  match p with
  | PRet _ => True
  | PStep o k =>
      match o with OpPrepare _ _ _ _ _ _ => False | _ => True end ∧
      match exec c o s with Done (x, s') => unprepared c (k x) s' | Panic _ => True end
  end.

(** A run that destroys no account already marked. *)
Fixpoint fresh_sd (c : config) (p : prog R) (s : StateDB) : Prop :=
  match p with
  | PRet _ => True
  | PStep o k =>
      match o with OpSelfDestruct a => a ∉ selfDestructed s | _ => True end ∧
      match exec c o s with Done (x, s') => fresh_sd c (k x) s' | Panic _ => True end
  end.

Lemma snap_inv_exec strict id s1 c o s x s' :
  (strict Marks → match o with OpSelfDestruct a => a ∉ selfDestructed s | _ => True end) →
  (strict AccessList → match o with OpPrepare _ _ _ _ _ _ => False | _ => True end) →
  snap_inv strict id s1 s → exec c o s = Done (x, s') → snap_inv strict id s1 s'.
Proof.
  intros Hst Hst' Hinv H. destruct (is_structural o) eqn:Ho.
  2: { destruct (quiet_exec c o Ho s x s' (proj1 Hinv) H) as (? & (Hv & Hn & es & ls & He) & _).
       eapply snap_inv_grows; [done..|]. split_and!; [done..|]. exists es, ls. by eapply ext_weaken; [|exact He]. }
  destruct o; try discriminate Ho; unfold exec in H; apply st_bind_done in H as (y & s2 & H & [= _ <-]).
  - apply SelfDestruct_grows in H as [? (Hv & Hn & es & ls & He)]; [|apply Hinv].
    eapply snap_inv_grows; [done..|]. split_and!; [done..|]. exists es, ls.
    eapply ext_weaken; [|exact He]. intros k Hk ->. by apply Hst.
  - apply Prepare_grows in H as [? (Hv & Hn & es & ls & He)]; [|apply Hinv].
    eapply snap_inv_grows; [done..|]. split_and!; [done..|]. exists es, ls.
    eapply ext_weaken; [|exact He]. intros [] Hk; [done|]. by destruct (Hst' Hk).
  - by eapply snap_inv_snapshot.
  - by eapply snap_inv_revert.
Qed.

Lemma snap_inv_run strict id s1 c p : ∀ s x s',
  (strict Marks → fresh_sd c p s) → (strict AccessList → unprepared c p s) →
  snap_inv strict id s1 s → run c p s = Done (x, s') → snap_inv strict id s1 s'.
Proof.
  induction p as [ret|o k IH]; intros s x s' Hst Hst' Hinv H; simpl in H; [by injection H as _ <-|].
  apply st_bind_done in H as (y & s2 & H1 & H2).
  apply (IH y s2 x s'); [| | |done].
  - intros HS. destruct (Hst HS) as [_ Hf]. by rewrite H1 in Hf.
  - intros HS. destruct (Hst' HS) as [_ Hf]. by rewrite H1 in Hf.
  - apply (snap_inv_exec strict id s1 c o s y s2); [| |done..].
    + intros HS. by destruct (Hst HS) as [Hf _].
    + intros HS. by destruct (Hst' HS) as [Hf _].
Qed.

Lemma snap_inv_start strict s1 id s1' :
  wf s1 → revs_ok s1 → TakeSnapshot s1 = Done (id, s1') → snap_inv strict id s1 s1'.
Proof.
  intros Hwf Hr Hs.
  destruct (exec_wf {| cfg_namespace := ""; cfg_store := λ _ _, Ok None; cfg_monotonicVersions := true |}
    OpSnapshot s1 (OZ id) s1') as (Hwf' & Hr' & _); [done..| |].
  { unfold exec, mbind, st_bind. by rewrite Hs. }
  injection Hs as <- <-. split_and!; [done..|simpl; lia|]. left.
  exists [], {| rev_id := nextRevisionId s1; rev_journalIndex := length (journal s1);
                rev_logIndex := length (logs s1) |}. split_and!; [done| |done].
  econstructor; [done..| |constructor].
  constructor; simpl; [by rewrite app_nil_r..| |intros _; set_solver].
  destruct Hwf. by constructor.
Qed.

Lemma find_revision_mid id base r rest :
  Forall (λ r, rev_id r ≠ id) base → rev_id r = id →
  find_revision id (base ++ r :: rest) = Some (length base, r).
Proof.
  intros Hb Hr. induction Hb as [|q base Hq _ IH]; simpl.
  - by rewrite Hr, Z.eqb_refl.
  - destruct (Z.eqb_spec (rev_id q) id); [done|]. by rewrite IH.
Qed.

Lemma snap_inv_final strict id s1 s :
  snap_inv strict id s1 s → Exists (λ r, rev_id r = id) (validRevisions s) →
  ∃ s3, RevertToSnapshot id s = Done (tt, s3) ∧ like strict s3 s1 ∧
        validRevisions s3 = validRevisions s1.
Proof.
  intros (Hwf & Hr & Hid & [(gs & r0 & Hr0 & Hl & Hv)|Hf]) Hex.
  2: { apply Exists_exists in Hex as (r & Hin & Hr0). rewrite Forall_forall in Hf. by destruct (Hf r Hin). }
  pose proof (snap_inv_base strict id s1 s gs r0 Hr Hr0 Hv Hl) as Hb.
  pose proof Hl as (Hj & Hlg & (es & ls & He) & _)%linked_lookup.
  assert (find_revision id (validRevisions s) = Some (length (validRevisions s1), r0)) as Hfind.
  { rewrite Hv, reverse_app. simpl. by apply find_revision_mid. }
  destruct (RevertToSnapshot id s) as [[[] s3]|] eqn:HR.
  - exists s3. split; [done|]. pose proof HR as HR'.
    apply RevertToSnapshot_Done in HR as [[HN _]|(i & r & Hi & Hid' & Hs')]; [congruence|].
    unfold RevertToSnapshot in HR'. rewrite Hfind in HR'. case_match; [done|]. injection HR' as HR'.
    destruct (undo_all_frame (drop (rev_journalIndex r0) (journal s)) s) as (Hj' & Hl' & Hv' & Hn').
    split.
    + eapply (revert_like _ s1 s es ls r0 (_, _)); [done..|]. rewrite <-HR'.
      unfold set_revisions, set_logs, set_writeIdx, set_journal. simpl. by rewrite Hj', Hl'.
    + rewrite <-HR'. simpl. rewrite Hv', Hv. by rewrite take_app_length.
  - exfalso. unfold RevertToSnapshot in HR. rewrite Hfind in HR. destruct He as [Hej Hel _ _].
    rewrite Hej, Hel, Hj, Hlg, !length_app in HR.
    destruct (Nat.ltb_spec (length (journal s1) + length es) (length (journal s1))); [lia|].
    destruct (Nat.ltb_spec (length (logs s1) + length ls) (length (logs s1))); [lia|]. done.
Qed.

(** ** The read set decides the run *)

(** A read entry tells the version the store holds; a delete carries no value. *)
Definition truthful (c : config) (e : entry) : Prop :=
  match e with
  | readEntry r => ∃ rec, cfg_store c (cfg_namespace c) (kr_Key r) = Ok rec ∧
      kr_Version r = readVersion (cfg_monotonicVersions c) rec
  | writeEntry w => kw_IsDelete w = true → kw_Value w = None
  | _ => True
  end.

(** An operation of [m1], run on one store, appends truthful entries; if its
    reads are still truthful for another store, [m2] does the same there. *)
Definition tracks (c1 c2 : config) {A} (m1 m2 : st StateDB A) : Prop := ∀ s a s',
  wf s → m1 s = Done (a, s') →
  wf s' ∧ (∃ es, journal s' = journal s ++ es ∧ Forall (truthful c1) es) ∧
  (Forall (truthful c2) (journal s') → m2 s = Done (a, s')).

Section tracking.
Context (c1 c2 : config).
Hypothesis same_ns : cfg_namespace c2 = cfg_namespace c1.
Hypothesis same_mono : cfg_monotonicVersions c2 = cfg_monotonicVersions c1.
(** Neither store fails. *)
Hypothesis store1_ok : ∀ key, ∃ rec, cfg_store c1 (cfg_namespace c1) key = Ok rec.
Hypothesis store2_ok : ∀ key, ∃ rec, cfg_store c2 (cfg_namespace c1) key = Ok rec.
(** A version identifies the value it was written with. *)
Hypothesis version_value : ∀ key rec1 rec2,
  cfg_store c1 (cfg_namespace c1) key = Ok rec1 → cfg_store c2 (cfg_namespace c1) key = Ok rec2 →
  readVersion (cfg_monotonicVersions c1) rec1 = readVersion (cfg_monotonicVersions c1) rec2 →
  readValue rec1 = readValue rec2.

Abbreviation tracks12 := (tracks c1 c2).

Lemma tracks_bind {A B} (m1 m2 : st StateDB A) (f1 f2 : A → st StateDB B) :
  tracks12 m1 m2 → (∀ a, tracks12 (f1 a) (f2 a)) → tracks12 (m1 ≫= f1) (m2 ≫= f2).
Proof.
  intros Hm Hf s b s2 Hwf (a & s1 & H1 & H2)%st_bind_done.
  destruct (Hm s a s1 Hwf H1) as (Hw1 & (es & Hj1 & Ht1) & Hm2).
  destruct (Hf a s1 b s2 Hw1 H2) as (Hw2 & (fs & Hj2 & Ht2) & Hf2).
  split_and!; [done| |].
  - exists (es ++ fs). rewrite Hj2, Hj1, app_assoc. split; [done|by apply Forall_app].
  - intros Hv. unfold mbind, st_bind. rewrite Hm2; [by apply Hf2|].
    rewrite Hj2 in Hv. by apply Forall_app in Hv as [Hv _].
Qed.

(** Computations that read nothing track themselves. *)
Lemma tracks_quiet {A} (m : st StateDB A) :
  quiet m →
  (∀ s a s', m s = Done (a, s') → ∃ es, journal s' = journal s ++ es ∧ Forall (truthful c1) es) →
  tracks12 m m.
Proof.
  intros Hq He s a s' Hwf H. destruct (Hq s a s' Hwf H) as (? & _). split_and!; eauto.
Qed.

Ltac entries :=
  let H := fresh "Hd" in
  intros ? ? ? H; repeat case_match; simplify_eq/=;
  first [ exists []; rewrite app_nil_r; by split
        | eexists; split; [reflexivity|by repeat constructor] ].

Lemma tracks_const {A} (f : StateDB → A) : tracks12 (λ s, Done (f s, s)) (λ s, Done (f s, s)).
Proof. apply tracks_quiet; [apply quiet_const|entries]. Qed.
Lemma tracks_ret {A} (a : A) : tracks12 (mret a) (mret a).
Proof. apply (tracks_const (λ _, a)). Qed.
Lemma tracks_panic {A} msg : tracks12 (st_panic (A := A) msg) (st_panic msg).
Proof. by intros s a s' _ H. Qed.
Lemma tracks_must {A} (r : result string A) : tracks12 (must r) (must r).
Proof. destruct r; [apply tracks_ret|apply tracks_panic]. Qed.
Lemma tracks_lift {A} (o : outcome A) : tracks12 (lift o) (lift o).
Proof. destruct o; [apply tracks_ret|apply tracks_panic]. Qed.
Lemma tracks_putState key v : tracks12 (putState key v) (putState key v).
Proof. apply tracks_quiet; [auto with quiet|unfold putState; entries]. Qed.
Lemma tracks_markNewContract a : tracks12 (markNewContract a) (markNewContract a).
Proof. apply tracks_quiet; [auto with quiet|unfold markNewContract; entries]. Qed.
Lemma tracks_AddRefund g : tracks12 (AddRefund g) (AddRefund g).
Proof. apply tracks_quiet; [auto with quiet|unfold AddRefund; entries]. Qed.
Lemma tracks_SubRefund g : tracks12 (SubRefund g) (SubRefund g).
Proof. apply tracks_quiet; [auto with quiet|unfold SubRefund; entries]. Qed.
Lemma tracks_AddLog a t d : tracks12 (AddLog a t d) (AddLog a t d).
Proof. apply tracks_quiet; [auto with quiet|unfold AddLog; entries]. Qed.
Lemma tracks_SetTransientState a k v : tracks12 (SetTransientState a k v) (SetTransientState a k v).
Proof. apply tracks_quiet; [auto with quiet|unfold SetTransientState; entries]. Qed.
Lemma tracks_AddAddress a : tracks12 (AddAddressToAccessList a) (AddAddressToAccessList a).
Proof. apply tracks_quiet; [auto with quiet|unfold AddAddressToAccessList; entries]. Qed.
Lemma tracks_AddSlot a k : tracks12 (AddSlotToAccessList a k) (AddSlotToAccessList a k).
Proof. apply tracks_quiet; [auto with quiet|unfold AddSlotToAccessList; entries]. Qed.

Lemma tracks_getStateFromJournal key : tracks12 (getStateFromJournal key) (getStateFromJournal key).
Proof.
  intros s a s' Hwf H. destruct (quiet_getStateFromJournal key s a s' Hwf H) as (? & _).
  rewrite getStateFromJournal_spec in H by apply Hwf. injection H as <- <-.
  split_and!; [done| |]; simpl.
  - exists []. by rewrite app_nil_r.
  - intros _. by apply getStateFromJournal_spec, Hwf.
Qed.

(** The store read itself: equal versions give equal values. *)
Lemma tracks_getStateFromStore key : tracks12 (getStateFromStore c1 key) (getStateFromStore c2 key).
Proof.
  intros s a s' Hwf H. destruct (quiet_getStateFromStore c1 key s a s' Hwf H) as (? & _).
  unfold getStateFromStore in *. rewrite same_ns, same_mono.
  destruct (store1_ok key) as [rec1 E1]. rewrite E1 in H. injection H as <- <-.
  split_and!; [done| |]; simpl.
  - eexists. split; [done|]. repeat constructor. simpl. eauto.
  - intros [_ Hv]%Forall_app. apply Forall_cons in Hv as [(rec2 & E2 & Hver) _]. simpl in *.
    rewrite same_ns in E2. rewrite same_mono in Hver. rewrite E2.
    by rewrite (version_value key rec1 rec2 E1 E2 Hver), Hver.
Qed.

#[local] Hint Resolve tracks_ret tracks_panic tracks_must tracks_lift tracks_putState
  tracks_markNewContract tracks_AddRefund tracks_SubRefund tracks_AddLog
  tracks_SetTransientState tracks_AddAddress tracks_AddSlot tracks_getStateFromJournal
  tracks_getStateFromStore : tracks.

Ltac tracks_tac :=
  repeat first
    [ solve [auto with tracks]
    | apply tracks_bind; [|intros]
    | match goal with |- tracks _ _ (match ?x with _ => _ end) _ => destruct x end ].

Lemma tracks_getState key : tracks12 (getState c1 key) (getState c2 key).
Proof. unfold getState. tracks_tac. Qed.
#[local] Hint Resolve tracks_getState : tracks.

Lemma tracks_GetBalance a : tracks12 (GetBalance c1 a) (GetBalance c2 a).
Proof. unfold GetBalance. tracks_tac. Qed.
Lemma tracks_GetNonce a : tracks12 (GetNonce c1 a) (GetNonce c2 a).
Proof. unfold GetNonce. tracks_tac. Qed.
Lemma tracks_GetCode a : tracks12 (GetCode c1 a) (GetCode c2 a).
Proof. unfold GetCode. tracks_tac. Qed.
Lemma tracks_Exist a : tracks12 (Exist c1 a) (Exist c2 a).
Proof. unfold Exist. tracks_tac. Qed.
#[local] Hint Resolve tracks_GetBalance tracks_GetNonce tracks_GetCode tracks_Exist : tracks.

Lemma tracks_SelfDestruct a : tracks12 (SelfDestruct c1 a) (SelfDestruct c2 a).
Proof.
  unfold SelfDestruct. tracks_tac. intros s u s' [Hi Ha] Hd.
  split_and!; [| |done]; injection Hd as _ <-; case_decide; simpl.
  - split; [|done]. by eapply (idx_ok_append s (selfDestructEntry a)).
  - done.
  - exists [selfDestructEntry a]. split; [done|by apply Forall_singleton].
  - exists []. by rewrite app_nil_r.
Qed.

(** The previous value is the one untracked read; a program never sees it. *)
Lemma tracks_SetState a k v :
  tracks12 (_ ← SetState c1 a k v; mret OUnit) (_ ← SetState c2 a k v; mret OUnit).
Proof.
  intros s x s' Hwf H. unfold SetState in *.
  assert (∀ c, (∀ key, ∃ rec, cfg_store c (cfg_namespace c) key = Ok rec) →
    ∃ prev, match journal_value (storeKey a k) (journal s) with
            | Some prevVal => mret (toHash prevVal)
            | None => committedNoDep c (storeKey a k)
            end = (mret prev : st StateDB Hash)) as Hprev.
  { intros c Hc. destruct (journal_value _ _); [by eexists|]. unfold committedNoDep.
    destruct (Hc (storeKey a k)) as [[rec|] ->]; [destruct (negb _)|]; by eexists. }
  destruct (Hprev c1 store1_ok) as [prev1 E1].
  destruct (Hprev c2) as [prev2 E2]; [by rewrite same_ns|].
  unfold mbind, st_bind in *. rewrite getStateFromJournal_spec in * by apply Hwf.
  rewrite E1 in H. rewrite E2. unfold mret, st_ret in *.
  set (s0 := set_writeIdx _ s) in *.
  assert (wf s0) as Hwf0 by (split; [done|apply Hwf]).
  assert (∀ val s1, putState (storeKey a k) val s0 = Done (tt, s1) →
    wf s1 ∧ ∃ es, journal s1 = journal s ++ es ∧ Forall (truthful c1) es) as Hput.
  { intros val s1 Hp. split; [by eapply (quiet_putState _ _ s0 tt s1)|].
    injection Hp as <-. eexists. split; [done|].
    repeat constructor. simpl. by destruct (slice_len val =? 0)%nat. }
  assert (∃ val, (if decide (v = Hash_zero) then putState (storeKey a k) None
    else putState (storeKey a k) (Some (Hash_Bytes v))) = putState (storeKey a k) val) as [val Hval]
    by (case_decide; by eexists).
  rewrite Hval in *. destruct (putState (storeKey a k) val s0) as [[[] s1]|] eqn:Hp; [|done].
  injection H as <- <-. destruct (Hput val s1 Hp) as [Hw He]. split_and!; done.
Qed.

Lemma tracks_Prepare sh sender coinbase dest pre acc :
  tracks12 (Prepare sh sender coinbase dest pre acc) (Prepare sh sender coinbase dest pre acc).
Proof.
  intros s u s' Hwf H. destruct (Prepare_grows _ _ _ _ _ _ _ _ _ Hwf H) as [Hwf' _].
  split_and!; [done| |done]. apply Prepare_access in H as (al & _ & ->). exists []. by rewrite app_nil_r.
Qed.

#[local] Hint Resolve tracks_SelfDestruct tracks_SetState tracks_Prepare : tracks.

Definition is_revert (o : op) : bool := match o with OpRevert _ => true | _ => false end.

Lemma tracks_exec o : is_revert o = false → tracks12 (exec c1 o) (exec c2 o).
Proof.
  destruct o; intros Hs; try discriminate Hs; unfold exec; try apply tracks_SetState;
    unfold CreateAccount, CreateContract, AddBalance, SubBalance, SetNonce, GetCodeHash,
      GetCodeSize, SetCode, GetState, GetStateAndCommittedState, Empty, GetCodeSize;
    tracks_tac; try apply tracks_const.
  (* a snapshot *)
  intros s u s' Hwf [= <- <-]. split_and!; [exact Hwf|exists []; by rewrite app_nil_r|done].
Qed.

(** Programs that never revert. *)
Fixpoint revert_free (p : prog R) : Prop :=
  match p with
  | PRet _ => True
  | PStep o k => is_revert o = false ∧ ∀ x, revert_free (k x)
  end.

Lemma tracks_run p : revert_free p → tracks12 (run c1 p) (run c2 p).
Proof.
  induction p as [ret|o k IH]; simpl; [intros _; apply tracks_ret|].
  intros [Ho Hk]. apply tracks_bind; [by apply tracks_exec|intros x; by apply IH].
Qed.
End tracking.

(** ** The read-write set *)

Lemma result_maps_snoc j e :
  result_maps (j ++ [e]) =
  match e with
  | readEntry r => (<[kr_Key r := r]> (result_maps j).1, (result_maps j).2)
  | writeEntry w => ((result_maps j).1, <[kw_Key w := w]> (result_maps j).2)
  | _ => result_maps j
  end.
Proof. unfold result_maps. rewrite foldl_app. by destruct e. Qed.

Lemma result_reads_Some j k r :
  (result_maps j).1 !! k = Some r → readEntry r ∈ j ∧ kr_Key r = k.
Proof.
  induction j as [|e j IH] using rev_ind; [done|]. rewrite result_maps_snoc, elem_of_app.
  destruct e; simpl; try naive_solver. rewrite lookup_insert. case_decide.
  - intros [= ->]. split; [right; apply list_elem_of_here|done].
  - intros [? ?]%IH. auto.
Qed.

Lemma result_reads_complete j r :
  readEntry r ∈ j → is_Some ((result_maps j).1 !! kr_Key r).
Proof.
  induction j as [|e j IH] using rev_ind; [by intros ?%not_elem_of_nil|].
  rewrite result_maps_snoc, elem_of_app. intros [Hr|Hr%list_elem_of_singleton].
  - specialize (IH Hr). destruct e; simpl; auto. rewrite lookup_insert. by case_decide.
  - subst e. simpl. by rewrite lookup_insert_eq.
Qed.

Lemma result_writes_lookup j k w :
  (result_maps j).2 !! k = Some w ↔ find_last (is_write_of k) j = Some (writeEntry w).
Proof.
  induction j as [|e j IH] using rev_ind; [done|].
  rewrite result_maps_snoc, find_last_app. destruct e; simpl; try apply IH.
  rewrite lookup_insert. destruct (String.eqb_spec (kw_Key write) k).
  - rewrite decide_True by done. naive_solver.
  - rewrite decide_False by done. apply IH.
Qed.

Lemma map_values_NoDup {A} (f : A → string) (m : gmap string A) :
  (∀ k x, m !! k = Some x → f x = k) → NoDup (f <$> (map_to_list m).*2).
Proof.
  intros H. rewrite <-list_fmap_compose.
  assert (f ∘ snd <$> map_to_list m = (map_to_list m).*1) as ->.
  { apply list_fmap_ext. intros i [k x] Hi. simpl. apply H.
    by apply elem_of_map_to_list, list_elem_of_lookup_2 with i. }
  apply NoDup_fst_map_to_list.
Qed.

Lemma elem_of_map_values {A} (f : A → string) (m : gmap string A) x :
  (∀ k x, m !! k = Some x → f x = k) → x ∈ (map_to_list m).*2 ↔ m !! f x = Some x.
Proof.
  intros H. rewrite list_elem_of_fmap. split.
  - intros ([k y] & -> & Hy%elem_of_map_to_list). simpl. by rewrite (H k y Hy).
  - intros Hx. exists (f x, x). split; [done|by apply elem_of_map_to_list].
Qed.

Lemma result_reads_key j k r : (result_maps j).1 !! k = Some r → kr_Key r = k.
Proof. by intros [_ ?]%result_reads_Some. Qed.

Lemma result_writes_key j k w : (result_maps j).2 !! k = Some w → kw_Key w = k.
Proof.
  intros [_ H]%result_writes_lookup%find_last_Some. simpl in H. by apply String.eqb_eq.
Qed.

Lemma Result_reads s r :
  r ∈ rws_Reads (Result s) ↔ (result_maps (journal s)).1 !! kr_Key r = Some r.
Proof.
  unfold Result. destruct (result_maps (journal s)) as [rs ws] eqn:E. simpl.
  apply (elem_of_map_values kr_Key). intros k x Hx. apply (result_reads_key (journal s)). by rewrite E.
Qed.

Lemma Result_writes s w :
  w ∈ rws_Writes (Result s) ↔ find_last (is_write_of (kw_Key w)) (journal s) = Some (writeEntry w).
Proof.
  rewrite <-result_writes_lookup. unfold Result.
  destruct (result_maps (journal s)) as [rs ws] eqn:E. simpl.
  apply (elem_of_map_values kw_Key). intros k x Hx. apply (result_writes_key (journal s)). by rewrite E.
Qed.

Lemma Result_NoDup s :
  NoDup (kr_Key <$> rws_Reads (Result s)) ∧ NoDup (kw_Key <$> rws_Writes (Result s)).
Proof.
  unfold Result. destruct (result_maps (journal s)) as [rs ws] eqn:E. simpl.
  split; apply map_values_NoDup; intros k x Hx;
    [apply (result_reads_key (journal s))|apply (result_writes_key (journal s))]; by rewrite E.
Qed.

(** Every read a run leaves in the journal is truthful, reverts included. *)
Lemma run_truthful c p : ∀ s x s',
  (∀ key, ∃ rec, cfg_store c (cfg_namespace c) key = Ok rec) →
  wf s → revs_ok s → Forall (truthful c) (journal s) → run c p s = Done (x, s') →
  Forall (truthful c) (journal s').
Proof.
  induction p as [ret|o k IH]; intros s x s' Hok Hwf Hr Ht H; simpl in H; [by injection H as _ <-|].
  apply st_bind_done in H as (y & s1 & H1 & H2).
  destruct (exec_wf c o s y s1 Hwf Hr H1) as (Hwf1 & Hr1 & _).
  apply (IH y s1 x s'); [done..| |done]. destruct (is_revert o) eqn:Ho.
  - destruct o; try discriminate Ho. unfold exec in H1.
    apply st_bind_done in H1 as ([] & s2 & H1 & [= _ <-]).
    apply RevertToSnapshot_Done in H1 as [[_ ->]|(i & r & _ & _ & ->)]; [done|]. simpl.
    by apply Forall_take.
  - destruct (tracks_exec c c eq_refl eq_refl Hok Hok) with (o := o) (s := s) (a := y) (s' := s1)
      as (_ & (es & -> & He) & _); [|done..|by apply Forall_app].
    intros key rec1 rec2 E1 E2 _. congruence.
Qed.

Lemma NewStateDB_wf : wf NewStateDB ∧ revs_ok NewStateDB.
Proof. split; [split; [done|apply newAccessList_wf]|by repeat constructor]. Qed.

(** ** The properties *)

(** The write index is exact.  In every state a program reaches, reverts
    included, the indexed lookup never panics and returns what a backward scan
    of the journal for the key's latest write returns, a delete reading as nil;
    the lookup changes nothing but the cache. *)
Theorem getStateFromJournal_scan c p x s key :
  run c p NewStateDB = Done (x, s) →
  ∃ s', getStateFromJournal key s = Done (journal_value key (journal s), s') ∧
    set_writeIdx (writeIdx s) s' = s.
Proof.
  intros H. destruct NewStateDB_wf as [Hwf Hr].
  destruct (run_wf c p _ _ _ Hwf Hr H) as [[Hi _] _].
  eexists. split; [by apply getStateFromJournal_spec|]. by destruct s.
Qed.

(** C2: reverting restores.  Take a snapshot in any reachable state, run any
    program, nested snapshots, reverts and [Prepare] included; if the snapshot is
    still valid, reverting to it succeeds and brings back the journal (hence
    every account and storage value, and the read-write set), the logs, the
    enclosing snapshots, the refund counter, the created contracts and the
    transient storage.  The access list is back if the program did not
    [Prepare], which installs a new list without a journal entry; the EVM calls
    it before the snapshots of a transaction's frames.  The set of destructed
    contracts is back if the program destroyed no contract already marked. *)
Theorem Snapshot_Revert_restores c pre x1 s1 id s1' mid x2 s2 :
  run c pre NewStateDB = Done (x1, s1) → TakeSnapshot s1 = Done (id, s1') →
  run c mid s1' = Done (x2, s2) → Exists (λ r, rev_id r = id) (validRevisions s2) →
  ∃ s3, RevertToSnapshot id s2 = Done (tt, s3) ∧
    journal s3 = journal s1 ∧ logs s3 = logs s1 ∧ validRevisions s3 = validRevisions s1 ∧
    refund s3 = refund s1 ∧ newContracts s3 = newContracts s1 ∧
    (unprepared c mid s1' →
     (∀ a, containsAddress (access s3) a = containsAddress (access s1) a) ∧
     (∀ a k, al_contains (access s3) a k = al_contains (access s1) a k)) ∧
    (∀ a k, transient_get (transientStorage s3) a k = transient_get (transientStorage s1) a k) ∧
    (fresh_sd c mid s1' → selfDestructed s3 = selfDestructed s1).
Proof.
  intros Hpre Hsnap Hmid Hval. destruct NewStateDB_wf as [Hwf0 Hr0].
  destruct (run_wf c pre _ _ _ Hwf0 Hr0 Hpre) as [Hwf1 Hr1].
  set (strict k := match k with Marks => fresh_sd c mid s1' | AccessList => unprepared c mid s1' end).
  destruct (snap_inv_final strict id s1 s2) as (s3 & HR & [Hj Hl [? ? ? ? Hv ?] Hsd] & Hvr).
  - apply (snap_inv_run _ id s1 c mid s1' x2 s2); [done..| |done]. by apply snap_inv_start.
  - done.
  - exists s3. split_and!; try done. intros HK. split; intros.
    + by rewrite !containsAddress_view, Hv.
    + by rewrite !al_contains_view, Hv.
Qed.

(** C33: the read-write set.  After any run over a store that does not fail, no
    key is listed twice, the writes are exactly the latest surviving write of
    each key, and every read carries the version the store holds. *)
Theorem Result_rwset c p x s :
  (∀ key, ∃ rec, cfg_store c (cfg_namespace c) key = Ok rec) →
  run c p NewStateDB = Done (x, s) →
  NoDup (kr_Key <$> rws_Reads (Result s)) ∧ NoDup (kw_Key <$> rws_Writes (Result s)) ∧
  (∀ w, w ∈ rws_Writes (Result s) ↔
        find_last (is_write_of (kw_Key w)) (journal s) = Some (writeEntry w)) ∧
  (∀ r, r ∈ rws_Reads (Result s) →
        ∃ rec, cfg_store c (cfg_namespace c) (kr_Key r) = Ok rec ∧
               kr_Version r = readVersion (cfg_monotonicVersions c) rec).
Proof.
  intros Hok H. destruct NewStateDB_wf as [Hwf Hr].
  pose proof (run_truthful c p _ _ _ Hok Hwf Hr (Forall_nil_2 _) H) as Ht.
  destruct (Result_NoDup s) as [H1 H2]. split_and!; [done..|apply Result_writes|].
  intros r [Hin _]%Result_reads%result_reads_Some. rewrite Forall_forall in Ht.
  exact (Ht _ Hin).
Qed.

(** C32: MVCC validation is sound for programs that do not revert.  Run such a
    program on one ledger state; take any other state in which every version in
    the read set still holds.  Then the same program run there does exactly the
    same: same result, same journal, hence same writes, logs and read set.  The
    ledger law used is that equal versions of a key mean equal values. *)
Theorem read_set_sound c1 c2 p x s :
  cfg_namespace c2 = cfg_namespace c1 → cfg_monotonicVersions c2 = cfg_monotonicVersions c1 →
  (∀ key, ∃ rec, cfg_store c1 (cfg_namespace c1) key = Ok rec) →
  (∀ key, ∃ rec, cfg_store c2 (cfg_namespace c1) key = Ok rec) →
  (∀ key rec1 rec2,
     cfg_store c1 (cfg_namespace c1) key = Ok rec1 → cfg_store c2 (cfg_namespace c1) key = Ok rec2 →
     readVersion (cfg_monotonicVersions c1) rec1 = readVersion (cfg_monotonicVersions c1) rec2 →
     readValue rec1 = readValue rec2) →
  revert_free p → run c1 p NewStateDB = Done (x, s) →
  (∀ r, r ∈ rws_Reads (Result s) →
        ∃ rec, cfg_store c2 (cfg_namespace c1) (kr_Key r) = Ok rec ∧
               kr_Version r = readVersion (cfg_monotonicVersions c1) rec) →
  run c2 p NewStateDB = Done (x, s).
Proof.
  intros Hns Hm Hok1 Hok2 Hver Hp H Hvalid. destruct NewStateDB_wf as [Hwf Hr].
  pose proof (run_truthful c1 p _ _ _ Hok1 Hwf Hr (Forall_nil_2 _) H) as Ht.
  destruct (tracks_run c1 c2 Hns Hm Hok1 Hok2 Hver p Hp _ _ _ Hwf H) as (_ & _ & Hrun).
  rewrite Forall_forall in Ht.
  apply Hrun, Forall_forall. intros e He. destruct e as [r|w| | | | | | ]; try done; [|exact (Ht _ He)].
  simpl.
  destruct (result_reads_complete (journal s) r He) as [r' Hr'].
  pose proof (result_reads_Some _ _ _ Hr') as [Hin' Hk].
  destruct (Hvalid r') as (rec & Hrec & Hv). { apply Result_reads. by rewrite Hk. }
  rewrite Hns, Hm, <-Hk. exists rec. split; [done|]. rewrite <-Hv.
  destruct (Ht _ He) as (rec1 & E1 & V1). destruct (Ht _ Hin') as (rec1' & E1' & V1').
  rewrite Hk in E1'. rewrite V1, V1'. congruence.
Qed.
End props.

Arguments PRet {_ _} _.
Arguments PStep {_ _} _ _.

(** ** Account and storage laws *)

Section laws.
Context `{L : GethLaws} {R : Type}.
Implicit Types p : prog R.

Context (c : config).
Hypothesis store_ok : ∀ key, ∃ rec, cfg_store c (cfg_namespace c) key = Ok rec.

(** The value a key shows: the journal's, else the store's. *)
Definition shown (s : StateDB) (key : string) : option byte_slice :=
  match journal_value key (journal s) with
  | Some v => v
  | None => match cfg_store c (cfg_namespace c) key with Ok rec => readValue rec | Err _ => None end
  end.

Definition val {A} (o : outcome (A * StateDB)) : option A :=
  match o with Done (a, _) => Some a | Panic _ => None end.

Lemma getState_shown key s :
  wf s → ∃ s', getState c key s = Done (Ok (shown s key), s') ∧ wf s' ∧
               ∀ key', shown s' key' = shown s key'.
Proof.
  intros Hwf. destruct (getState c key s) as [[r s']|] eqn:E.
  2: { exfalso. revert E. unfold getState, mbind, st_bind.
       rewrite getStateFromJournal_spec by apply Hwf. destruct (journal_value key (journal s)); [done|].
       unfold getStateFromStore. by destruct (store_ok key) as [rec ->]. }
  destruct (quiet_getState c key s r s' Hwf E) as [Hwf' _]. exists s'. revert E.
  unfold getState, mbind, st_bind, shown. rewrite getStateFromJournal_spec by apply Hwf.
  destruct (journal_value key (journal s)) as [v|] eqn:Ej.
  - intros [= <- <-]. done.
  - unfold getStateFromStore. destruct (store_ok key) as [rec ->]. intros [= <- <-].
    split_and!; [done..|]. intros key'. simpl. unfold journal_value. by rewrite find_last_app.
Qed.

(** The stored form of a value: empty means deleted. *)
Definition kept (v : option byte_slice) : option byte_slice :=
  if (slice_len v =? 0)%nat then None else v.

Lemma putState_shown key v s :
  wf s → ∃ s', putState key v s = Done (tt, s') ∧ wf s' ∧
    ∀ key', shown s' key' = if decide (key = key') then kept v else shown s key'.
Proof.
  intros Hwf. destruct (putState key v s) as [[[] s']|] eqn:E; [|done].
  destruct (quiet_putState key v s tt s' Hwf E) as [Hwf' _]. exists s'. split_and!; [done..|].
  injection E as <-. intros key'. unfold shown, journal_value, kept. simpl.
  rewrite find_last_app. simpl. destruct (slice_len v =? 0)%nat; simpl;
    (destruct (String.eqb_spec key key'); case_decide; simpl; done).
Qed.

Lemma GetState_val a k s : wf s → val (GetState c a k s) = Some (toHash (shown s (storeKey a k))).
Proof.
  intros Hwf. destruct (getState_shown (storeKey a k) s Hwf) as (s' & H & _).
  unfold GetState, mbind, st_bind. by rewrite H.
Qed.

Lemma GetBalance_val a s :
  wf s → ∃ s', GetBalance c a s = Done (bytesToUint256 (slice_bytes (shown s (accKey a "bal"))), s') ∧
    wf s' ∧ ∀ key, shown s' key = shown s key.
Proof.
  intros Hwf. destruct (getState_shown (accKey a "bal") s Hwf) as (s' & H & Hw & Hs).
  exists s'. unfold GetBalance, mbind, st_bind. by rewrite H.
Qed.

Lemma toHash_kept v : toHash (kept (Some (Hash_Bytes v))) = v.
Proof.
  unfold kept, toHash, slice_len. simpl. rewrite Hash_Bytes_length. simpl.
  rewrite Hash_Bytes_length. simpl. apply BytesToHash_Bytes.
Qed.

Lemma balance_kept z : is_u256 z → bytesToUint256 (slice_bytes (kept (Some (uint256ToBytes z)))) = z.
Proof.
  intros Hz. pose proof (uint256_roundtrip z Hz) as H. unfold kept, slice_len.
  by destruct (uint256ToBytes z).
Qed.

Lemma SetState_shown a k v s :
  wf s → ∃ prev s', SetState c a k v s = Done (prev, s') ∧ wf s' ∧
    ∀ key, shown s' key = if decide (storeKey a k = key)
      then kept (if decide (v = Hash_zero) then None else Some (Hash_Bytes v)) else shown s key.
Proof.
  intros Hwf. unfold SetState, mbind, st_bind. rewrite getStateFromJournal_spec by apply Hwf.
  set (s0 := set_writeIdx _ s). assert (wf s0) as Hwf0 by (split; [done|apply Hwf]).
  assert (∃ prev, match journal_value (storeKey a k) (journal s) with
    | Some prevVal => mret (toHash prevVal) | None => committedNoDep c (storeKey a k) end s0 = Done (prev, s0))
    as [prev ->].
  { destruct (journal_value _ _); [by eexists|]. unfold committedNoDep.
    destruct (store_ok (storeKey a k)) as [[rec|] ->]; [destruct (negb _)|]; by eexists. }
  destruct (putState_shown (storeKey a k) (if decide (v = Hash_zero) then None else Some (Hash_Bytes v)) s0)
    as (s' & Hp & Hw & Hs); [done|].
  exists prev, s'. split; [|done]. case_decide; by rewrite Hp.
Qed.

(** Storage laws.  In every state a program reaches, writing a storage slot
    makes reads of that slot return the value written, the zero value included,
    and changes no other slot of any account and no balance, nonce or code. *)
Theorem SetState_GetState p x s a k v prev s' :
  run c p NewStateDB = Done (x, s) → SetState c a k v s = Done (prev, s') →
  (∀ b l, val (GetState c b l s') =
          if decide (a = b ∧ k = l) then Some v else val (GetState c b l s)) ∧
  (∀ b typ, shown s' (accKey b typ) = shown s (accKey b typ)).
Proof.
  intros Hrun HS. destruct NewStateDB_wf as [Hwf0 Hr0].
  destruct (run_wf c p _ _ _ Hwf0 Hr0 Hrun) as [Hwf _].
  destruct (SetState_shown a k v s Hwf) as (prev' & s'' & HS' & Hwf' & Hsh). rewrite HS in HS'. injection HS' as <- <-.
  split; intros b l.
  - rewrite !GetState_val, Hsh by done. destruct (decide (a = b ∧ k = l)) as [[-> ->]|Hne].
    + rewrite decide_True by done. case_decide as Hv; [by subst v|]. by rewrite toHash_kept.
    + rewrite decide_False; [done|]. by intros ?%storeKey_inj.
  - rewrite Hsh, decide_False; [done|]. intros Heq. by eapply accKey_storeKey.
Qed.

Definition bal (s : StateDB) (a : Address) : Z :=
  bytesToUint256 (slice_bytes (shown s (accKey a "bal"))).

Lemma GetBalance_bal a s : wf s → val (GetBalance c a s) = Some (bal s a).
Proof. intros Hwf. by destruct (GetBalance_val a s Hwf) as (s' & -> & _). Qed.

(** The common shape of [AddBalance] and [SubBalance]. *)
Lemma change_balance a amount f s r s' :
  wf s → (∀ z, is_u256 (f z)) → (amount = 0 → f (bal s a) = bal s a) →
  (if amount =? 0 then mret 0
   else prev ← GetBalance c a;
        putState (accKey a "bal") (Some (uint256ToBytes (f prev)));; mret prev) s = Done (r, s') →
  wf s' ∧ bal s' a = f (bal s a) ∧ ∀ key, key ≠ accKey a "bal" → shown s' key = shown s key.
Proof.
  intros Hwf Hf H0. destruct (Z.eqb_spec amount 0) as [->|Hne].
  { intros [= _ <-]. by rewrite H0. }
  intros H. destruct (GetBalance_val a s Hwf) as (s1 & H1 & Hw1 & Hs1).
  destruct (putState_shown (accKey a "bal") (Some (uint256ToBytes (f (bal s a)))) s1 Hw1)
    as (s2 & H2 & Hw2 & Hs2).
  unfold mbind, st_bind in H. rewrite H1 in H. unfold bal in H2. rewrite H2 in H. injection H as _ <-.
  split_and!; [done| |].
  - unfold bal at 1. rewrite Hs2, decide_True by done. by apply balance_kept.
  - intros key Hk. by rewrite Hs2, decide_False.
Qed.

(** A value transfer.  In every reachable state, subtracting [v] from one
    account that holds it and adding it to another that can take it moves
    exactly [v]: the two balances change by it, and all other balances, all
    nonces, codes and storage slots stay. *)
Theorem transfer_conserves p x s a b v r1 s1 r2 s2 balA balB :
  run c p NewStateDB = Done (x, s) → a ≠ b →
  val (GetBalance c a s) = Some balA → val (GetBalance c b s) = Some balB →
  0 ≤ v ≤ balA → balB + v < 2 ^ 256 →
  SubBalance c a v s = Done (r1, s1) → AddBalance c b v s1 = Done (r2, s2) →
  val (GetBalance c a s2) = Some (balA - v) ∧ val (GetBalance c b s2) = Some (balB + v) ∧
  (∀ key, key ≠ accKey a "bal" → key ≠ accKey b "bal" → shown s2 key = shown s key).
Proof.
  intros Hrun Hab HbA HbB Hv Hmax HS HA. destruct NewStateDB_wf as [Hwf0 Hr0].
  destruct (run_wf c p _ _ _ Hwf0 Hr0 Hrun) as [Hwf _].
  assert (accKey a "bal" ≠ accKey b "bal") as Hk by by intros [? _]%accKey_inj.
  rewrite GetBalance_bal in HbA, HbB by done. injection HbA as <-. injection HbB as <-.
  pose proof (bytesToUint256_range (slice_bytes (shown s (accKey a "bal")))) as HrA. fold (bal s a) in HrA.
  pose proof (bytesToUint256_range (slice_bytes (shown s (accKey b "bal")))) as HrB. fold (bal s b) in HrB.
  assert (∀ z, is_u256 (u256 z)) as Hu by (intros; apply Z.mod_pos_bound; lia).
  destruct (change_balance a v (λ z, u256 (z - v)) s r1 s1) as (Hw1 & Hb1 & Hs1); [done|auto| |done|].
  { intros ->. rewrite Z.sub_0_r. by apply Z.mod_small. }
  assert (bal s1 b = bal s b) as Hb by (unfold bal; rewrite Hs1; done).
  destruct (change_balance b v (λ z, u256 (z + v)) s1 r2 s2) as (Hw2 & Hb2 & Hs2); [done|auto| |done|].
  { intros ->. rewrite Z.add_0_r, Hb. by apply Z.mod_small. }
  rewrite !GetBalance_bal by done. split_and!.
  - f_equal. trans (bal s1 a); [unfold bal; by rewrite Hs2|]. rewrite Hb1.
    apply Z.mod_small. unfold is_u256 in *. lia.
  - f_equal. rewrite Hb2, Hb. apply Z.mod_small. unfold is_u256 in *. lia.
  - intros key H1 H2. by rewrite Hs2, Hs1.
Qed.
End laws.

(** ** Concrete instances

    Two addresses and two hashes; the store holds one account with a balance
    and, in the variant [cfg 1], one storage slot. *)

#[local] Existing Instance two_types.

Definition rec0 (v : byte_slice) (ver : Z) : WriteRecord := {|
  wr_Namespace := "evm"; wr_Key := ""; wr_BlockNum := 1; wr_TxNum := 0; wr_Version := ver;
  wr_Value := Some v; wr_IsDelete := false; wr_TxID := "t"
|}.

Definition cfg (slot : Z) : @config := {|
  cfg_namespace := "evm";
  cfg_store := λ _ key,
    Ok (if String.eqb key (@accKey two_types true "bal") then Some (rec0 [100] 3)
        else if String.eqb key (@storeKey two_types true true) && (slot =? 1)
             then Some (rec0 [1] 4) else None);
  cfg_monotonicVersions := true
|}.

(** Operations in sequence, ignoring their results. *)
Fixpoint seq_prog (os : list (@op two_types)) : @prog two_types byte_slice :=
  match os with [] => PRet [] | o :: os => PStep o (λ _, seq_prog os) end.

Definition final (slot : Z) (p : @prog two_types byte_slice) : @StateDB two_types :=
  match run (cfg slot) p NewStateDB with Done (_, s) => s | Panic _ => NewStateDB end.

Lemma cfg_ok slot key : ∃ rec, cfg_store (cfg slot) (cfg_namespace (cfg slot)) key = Ok rec.
Proof. simpl. eauto. Qed.

Definition prog_pre : @prog two_types byte_slice :=
  seq_prog [OpPrepare true true true None [] []; OpSetState true true true; OpAddRefund 5;
            OpSetTransient true true true].

Definition prog_mid : @prog two_types byte_slice :=
  seq_prog [OpCreateContract false; OpSelfDestruct false; OpSnapshot; OpSetState true true false;
            OpRevert 1; OpAddSlot true true; OpSetTransient true true false; OpSubRefund 2;
            OpAddBalance true 7; OpAddLog true [true] [1; 2]].

Lemma getStateFromJournal_scan_witness :
  ∃ s', getStateFromJournal (@storeKey two_types true true) (final 0 prog_pre) =
    Done (journal_value (@storeKey two_types true true) (journal (final 0 prog_pre)), s') ∧
    set_writeIdx (writeIdx (final 0 prog_pre)) s' = final 0 prog_pre.
Proof. apply (getStateFromJournal_scan (cfg 0) prog_pre [] (final 0 prog_pre)). vm_compute. reflexivity. Defined.

Definition snap_of_pre : @StateDB two_types :=
  match TakeSnapshot (final 0 prog_pre) with Done (_, s) => s | Panic _ => NewStateDB end.

Definition after_mid : @StateDB two_types :=
  match run (cfg 0) prog_mid snap_of_pre with Done (_, s) => s | Panic _ => NewStateDB end.

Lemma Snapshot_Revert_restores_witness :
  ∃ s3, RevertToSnapshot 0 after_mid = Done (tt, s3) ∧ journal s3 = journal (final 0 prog_pre) ∧
    refund s3 = 5 ∧ selfDestructed s3 = ∅ ∧ al_contains (access s3) true true = (true, false).
Proof.
  destruct (Snapshot_Revert_restores (cfg 0) prog_pre [] (final 0 prog_pre) 0 snap_of_pre
    prog_mid [] after_mid) as (s3 & H1 & H2 & _ & _ & H3 & _ & H5 & _ & H4).
  - vm_compute. reflexivity.
  - vm_compute. reflexivity.
  - vm_compute. reflexivity.
  - vm_compute. left. reflexivity.
  - exists s3. split; [exact H1|]. split; [exact H2|]. split; [exact H3|].
    destruct H5 as [_ H5]; [vm_compute; repeat split|].
    rewrite H4, H5; [vm_compute; split; reflexivity|]. vm_compute.
    repeat (split; [exact I || (intros H; inversion H)|]); exact I.
Defined.

Definition prog_rw : @prog two_types byte_slice :=
  seq_prog [OpAddBalance true 7; OpSetState true true true; OpGetState true false; OpSnapshot;
            OpGetNonce false; OpSetState true true false; OpRevert 0].

Lemma Result_rwset_witness :
  NoDup (kr_Key <$> rws_Reads (Result (final 0 prog_rw))) ∧
  NoDup (kw_Key <$> rws_Writes (Result (final 0 prog_rw))).
Proof.
  destruct (Result_rwset (cfg 0) prog_rw [] (final 0 prog_rw)) as (H1 & H2 & _).
  - intros key. simpl. eauto.
  - vm_compute. reflexivity.
  - split; [exact H1|exact H2].
Defined.

(** The program reads a balance and writes a slot; the other ledger state has
    a slot the program never reads. *)
Definition prog_blind : @prog two_types byte_slice :=
  PStep (OpAddBalance true 7) (λ _, PStep (OpSetState true true true) (λ _, PRet [])).

Lemma read_set_sound_witness :
  run (cfg 1) prog_blind NewStateDB = Done ([], final 0 prog_blind).
Proof.
  apply (read_set_sound (cfg 0) (cfg 1) prog_blind [] (final 0 prog_blind)).
  - reflexivity.
  - reflexivity.
  - intros key. simpl. eauto.
  - intros key. simpl. eauto.
  - intros key rec1 rec2. simpl. intros [= <-] [= <-].
    destruct (String.eqb key _); [reflexivity|]. rewrite andb_false_r.
    destruct (_ && _); [discriminate|reflexivity].
  - repeat split.
  - vm_compute. reflexivity.
  - intros r Hr. vm_compute in Hr. apply list_elem_of_singleton in Hr as ->.
    eexists. split; reflexivity.
Defined.

Definition prog_set : @prog two_types byte_slice := seq_prog [OpSetState true true true].
Definition prog_sub : @prog two_types byte_slice := seq_prog [OpSubBalance true 30].
Definition prog_transfer : @prog two_types byte_slice := seq_prog [OpSubBalance true 30; OpAddBalance false 30].

Lemma SetState_GetState_witness :
  val (GetState (G := two_types) (cfg 0) true true (final 0 prog_set)) = Some true.
Proof.
  destruct (@SetState_GetState two_types two_laws byte_slice (cfg 0) (cfg_ok 0)
    (PRet []) [] (@NewStateDB two_types) true true true false
    (final 0 prog_set)) as [H _].
  - reflexivity.
  - vm_compute. reflexivity.
  - exact (H true true).
Defined.

Lemma transfer_conserves_witness :
  val (GetBalance (G := two_types) (cfg 0) true (final 0 prog_transfer)) = Some 70.
Proof.
  destruct (@transfer_conserves two_types two_laws byte_slice (cfg 0) (cfg_ok 0) (PRet []) [] (@NewStateDB two_types)
    true false 30 100 (final 0 prog_sub) 0
    (final 0 prog_transfer) 100 0) as [H _].
  - reflexivity.
  - discriminate.
  - vm_compute. reflexivity.
  - vm_compute. reflexivity.
  - split; discriminate.
  - reflexivity.
  - vm_compute. reflexivity.
  - vm_compute. reflexivity.
  - exact H.
Defined.

(** ** What the code does not guarantee *)

(** Destroying a contract that is already marked, then reverting only the
    second destruction, removes the mark of the first. *)
Theorem SelfDestruct_revert_unmarks :
  HasSelfDestructed (G := two_types) false (final 0 (seq_prog [OpCreateContract false; OpSelfDestruct false]))
    = Done (true, final 0 (seq_prog [OpCreateContract false; OpSelfDestruct false])) ∧
  selfDestructed (final 0 (seq_prog
    [OpCreateContract false; OpSelfDestruct false; OpSnapshot; OpSelfDestruct false; OpRevert 0])) = ∅.
Proof. split; vm_compute; reflexivity. Qed.

(** Reads made in a reverted frame are dropped from the read set even when the
    program goes on to act on them: the two runs below have the same empty read
    set and different writes. *)
Definition prog_probe : @prog two_types byte_slice :=
  PStep OpSnapshot (λ _, PStep (OpGetState true true) (λ h, PStep (OpRevert 0) (λ _,
    PStep (OpSetNonce true (match h with OHash true => 1 | _ => 2 end)) (λ _, PRet [])))).

Theorem reverted_reads_untracked :
  rws_Reads (Result (final 0 prog_probe)) = [] ∧ rws_Reads (Result (final 1 prog_probe)) = [] ∧
  rws_Writes (Result (final 0 prog_probe)) ≠ rws_Writes (Result (final 1 prog_probe)).
Proof. split_and!; vm_compute; [reflexivity..|discriminate]. Qed.
