(* ===== verification/NonceGate.v ===== *)
(** * NonceGate: per-sender nonce sequencing

    gateway/core/nonce_parking.go.  The gate enqueues a sender's next expected
    nonce, parks higher ones and rejects lower ones.  Every method runs under the
    gate's mutex except that [Admit] releases it to read the store: it is two
    transitions, [Admit_begin] and [Admit_finish], with anything in between.
    Entries are shared by pointer and pinned by a reference count; the model
    keeps the count and reaches the entry by its address, an absent entry being
    the panic [detached] that the invariant excludes.  Times are integers. *)

From Stdlib Require Import ZArith Lia.
From stdpp Require Import base numbers list gmap sets strings.
From S2P Require Import Prelude Geth.

Local Open Scope Z_scope.

Section nonce_gate.
Context `{G : GethTypes} {T : EthTxTypes G}.

(** ** State *)

Record expectedNonce := { en_nonce : Z; en_known : bool }.

Definition en_value (e : expectedNonce) : option Z :=
  if en_known e then Some (en_nonce e) else None.

Definition raise (n : Z) (e : expectedNonce) : expectedNonce :=
  if negb (en_known e) || (en_nonce e <? n) then {| en_nonce := n; en_known := true |} else e.

Record parkedTx := { p_tx : EthTx; p_parkedAt : Z }.

Record senderState := {
  ss_next : expectedNonce;
  ss_parked : gmap Z parkedTx;
  ss_lastSeen : Z;
  ss_refs : Z
}.

(** [g_calls] records the transactions handed to [queue.Enqueue], in order. *)
Record nonceGate := {
  g_senders : gmap Address senderState;
  g_byHash : gmap Hash EthTx;
  g_calls : list EthTx
}.

Record gate_config := {
  maxPerSender : Z;
  maxSenders : Z;
  ttl : Z
}.

Inductive queue_error := ErrTransactionAlreadyPending | ErrQueueClosed | ErrQueueOther.

Inductive admit_error :=
| ErrRecoverSender
| ErrLookUpNonce
| ErrNonceTooLow (next nonce : Z)
| ErrTooManyParked
| ErrEnqueue (e : queue_error).

Definition newNonceGate : nonceGate := {| g_senders := ∅; g_byHash := ∅; g_calls := [] |}.

Definition set_sender (from : Address) (ss : senderState) (g : nonceGate) : nonceGate :=
  {| g_senders := <[from := ss]> (g_senders g); g_byHash := g_byHash g; g_calls := g_calls g |}.

Definition set_next (e : expectedNonce) (ss : senderState) : senderState :=
  {| ss_next := e; ss_parked := ss_parked ss; ss_lastSeen := ss_lastSeen ss; ss_refs := ss_refs ss |}.
Definition set_parked (m : gmap Z parkedTx) (ss : senderState) : senderState :=
  {| ss_next := ss_next ss; ss_parked := m; ss_lastSeen := ss_lastSeen ss; ss_refs := ss_refs ss |}.
Definition set_lastSeen (t : Z) (ss : senderState) : senderState :=
  {| ss_next := ss_next ss; ss_parked := ss_parked ss; ss_lastSeen := t; ss_refs := ss_refs ss |}.
Definition set_refs (r : Z) (ss : senderState) : senderState :=
  {| ss_next := ss_next ss; ss_parked := ss_parked ss; ss_lastSeen := ss_lastSeen ss; ss_refs := r |}.

(** ** The sender cache *)

Definition fresh_sender : senderState := {|
  ss_next := {| en_nonce := 0; en_known := false |}; ss_parked := ∅; ss_lastSeen := 0; ss_refs := 0 |}.

(** [acquire]: the pinned entry, reserved if the sender is unknown. *)
Definition acquire (from : Address) (g : nonceGate) : senderState * nonceGate :=
  let ss := default fresh_sender (g_senders g !! from) in
  let ss := set_refs (ss_refs ss + 1) ss in
  (ss, set_sender from ss g).

(** [release]: unpins, and drops a reservation that got neither nonce nor
    parked transaction. *)
Definition release (from : Address) (g : nonceGate) : nonceGate :=
  match g_senders g !! from with
  | None => g
  | Some ss =>
      let ss := set_refs (ss_refs ss - 1) ss in
      if (0 <? ss_refs ss) || en_known (ss_next ss) || bool_decide (ss_parked ss ≠ ∅)
      then set_sender from ss g
      else {| g_senders := delete from (g_senders g); g_byHash := g_byHash g; g_calls := g_calls g |}
  end.

(** ** Parking *)

Definition park (now : Z) (from : Address) (ss : senderState) (tx : EthTx) (g : nonceGate)
    : nonceGate :=
  let byHash :=
    match ss_parked ss !! Tx_Nonce tx with
    | Some old => delete (Tx_Hash (p_tx old)) (g_byHash g)
    | None => g_byHash g
    end in
  {| g_senders := <[from := set_parked (<[Tx_Nonce tx := {| p_tx := tx; p_parkedAt := now |}]>
                                          (ss_parked ss)) ss]> (g_senders g);
     g_byHash := <[Tx_Hash tx := tx]> byHash;
     g_calls := g_calls g |}.

(** [unpark]: the transaction removed, if any. *)
Definition unpark (from : Address) (nonce : Z) (g : nonceGate) : option EthTx * nonceGate :=
  match g_senders g !! from with
  | None => (None, g)
  | Some ss =>
      match ss_parked ss !! nonce with
      | None => (None, g)
      | Some p =>
          (Some (p_tx p),
           {| g_senders := <[from := set_parked (delete nonce (ss_parked ss)) ss]> (g_senders g);
              g_byHash := delete (Tx_Hash (p_tx p)) (g_byHash g);
              g_calls := g_calls g |})
      end
  end.

Definition IsPending (hash : Hash) (g : nonceGate) : option EthTx := g_byHash g !! hash.

(** ** Admit *)

Section admission.
Context (cfg : gate_config).
(** The queue's answer to a transaction. *)
Context (enqueue : EthTx → option queue_error).

Definition call_enqueue (tx : EthTx) (g : nonceGate) : option queue_error * nonceGate :=
  (enqueue tx, {| g_senders := g_senders g; g_byHash := g_byHash g; g_calls := g_calls g ++ [tx] |}).

(** The part of [Admit] after the sender's next nonce is known. *)
Definition admit_known (now : Z) (from : Address) (tx : EthTx) (next : Z) (ss : senderState)
    (g : nonceGate) : option admit_error * nonceGate :=
  let ss := set_lastSeen now ss in
  let g := set_sender from ss g in
  if Tx_Nonce tx <? next then (Some (ErrNonceTooLow next (Tx_Nonce tx)), g)
  else if Tx_Nonce tx =? next then
    let '(e, g) := call_enqueue tx g in (ErrEnqueue <$> e, g)
  else
    let replacing := bool_decide (is_Some (ss_parked ss !! Tx_Nonce tx)) in
    if negb replacing && (maxPerSender cfg <=? Z.of_nat (size (ss_parked ss)))
    then (Some ErrTooManyParked, g)
    else (None, park now from ss tx g).

(** Either [Admit] is done, or it went off to read the store. *)
Inductive admit_phase :=
| Finished (e : option admit_error)
| Reading (from : Address).

Definition Admit_begin (now : Z) (tx : EthTx) (g : nonceGate) : admit_phase * nonceGate :=
  match Tx_Sender tx with
  | None => (Finished (Some ErrRecoverSender), g)
  | Some from =>
      let '(ss, g) := acquire from g in
      match en_value (ss_next ss) with
      | Some next =>
          let '(e, g) := admit_known now from tx next ss g in
          (Finished e, release from g)
      | None => (Reading from, g)
      end
  end.

(** The rest of [Admit], with the nonce the store returned ([None]: an error). *)
Definition Admit_finish (now : Z) (from : Address) (tx : EthTx) (seed : option Z)
    (g : nonceGate) : outcome (option admit_error * nonceGate) :=
  match seed with
  | None => Done (Some ErrLookUpNonce, release from g)
  | Some seed =>
      match g_senders g !! from with
      | None => Panic "detached"
      | Some ss =>
          let ss := set_next (raise seed (ss_next ss)) ss in
          let '(e, g) := admit_known now from tx (en_nonce (ss_next ss)) ss g in
          Done (e, release from g)
      end
  end.

(** ** Observe *)

(** What [Observe] reads of a committed [domain.Transaction]: its validity, the
    decoded transaction ([ToEthTx], nil on a decoding error) and the sender. *)
Record committedTx := { ct_Valid : bool; ct_EthTx : option EthTx; ct_From : Address }.

Definition highest_step (m : gmap Address Z) (c : committedTx) : gmap Address Z :=
  if negb (ct_Valid c) then m
  else
    match ct_EthTx c with
    | None => m
    | Some tx =>
        match m !! ct_From c with
        | Some cur => if cur <? Tx_Nonce tx then <[ct_From c := Tx_Nonce tx]> m else m
        | None => <[ct_From c := Tx_Nonce tx]> m
        end
    end.

Definition highest (committed : list committedTx) : gmap Address Z :=
  foldl highest_step ∅ committed.

(** Dropping the parked transactions whose nonce is spent. *)
Definition drop_spent (from : Address) (next : Z) (nonces : list Z) (g : nonceGate) : nonceGate :=
  foldl (λ g nonce, if nonce <? next then (unpark from nonce g).2 else g) g nonces.

(** Releasing the transaction at the expected nonce, after dropping the spent
    ones; a failed [Enqueue] drops the transaction. *)
Definition promote (from : Address) (next : Z) (nonces : list Z) (g : nonceGate) : nonceGate :=
  let g := drop_spent from next nonces g in
  let '(tx, g) := unpark from next g in
  match tx with Some tx => (call_enqueue tx g).2 | None => g end.

(** The loop body for one sender. *)
Definition observe_sender (now : Z) (g : nonceGate) (fn : Address * Z) : nonceGate :=
  let '(from, n) := fn in
  let '(ss, g) := acquire from g in
  let ss := set_lastSeen now (set_next (raise (u64 (n + 1)) (ss_next ss)) ss) in
  let g := set_sender from ss g in
  let g := promote from (en_nonce (ss_next ss)) ((map_to_list (ss_parked ss)).*1) g in
  release from g.

(** [order] is the iteration order Go picks for the map [highest]. *)
Definition Observe (now : Z) (order : list (Address * Z)) (g : nonceGate) : nonceGate :=
  foldl (observe_sender now) g order.
End admission.

(** ** Pruning *)

Section prune.
Context (cfg : gate_config).
(** The order in which Go ranges over the entries, chosen anew each time. *)
Context (range : gmap Address senderState → list (Address * senderState)).

Definition expire_entry (now : Z) (from : Address) (g : nonceGate) (np : Z * parkedTx)
    : nonceGate :=
  if ttl cfg <? now - p_parkedAt np.2 then (unpark from np.1 g).2 else g.

Definition expire (now : Z) (g : nonceGate) : nonceGate :=
  foldl (λ g fs, foldl (expire_entry now fs.1) g (map_to_list (ss_parked fs.2)))
    g (range (g_senders g)).

(** The scan for the least recently seen evictable entry. *)
Definition oldest_step (acc : option (Address * senderState)) (fs : Address * senderState)
    : option (Address * senderState) :=
  if (0 <? ss_refs fs.2) || bool_decide (ss_parked fs.2 ≠ ∅) then acc
  else
    match acc with
    | None => Some fs
    | Some old => if ss_lastSeen fs.2 <? ss_lastSeen old.2 then Some fs else acc
    end.

Definition oldest (m : gmap Address senderState) : option (Address * senderState) :=
  foldl oldest_step None (range m).

(** [for len(c.entries) > max]: [None] when the fuel runs out. *)
Fixpoint evict (fuel : nat) (m : gmap Address senderState)
    : option (gmap Address senderState) :=
  if Z.of_nat (size m) <=? maxSenders cfg then Some m
  else
    match fuel with
    | O => None
    | S fuel =>
        match oldest m with
        | None => Some m
        | Some (from, _) => evict fuel (delete from m)
        end
    end.

Definition prune (now : Z) (g : nonceGate) : option nonceGate :=
  let g := expire now g in
  m ← evict (S (size (g_senders g))) (g_senders g);
  Some {| g_senders := m; g_byHash := g_byHash g; g_calls := g_calls g |}.
End prune.
End nonce_gate.
