(* ===== verification/NonceGateProps.v ===== *)
(** * NonceGateProps: correctness of the nonce gate

    The gate as a transition system whose steps are the critical sections of
    [Admit], [Observe] and [prune], with the [Admit]s that are off reading the
    store as part of the state.  One invariant carries the theorems: parked
    transactions and the by-hash index mirror each other, reference counts are
    the number of [Admit]s away, and no entry is ever half built. *)

From Stdlib Require Import ZArith Lia.
From stdpp Require Import base numbers list gmap sets strings relations.
From S2P Require Import Prelude Geth NonceGate.

Local Open Scope Z_scope.

Section props.
Context `{G : GethTypes} {T : EthTxTypes G} {TL : EthTxLaws G T}.
Context (cfg : gate_config).
Hypothesis cap_nonneg : 0 ≤ maxPerSender cfg.

(** ** The transition system *)

(** The gate and the [Admit] calls reading the store. *)
Record sys := { sys_gate : nonceGate; sys_reading : list (Address * EthTx) }.

Inductive gstep : sys → sys → Prop :=
| step_admit now enq tx g e g' ps :
    Admit_begin cfg enq now tx g = (Finished e, g') →
    gstep {| sys_gate := g; sys_reading := ps |} {| sys_gate := g'; sys_reading := ps |}
| step_admit_read now enq tx from g g' ps :
    Admit_begin cfg enq now tx g = (Reading from, g') →
    gstep {| sys_gate := g; sys_reading := ps |} {| sys_gate := g'; sys_reading := (from, tx) :: ps |}
| step_admit_finish now enq from tx seed g e g' ps1 ps2 :
    Admit_finish cfg enq now from tx seed g = Done (e, g') →
    gstep {| sys_gate := g; sys_reading := ps1 ++ (from, tx) :: ps2 |}
          {| sys_gate := g'; sys_reading := ps1 ++ ps2 |}
| step_observe now enq committed order g ps :
    order ≡ₚ map_to_list (highest committed) →
    gstep {| sys_gate := g; sys_reading := ps |}
          {| sys_gate := Observe enq now order g; sys_reading := ps |}
| step_prune now range g g' ps :
    (∀ m, range m ≡ₚ map_to_list m) → prune cfg range now g = Some g' →
    gstep {| sys_gate := g; sys_reading := ps |} {| sys_gate := g'; sys_reading := ps |}.

Definition sys_init : sys := {| sys_gate := newNonceGate; sys_reading := [] |}.

Definition reachable (s : sys) : Prop := rtc gstep sys_init s.

(** ** The invariant *)

(** The transaction parked for a sender at a nonce. *)
Definition parked_at (g : nonceGate) (from : Address) (n : Z) : option EthTx :=
  ss ← g_senders g !! from; p_tx <$> ss_parked ss !! n.

Record gate_ok (pins : Address → Z) (g : nonceGate) : Prop := {
  ok_refs from ss : g_senders g !! from = Some ss → ss_refs ss = pins from;
  ok_live from ss : g_senders g !! from = Some ss → 0 < pins from ∨ en_known (ss_next ss) = true;
  ok_known from ss : g_senders g !! from = Some ss → ss_parked ss ≠ ∅ → en_known (ss_next ss) = true;
  ok_cap from ss : g_senders g !! from = Some ss → Z.of_nat (size (ss_parked ss)) ≤ maxPerSender cfg;
  ok_pinned from : 0 < pins from → is_Some (g_senders g !! from);
  ok_pins from : 0 ≤ pins from;
  ok_nonce from n tx : parked_at g from n = Some tx → Tx_Nonce tx = n ∧ Tx_Sender tx = Some from;
  ok_hash h tx : g_byHash g !! h = Some tx ↔
    Tx_Hash tx = h ∧ ∃ from, parked_at g from (Tx_Nonce tx) = Some tx
}.

Definition bump (from : Address) (pins : Address → Z) : Address → Z :=
  λ a, if decide (a = from) then pins a + 1 else pins a.

(** The number of [Admit]s reading the store for a sender. *)
Definition readers (ps : list (Address * EthTx)) (from : Address) : Z :=
  Z.of_nat (length (filter (λ p, p.1 = from) ps)).

(** ** Effects on one entry *)

Lemma parked_at_set_sender from ss g a n :
  parked_at (set_sender from ss g) a n =
  if decide (from = a) then p_tx <$> ss_parked ss !! n else parked_at g a n.
Proof. unfold parked_at. simpl. rewrite lookup_insert. by case_decide. Qed.

(** Replacing an entry by one with the same parked transactions. *)
Lemma set_sender_ok pins pins' from ss ss' g :
  gate_ok pins g → (∀ a, a ≠ from → pins' a = pins a) → 0 ≤ pins' from →
  default fresh_sender (g_senders g !! from) = ss →
  ss_parked ss' = ss_parked ss → ss_refs ss' = pins' from →
  (en_known (ss_next ss) = true → en_known (ss_next ss') = true) →
  0 < pins' from ∨ en_known (ss_next ss') = true →
  gate_ok pins' (set_sender from ss' g).
Proof.
  intros [Hr Hl Hk Hc Hp Hn Hno Hh] Hpins Hnn Hss Hpk Hrf Hkn Hlive.
  assert (∀ a n, parked_at (set_sender from ss' g) a n = parked_at g a n) as Hpa.
  { intros a n. rewrite parked_at_set_sender. case_decide; [subst a|done].
    rewrite Hpk, <-Hss. unfold parked_at. by destruct (g_senders g !! from); simpl. }
  assert (ss_parked ss' = ∅ ∨ ∃ s0, g_senders g !! from = Some s0 ∧ s0 = ss) as Hcase.
  { rewrite Hpk. destruct (g_senders g !! from) as [s0|]; simpl in Hss; subst; eauto. }
  constructor; simpl.
  - intros a s. rewrite lookup_insert. case_decide; intros; simplify_eq; [done|]. rewrite Hpins by done. eauto.
  - intros a s. rewrite lookup_insert. case_decide; intros; simplify_eq; [done|]. rewrite Hpins by done. eauto.
  - intros a s. rewrite lookup_insert. case_decide; intros; simplify_eq; [|eauto].
    destruct Hcase as [?|(s0 & Hs0 & ->)]; [done|]. apply Hkn. apply (Hk a); [done|congruence].
  - intros a s. rewrite lookup_insert. case_decide; intros; simplify_eq; [|eauto].
    destruct Hcase as [->|(s0 & Hs0 & ->)]; [rewrite map_size_empty; simpl; lia|]. rewrite Hpk. eauto.
  - intros a Ha. rewrite lookup_insert. case_decide; [done|]. apply Hp. by rewrite <-Hpins.
  - intros a. destruct (decide (a = from)) as [->|]; [done|]. by rewrite Hpins.
  - intros a n tx. rewrite Hpa. apply Hno.
  - intros h tx. setoid_rewrite Hpa. apply Hh.
Qed.

Lemma acquire_ok pins from g ss g' :
  gate_ok pins g → acquire from g = (ss, g') →
  gate_ok (bump from pins) g' ∧ g_senders g' !! from = Some ss.
Proof.
  intros Hok [= <- <-]. split; [|simpl; by rewrite lookup_insert_eq].
  pose proof (ok_pins _ _ Hok from) as Hnn.
  apply (set_sender_ok pins (bump from pins) from (default fresh_sender (g_senders g !! from)) _ g Hok); simpl; try done.
  - intros a Ha. unfold bump. by rewrite decide_False.
  - unfold bump. rewrite decide_True by done. lia.
  - unfold bump. rewrite decide_True by done. destruct (g_senders g !! from) as [s|] eqn:E; simpl.
    + by rewrite (ok_refs _ _ Hok from s).
    + destruct (decide (pins from = 0)) as [->|]; [done|].
      destruct (ok_pinned _ _ Hok from); [lia|congruence].
  - left. unfold bump. rewrite decide_True by done. lia.
Qed.

Lemma release_ok pins from g :
  gate_ok (bump from pins) g → 0 ≤ pins from → gate_ok pins (release from g).
Proof.
  intros Hok Hnn. unfold release.
  assert (∀ a, a ≠ from → pins a = bump from pins a) as Hb.
  { intros a Ha. unfold bump. by rewrite decide_False. }
  assert (bump from pins from = pins from + 1) as Hbf by (unfold bump; by rewrite decide_True).
  destruct (ok_pinned _ _ Hok from) as [ss Hss]; [lia|]. rewrite Hss. simpl.
  pose proof (ok_refs _ _ Hok from ss Hss) as Hr. rewrite Hbf in Hr.
  replace (ss_refs ss - 1) with (pins from) by lia.
  destruct ((0 <? pins from) || en_known (ss_next ss) || bool_decide (ss_parked ss ≠ ∅)) eqn:E.
  - apply (set_sender_ok (bump from pins) pins from ss); simpl; try done; [by rewrite Hss|].
    destruct (Z.ltb_spec 0 (pins from)); [by left|]. right. simpl in E.
    destruct (en_known (ss_next ss)) eqn:Ek; [done|]. simpl in E. apply bool_decide_eq_true in E.
    by rewrite (ok_known _ _ Hok from ss Hss E) in Ek.
  - apply orb_false_iff in E as [E Ep]. apply orb_false_iff in E as [E0 Ek].
    apply bool_decide_eq_false in Ep. apply dec_stable in Ep.
    assert (pins from = 0) as H0 by lia.
    assert (∀ a n, parked_at {| g_senders := delete from (g_senders g); g_byHash := g_byHash g;
      g_calls := g_calls g |} a n = parked_at g a n) as Hpa.
    { intros a n. unfold parked_at. simpl. rewrite lookup_delete. case_decide; [subst a|done].
      rewrite Hss. simpl. by rewrite Ep, lookup_empty. }
    destruct Hok as [Hrr Hl Hk Hc Hp Hn Hno Hh]. constructor; simpl.
    + intros a s [Ha Hs]%lookup_delete_Some. rewrite (Hb a); eauto.
    + intros a s [Ha Hs]%lookup_delete_Some. rewrite (Hb a); eauto.
    + intros a s [Ha Hs]%lookup_delete_Some. eauto.
    + intros a s [Ha Hs]%lookup_delete_Some. eauto.
    + intros a Ha. destruct (decide (a = from)) as [->|Hne]; [lia|].
      rewrite lookup_delete_ne by done. apply Hp. by rewrite <-Hb.
    + intros a. destruct (decide (a = from)) as [->|]; [done|]. by rewrite Hb.
    + intros a n tx. rewrite Hpa. apply Hno.
    + intros h tx. setoid_rewrite Hpa. apply Hh.
Qed.

Lemma parked_at_park now from ss tx g a n :
  g_senders g !! from = Some ss →
  parked_at (park now from ss tx g) a n =
  if decide (a = from ∧ n = Tx_Nonce tx) then Some tx else parked_at g a n.
Proof.
  intros Hss. unfold parked_at, park. simpl. rewrite lookup_insert. case_decide as Ha.
  - subst a. rewrite Hss. simpl. rewrite lookup_insert. repeat case_decide; naive_solver.
  - rewrite decide_False by naive_solver. done.
Qed.

(** The by-hash index follows a change of the parked transactions at one
    position. *)
Lemma hash_change pins g from n (new : option EthTx) byHash' pa' :
  gate_ok pins g →
  (∀ a m, pa' a m = if decide (a = from ∧ m = n) then new else parked_at g a m) →
  (∀ tx, new = Some tx → Tx_Nonce tx = n ∧ Tx_Sender tx = Some from) →
  byHash' = match new with Some tx => <[Tx_Hash tx := tx]> | None => id end
              match parked_at g from n with
              | Some old => delete (Tx_Hash old) (g_byHash g)
              | None => g_byHash g
              end →
  (∀ a m tx, pa' a m = Some tx → Tx_Nonce tx = m ∧ Tx_Sender tx = Some a) ∧
  (∀ h tx, byHash' !! h = Some tx ↔ Tx_Hash tx = h ∧ ∃ a, pa' a (Tx_Nonce tx) = Some tx).
Proof.
  intros [_ _ _ _ _ _ Hno Hh] Hpa Hnew ->.
  assert (∀ a m tx, pa' a m = Some tx → Tx_Nonce tx = m ∧ Tx_Sender tx = Some a) as Hno'.
  { intros a m tx. rewrite Hpa. case_decide as Hd; [|apply Hno]. destruct Hd as [-> ->]. apply Hnew. }
  split; [done|]. intros h tx.
  assert (match parked_at g from n with
          | Some old => delete (Tx_Hash old) (g_byHash g) | None => g_byHash g end !! h = Some tx ↔
          Tx_Hash tx = h ∧ ∃ a, ¬ (a = from ∧ Tx_Nonce tx = n) ∧ parked_at g a (Tx_Nonce tx) = Some tx) as Hdel.
  { destruct (parked_at g from n) as [old|] eqn:Eold.
    - rewrite lookup_delete_Some, Hh. split.
      + intros (Hne & Hhash & a & Ha). split; [done|]. exists a. split; [|done]. intros [-> Hn].
        rewrite Hn, Eold in Ha. simplify_eq.
      + intros (Hhash & a & Hne & Ha). split_and!; [|done|eauto]. intros Heq. subst h.
        apply (inj Tx_Hash) in Heq. subst old. destruct (Hno _ _ _ Eold) as [Hn1 Hs1].
        destruct (Hno _ _ _ Ha) as [_ Hs2]. apply Hne. split; congruence.
    - rewrite Hh. split; [|naive_solver]. intros (Hhash & a & Ha). split; [done|]. exists a.
      split; [|done]. intros [-> Hn]. rewrite Hn, Eold in Ha. done. }
  destruct new as [t|]; simpl.
  - rewrite lookup_insert. case_decide as Hht.
    + split.
      * intros [= ->]. split; [done|]. exists from. rewrite Hpa, decide_True; [done|].
        split; [done|apply (Hnew _ eq_refl)].
      * intros [Hhash _]. f_equal. apply (inj Tx_Hash). congruence.
    + rewrite Hdel. setoid_rewrite Hpa. split.
      * intros (Hhash & a & Hne & Ha). split; [done|]. exists a. by rewrite decide_False.
      * intros (Hhash & a & Ha). split; [done|]. exists a. case_decide as Hd; [|done]. simplify_eq.
  - rewrite Hdel. setoid_rewrite Hpa. split.
    + intros (Hhash & a & Hne & Ha). split; [done|]. exists a. by rewrite decide_False.
    + intros (Hhash & a & Ha). split; [done|]. exists a. by case_decide.
Qed.

(** Changing the parked transactions of one known sender at one nonce. *)
Lemma parked_change_ok pins from ss n (new : option parkedTx) g g' :
  gate_ok pins g → g_senders g !! from = Some ss → en_known (ss_next ss) = true →
  g_senders g' = <[from := set_parked (partial_alter (λ _, new) n (ss_parked ss)) ss]> (g_senders g) →
  (∀ p, new = Some p → Tx_Nonce (p_tx p) = n ∧ Tx_Sender (p_tx p) = Some from) →
  (is_Some new → is_Some (ss_parked ss !! n) ∨ Z.of_nat (size (ss_parked ss)) < maxPerSender cfg) →
  g_byHash g' = match p_tx <$> new with Some tx => <[Tx_Hash tx := tx]> | None => id end
      match p_tx <$> ss_parked ss !! n with
      | Some old => delete (Tx_Hash old) (g_byHash g)
      | None => g_byHash g
      end →
  gate_ok pins g'.
Proof.
  intros Hok Hss Hkn Hs' Hnew Hroom Hbh.
  assert (∀ a m, parked_at g' a m = if decide (a = from ∧ m = n) then p_tx <$> new else parked_at g a m) as Hpa.
  { intros a m. unfold parked_at. rewrite Hs', lookup_insert. case_decide as Ha.
    - subst a. rewrite Hss. simpl. rewrite lookup_partial_alter. repeat case_decide; naive_solver.
    - rewrite decide_False by naive_solver. done. }
  assert (parked_at g from n = p_tx <$> ss_parked ss !! n) as Hold by (unfold parked_at; by rewrite Hss).
  destruct (hash_change pins g from n (p_tx <$> new) (g_byHash g') (parked_at g') Hok Hpa) as [Hno' Hh'].
  { intros tx. destruct new as [p|]; [|done]. intros [= <-]. by apply Hnew. }
  { by rewrite Hold. }
  destruct Hok as [Hr Hl Hk Hc Hp Hn _ _]. constructor; rewrite ?Hs'; try done.
  - intros a s. rewrite lookup_insert. case_decide; intros; simplify_eq; simpl; eauto.
  - intros a s. rewrite lookup_insert. case_decide; intros; simplify_eq; simpl; eauto.
  - intros a s. rewrite lookup_insert. case_decide; intros; simplify_eq; simpl; eauto.
  - intros a s. rewrite lookup_insert. case_decide; [|eauto]. intros [= <-]. simpl. subst a.
    specialize (Hc from ss Hss). destruct new as [p|].
    + assert (partial_alter (λ _, Some p) n (ss_parked ss) = <[n := p]> (ss_parked ss)) as -> by done.
      destruct (ss_parked ss !! n) eqn:E; [rewrite map_size_insert_Some by done; lia|].
      rewrite map_size_insert_None by done.
      destruct (Hroom ltac:(done)) as [[? ?]|?]; [congruence|lia].
    + pose proof (map_size_delete n (ss_parked ss)) as Hsz.
      assert (partial_alter (λ _, None) n (ss_parked ss) = delete n (ss_parked ss)) as -> by done.
      rewrite Hsz. case_match; unfold id; lia.
  - intros a Ha. rewrite lookup_insert. case_decide; [done|auto].
Qed.

Lemma park_ok pins now from ss tx g :
  gate_ok pins g → g_senders g !! from = Some ss → en_known (ss_next ss) = true →
  Tx_Sender tx = Some from →
  is_Some (ss_parked ss !! Tx_Nonce tx) ∨ Z.of_nat (size (ss_parked ss)) < maxPerSender cfg →
  gate_ok pins (park now from ss tx g).
Proof.
  intros Hok Hss Hkn Hsnd Hroom.
  apply (parked_change_ok pins from ss (Tx_Nonce tx) (Some {| p_tx := tx; p_parkedAt := now |}) g); try done.
  - by intros p [= <-].
  - simpl. by destruct (ss_parked ss !! Tx_Nonce tx).
Qed.

Lemma unpark_ok pins from n g :
  gate_ok pins g → gate_ok pins (unpark from n g).2.
Proof.
  intros Hok. unfold unpark. destruct (g_senders g !! from) as [ss|] eqn:Hss; [|done].
  destruct (ss_parked ss !! n) as [p|] eqn:Hp; [|done]. simpl.
  apply (parked_change_ok pins from ss n None g); try done.
  - apply (ok_known _ _ Hok from ss Hss). intros H0. by rewrite H0, lookup_empty in Hp.
  - simpl. by rewrite Hp.
Qed.

(** ** What the critical sections do to the entry they work on *)

Lemma unpark_entry from n g ss :
  g_senders g !! from = Some ss →
  g_senders (unpark from n g).2 = <[from := set_parked (delete n (ss_parked ss)) ss]> (g_senders g) ∧
  (unpark from n g).1 = p_tx <$> ss_parked ss !! n ∧ g_calls (unpark from n g).2 = g_calls g.
Proof.
  intros Hss. unfold unpark. rewrite Hss. destruct (ss_parked ss !! n) eqn:E; simpl; [done|].
  split_and!; [|done..]. rewrite delete_id by done. rewrite insert_id; [done|].
  by destruct ss.
Qed.

Lemma drop_spent_entry from next nonces : ∀ g ss,
  g_senders g !! from = Some ss →
  let m := filter (λ np : Z * parkedTx, ¬ (np.1 < next ∧ np.1 ∈ nonces)) (ss_parked ss) in
  g_senders (drop_spent from next nonces g) = <[from := set_parked m ss]> (g_senders g) ∧
  g_calls (drop_spent from next nonces g) = g_calls g.
Proof.
  induction nonces as [|n nonces IH]; intros g ss Hss; simpl.
  - split; [|done]. rewrite map_filter_id by (intros ? ? ? [_ ?%not_elem_of_nil]; done).
    rewrite insert_id; [done|]. by destruct ss.
  - set (g1 := if n <? next then (unpark from n g).2 else g).
    assert (∃ ss1, g_senders g1 = <[from := ss1]> (g_senders g) ∧ g_calls g1 = g_calls g ∧
      ss1 = set_parked (if n <? next then delete n (ss_parked ss) else ss_parked ss) ss)
      as (ss1 & Hs1 & Hc1 & Hss1).
    { unfold g1. destruct (n <? next).
      - destruct (unpark_entry from n g ss Hss) as (? & _ & ?). eauto.
      - exists ss. rewrite insert_id by done. split_and!; [done..|]. by destruct ss. }
    destruct (IH g1 ss1) as [HS HC]; [by rewrite Hs1, lookup_insert_eq|].
    fold g1. unfold drop_spent in *. rewrite HS, HC, Hs1, insert_insert_eq, Hc1. split; [|done]. f_equal.
    rewrite Hss1. unfold set_parked. simpl. f_equal. apply map_eq. intros k.
    apply option_eq. intros p. rewrite !map_lookup_filter_Some. simpl.
    destruct (Z.ltb_spec n next); rewrite ?lookup_delete_Some, elem_of_cons; naive_solver lia.
Qed.

Lemma release_known from g ss :
  g_senders g !! from = Some ss → en_known (ss_next ss) = true →
  g_senders (release from g) = <[from := set_refs (ss_refs ss - 1) ss]> (g_senders g) ∧
  g_calls (release from g) = g_calls g ∧ g_byHash (release from g) = g_byHash g.
Proof. intros Hss Hk. unfold release. rewrite Hss. simpl. rewrite Hk, orb_true_r. done. Qed.

Lemma drop_spent_ok pins from next nonces : ∀ g,
  gate_ok pins g → gate_ok pins (drop_spent from next nonces g).
Proof.
  induction nonces as [|n nonces IH]; intros g Hok; simpl; [done|]. apply IH.
  case_match; [by apply unpark_ok|done].
Qed.

Lemma call_enqueue_ok enq pins tx g :
  gate_ok pins g → gate_ok pins (call_enqueue enq tx g).2.
Proof. by intros []. Qed.

Lemma raise_known n e : en_known (raise n e) = true.
Proof. unfold raise. by destruct (en_known e) eqn:E; simpl; [case_match|]. Qed.

Lemma raise_le n e : n ≤ en_nonce (raise n e).
Proof. unfold raise. destruct (en_known e); simpl; [|lia]. destruct (Z.ltb_spec (en_nonce e) n); simpl; lia. Qed.

Lemma raise_mono n e : en_known e = true → en_nonce e ≤ en_nonce (raise n e).
Proof. unfold raise. intros ->. simpl. destruct (Z.ltb_spec (en_nonce e) n); simpl; lia. Qed.

Lemma promote_spec enq pins from g ss :
  gate_ok pins g → g_senders g !! from = Some ss →
  let next := en_nonce (ss_next ss) in
  let g' := promote enq from next ((map_to_list (ss_parked ss)).*1) g in
  gate_ok pins g' ∧
  (∃ m, g_senders g' = <[from := set_parked m ss]> (g_senders g) ∧
        ∀ k, m !! k = if decide (next < k) then ss_parked ss !! k else None) ∧
  g_calls g' = g_calls g ++ option_list (p_tx <$> ss_parked ss !! next).
Proof.
  intros Hok Hss next g'. unfold g', promote. clear g'.
  set (nonces := (map_to_list (ss_parked ss)).*1).
  destruct (drop_spent_entry from next nonces g ss Hss) as [Hs1 Hc1].
  pose proof (drop_spent_ok pins from next nonces g Hok) as Hok1.
  set (g1 := drop_spent from next nonces g) in *. set (m := filter _ (ss_parked ss)) in Hs1.
  assert (∀ k, m !! k = if decide (next ≤ k) then ss_parked ss !! k else None) as Hm.
  { intros k. apply option_eq. intros p. unfold m. rewrite map_lookup_filter_Some. simpl.
    assert (ss_parked ss !! k = Some p → k ∈ nonces) as Hin.
    { intros Hk. apply list_elem_of_fmap. exists (k, p). split; [done|by apply elem_of_map_to_list]. }
    case_decide; naive_solver lia. }
  assert (g_senders g1 !! from = Some (set_parked m ss)) as Hss1 by by rewrite Hs1, lookup_insert_eq.
  destruct (unpark_entry from next g1 _ Hss1) as (Hs2 & Htx & Hc2).
  pose proof (unpark_ok pins from next g1 Hok1) as Hok2.
  destruct (unpark from next g1) as [tx g2]. simpl in *.
  assert (tx = p_tx <$> ss_parked ss !! next) as -> by (rewrite Htx, Hm, decide_True; [done|lia]).
  split_and!.
  - destruct (ss_parked ss !! next) as [q|]; [|done]. exact (call_enqueue_ok enq pins (p_tx q) g2 Hok2).
  - exists (delete next m). split.
    + destruct (ss_parked ss !! next); simpl; rewrite Hs2, Hs1, insert_insert_eq; done.
    + intros k. rewrite lookup_delete, Hm. repeat case_decide; try done; lia.
  - destruct (ss_parked ss !! next); simpl; rewrite Hc2, Hc1; [done|by rewrite app_nil_r].
Qed.

(** [Observe] for one sender: the entry afterwards, and what was handed on. *)
Lemma observe_sender_spec enq now g from n pins :
  gate_ok pins g →
  let e := raise (u64 (n + 1)) (ss_next (default fresh_sender (g_senders g !! from))) in
  let g' := observe_sender enq now g (from, n) in
  gate_ok pins g' ∧
  (∃ ss', g_senders g' = <[from := ss']> (g_senders g) ∧ ss_next ss' = e ∧
     ∀ k, p_tx <$> ss_parked ss' !! k = if decide (en_nonce e < k) then parked_at g from k else None) ∧
  g_calls g' = g_calls g ++ option_list (parked_at g from (en_nonce e)).
Proof.
  intros Hok e g'. unfold g', observe_sender. clear g'.
  destruct (acquire from g) as [ss0 g0] eqn:Hacq.
  destruct (acquire_ok pins from g ss0 g0 Hok Hacq) as [Hok0 Hss0].
  set (ssd := default fresh_sender (g_senders g !! from)) in *.
  assert (∀ k, parked_at g from k = p_tx <$> ss_parked ssd !! k) as Hpa.
  { intros k. unfold parked_at, ssd. by destruct (g_senders g !! from). }
  set (ss1 := set_lastSeen now (set_next (raise (u64 (n + 1)) (ss_next ss0)) ss0)).
  assert (ss_next ss1 = e ∧ ss_parked ss1 = ss_parked ssd) as [Hn1 Hp1].
  { unfold ss1. injection Hacq as <- <-. done. }
  assert (gate_ok (bump from pins) (set_sender from ss1 g0)) as Hok1.
  { apply (set_sender_ok (bump from pins) (bump from pins) from ss0); try done.
    - apply (ok_pins _ _ Hok0).
    - by rewrite Hss0.
    - simpl. by apply (ok_refs _ _ Hok0).
    - intros _. apply raise_known.
    - right. apply raise_known. }
  set (g1 := set_sender from ss1 g0) in *.
  assert (g_senders g1 = <[from := ss1]> (g_senders g) ∧ g_calls g1 = g_calls g) as [Hs1 Hc1].
  { unfold g1. injection Hacq as <- <-. simpl. by rewrite insert_insert_eq. }
  destruct (promote_spec enq _ from g1 ss1 Hok1) as (Hok2 & (m & Hs2 & Hm) & Hc2);
    [by rewrite Hs1, lookup_insert_eq|].
  set (g2 := promote _ _ _ _ g1) in *.
  destruct (release_known from g2 (set_parked m ss1)) as (Hs3 & Hc3 & _);
    [by rewrite Hs2, lookup_insert_eq|simpl; apply raise_known|].
  split_and!.
  - apply release_ok; [done|]. apply (ok_pins _ _ Hok).
  - eexists. rewrite Hs3, Hs2, Hs1, !insert_insert_eq. split_and!; [done..|]. intros k. simpl.
    rewrite Hm, Hpa, Hp1, Hn1. by case_decide.
  - rewrite Hc3, Hc2, Hc1, Hpa, Hp1, Hn1. done.
Qed.

(** ** Observe *)

(** The nonce [Observe] leaves expected for a sender whose highest committed
    nonce is [n]. *)
Definition observed_next (g : nonceGate) (from : Address) (n : Z) : expectedNonce :=
  raise (u64 (n + 1)) (ss_next (default fresh_sender (g_senders g !! from))).

Lemma Observe_spec enq now order : ∀ g pins,
  NoDup order.*1 → gate_ok pins g →
  let g' := Observe enq now order g in
  gate_ok pins g' ∧
  (∀ a, a ∉ order.*1 → g_senders g' !! a = g_senders g !! a) ∧
  (∀ from n, (from, n) ∈ order → ∃ ss', g_senders g' !! from = Some ss' ∧
     ss_next ss' = observed_next g from n ∧
     ∀ k, p_tx <$> ss_parked ss' !! k =
          if decide (en_nonce (observed_next g from n) < k) then parked_at g from k else None) ∧
  g_calls g' = g_calls g ++
    (order ≫= λ fn, option_list (parked_at g fn.1 (en_nonce (observed_next g fn.1 fn.2)))).
Proof.
  induction order as [|[from n] order IH]; intros g pins Hnd Hok g'.
  { unfold g'. simpl. rewrite app_nil_r. split_and!; [done..| |done]. by intros ? ? ?%not_elem_of_nil. }
  cbn [fmap list_fmap fst] in Hnd. apply NoDup_cons in Hnd as [Hnin Hnd].
  destruct (observe_sender_spec enq now g from n pins Hok) as (Hok1 & (ss1 & Hs1 & Hn1 & Hp1) & Hc1).
  unfold g'. change (Observe enq now ((from, n) :: order) g)
    with (Observe enq now order (observe_sender enq now g (from, n))). clear g'.
  set (g1 := observe_sender enq now g (from, n)) in *.
  destruct (IH g1 pins Hnd Hok1) as (Hok2 & Hfr & Hin & Hc2).
  assert (∀ a, a ≠ from → g_senders g1 !! a = g_senders g !! a) as Hne.
  { intros a Ha. by rewrite Hs1, lookup_insert_ne. }
  assert (∀ a k, a ≠ from → observed_next g1 a k = observed_next g a k) as Hon.
  { intros a k Ha. unfold observed_next. by rewrite Hne. }
  assert (∀ a k, a ≠ from → parked_at g1 a k = parked_at g a k) as Hpa.
  { intros a k Ha. unfold parked_at. by rewrite Hne. }
  assert (∀ a m, (a, m) ∈ order → a ≠ from) as Hord.
  { intros a m Ham ->. apply Hnin, list_elem_of_fmap. by exists (from, m). }
  split_and!; [done| | |].
  - intros a Ha. cbn [fmap list_fmap fst] in Ha. apply not_elem_of_cons in Ha as [Ha1 Ha2].
    rewrite Hfr, Hne by done. done.
  - intros a m [Heq|Ham]%elem_of_cons.
    + injection Heq as -> ->. exists ss1. rewrite Hfr, Hs1, lookup_insert_eq by done. done.
    + destruct (Hin a m Ham) as (ss' & ? & ? & Hp). pose proof (Hord a m Ham).
      exists ss'. rewrite Hon in * by done. split_and!; [done..|]. intros k. rewrite Hp.
      case_decide; [by apply Hpa|done].
  - rewrite Hc2, Hc1, <-app_assoc. f_equal. cbn [mbind list_bind fst snd]. f_equal.
    apply Forall_bind_ext, Forall_forall. intros [a m] Ham. simpl.
    pose proof (Hord a m Ham). by rewrite Hon, Hpa.
Qed.

Lemma highest_NoDup committed order :
  order ≡ₚ map_to_list (highest committed) → NoDup order.*1.
Proof. intros ->. apply NoDup_fst_map_to_list. Qed.

(** ** Admit *)

(** The three cases of [Admit] at a known expected nonce. *)
Lemma admit_known_spec enq pins now from tx ss0 ss g e g' :
  gate_ok pins g → g_senders g !! from = Some ss0 → Tx_Sender tx = Some from →
  ss_parked ss = ss_parked ss0 → ss_refs ss = ss_refs ss0 → en_known (ss_next ss) = true →
  admit_known cfg enq now from tx (en_nonce (ss_next ss)) ss g = (e, g') →
  gate_ok pins g' ∧
  (∃ ss', g_senders g' = <[from := ss']> (g_senders g) ∧ ss_next ss' = ss_next ss ∧
          ss_refs ss' = ss_refs ss) ∧
  (Tx_Nonce tx < en_nonce (ss_next ss) ∧ e = Some (ErrNonceTooLow (en_nonce (ss_next ss)) (Tx_Nonce tx)) ∧
     g_calls g' = g_calls g ∧ (∀ a n, parked_at g' a n = parked_at g a n) ∨
   Tx_Nonce tx = en_nonce (ss_next ss) ∧ e = ErrEnqueue <$> enq tx ∧
     g_calls g' = g_calls g ++ [tx] ∧ (∀ a n, parked_at g' a n = parked_at g a n) ∨
   en_nonce (ss_next ss) < Tx_Nonce tx ∧ g_calls g' = g_calls g ∧
     (e = Some ErrTooManyParked ∧ (∀ a n, parked_at g' a n = parked_at g a n) ∨
      e = None ∧ (∀ a n, parked_at g' a n =
        if decide (a = from ∧ n = Tx_Nonce tx) then Some tx else parked_at g a n))).
Proof.
  intros Hok Hss0 Hsnd Hpk Hrf Hkn. unfold admit_known.
  set (ss1 := set_lastSeen now ss). set (g1 := set_sender from ss1 g).
  assert (gate_ok pins g1) as Hok1.
  { apply (set_sender_ok pins pins from ss0); try done.
    - apply (ok_pins _ _ Hok).
    - by rewrite Hss0.
    - simpl. rewrite Hrf. by apply (ok_refs _ _ Hok).
    - by right. }
  assert (∀ a n, parked_at g1 a n = parked_at g a n) as Hpa.
  { intros a n. unfold g1. rewrite parked_at_set_sender. case_decide; [subst a|done].
    unfold parked_at. rewrite Hss0. simpl. by rewrite Hpk. }
  assert (g_senders g1 !! from = Some ss1) as Hss1 by (simpl; by rewrite lookup_insert_eq).
  destruct (Z.ltb_spec (Tx_Nonce tx) (en_nonce (ss_next ss))).
  { intros [= <- <-]. split_and!; [done|by exists ss1|by left]. }
  destruct (Z.eqb_spec (Tx_Nonce tx) (en_nonce (ss_next ss))) as [Heq|Hne].
  { intros [= <- <-]. split_and!; [exact (call_enqueue_ok enq pins tx g1 Hok1)|by exists ss1|].
    right. left. done. }
  case_match eqn:Hcap; intros [= <- <-].
  { split_and!; [done|by exists ss1|]. right. right. split_and!; [lia|done|by left]. }
  split_and!.
  - apply (park_ok pins now from ss1); try done.
    apply andb_false_iff in Hcap as [Hr|Hm]; [left|right; by apply Z.leb_gt in Hm].
    apply negb_false_iff, bool_decide_eq_true in Hr. done.
  - eexists. unfold park. simpl. by rewrite insert_insert_eq.
  - right. right. split_and!; [lia|done|]. right. split; [done|]. intros a n.
    rewrite parked_at_park by done. by case_decide.
Qed.

Lemma readers_bump ps from tx : ∀ a, readers ((from, tx) :: ps) a = bump from (readers ps) a.
Proof.
  intros a. unfold readers, bump. rewrite filter_cons. simpl.
  repeat case_decide; simplify_eq; simpl; lia.
Qed.

Lemma readers_middle ps1 ps2 from tx a :
  readers (ps1 ++ (from, tx) :: ps2) a = bump from (readers (ps1 ++ ps2)) a.
Proof.
  rewrite <-(readers_bump (ps1 ++ ps2) from tx). unfold readers. f_equal. apply Permutation_length.
  by rewrite Permutation_middle.
Qed.

Lemma gate_ok_ext pins pins' g : (∀ a, pins a = pins' a) → gate_ok pins g → gate_ok pins' g.
Proof.
  intros H [H1 H2 H3 H4 H5 H6 H7 H8]. constructor; try done; intros a; rewrite <-H; auto.
Qed.

(** A transaction at its sender's expected nonce. *)
Definition at_next (g : nonceGate) (tx : EthTx) : Prop :=
  ∃ from ss, Tx_Sender tx = Some from ∧ g_senders g !! from = Some ss ∧
             en_value (ss_next ss) = Some (Tx_Nonce tx).

(** What a critical section hands to the queue, and that it never lowers an
    expected nonce. *)
Definition effect (g g' : nonceGate) : Prop :=
  (∃ l, g_calls g' = g_calls g ++ l ∧ Forall (at_next g') l) ∧
  (∀ from ss, g_senders g !! from = Some ss → en_known (ss_next ss) = true →
     ∃ ss', g_senders g' !! from = Some ss' ∧ en_known (ss_next ss') = true ∧
            en_nonce (ss_next ss) ≤ en_nonce (ss_next ss')).

(** A section that only replaces one entry, raising its nonce. *)
Lemma effect_entry g g' from ss' l :
  g_senders g' = <[from := ss']> (g_senders g) → g_calls g' = g_calls g ++ l →
  Forall (at_next g') l →
  (∀ ss, g_senders g !! from = Some ss → en_known (ss_next ss) = true →
     en_known (ss_next ss') = true ∧ en_nonce (ss_next ss) ≤ en_nonce (ss_next ss')) →
  effect g g'.
Proof.
  intros Hs Hc Hl Hm. split; [by exists l|]. intros a s Ha Hk. rewrite Hs.
  destruct (decide (a = from)) as [->|Hne].
  - exists ss'. rewrite lookup_insert_eq. destruct (Hm s Ha Hk). done.
  - exists s. rewrite lookup_insert_ne by done. split_and!; [done..|lia].
Qed.

(** [Admit] from the point where the nonce is known to its return. *)
Lemma admit_end enq pins now from tx ss0 ss g e g' :
  gate_ok (bump from pins) g → 0 ≤ pins from → g_senders g !! from = Some ss0 →
  Tx_Sender tx = Some from → ss_parked ss = ss_parked ss0 → ss_refs ss = ss_refs ss0 →
  en_known (ss_next ss) = true →
  admit_known cfg enq now from tx (en_nonce (ss_next ss)) ss g = (e, g') →
  gate_ok pins (release from g') ∧
  ∃ ss' l, g_senders (release from g') = <[from := ss']> (g_senders g) ∧ ss_next ss' = ss_next ss ∧
    g_calls (release from g') = g_calls g ++ l ∧
    (l = [] ∨ l = [tx] ∧ Tx_Nonce tx = en_nonce (ss_next ss)).
Proof.
  intros Hok Hnn Hss0 Hsnd Hpk Hrf Hkn Hadm.
  destruct (admit_known_spec enq _ now from tx ss0 ss g e g' Hok Hss0 Hsnd Hpk Hrf Hkn Hadm)
    as (Hok' & (ss' & Hs' & Hn' & Hr') & Hcase).
  destruct (release_known from g' ss') as (Hs2 & Hc2 & _);
    [by rewrite Hs', lookup_insert_eq|by rewrite Hn'|].
  split; [by apply release_ok|].
  exists (set_refs (ss_refs ss' - 1) ss'), (if decide (Tx_Nonce tx = en_nonce (ss_next ss)) then [tx] else []).
  rewrite Hs2, Hs', insert_insert_eq, Hc2. split_and!; [done..| |].
  - destruct Hcase as [(? & _ & -> & _)|[(? & _ & -> & _)|(? & -> & _)]]; case_decide;
      rewrite ?app_nil_r; done || lia.
  - case_decide; auto.
Qed.

Lemma Admit_begin_done enq pins now tx g e g' :
  gate_ok pins g → Admit_begin cfg enq now tx g = (Finished e, g') →
  gate_ok pins g' ∧ effect g g'.
Proof.
  intros Hok. unfold Admit_begin. destruct (Tx_Sender tx) as [from|] eqn:Hsnd.
  2: { intros [= _ <-]. split; [done|]. split; [exists []; by rewrite app_nil_r|].
       intros from ss Hs Hk. exists ss. split_and!; [done..|lia]. }
  destruct (acquire from g) as [ss0 g0] eqn:Hacq.
  destruct (acquire_ok pins from g ss0 g0 Hok Hacq) as [Hok0 Hss0].
  unfold en_value. destruct (en_known (ss_next ss0)) eqn:Hkn; [|done].
  destruct (admit_known cfg enq now from tx (en_nonce (ss_next ss0)) ss0 g0) as [e1 g1] eqn:Hadm.
  intros [= _ <-].
  destruct (admit_end enq pins now from tx ss0 ss0 g0 e1 g1) as (Hok1 & ss' & l & Hs & Hn & Hc & Hl);
    [done|apply (ok_pins _ _ Hok)|done..|].
  split; [done|].
  assert (g_senders (release from g1) = <[from := ss']> (g_senders g)) as Hs'.
  { rewrite Hs. injection Hacq as _ <-. simpl. by rewrite insert_insert_eq. }
  apply (effect_entry g _ from ss' l); [done| | |].
  - rewrite Hc. by injection Hacq as _ <-.
  - destruct Hl as [->|[-> Hnx]]; [constructor|]. apply Forall_singleton. exists from, ss'.
    rewrite Hs', lookup_insert_eq, Hn. unfold en_value. by rewrite Hkn, Hnx.
  - intros ss Hss Hk. rewrite Hn. injection Hacq as <- _. rewrite Hss in Hkn |- *. done.
Qed.

Lemma Admit_begin_read enq pins now tx g from g' :
  gate_ok pins g → Admit_begin cfg enq now tx g = (Reading from, g') →
  Tx_Sender tx = Some from ∧ gate_ok (bump from pins) g' ∧ effect g g'.
Proof.
  intros Hok. unfold Admit_begin. destruct (Tx_Sender tx) as [from'|] eqn:Hsnd; [|done].
  destruct (acquire from' g) as [ss0 g0] eqn:Hacq.
  destruct (acquire_ok pins from' g ss0 g0 Hok Hacq) as [Hok0 Hss0].
  destruct (en_value (ss_next ss0)); [by destruct (admit_known _ _ _ _ _ _ _ _)|].
  intros [= -> <-]. split_and!; [done..|].
  injection Hacq as <- <-. eapply (effect_entry g _ from _ []); [done|by rewrite app_nil_r|done|].
  intros ss Hss Hk. rewrite Hss. simpl. split; [done|lia].
Qed.

Lemma Admit_finish_spec enq pins now from tx seed g :
  gate_ok (bump from pins) g → 0 ≤ pins from → Tx_Sender tx = Some from →
  ∃ e g', Admit_finish cfg enq now from tx seed g = Done (e, g') ∧ gate_ok pins g' ∧ effect g g'.
Proof.
  intros Hok Hnn Hsnd. unfold Admit_finish.
  destruct (ok_pinned _ _ Hok from) as [ss0 Hss0]; [unfold bump; rewrite decide_True by done; lia|].
  destruct seed as [seed|].
  2: { eexists _, _. split; [done|]. split; [by apply release_ok|]. unfold release. rewrite Hss0. simpl.
       case_match eqn:E.
       - eapply (effect_entry g _ from _ []); [done|by rewrite app_nil_r|done|]. intros ss Hss Hk. simplify_eq. simpl. split; [done|lia].
       - split; [exists []; by rewrite app_nil_r|]. intros a s Ha Hk. exists s. simpl.
         rewrite lookup_delete_ne; [split_and!; [done..|lia]|]. intros <-. simplify_eq.
         by rewrite Hk, orb_true_r in E. }
  rewrite Hss0. set (ss1 := set_next (raise seed (ss_next ss0)) ss0).
  destruct (admit_known cfg enq now from tx (en_nonce (ss_next ss1)) ss1 g) as [e1 g1] eqn:Hadm.
  destruct (admit_end enq pins now from tx ss0 ss1 g e1 g1) as (Hok1 & ss' & l & Hs & Hn & Hc & Hl);
    [done..|apply raise_known|done|].
  eexists _, _. split; [done|]. split; [done|]. apply (effect_entry g _ from ss' l); [done..| |].
  - destruct Hl as [->|[-> Hnx]]; [constructor|]. apply Forall_singleton. exists from, ss'.
    rewrite Hs, lookup_insert_eq, Hn. unfold en_value, ss1. simpl. by rewrite raise_known, Hnx.
  - intros ss Hss Hk. simplify_eq. rewrite Hn. simpl. split; [apply raise_known|by apply raise_mono].
Qed.

Lemma Observe_effect enq now committed order g pins :
  order ≡ₚ map_to_list (highest committed) → gate_ok pins g →
  gate_ok pins (Observe enq now order g) ∧ effect g (Observe enq now order g).
Proof.
  intros Hord Hok. destruct (Observe_spec enq now order g pins) as (Hok' & Hfr & Hin & Hc);
    [by eapply highest_NoDup|done|]. split; [done|]. split.
  - eexists. split; [exact Hc|]. apply Forall_forall. intros tx Htx.
    apply list_elem_of_bind in Htx as ([from n] & Htx & Hfn). simpl in Htx.
    destruct (parked_at g from _) as [t|] eqn:Hpa; [|by apply not_elem_of_nil in Htx].
    apply list_elem_of_singleton in Htx as ->. apply (ok_nonce _ _ Hok) in Hpa as [Hn Hs].
    destruct (Hin from n Hfn) as (ss' & Hss' & Hnx & _). exists from, ss'.
    split_and!; [done..|]. rewrite Hnx, Hn. unfold en_value, observed_next. by rewrite raise_known.
  - intros from ss Hss Hk. destruct (decide (from ∈ order.*1)) as [Hi|Hi].
    + apply list_elem_of_fmap in Hi as ([a n] & -> & Hfn). destruct (Hin a n Hfn) as (ss' & Hss' & Hnx & _).
      exists ss'. rewrite Hnx. simpl in Hss. unfold observed_next. rewrite Hss. simpl.
      split_and!; [done|apply raise_known|by apply raise_mono].
    + exists ss. rewrite Hfr by done. split_and!; [done..|lia].
Qed.

(** ** Prune *)

Definition expired (now : Z) (p : parkedTx) : Prop := ttl cfg < now - p_parkedAt p.

Lemma expire_entries now from nps : ∀ g ss pins,
  gate_ok pins g → g_senders g !! from = Some ss →
  let g' := foldl (expire_entry cfg now from) g nps in
  gate_ok pins g' ∧ g_calls g' = g_calls g ∧
  ∃ m, g_senders g' = <[from := set_parked m ss]> (g_senders g) ∧
    ∀ n q, m !! n = Some q ↔ ss_parked ss !! n = Some q ∧ ¬ ∃ p, (n, p) ∈ nps ∧ expired now p.
Proof.
  induction nps as [|[n p] nps IH]; intros g ss pins Hok Hss g'; unfold g'; clear g'; cbn [foldl].
  { split_and!; [done..|]. exists (ss_parked ss). rewrite insert_id by (by destruct ss).
    split; [done|]. intros k q. split; [|naive_solver]. intros Hq. split; [done|].
    by intros (? & ?%not_elem_of_nil & _). }
  set (g1 := expire_entry cfg now from g (n, p)).
  assert (gate_ok pins g1 ∧ g_calls g1 = g_calls g ∧ ∃ m1, g_senders g1 = <[from := set_parked m1 ss]> (g_senders g) ∧
    ∀ k q, m1 !! k = Some q ↔ ss_parked ss !! k = Some q ∧ ¬ (k = n ∧ expired now p))
    as (Hok1 & Hc1 & m1 & Hs1 & Hm1).
  { unfold g1, expire_entry, expired. simpl. destruct (Z.ltb_spec (ttl cfg) (now - p_parkedAt p)).
    - destruct (unpark_entry from n g ss Hss) as (Hs & _ & Hc). split_and!; [by apply unpark_ok|done|].
      exists (delete n (ss_parked ss)). split; [done|]. intros k q. rewrite lookup_delete_Some. naive_solver.
    - split_and!; [done..|]. exists (ss_parked ss). rewrite insert_id by (by destruct ss).
      split; [done|]. intros k q. naive_solver lia. }
  destruct (IH g1 (set_parked m1 ss) pins Hok1) as (Hok2 & Hc2 & m2 & Hs2 & Hm2); [by rewrite Hs1, lookup_insert_eq|].
  split_and!; [done|by rewrite Hc2|]. exists m2. rewrite Hs2, Hs1, insert_insert_eq. split; [done|].
  intros k q. rewrite Hm2. simpl. rewrite Hm1. setoid_rewrite elem_of_cons. naive_solver.
Qed.

#[local] Instance expired_dec now p : Decision (expired now p).
Proof. unfold expired. apply _. Defined.

(** What survives the expiry pass. *)
Definition survivors (now : Z) (ss : senderState) : senderState :=
  set_parked (filter (λ np : Z * parkedTx, ¬ expired now np.2) (ss_parked ss)) ss.

Lemma expire_fold now fss : ∀ g pins,
  gate_ok pins g → NoDup fss.*1 → (∀ a ss, (a, ss) ∈ fss → g_senders g !! a = Some ss) →
  let g' := foldl (λ g fs, foldl (expire_entry cfg now fs.1) g (map_to_list (ss_parked fs.2))) g fss in
  gate_ok pins g' ∧ g_calls g' = g_calls g ∧
  ∀ a, g_senders g' !! a = if decide (a ∈ fss.*1) then survivors now <$> g_senders g !! a else g_senders g !! a.
Proof.
  induction fss as [|[from ss] fss IH]; intros g pins Hok Hnd Hin g'; unfold g'; clear g'; cbn [foldl fst snd].
  { split_and!; [done..|]. done. }
  cbn [fmap list_fmap fst] in Hnd. apply NoDup_cons in Hnd as [Hnin Hnd].
  pose proof (Hin from ss (list_elem_of_here _ _)) as Hss.
  destruct (expire_entries now from (map_to_list (ss_parked ss)) g ss pins Hok Hss) as (Hok1 & Hc1 & m & Hs1 & Hm).
  set (g1 := foldl (expire_entry cfg now from) g (map_to_list (ss_parked ss))) in *.
  assert (set_parked m ss = survivors now ss) as Hsurv.
  { unfold survivors. f_equal. apply map_eq. intros n. apply option_eq. intros q.
    rewrite Hm, map_lookup_filter_Some. simpl. setoid_rewrite elem_of_map_to_list. split.
    - intros [Hq Hne]. split; [done|]. intros He. apply Hne. eauto.
    - intros [Hq Hne]. split; [done|]. intros (p & Hp & He). by simplify_eq. }
  rewrite Hsurv in Hs1.
  destruct (IH g1 pins Hok1 Hnd) as (Hok2 & Hc2 & Hs2).
  { intros a s Ha. rewrite Hs1, lookup_insert_ne.
    - apply Hin. by apply list_elem_of_further.
    - intros <-. apply Hnin, list_elem_of_fmap. by exists (from, s). }
  split_and!; [done|by rewrite Hc2|]. intros a. rewrite Hs2, Hs1, lookup_insert.
  destruct (decide (from = a)) as [<-|Hne]; [rewrite Hss|]; repeat case_decide; try done;
    exfalso; set_solver.
Qed.

(** Nobody holds the entry and it parks nothing. *)
Definition evictable (ss : senderState) : Prop := ss_refs ss ≤ 0 ∧ ss_parked ss = ∅.

Lemma oldest_fold (l : list (Address * senderState)) :
  match foldl oldest_step None l with
  | Some (a, ss) => (a, ss) ∈ l ∧ evictable ss ∧
      Forall (λ fs, evictable fs.2 → ss_lastSeen ss ≤ ss_lastSeen fs.2) l
  | None => Forall (λ fs, ¬ evictable fs.2) l
  end.
Proof.
  induction l as [|[a ss] l IH] using rev_ind; [constructor|].
  rewrite foldl_app. simpl. unfold oldest_step at 1. simpl.
  assert (((0 <? ss_refs ss) || bool_decide (ss_parked ss ≠ ∅)) = false ↔ evictable ss) as Hev.
  { unfold evictable. rewrite orb_false_iff, Z.ltb_ge, bool_decide_eq_false.
    split; intros [? H]; (split; [done|]); [by apply dec_stable|by intros ?]. }
  destruct ((0 <? ss_refs ss) || bool_decide (ss_parked ss ≠ ∅)) eqn:E.
  - assert (¬ evictable ss) as Hne by (intros H; by apply Hev in H).
    destruct (foldl oldest_step None l) as [[b s]|].
    + destruct IH as (Hin & He & Hmin). split_and!; [set_solver|done|].
      apply Forall_app. split; [done|]. by apply Forall_singleton.
    + apply Forall_app. split; [done|]. by apply Forall_singleton.
  - assert (evictable ss) as He by by apply Hev.
    destruct (foldl oldest_step None l) as [[b s]|].
    + destruct IH as (Hin & Heb & Hmin). simpl. destruct (Z.ltb_spec (ss_lastSeen ss) (ss_lastSeen s)).
      * split_and!; [set_solver|done|]. apply Forall_app. split; [|apply Forall_singleton; simpl; lia].
        eapply Forall_impl; [exact Hmin|]. simpl. intros x Hx Hex. specialize (Hx Hex). lia.
      * split_and!; [set_solver|done|]. apply Forall_app. split; [done|]. by apply Forall_singleton.
    + split_and!; [set_solver|done|]. apply Forall_app. split; [|apply Forall_singleton; simpl; lia].
      eapply Forall_impl; [exact IH|]. done.
Qed.

Section evict.
Context (range : gmap Address senderState → list (Address * senderState)).
Hypothesis range_perm : ∀ m, range m ≡ₚ map_to_list m.

Lemma oldest_spec m :
  match oldest range m with
  | Some (a, ss) => m !! a = Some ss ∧ evictable ss ∧
      ∀ b s, m !! b = Some s → evictable s → ss_lastSeen ss ≤ ss_lastSeen s
  | None => ∀ b s, m !! b = Some s → ¬ evictable s
  end.
Proof.
  pose proof (oldest_fold (range m)) as H. unfold oldest.
  assert (∀ b s, (b, s) ∈ range m ↔ m !! b = Some s) as Hr.
  { intros b s. rewrite range_perm. apply elem_of_map_to_list. }
  destruct (foldl oldest_step None (range m)) as [[a ss]|].
  - destruct H as (Hin & He & Hmin). rewrite Hr in Hin. split_and!; [done..|].
    intros b s Hb. rewrite Forall_forall in Hmin. apply (Hmin (b, s)). by apply Hr.
  - intros b s Hb. rewrite Forall_forall in H. apply (H (b, s)). by apply Hr.
Qed.

(** Every turn of the loop removes an entry, so it stops within [size m] turns;
    what it leaves is within the bound, or nothing more can go. *)
Lemma evict_spec fuel : ∀ m, (size m < fuel)%nat →
  ∃ m', evict cfg range fuel m = Some m' ∧ m' ⊆ m ∧
    (∀ a ss, m !! a = Some ss → m' !! a = Some ss ∨ evictable ss) ∧
    (Z.of_nat (size m') ≤ maxSenders cfg ∨ ∀ a ss, m' !! a = Some ss → ¬ evictable ss).
Proof.
  induction fuel as [|fuel IH]; intros m Hf; [lia|]. simpl.
  destruct (Z.leb_spec (Z.of_nat (size m)) (maxSenders cfg)) as [Hle|Hgt].
  { exists m. split_and!; [done..|by left|by left]. }
  pose proof (oldest_spec m) as Ho. destruct (oldest range m) as [[a ss]|].
  2: { exists m. split_and!; [done..|by left|by right]. }
  destruct Ho as (Ha & He & _).
  destruct (IH (delete a m)) as (m' & Hm' & Hsub & Hkeep & Hend).
  { rewrite map_size_delete, Ha. simpl. assert (size m ≠ 0)%nat; [|lia].
    intros H0%map_size_empty_inv. by rewrite H0, lookup_empty in Ha. }
  exists m'. split_and!; [done| | |done].
  - etrans; [exact Hsub|apply delete_subseteq].
  - intros b s Hb. destruct (decide (b = a)) as [->|Hne]; [right; by simplify_eq|].
    apply Hkeep. by rewrite lookup_delete_ne.
Qed.

Lemma prune_spec now g pins :
  gate_ok pins g →
  ∃ g', prune cfg range now g = Some g' ∧ gate_ok pins g' ∧ g_calls g' = g_calls g ∧
    (∀ a ss', g_senders g' !! a = Some ss' → ∃ ss, g_senders g !! a = Some ss ∧ ss' = survivors now ss) ∧
    (∀ a ss, g_senders g !! a = Some ss →
       g_senders g' !! a = Some (survivors now ss) ∨ evictable (survivors now ss)) ∧
    (Z.of_nat (size (g_senders g')) ≤ maxSenders cfg ∨
     ∀ a ss', g_senders g' !! a = Some ss' → ¬ evictable ss').
Proof.
  intros Hok. unfold prune.
  destruct (expire_fold now (range (g_senders g)) g pins Hok) as (Hok1 & Hc1 & Hs1).
  { rewrite range_perm. apply NoDup_fst_map_to_list. }
  { intros a ss. rewrite range_perm. by rewrite elem_of_map_to_list. }
  change (foldl _ g (range (g_senders g))) with (expire cfg range now g) in *.
  set (g1 := expire cfg range now g) in *.
  assert (∀ a, g_senders g1 !! a = survivors now <$> g_senders g !! a) as Hsv.
  { intros a. rewrite Hs1. case_decide as Hin; [done|]. destruct (g_senders g !! a) as [s|] eqn:E; [|done].
    destruct Hin. apply list_elem_of_fmap. exists (a, s). split; [done|]. rewrite range_perm.
    by apply elem_of_map_to_list. }
  destruct (evict_spec (S (size (g_senders g1))) (g_senders g1)) as (m' & Hm' & Hsub & Hkeep & Hend); [lia|].
  rewrite Hm'. simpl. eexists. split; [done|]. simpl.
  assert (∀ a ss, m' !! a = Some ss → g_senders g1 !! a = Some ss) as Hsub'.
  { intros a ss Ha. by eapply lookup_weaken. }
  split_and!; [|done| | |done].
  - assert (∀ a n, parked_at {| g_senders := m'; g_byHash := g_byHash g1; g_calls := g_calls g1 |} a n
        = parked_at g1 a n) as Hpa.
    { intros a n. unfold parked_at. simpl. destruct (m' !! a) as [s|] eqn:E; [by rewrite (Hsub' a s E)|].
      destruct (g_senders g1 !! a) as [s|] eqn:E1; [|done]. simpl.
      destruct (Hkeep a s E1) as [?|[_ ->]]; [congruence|]. by rewrite lookup_empty. }
    destruct Hok1 as [H1 H2 H3 H4 H5 H6 H7 H8]. constructor; simpl; eauto.
    + intros a Ha. destruct (H5 a Ha) as [s Hs]. destruct (Hkeep a s Hs) as [?|[Hr _]]; [by eexists|].
      rewrite (H1 a s Hs) in Hr. lia.
    + intros a n tx. rewrite Hpa. apply H7.
    + intros h tx. setoid_rewrite Hpa. apply H8.
  - intros a ss' Ha. apply Hsub' in Ha. rewrite Hsv in Ha. by apply fmap_Some in Ha.
  - intros a ss Ha. apply Hkeep. by rewrite Hsv, Ha.
Qed.
End evict.

(** ** Reachable states *)

Definition sys_ok (s : sys) : Prop :=
  gate_ok (readers (sys_reading s)) (sys_gate s) ∧
  Forall (λ p, Tx_Sender p.2 = Some p.1) (sys_reading s).

Lemma readers_nonneg ps a : 0 ≤ readers ps a.
Proof. unfold readers. lia. Qed.

Lemma gstep_ok s s' :
  sys_ok s → gstep s s' →
  sys_ok s' ∧ ((effect (sys_gate s) (sys_gate s')) ∨
    g_calls (sys_gate s') = g_calls (sys_gate s) ∧
    ∀ a ss', g_senders (sys_gate s') !! a = Some ss' →
      ∃ ss, g_senders (sys_gate s) !! a = Some ss ∧ ss_next ss' = ss_next ss).
Proof.
  intros [Hok Hps] Hstep. destruct Hstep as
    [now enq tx g e g' ps H|now enq tx from g g' ps H|now enq from tx seed g e g' ps1 ps2 H
    |now enq committed order g ps H|now range g g' ps Hr H]; simpl in *.
  - destruct (Admit_begin_done _ _ _ _ _ _ _ Hok H). split; [by split|by left].
  - destruct (Admit_begin_read _ _ _ _ _ _ _ Hok H) as (Hs & Hok' & He). split; [|by left].
    split; [|by constructor]. eapply gate_ok_ext; [|exact Hok']. intros a. simpl. by rewrite readers_bump.
  - apply Forall_app in Hps as [Hp1 Hp2]. apply Forall_cons in Hp2 as [Hs Hp2]. simpl in Hs.
    destruct (Admit_finish_spec enq (readers (ps1 ++ ps2)) now from tx seed g) as (e' & g'' & H' & Hok' & He).
    + eapply gate_ok_ext; [|exact Hok]. intros a. apply readers_middle.
    + apply readers_nonneg.
    + done.
    + rewrite H in H'. injection H' as <- <-. split; [|by left]. split; [done|by apply Forall_app].
  - destruct (Observe_effect enq now committed order g _ H Hok). split; [by split|by left].
  - destruct (prune_spec range Hr now g _ Hok) as (g'' & H' & Hok' & Hc & Hsub & _).
    rewrite H in H'. injection H' as <-. split; [by split|right]. split; [done|].
    intros a ss' Ha. destruct (Hsub a ss' Ha) as (ss & Hss & ->). by exists ss.
Qed.

Lemma sys_init_ok : sys_ok sys_init.
Proof.
  split; [|constructor]. constructor; simpl; intros *; rewrite ?lookup_empty; try done.
  - split; [done|]. intros [_ [a Ha]]. unfold parked_at in Ha. simpl in Ha. by rewrite lookup_empty in Ha.
Qed.

Lemma reachable_ok s : reachable s → sys_ok s.
Proof.
  intros H. apply (rtc_ind_r (R := gstep) sys_ok sys_init); [apply sys_init_ok| |exact H].
  intros s1 s2 _ Hstep IH. by eapply gstep_ok.
Qed.

(** The gate's invariant.  In every reachable state a hash is pending
    exactly when its transaction is parked, at its nonce, under its own sender;
    no sender parks more than the cap; an entry's reference count is the number
    of [Admit]s away reading the store for it, and an entry nobody is building
    has a nonce. *)
Theorem gate_invariant s :
  reachable s →
  (∀ h tx, IsPending h (sys_gate s) = Some tx ↔
     Tx_Hash tx = h ∧ ∃ from ss p, Tx_Sender tx = Some from ∧
       g_senders (sys_gate s) !! from = Some ss ∧ ss_parked ss !! Tx_Nonce tx = Some p ∧ p_tx p = tx) ∧
  (∀ from ss, g_senders (sys_gate s) !! from = Some ss →
     Z.of_nat (size (ss_parked ss)) ≤ maxPerSender cfg ∧
     ss_refs ss = readers (sys_reading s) from ∧
     (0 < readers (sys_reading s) from ∨ en_known (ss_next ss) = true)).
Proof.
  intros [Hok _]%reachable_ok. split.
  - intros h tx. unfold IsPending. rewrite (ok_hash _ _ Hok). split; intros [Hh H]; (split; [done|]).
    + destruct H as [from Hp]. destruct (ok_nonce _ _ Hok _ _ _ Hp) as [_ Hs].
      unfold parked_at in Hp. destruct (g_senders (sys_gate s) !! from) as [ss|] eqn:E; [|done]. simpl in Hp.
      apply fmap_Some in Hp as (p & Hp & ->). eauto 10.
    + destruct H as (from & ss & p & _ & Hss & Hp & Htx). exists from. unfold parked_at.
      rewrite Hss. simpl. by rewrite Hp, <-Htx.
  - intros from ss Hss. split_and!; [by eapply (ok_cap _ _ Hok)|by apply (ok_refs _ _ Hok)|by eapply (ok_live _ _ Hok)].
Qed.

(** An [Admit] that comes back from the store finds its entry: whatever
    happened while it was away, the second half of [Admit] runs to a result and
    never works on a detached entry. *)
Theorem Admit_finds_entry s from tx now enq seed :
  reachable s → (from, tx) ∈ sys_reading s →
  ∃ e g', Admit_finish cfg enq now from tx seed (sys_gate s) = Done (e, g').
Proof.
  intros [Hok Hps]%reachable_ok Hin. rewrite Forall_forall in Hps. specialize (Hps _ Hin). simpl in Hps.
  apply list_elem_of_split in Hin as (ps1 & ps2 & Heq). rewrite Heq in Hok.
  destruct (Admit_finish_spec enq (readers (ps1 ++ ps2)) now from tx seed (sys_gate s))
    as (e & g' & H & _); [|apply readers_nonneg|done|by exists e, g'].
  eapply gate_ok_ext; [|exact Hok]. intros a. apply readers_middle.
Qed.

(** C12: nonce order.  In one step of a reachable gate, every transaction handed
    to the queue is at its sender's expected nonce, and no expected nonce moves
    backwards. *)
Theorem gate_nonce_order s s' :
  reachable s → gstep s s' →
  (∃ l, g_calls (sys_gate s') = g_calls (sys_gate s) ++ l ∧ Forall (at_next (sys_gate s')) l) ∧
  (∀ from ss ss', g_senders (sys_gate s) !! from = Some ss → g_senders (sys_gate s') !! from = Some ss' →
     en_known (ss_next ss) = true →
     en_known (ss_next ss') = true ∧ en_nonce (ss_next ss) ≤ en_nonce (ss_next ss')).
Proof.
  intros Hr Hstep. destruct (gstep_ok s s' (reachable_ok s Hr) Hstep) as [_ [[Hl Hm]|[Hc Hsub]]].
  - split; [done|]. intros from ss ss' Hss Hss' Hk. destruct (Hm from ss Hss Hk) as (s0 & Hs0 & ?). simplify_eq. done.
  - split; [exists []; by rewrite app_nil_r, Hc|]. intros from ss ss' Hss Hss' Hk.
    destruct (Hsub from ss' Hss') as (s0 & Hs0 & ->). simplify_eq. split; [done|lia].
Qed.

Lemma highest_ge committed c tx :
  c ∈ committed → ct_Valid c = true → ct_EthTx c = Some tx →
  ∃ n, highest committed !! ct_From c = Some n ∧ Tx_Nonce tx ≤ n.
Proof.
  intros Hin Hv Htx. unfold highest.
  induction committed as [|d l IH] using rev_ind; [by apply not_elem_of_nil in Hin|].
  rewrite foldl_app. cbn [foldl]. apply elem_of_app in Hin as [Hin|Hin%list_elem_of_singleton].
  - destruct (IH Hin) as (n & Hn & Hle). unfold highest_step at 1.
    destruct (negb (ct_Valid d)); [by exists n|]. destruct (ct_EthTx d) as [t|]; [|by exists n].
    destruct (decide (ct_From d = ct_From c)) as [Heq|Hne].
    + rewrite Heq, Hn. destruct (Z.ltb_spec n (Tx_Nonce t)); [|by exists n].
      exists (Tx_Nonce t). rewrite lookup_insert_eq. split; [done|lia].
    + destruct (foldl highest_step ∅ l !! ct_From d) as [cur|]; [case_match|];
        rewrite ?lookup_insert_ne by done; by exists n.
  - subst d. unfold highest_step at 1. rewrite Hv, Htx. simpl.
    destruct (foldl highest_step ∅ l !! ct_From c) as [cur|] eqn:E.
    + destruct (Z.ltb_spec cur (Tx_Nonce tx)); [|exists cur; split; [done|lia]].
      exists (Tx_Nonce tx). rewrite lookup_insert_eq. split; [done|lia].
    + exists (Tx_Nonce tx). rewrite lookup_insert_eq. split; [done|lia].
Qed.

Lemma highest_in committed from n :
  highest committed !! from = Some n →
  ∃ d t, d ∈ committed ∧ ct_EthTx d = Some t ∧ Tx_Nonce t = n.
Proof.
  unfold highest. induction committed as [|d l IH] using rev_ind; [done|].
  rewrite foldl_app. cbn [foldl]. unfold highest_step at 1. intros H.
  assert (foldl highest_step ∅ l !! from = Some n ∨ ∃ t, ct_EthTx d = Some t ∧ Tx_Nonce t = n) as [H'|(t & ? & ?)].
  { repeat case_match; auto; apply lookup_insert_Some in H as [[_ <-]|[_ ?]]; eauto. }
  - destruct (IH H') as (d' & t & ? & ?). exists d', t. set_solver.
  - exists d, t. set_solver.
Qed.

(** A commit promotes.  After a block in which a sender's transaction
    committed validly, whatever order the senders are visited in, the sender's
    expected nonce is past it, nothing at or below that nonce stays parked,
    what is parked above it is untouched, and the transaction parked at exactly
    that nonce has been handed to the queue. *)
Theorem Observe_promotes s enq now committed order c tx :
  reachable s → order ≡ₚ map_to_list (highest committed) →
  c ∈ committed → ct_Valid c = true → ct_EthTx c = Some tx →
  (∀ d t, d ∈ committed → ct_EthTx d = Some t → Tx_Nonce t < u64_max) →
  let g' := Observe enq now order (sys_gate s) in
  ∃ ss' next, g_senders g' !! ct_From c = Some ss' ∧ en_value (ss_next ss') = Some next ∧
    Tx_Nonce tx < next ∧
    (∀ k, parked_at g' (ct_From c) k =
          if decide (next < k) then parked_at (sys_gate s) (ct_From c) k else None) ∧
    (∀ t, parked_at (sys_gate s) (ct_From c) next = Some t →
          ∃ l, g_calls g' = g_calls (sys_gate s) ++ l ∧ t ∈ l).
Proof.
  intros [Hok _]%reachable_ok Hord Hin Hv Htx Hmax g'.
  destruct (Observe_spec enq now order (sys_gate s) _ (highest_NoDup _ _ Hord) Hok) as (_ & _ & Hent & Hc).
  destruct (highest_ge committed c tx Hin Hv Htx) as (n & Hn & Hle).
  assert ((ct_From c, n) ∈ order) as Ho by (rewrite Hord; by apply elem_of_map_to_list).
  destruct (Hent _ _ Ho) as (ss' & Hss' & Hnx & Hp).
  exists ss', (en_nonce (ss_next ss')). fold g' in Hss', Hc. split_and!; [done| | | |].
  - unfold en_value. rewrite Hnx. unfold observed_next. by rewrite raise_known.
  - rewrite Hnx. unfold observed_next.
    pose proof (raise_le (u64 (n + 1)) (ss_next (default fresh_sender (g_senders (sys_gate s) !! ct_From c)))) as Hr.
    enough (u64 (n + 1) = n + 1) by lia. apply u64_small.
    assert (n < u64_max ∧ 0 ≤ n) as [? ?]; [|unfold u64_max, is_u64 in *; lia].
    pose proof (Tx_Nonce_range tx) as Hrg. split; [|unfold is_u64 in Hrg; lia].
    destruct (highest_in _ _ _ Hn) as (d & t & Hd & Ht & <-). by eapply Hmax.
  - intros k. unfold parked_at at 1. rewrite Hss'. simpl. rewrite Hnx. apply Hp.
  - intros t Ht. eexists. split; [exact Hc|]. apply list_elem_of_bind. exists (ct_From c, n).
    split; [|done]. simpl. rewrite <-Hnx, Ht. apply list_elem_of_here.
Qed.

(** The reaper.  For every iteration order, a prune of a reachable gate
    terminates; it hands nothing to the queue; a surviving entry has lost
    exactly its expired transactions; a sender is dropped only if nobody holds
    it and nothing of it survives parked; and afterwards the cache is within its
    bound, or every entry left is held or parks something. *)
Theorem prune_safe s now range :
  reachable s → (∀ m, range m ≡ₚ map_to_list m) →
  ∃ g', prune cfg range now (sys_gate s) = Some g' ∧ g_calls g' = g_calls (sys_gate s) ∧
    (∀ a ss', g_senders g' !! a = Some ss' → ∃ ss, g_senders (sys_gate s) !! a = Some ss ∧
       ss_next ss' = ss_next ss ∧
       ∀ n p, ss_parked ss' !! n = Some p ↔
              ss_parked ss !! n = Some p ∧ now - p_parkedAt p ≤ ttl cfg) ∧
    (∀ a ss, g_senders (sys_gate s) !! a = Some ss → g_senders g' !! a = None →
       readers (sys_reading s) a = 0 ∧
       ∀ n p, ss_parked ss !! n = Some p → ttl cfg < now - p_parkedAt p) ∧
    (Z.of_nat (size (g_senders g')) ≤ maxSenders cfg ∨
     ∀ a ss', g_senders g' !! a = Some ss' → 0 < ss_refs ss' ∨ ss_parked ss' ≠ ∅).
Proof.
  intros [Hok _]%reachable_ok Hr.
  destruct (prune_spec range Hr now (sys_gate s) _ Hok) as (g' & H & Hok' & Hc & Hsub & Hkeep & Hend).
  exists g'. split_and!; [done..| | |].
  - intros a ss' Ha. destruct (Hsub a ss' Ha) as (ss & Hss & ->). exists ss. split_and!; [done..|].
    intros n p. simpl. rewrite map_lookup_filter_Some. simpl. unfold expired. split; intros [? ?]; (split; [done|lia]).
  - intros a ss Hss Hn. destruct (Hkeep a ss Hss) as [?|[Href Hpk]]; [congruence|]. simpl in *. split.
    + rewrite (ok_refs _ _ Hok a ss Hss) in Href. pose proof (readers_nonneg (sys_reading s) a). lia.
    + intros n p Hp. destruct (decide (expired now p)) as [He|He]; [exact He|].
      assert (filter (λ np : Z * parkedTx, ¬ expired now np.2) (ss_parked ss) !! n = Some p) as Hf
        by by apply map_lookup_filter_Some.
      by rewrite Hpk, lookup_empty in Hf.
  - destruct Hend as [?|Hev]; [by left|right]. intros a ss' Ha. specialize (Hev a ss' Ha).
    unfold evictable in Hev. destruct (decide (0 < ss_refs ss')); [by left|right].
    intros He. apply Hev. split; [lia|done].
Qed.
End props.

(** ** Concrete instances

    One sender submits nonce 5 while the store says 3: it is parked.  The commit
    of nonce 4 promotes it. *)

#[local] Existing Instances four_types four_txs.

Definition cfg64 : gate_config := {| maxPerSender := 64; maxSenders := 2; ttl := 100 |}.
Definition accept : @EthTx four_types four_txs → option queue_error := λ _, None.
Definition tx5 : @EthTx four_types four_txs := (true, true).
Definition tx4 : @EthTx four_types four_txs := (true, false).

Definition reading_sys : sys :=
  {| sys_gate := (Admit_begin cfg64 accept 10 tx5 newNonceGate).2; sys_reading := [(true, tx5)] |}.

Definition parked_gate : nonceGate :=
  match Admit_finish cfg64 accept 11 true tx5 (Some 3) (sys_gate reading_sys) with
  | Done (_, g) => g | Panic _ => newNonceGate end.

Definition parked_sys : sys := {| sys_gate := parked_gate; sys_reading := [] |}.

Lemma cap64 : 0 ≤ maxPerSender cfg64.
Proof. discriminate. Qed.

Lemma reading_reachable : reachable cfg64 reading_sys.
Proof. eapply rtc_l; [|apply rtc_refl]. apply (step_admit_read cfg64 10 accept tx5 true newNonceGate). vm_compute. reflexivity. Qed.

Lemma parked_reachable : reachable cfg64 parked_sys.
Proof.
  eapply rtc_r; [apply reading_reachable|].
  apply (step_admit_finish cfg64 11 accept true tx5 (Some 3) (sys_gate reading_sys) None parked_gate [] []).
  vm_compute. reflexivity.
Qed.

Lemma gate_invariant_witness : IsPending (Tx_Hash tx5) parked_gate = Some tx5.
Proof.
  destruct (gate_invariant cfg64 cap64 parked_sys parked_reachable) as [H _].
  apply H. split; [vm_compute; reflexivity|].
  exists true, {| ss_next := {| en_nonce := 3; en_known := true |};
               ss_parked := {[5 := {| p_tx := tx5; p_parkedAt := 11 |}]};
               ss_lastSeen := 11; ss_refs := 0 |}, {| p_tx := tx5; p_parkedAt := 11 |}.
  repeat split; vm_compute; reflexivity.
Defined.

Lemma Admit_finds_entry_witness :
  ∃ e g', Admit_finish cfg64 accept 11 true tx5 (Some 9) (sys_gate reading_sys) = Done (e, g').
Proof.
  apply (Admit_finds_entry cfg64 cap64 reading_sys true tx5 11 accept (Some 9)).
  - exact reading_reachable.
  - apply list_elem_of_here.
Defined.

Definition commit4 : list committedTx :=
  [ {| ct_Valid := true; ct_EthTx := Some tx4; ct_From := true |} ].

Definition promoted_sys : sys :=
  {| sys_gate := Observe accept 12 [(true, 4)] parked_gate; sys_reading := [] |}.

Lemma gate_nonce_order_witness :
  ∃ l, g_calls (sys_gate promoted_sys) = g_calls parked_gate ++ l ∧ Forall (at_next (sys_gate promoted_sys)) l.
Proof.
  destruct (gate_nonce_order cfg64 cap64 parked_sys promoted_sys) as [H _].
  - exact parked_reachable.
  - apply (step_observe cfg64 12 accept commit4 [(true, 4)] parked_gate []). vm_compute. reflexivity.
  - exact H.
Defined.

Lemma Observe_promotes_witness :
  ∃ l, g_calls (sys_gate promoted_sys) = g_calls parked_gate ++ l ∧ tx5 ∈ l.
Proof.
  destruct (Observe_promotes cfg64 cap64 parked_sys accept 12 commit4 [(true, 4)]
    {| ct_Valid := true; ct_EthTx := Some tx4; ct_From := true |} tx4) as (ss & next & H1 & H2 & _ & _ & H3).
  - exact parked_reachable.
  - vm_compute. reflexivity.
  - apply list_elem_of_here.
  - reflexivity.
  - reflexivity.
  - intros d t Hd Ht. apply list_elem_of_singleton in Hd as ->. injection Ht as <-. vm_compute. reflexivity.
  - vm_compute in H1. injection H1 as <-. vm_compute in H2. injection H2 as <-.
    apply H3. vm_compute. reflexivity.
Defined.

Lemma prune_safe_witness :
  ∃ g', prune cfg64 map_to_list 200 parked_gate = Some g' ∧ g_calls g' = g_calls parked_gate.
Proof.
  destruct (prune_safe cfg64 cap64 parked_sys 200 map_to_list) as (g' & H1 & H2 & _).
  - exact parked_reachable.
  - intros m. reflexivity.
  - exists g'. split; [exact H1|exact H2].
Defined.
