(* ===== verification/TxQueues.v ===== *)
(** * TxQueues: the in-memory transaction queues

    gateway/core/txqueue.go (first in, first out), gateway/core/txqueue_v2.go
    (dependency aware) and gateway/core/txqueue_helpers.go.  Each method runs
    under the queue's lock and is one function on the state.  [Dequeue] waits on
    a condition variable while nothing is ready; the model returns [DqBlocked]
    there and the caller tries again.  Entries of the second queue are shared by
    pointer, so its state has a heap. *)

From Stdlib Require Import ZArith Lia.
From stdpp Require Import base numbers list gmap sets strings.
From S2P Require Import Prelude Geth.

Local Open Scope Z_scope.

(** What [Dequeue] does: hand out a transaction, report that the queue is closed
    and empty, or wait. *)
Inductive dequeued (A : Type) := DqTx (tx : A) | DqClosed | DqBlocked.
Arguments DqTx {_} _.
Arguments DqClosed {_}.
Arguments DqBlocked {_}.

(** [domain.ErrTransactionAlreadyPending]. *)
Inductive enqueue_error := AlreadyPending.

(** The accessors of [types.Transaction] that [participantsForTx] uses;
    [Tx_LatestSender] is [types.Sender] with the latest signer of the
    transaction's own chain id. *)
Class TxAccess (G : GethTypes) (T : EthTxTypes G) := {
  Tx_Data : EthTx → byte_slice;
  Tx_Protected : EthTx → bool;
  Tx_Type : EthTx → Z;
  Tx_LatestSender : EthTx → option Address;
  BytesToAddress : byte_slice → Address
}.

Section queues.
Context `{G : GethTypes} {T : EthTxTypes G} {A : TxAccess G T}.

(** What a block notification carries of a committed transaction. *)
Record committedHash := { ch_Hash : Hash; ch_Status : Z }.

(** ** TxQueue *)

Record TxQueue := {
  pendingQueue : list EthTx;
  queuedMap : gmap Hash EthTx;
  inProgressMap : gmap Hash EthTx;
  q_done : bool;
  q_total : Z;
  q_invalid : Z
}.

Definition NewTxQueue : TxQueue := {|
  pendingQueue := []; queuedMap := ∅; inProgressMap := ∅; q_done := false; q_total := 0; q_invalid := 0 |}.

Definition Enqueue (tx : EthTx) (q : TxQueue) : option enqueue_error * TxQueue :=
  let txHash := Tx_Hash tx in
  if decide (is_Some (queuedMap q !! txHash)) then (Some AlreadyPending, q)
  else if decide (is_Some (inProgressMap q !! txHash)) then (Some AlreadyPending, q)
  else (None, {| pendingQueue := pendingQueue q ++ [tx];
                 queuedMap := <[txHash := tx]> (queuedMap q);
                 inProgressMap := inProgressMap q; q_done := q_done q;
                 q_total := q_total q; q_invalid := q_invalid q |}).

Definition Dequeue (q : TxQueue) : dequeued EthTx * TxQueue :=
  match pendingQueue q with
  | [] => (if q_done q then DqClosed else DqBlocked, q)
  | tx :: rest =>
      (DqTx tx, {| pendingQueue := rest; queuedMap := delete (Tx_Hash tx) (queuedMap q);
                   inProgressMap := <[Tx_Hash tx := tx]> (inProgressMap q);
                   q_done := q_done q; q_total := q_total q; q_invalid := q_invalid q |})
  end.

Definition q_Close (q : TxQueue) : TxQueue := {|
  pendingQueue := pendingQueue q; queuedMap := queuedMap q; inProgressMap := inProgressMap q;
  q_done := true; q_total := q_total q; q_invalid := q_invalid q |}.

Definition q_IsPending (txHash : Hash) (q : TxQueue) : option EthTx :=
  match inProgressMap q !! txHash with
  | Some tx => Some tx
  | None => queuedMap q !! txHash
  end.

Definition InFlight (q : TxQueue) : Z :=
  Z.of_nat (length (pendingQueue q)) + Z.of_nat (size (inProgressMap q)).

Definition Complete (hash : Hash) (q : TxQueue) : TxQueue := {|
  pendingQueue := pendingQueue q; queuedMap := queuedMap q;
  inProgressMap := delete hash (inProgressMap q);
  q_done := q_done q; q_total := q_total q; q_invalid := q_invalid q |}.

Definition q_Handle_tx (q : TxQueue) (c : committedHash) : TxQueue :=
  let q := {| pendingQueue := pendingQueue q; queuedMap := queuedMap q;
              inProgressMap := inProgressMap q; q_done := q_done q; q_total := q_total q + 1;
              q_invalid := if ch_Status c =? 0 then q_invalid q + 1 else q_invalid q |} in
  Complete (ch_Hash c) q.

Definition q_Handle (block : list committedHash) (q : TxQueue) : TxQueue :=
  foldl q_Handle_tx q block.

Definition q_Stats (q : TxQueue) : Z * Z * Z * Z := (q_total q, q_invalid q, 0, 0).

(** ** TxQueueV2 *)

Inductive entry_state := stateReady | stateWaiting | statePending.
#[global] Instance entry_state_eq : EqDecision entry_state.
Proof. solve_decision. Defined.

(** The list a list element belongs to. *)
Inductive which_list := InReady | InWaiting.
#[global] Instance which_list_eq : EqDecision which_list.
Proof. solve_decision. Defined.

Abbreviation ptr := nat.

Record txEntry := {
  te_tx : EthTx;
  te_hash : Hash;
  te_participants : list Address;
  te_elem : option which_list;
  te_state : entry_state;
  te_blocks : list ptr;
  te_isBlockedBy : list ptr
}.

(** [v_next] is the next fresh pointer. *)
Record TxQueueV2 := {
  v_heap : gmap ptr txEntry;
  v_next : ptr;
  readyList : list ptr;
  waitingList : list ptr;
  participantMap : gmap Address (list ptr);
  hashMap : gmap Hash ptr;
  pendingMap : gmap Hash EthTx;
  v_done : bool;
  v_total : Z; v_invalid : Z; v_totalEnq : Z; v_conflictEnq : Z
}.

Definition NewTxQueueV2 : TxQueueV2 := {|
  v_heap := ∅; v_next := 0; readyList := []; waitingList := []; participantMap := ∅; hashMap := ∅;
  pendingMap := ∅; v_done := false; v_total := 0; v_invalid := 0; v_totalEnq := 0; v_conflictEnq := 0 |}.

(** [types.LegacyTxType]. *)
Definition LegacyTxType : Z := 0.

Definition senderForTx (tx : EthTx) : option Address :=
  if negb (Tx_Protected tx) && (Tx_Type tx =? LegacyTxType) then None
  else Tx_LatestSender tx.

(** The recipient in ERC-20 transfer calldata: 20 bytes after the selector and
    twelve bytes of padding. *)
Definition recipientForTx (tx : EthTx) : option Address :=
  match Tx_To tx with
  | None => None
  | Some _ =>
      let data := Tx_Data tx in
      if (length data <? 4 + 32 + 32)%nat then None
      else Some (BytesToAddress (take 20 (drop (4 + 12) data)))
  end.

Definition participantsForTx (tx : EthTx) : list Address :=
  let participants := match senderForTx tx with Some a => [a] | None => [] end in
  match recipientForTx tx with
  | Some r => if decide (r ∈ participants) then participants else participants ++ [r]
  | None => participants
  end.

(** The scan of the participant map: the in-flight entries that conflict, as a
    set, and the waiting entries, once per shared participant. *)
Definition scan_entry (heap : gmap ptr txEntry) (acc : gset ptr * list ptr) (p : ptr)
    : gset ptr * list ptr :=
  match heap !! p with
  | None => acc
  | Some e =>
      match te_state e with
      | stateReady | statePending => ({[p]} ∪ acc.1, acc.2)
      | stateWaiting => (acc.1, acc.2 ++ [p])
      end
  end.

Definition scan_conflicts (q : TxQueueV2) (participants : list Address) : gset ptr * list ptr :=
  foldl (λ acc a, foldl (scan_entry (v_heap q)) acc (default [] (participantMap q !! a)))
    (∅, []) participants.

Definition add_block (p b : ptr) (heap : gmap ptr txEntry) : gmap ptr txEntry :=
  alter (λ e, {| te_tx := te_tx e; te_hash := te_hash e; te_participants := te_participants e;
                 te_elem := te_elem e; te_state := te_state e;
                 te_blocks := te_blocks e ++ [b]; te_isBlockedBy := te_isBlockedBy e |}) p heap.

Definition add_blocked_by (p b : ptr) (heap : gmap ptr txEntry) : gmap ptr txEntry :=
  alter (λ e, {| te_tx := te_tx e; te_hash := te_hash e; te_participants := te_participants e;
                 te_elem := te_elem e; te_state := te_state e;
                 te_blocks := te_blocks e; te_isBlockedBy := te_isBlockedBy e ++ [b] |}) p heap.

(** [range]: the order in which Go ranges over the conflict set. *)
Context (range : gset ptr → list ptr).

Definition v2_Enqueue (tx : EthTx) (q : TxQueueV2) : option enqueue_error * TxQueueV2 :=
  let txHash := Tx_Hash tx in
  let participants := participantsForTx tx in
  if decide (is_Some (hashMap q !! txHash)) then (Some AlreadyPending, q)
  else
    let '(conflicting, waitingToBlock) := scan_conflicts q participants in
    let conflict := bool_decide (conflicting ≠ ∅) in
    let p := v_next q in
    let entry := {| te_tx := tx; te_hash := txHash; te_participants := participants;
                    te_elem := Some (if conflict then InWaiting else InReady);
                    te_state := if conflict then stateWaiting else stateReady;
                    te_blocks := []; te_isBlockedBy := [] |} in
    let heap := <[p := entry]> (v_heap q) in
    (* dependency links with the in-flight transactions *)
    let heap := foldl (λ h c, add_block c p (add_blocked_by p c h)) heap (range conflicting) in
    (* waiting transactions that share a participant wait for the new one *)
    let heap := foldl (λ h w, add_block p w (add_blocked_by w p h)) heap waitingToBlock in
    (None,
     {| v_heap := heap; v_next := S p;
        readyList := if conflict then readyList q else readyList q ++ [p];
        waitingList := if conflict then waitingList q ++ [p] else waitingList q;
        participantMap := foldl (λ m a, <[a := default [] (m !! a) ++ [p]]> m) (participantMap q) participants;
        hashMap := <[txHash := p]> (hashMap q);
        pendingMap := pendingMap q; v_done := v_done q;
        v_total := v_total q; v_invalid := v_invalid q;
        v_totalEnq := v_totalEnq q + 1;
        v_conflictEnq := if conflict then v_conflictEnq q + 1 else v_conflictEnq q |}).

Definition set_state (st : entry_state) (el : option which_list) (e : txEntry) : txEntry :=
  {| te_tx := te_tx e; te_hash := te_hash e; te_participants := te_participants e;
     te_elem := el; te_state := st; te_blocks := te_blocks e; te_isBlockedBy := te_isBlockedBy e |}.

(** A pointer outside the heap would be a nil dereference; none is ever listed. *)
Definition v2_Dequeue (q : TxQueueV2) : outcome (dequeued EthTx * TxQueueV2) :=
  match readyList q with
  | [] => Done (if v_done q then DqClosed else DqBlocked, q)
  | p :: rest =>
      match v_heap q !! p with
      | None => Panic "nil dereference"
      | Some e =>
          Done (DqTx (te_tx e),
            {| v_heap := <[p := set_state statePending None e]> (v_heap q); v_next := v_next q;
               readyList := rest; waitingList := waitingList q;
               participantMap := participantMap q; hashMap := hashMap q;
               pendingMap := <[te_hash e := te_tx e]> (pendingMap q); v_done := v_done q;
               v_total := v_total q; v_invalid := v_invalid q;
               v_totalEnq := v_totalEnq q; v_conflictEnq := v_conflictEnq q |})
      end
  end.

(** [removeFromSlice]: the first occurrence is overwritten by the last element
    and the slice shortened by one. *)
Definition removeFromSlice (slice : list ptr) (target : ptr) : list ptr :=
  match list_find (λ x, x = target) slice with
  | Some (i, _) => take (length slice - 1) (<[i := default 0%nat (last slice)]> slice)
  | None => slice
  end.

Definition set_blocked_by (l : list ptr) (e : txEntry) : txEntry :=
  {| te_tx := te_tx e; te_hash := te_hash e; te_participants := te_participants e;
     te_elem := te_elem e; te_state := te_state e; te_blocks := te_blocks e; te_isBlockedBy := l |}.

(** The loop body of [completeUnlocked] for one blocked transaction [b]: the
    heap, the ready and the waiting list, and the number promoted. *)
Definition unblock (p : ptr) (acc : gmap ptr txEntry * list ptr * list ptr * Z) (b : ptr)
    : gmap ptr txEntry * list ptr * list ptr * Z :=
  let '(heap, ready, waiting, promoted) := acc in
  match heap !! b with
  | None => acc
  | Some e =>
      let e := set_blocked_by (removeFromSlice (te_isBlockedBy e) p) e in
      if decide (te_isBlockedBy e = []) then
        (<[b := set_state stateReady (Some InReady) e]> heap, ready ++ [b],
         (if decide (te_elem e = Some InWaiting) then filter (λ x, x ≠ b) waiting else waiting),
         promoted + 1)
      else (<[b := e]> heap, ready, waiting, promoted)
  end.

(** Removing the entry from the lists of its participants. *)
Definition forget_participants (p : ptr) (m : gmap Address (list ptr)) (participants : list Address)
    : gmap Address (list ptr) :=
  foldl (λ m a,
    match m !! a with
    | None => m
    | Some l =>
        let l := removeFromSlice l p in
        if decide (l = []) then delete a m else <[a := l]> m
    end) m participants.

Definition completeUnlocked (hash : Hash) (q : TxQueueV2) : Z * TxQueueV2 :=
  let pm := delete hash (pendingMap q) in
  match hashMap q !! hash with
  | None =>
      (0, {| v_heap := v_heap q; v_next := v_next q; readyList := readyList q;
             waitingList := waitingList q; participantMap := participantMap q;
             hashMap := hashMap q; pendingMap := pm; v_done := v_done q; v_total := v_total q;
             v_invalid := v_invalid q; v_totalEnq := v_totalEnq q; v_conflictEnq := v_conflictEnq q |})
  | Some p =>
      let entry := v_heap q !! p in
      let '(heap, ready, waiting, promoted) :=
        foldl (unblock p) (v_heap q, readyList q, waitingList q, 0)
          (match entry with Some e => te_blocks e | None => [] end) in
      (promoted,
       {| v_heap := heap; v_next := v_next q; readyList := ready; waitingList := waiting;
          participantMap := forget_participants p (participantMap q)
            (match entry with Some e => te_participants e | None => [] end);
          hashMap := delete hash (hashMap q); pendingMap := pm; v_done := v_done q;
          v_total := v_total q; v_invalid := v_invalid q;
          v_totalEnq := v_totalEnq q; v_conflictEnq := v_conflictEnq q |})
  end.

Definition v2_Complete (hash : Hash) (q : TxQueueV2) : TxQueueV2 := (completeUnlocked hash q).2.

Definition v2_Handle_tx (q : TxQueueV2) (c : committedHash) : TxQueueV2 :=
  (completeUnlocked (ch_Hash c)
    {| v_heap := v_heap q; v_next := v_next q; readyList := readyList q;
       waitingList := waitingList q; participantMap := participantMap q; hashMap := hashMap q;
       pendingMap := pendingMap q; v_done := v_done q; v_total := v_total q + 1;
       v_invalid := if ch_Status c =? 0 then v_invalid q + 1 else v_invalid q;
       v_totalEnq := v_totalEnq q; v_conflictEnq := v_conflictEnq q |}).2.

Definition v2_Handle (block : list committedHash) (q : TxQueueV2) : TxQueueV2 :=
  foldl v2_Handle_tx q block.

Definition v2_InFlight (q : TxQueueV2) : Z := Z.of_nat (size (hashMap q)).

Definition v2_IsPending (txHash : Hash) (q : TxQueueV2) : option EthTx :=
  match pendingMap q !! txHash with
  | Some tx => Some tx
  | None => p ← hashMap q !! txHash; te_tx <$> v_heap q !! p
  end.

Definition v2_Close (q : TxQueueV2) : TxQueueV2 := {|
  v_heap := v_heap q; v_next := v_next q; readyList := readyList q; waitingList := waitingList q;
  participantMap := participantMap q; hashMap := hashMap q; pendingMap := pendingMap q;
  v_done := true; v_total := v_total q; v_invalid := v_invalid q;
  v_totalEnq := v_totalEnq q; v_conflictEnq := v_conflictEnq q |}.

Definition v2_Stats (q : TxQueueV2) : Z * Z * Z * Z :=
  (v_total q, v_invalid q, v_totalEnq q, v_conflictEnq q).
End queues.
