(* ===== verification/TxQueueV2Props.v ===== *)
(** * TxQueueV2Props: the dependency-aware queue

    The invariant behind gateway/core/txqueue_v2.go: any two tracked
    transactions that share a participant are linked by a dependency, links are
    symmetric with multiplicity, and among waiting transactions they point from
    older to newer.  Exclusion and deadlock freedom follow. *)

From Stdlib Require Import ZArith Lia.
From stdpp Require Import base numbers list gmap sets strings relations.
From S2P Require Import Prelude Geth TxQueues.

Local Open Scope nat_scope.

(** ** Multiplicities *)

Definition cnt (x : nat) (l : list nat) : nat := length (filter (λ y, y = x) l).

Lemma cnt_app x l k : cnt x (l ++ k) = cnt x l + cnt x k.
Proof. unfold cnt. by rewrite filter_app, length_app. Qed.

Lemma cnt_cons x y l : cnt x (y :: l) = (if decide (y = x) then 1 else 0) + cnt x l.
Proof. unfold cnt. rewrite filter_cons. by case_decide. Qed.

Lemma cnt_elem x l : 0 < cnt x l ↔ x ∈ l.
Proof.
  induction l as [|y l IH]; [split; [cbn; lia|by intros ?%not_elem_of_nil]|].
  rewrite cnt_cons, elem_of_cons. case_decide; [subst; split; [by left|lia]|].
  rewrite Nat.add_0_l, IH. naive_solver.
Qed.

Lemma cnt_zero x l : x ∉ l → cnt x l = 0.
Proof. intros H. destruct (cnt x l) eqn:E; [done|]. destruct H. apply cnt_elem. lia. Qed.

Lemma cnt_replicate x y n : cnt x (replicate n y) = if decide (y = x) then n else 0.
Proof.
  induction n as [|n IH]; simpl; [by case_decide|]. rewrite cnt_cons, IH. by case_decide.
Qed.

Lemma cnt_perm x l k : l ≡ₚ k → cnt x l = cnt x k.
Proof. intros H. unfold cnt. by rewrite H. Qed.

Lemma cnt_nodup x l : NoDup l → x ∈ l → cnt x l = 1.
Proof.
  induction 1 as [|y l Hy Hnd IH]; [by intros ?%not_elem_of_nil|].
  rewrite cnt_cons. intros [->|Hin]%elem_of_cons.
  - rewrite decide_True, cnt_zero by done. done.
  - rewrite decide_False by (intros ->; done). by rewrite IH.
Qed.

Lemma cnt_le_nodup l : (∀ x, cnt x l ≤ 1) → NoDup l.
Proof.
  induction l as [|y l IH]; intros H; [constructor|]. constructor.
  - intros Hy%cnt_elem. specialize (H y). rewrite cnt_cons, decide_True in H by done. lia.
  - apply IH. intros x. specialize (H x). rewrite cnt_cons in H. lia.
Qed.

(** [removeFromSlice] removes one occurrence. *)
Lemma removeFromSlice_perm l x : x ∈ l → x :: removeFromSlice l x ≡ₚ l.
Proof.
  intros Hx. unfold removeFromSlice.
  destruct (list_find (λ y, y = x) l) as [[i y]|] eqn:E.
  2: { apply list_find_None in E. rewrite Forall_forall in E. by destruct (E x Hx). }
  apply list_find_Some in E as (Hi & -> & _).
  destruct l as [|z l _] using rev_ind; [done|]. rewrite last_snoc, length_app. simpl.
  replace (length l + 1 - 1) with (length l) by lia.
  destruct (decide (i = length l)) as [->|Hne].
  - rewrite lookup_app_r, Nat.sub_diag in Hi by lia. injection Hi as ->.
    rewrite insert_app_r_alt by lia. rewrite take_app_le, take_ge by lia. by rewrite Permutation_cons_append.
  - pose proof (lookup_lt_Some _ _ _ Hi) as Hlt. rewrite length_app in Hlt. simpl in Hlt.
    rewrite lookup_app_l in Hi by lia. rewrite insert_app_l, take_app_le, take_ge by (rewrite ?length_insert; lia).
    rewrite insert_take_drop by lia.
    trans (x :: z :: take i l ++ drop (S i) l); [apply perm_skip; symmetry; apply Permutation_middle|].
    trans (z :: x :: take i l ++ drop (S i) l); [apply perm_swap|].
    trans (z :: l); [|apply Permutation_cons_append]. apply perm_skip.
    trans (take i l ++ x :: drop (S i) l); [apply Permutation_middle|by rewrite (take_drop_middle l i x Hi)].
Qed.

Lemma cnt_remove x y l : cnt x (removeFromSlice l y) = cnt x l - (if decide (y = x) then 1 else 0).
Proof.
  destruct (decide (y ∈ l)) as [Hy|Hy].
  - rewrite <-(cnt_perm x _ _ (removeFromSlice_perm l y Hy)), cnt_cons. case_decide; lia.
  - assert (removeFromSlice l y = l) as ->.
    { unfold removeFromSlice. destruct (list_find (λ z, z = y) l) as [[i z]|] eqn:E; [|done].
      apply list_find_Some in E as (Hi & -> & _). by apply list_elem_of_lookup_2 in Hi. }
    case_decide; [subst; rewrite cnt_zero by done; done|lia].
Qed.

Section v2.
Context `{G : GethTypes} {T : EthTxTypes G} {TL : EthTxLaws G T} {A : TxAccess G T}.
Context (range : gset nat → list nat).
Hypothesis range_perm : ∀ s, range s ≡ₚ elements s.

(** ** The invariant *)

(** The entry is reachable through the hash map. *)
Definition tracked (q : TxQueueV2) (p : nat) (e : txEntry) : Prop :=
  hashMap q !! te_hash e = Some p ∧ v_heap q !! p = Some e.

Definition shares (e f : txEntry) : Prop :=
  ∃ a, a ∈ te_participants e ∧ a ∈ te_participants f.

Definition plist (q : TxQueueV2) (a : Address) : list nat := default [] (participantMap q !! a).

(** The maps and lists agree on the tracked entries. *)
Record v2_lists (q : TxQueueV2) : Prop := {
  vi_hash h p : hashMap q !! h = Some p → ∃ e, v_heap q !! p = Some e ∧ te_hash e = h;
  vi_tx p e : tracked q p e → Tx_Hash (te_tx e) = te_hash e;
  vi_fresh p : is_Some (v_heap q !! p) → p < v_next q;
  vi_part a p : p ∈ plist q a ↔ ∃ e, tracked q p e ∧ a ∈ te_participants e;
  vi_part_nodup a : NoDup (plist q a);
  vi_ready p : p ∈ readyList q ↔ ∃ e, tracked q p e ∧ te_state e = stateReady;
  vi_ready_nodup : NoDup (readyList q);
  vi_waiting p : p ∈ waitingList q ↔ ∃ e, tracked q p e ∧ te_state e = stateWaiting;
  vi_waiting_nodup : NoDup (waitingList q);
  vi_pending h tx : pendingMap q !! h = Some tx ↔
    ∃ p e, tracked q p e ∧ te_hash e = h ∧ te_state e = statePending ∧ te_tx e = tx
}.

(** The dependency links. *)
Record v2_links (q : TxQueueV2) : Prop := {
  vi_unblocked p e : tracked q p e → te_isBlockedBy e = [] ↔ te_state e ≠ stateWaiting;
  vi_elem p e : tracked q p e → te_state e = stateWaiting → te_elem e = Some InWaiting;
  vi_sym p e b f : tracked q p e → tracked q b f →
    cnt b (te_blocks e) = cnt p (te_isBlockedBy f);
  vi_blocks p e b : tracked q p e → b ∈ te_blocks e → ∃ f, tracked q b f;
  vi_by p e b : tracked q p e → b ∈ te_isBlockedBy e → ∃ f, tracked q b f;
  vi_linked p e b f : tracked q p e → tracked q b f → p ≠ b → shares e f →
    b ∈ te_isBlockedBy e ∨ p ∈ te_isBlockedBy f;
  vi_order p e b f : tracked q p e → tracked q b f → b ∈ te_isBlockedBy e →
    te_state f = stateWaiting → p < b;
  vi_parts p e : tracked q p e → te_participants e = participantsForTx (te_tx e)
}.

Record v2_inv (q : TxQueueV2) : Prop := {
  inv_lists :> v2_lists q;
  inv_links :> v2_links q
}.

Lemma participantsForTx_nodup tx : NoDup (participantsForTx tx).
Proof.
  unfold participantsForTx. destruct (senderForTx tx), (recipientForTx tx); try case_decide;
    simpl in *; try apply NoDup_singleton; try constructor; try done.
  - intros ->%list_elem_of_singleton. set_solver.
  - apply NoDup_singleton.
Qed.

Lemma vi_pnodup q p e : v2_links q → tracked q p e → NoDup (te_participants e).
Proof. intros Hi He. rewrite (vi_parts _ Hi p e He). apply participantsForTx_nodup. Qed.

Lemma tracked_fun q p e f : tracked q p e → tracked q p f → e = f.
Proof. intros [_ H1] [_ H2]. congruence. Qed.

Lemma hash_tracked q h p : v2_inv q → hashMap q !! h = Some p → ∃ e, tracked q p e ∧ te_hash e = h.
Proof. intros Hi Hh. destruct (vi_hash _ Hi h p Hh) as (e & He & <-). by exists e. Qed.

(** ** Heap updates *)

Definition ext_entry (bl by' : list nat) (e : txEntry) : txEntry :=
  {| te_tx := te_tx e; te_hash := te_hash e; te_participants := te_participants e;
     te_elem := te_elem e; te_state := te_state e;
     te_blocks := te_blocks e ++ bl; te_isBlockedBy := te_isBlockedBy e ++ by' |}.

Lemma ext_entry_nil e : ext_entry [] [] e = e.
Proof. unfold ext_entry. rewrite !app_nil_r. by destruct e. Qed.

Lemma ext_entry_app e a b c d : ext_entry c d (ext_entry a b e) = ext_entry (a ++ c) (b ++ d) e.
Proof. unfold ext_entry. simpl. by rewrite !app_assoc. Qed.

Lemma add_block_lookup c b heap x :
  add_block c b heap !! x = (if decide (c = x) then ext_entry [b] [] else id) <$> heap !! x.
Proof.
  unfold add_block. rewrite lookup_alter. case_decide; [subst x|]; destruct (heap !! _); simpl; try done.
  unfold ext_entry. by rewrite app_nil_r.
Qed.

Lemma add_blocked_by_lookup c b heap x :
  add_blocked_by c b heap !! x = (if decide (c = x) then ext_entry [] [b] else id) <$> heap !! x.
Proof.
  unfold add_blocked_by. rewrite lookup_alter. case_decide; [subst x|]; destruct (heap !! _); simpl; try done.
  unfold ext_entry. by rewrite app_nil_r.
Qed.

(** Linking the new entry [p] behind each of [cs]. *)
Lemma link_conflicts p cs : ∀ heap x, p ∉ cs →
  foldl (λ h c, add_block c p (add_blocked_by p c h)) heap cs !! x =
  (if decide (x = p) then ext_entry [] cs else ext_entry (replicate (cnt x cs) p) []) <$> heap !! x.
Proof.
  induction cs as [|c cs IH]; intros heap x Hp; cbn [foldl].
  { case_decide; simpl; destruct (heap !! x); simpl; by rewrite ?ext_entry_nil. }
  apply not_elem_of_cons in Hp as [Hpc Hp]. rewrite IH by done.
  rewrite add_block_lookup, add_blocked_by_lookup.
  destruct (decide (x = p)) as [->|Hxp].
  - rewrite decide_False, decide_True by done. destruct (heap !! p); simpl; [|done]. f_equal.
    by rewrite (ext_entry_app _ [] [c] [] cs).
  - rewrite (decide_False (P := p = x)) by done. rewrite cnt_cons. destruct (decide (c = x)) as [->|Hcx].
    + destruct (heap !! x); simpl; [|done]. f_equal. by rewrite <-(ext_entry_app _ [p] [] (replicate (cnt x cs) p) []).
    + by destruct (heap !! x).
Qed.

(** Making each of [ws] wait for the new entry [p]. *)
Lemma link_waiting p ws : ∀ heap x, p ∉ ws →
  foldl (λ h w, add_block p w (add_blocked_by w p h)) heap ws !! x =
  (if decide (x = p) then ext_entry ws [] else ext_entry [] (replicate (cnt x ws) p)) <$> heap !! x.
Proof.
  induction ws as [|w ws IH]; intros heap x Hp; cbn [foldl].
  { case_decide; simpl; destruct (heap !! x); simpl; by rewrite ?ext_entry_nil. }
  apply not_elem_of_cons in Hp as [Hpw Hp]. rewrite IH by done.
  rewrite add_block_lookup, add_blocked_by_lookup.
  destruct (decide (x = p)) as [->|Hxp].
  - rewrite decide_True, decide_False by done. destruct (heap !! p); simpl; [|done]. f_equal.
    by rewrite (ext_entry_app _ [w] [] ws []).
  - rewrite (decide_False (P := p = x)) by done. rewrite cnt_cons. destruct (decide (w = x)) as [->|Hwx].
    + destruct (heap !! x); simpl; [|done]. f_equal. by rewrite <-(ext_entry_app _ [] [p] [] (replicate (cnt x ws) p)).
    + by destruct (heap !! x).
Qed.

(** ** The scan *)

Definition in_flight (e : txEntry) : Prop := te_state e ≠ stateWaiting.

Lemma scan_list heap l : ∀ acc,
  let '(cs, ws) := foldl (scan_entry heap) acc l in
  (∀ x, x ∈ cs ↔ x ∈ acc.1 ∨ x ∈ l ∧ ∃ e, heap !! x = Some e ∧ in_flight e) ∧
  (∀ x, x ∈ ws ↔ x ∈ acc.2 ∨ x ∈ l ∧ ∃ e, heap !! x = Some e ∧ te_state e = stateWaiting).
Proof.
  induction l as [|p l IH]; intros acc; cbn [foldl].
  { destruct acc as [cs ws]. simpl. split; intros x; split; auto; intros [?|[?%not_elem_of_nil _]]; done. }
  specialize (IH (scan_entry heap acc p)). destruct (foldl _ _ l) as [cs ws]. destruct IH as [H1 H2].
  unfold scan_entry, in_flight in *. destruct (heap !! p) as [e|] eqn:E.
  - split; intros x; rewrite ?H1, ?H2, elem_of_cons; destruct (te_state e) eqn:Es; simpl;
      rewrite ?elem_of_union, ?elem_of_singleton, ?elem_of_app, ?list_elem_of_singleton;
      clear H1 H2; (destruct (decide (x = p)) as [->|Hx]; [rewrite E|]); naive_solver congruence.
  - split; intros x; rewrite ?H1, ?H2, elem_of_cons; clear H1 H2; naive_solver.
Qed.

Lemma scan_conflicts_spec q parts :
  let '(cs, ws) := scan_conflicts q parts in
  (∀ x, x ∈ cs ↔ ∃ a e, a ∈ parts ∧ x ∈ plist q a ∧ v_heap q !! x = Some e ∧ in_flight e) ∧
  (∀ x, x ∈ ws ↔ ∃ a e, a ∈ parts ∧ x ∈ plist q a ∧ v_heap q !! x = Some e ∧ te_state e = stateWaiting).
Proof.
  unfold scan_conflicts.
  assert (∀ parts acc,
    let '(cs, ws) := foldl (λ acc a, foldl (scan_entry (v_heap q)) acc (default [] (participantMap q !! a))) acc parts in
    (∀ x, x ∈ cs ↔ x ∈ acc.1 ∨ ∃ a e, a ∈ parts ∧ x ∈ plist q a ∧ v_heap q !! x = Some e ∧ in_flight e) ∧
    (∀ x, x ∈ ws ↔ x ∈ acc.2 ∨ ∃ a e, a ∈ parts ∧ x ∈ plist q a ∧ v_heap q !! x = Some e ∧ te_state e = stateWaiting)) as H.
  { clear parts. induction parts as [|a parts IH]; intros acc; cbn [foldl].
    { destruct acc as [cs ws]. simpl. split; intros x; split; auto; intros [?|(? & ? & ?%not_elem_of_nil & _)]; done. }
    pose proof (scan_list (v_heap q) (default [] (participantMap q !! a)) acc) as Hs. fold (plist q a) in *.
    set (acc1 := foldl (scan_entry (v_heap q)) acc (plist q a)) in *.
    specialize (IH acc1). destruct (foldl _ acc1 parts) as [cs ws]. destruct acc1 as [cs1 ws1].
    destruct IH as [H1 H2], Hs as [S1 S2]. simpl in *.
    split; intros x; rewrite ?H1, ?H2, ?S1, ?S2; setoid_rewrite elem_of_cons; naive_solver. }
  specialize (H parts (∅, [])). destruct (foldl _ (∅, []) parts) as [cs ws]. destruct H as [H1 H2].
  split; intros x; rewrite ?H1, ?H2; simpl; [set_solver|]. split; [|by right].
  by intros [?%not_elem_of_nil|?].
Qed.

(** ** Enqueue *)

Section enqueue.
Context (q : TxQueueV2) (tx : EthTx).
Hypothesis Hinv : v2_inv q.
Hypothesis Hnew : hashMap q !! Tx_Hash tx = None.

Let p := v_next q.
Let parts := participantsForTx tx.
Let conflicting := (scan_conflicts q parts).1.
Let cs := range conflicting.
Let ws := (scan_conflicts q parts).2.
Let q' := (v2_Enqueue range tx q).2.

Lemma enq_fresh x e : tracked q x e → x < p.
Proof. intros [_ H]. apply (vi_fresh _ Hinv). by eexists. Qed.

Lemma enq_cs x : x ∈ cs ↔ ∃ e a, tracked q x e ∧ in_flight e ∧ a ∈ parts ∧ a ∈ te_participants e.
Proof.
  unfold cs. rewrite range_perm, elem_of_elements. unfold conflicting.
  pose proof (scan_conflicts_spec q parts) as H. destruct (scan_conflicts q parts) as [c w]. destruct H as [-> _].
  setoid_rewrite (vi_part _ Hinv). split.
  - intros (a & e & Ha & (f & Hf & Haf) & He & Hfl). assert (e = f) as -> by (destruct Hf; congruence). eauto 10.
  - intros (e & a & Ht & Hfl & Ha & Hae). exists a, e. split_and!; [done|eauto|apply Ht|done].
Qed.

Lemma enq_ws x : x ∈ ws ↔ ∃ e a, tracked q x e ∧ te_state e = stateWaiting ∧ a ∈ parts ∧ a ∈ te_participants e.
Proof.
  unfold ws. pose proof (scan_conflicts_spec q parts) as H. destruct (scan_conflicts q parts) as [c w]. destruct H as [_ ->].
  setoid_rewrite (vi_part _ Hinv). split.
  - intros (a & e & Ha & (f & Hf & Haf) & He & Hfl). assert (e = f) as -> by (destruct Hf; congruence). eauto 10.
  - intros (e & a & Ht & Hfl & Ha & Hae). exists a, e. split_and!; [done|eauto|apply Ht|done].
Qed.

Lemma enq_cs_p : p ∉ cs.
Proof. intros (e & a & H%enq_fresh & _)%enq_cs. lia. Qed.

Lemma enq_ws_p : p ∉ ws.
Proof. intros (e & a & H%enq_fresh & _)%enq_ws. lia. Qed.

Definition conflict : bool := bool_decide (conflicting ≠ ∅).

Lemma enq_cs_nil : cs = [] ↔ conflict = false.
Proof.
  unfold conflict. rewrite bool_decide_eq_false. unfold cs. split.
  - intros H Hne. apply Hne, leibniz_equiv, elements_empty_iff, Permutation_nil_r.
    by rewrite <-(range_perm conflicting), H.
  - intros H. apply dec_stable in H. apply Permutation_nil_r. by rewrite range_perm, H, elements_empty.
Qed.

Definition new_entry : txEntry :=
  {| te_tx := tx; te_hash := Tx_Hash tx; te_participants := parts;
     te_elem := Some (if conflict then InWaiting else InReady);
     te_state := if conflict then stateWaiting else stateReady;
     te_blocks := ws; te_isBlockedBy := cs |}.

Definition upd (x : nat) (e : txEntry) : txEntry :=
  ext_entry (replicate (cnt x cs) p) (replicate (cnt x ws) p) e.

Lemma enq_heap x :
  v_heap q' !! x = if decide (x = p) then Some new_entry else upd x <$> v_heap q !! x.
Proof.
  unfold q', v2_Enqueue. rewrite decide_False by (rewrite Hnew; by intros [? ?]).
  fold parts. pose proof enq_ws_p as Hw. pose proof enq_cs_p as Hc.
  unfold upd, new_entry, conflict, cs, ws, conflicting in *.
  destruct (scan_conflicts q parts) as [c w]. simpl in *. fold p.
  rewrite link_waiting, link_conflicts by done. rewrite lookup_insert.
  destruct (decide (x = p)) as [->|Hne].
  - rewrite decide_True by done. unfold ext_entry. simpl. by rewrite app_nil_r.
  - rewrite decide_False by done. destruct (v_heap q !! x); simpl; [|done]. f_equal.
    by rewrite ext_entry_app, app_nil_l, app_nil_r.
Qed.

Lemma enq_fields :
  (v2_Enqueue range tx q).1 = None ∧ v_next q' = S p ∧
  readyList q' = (if conflict then readyList q else readyList q ++ [p]) ∧
  waitingList q' = (if conflict then waitingList q ++ [p] else waitingList q) ∧
  hashMap q' = <[Tx_Hash tx := p]> (hashMap q) ∧ pendingMap q' = pendingMap q ∧
  participantMap q' = foldl (λ m a, <[a := default [] (m !! a) ++ [p]]> m) (participantMap q) parts.
Proof.
  unfold q', v2_Enqueue, conflict, conflicting.
  rewrite decide_False by (rewrite Hnew; by intros [? ?]). fold parts.
  destruct (scan_conflicts q parts) as [c w]. done.
Qed.

Lemma enq_tracked x e' :
  tracked q' x e' ↔ x = p ∧ e' = new_entry ∨ ∃ e, tracked q x e ∧ e' = upd x e.
Proof.
  destruct enq_fields as (_ & _ & _ & _ & Hh & _). unfold tracked. rewrite enq_heap, Hh. split.
  - intros [H1 H2]. destruct (decide (x = p)) as [->|Hne].
    + left. by simplify_eq.
    + right. destruct (v_heap q !! x) as [e|] eqn:E; [|done]. simpl in H2. injection H2 as <-.
      exists e. split_and!; [|done..]. change (te_hash (upd x e)) with (te_hash e) in H1.
      rewrite lookup_insert in H1. case_decide; [by simplify_eq|done].
  - intros [[-> ->]|(e & [H1 H2] & ->)].
    + rewrite decide_True by done. by rewrite lookup_insert_eq.
    + assert (x < p) by by eapply enq_fresh. rewrite decide_False, H2 by lia. split; [|done].
      change (te_hash (upd x e)) with (te_hash e). rewrite lookup_insert_ne; [done|]. intros Heq. congruence.
Qed.

Lemma enq_plist a : plist q' a = plist q a ++ (if decide (a ∈ parts) then [p] else []).
Proof.
  destruct enq_fields as (_ & _ & _ & _ & _ & _ & Hp). unfold plist. rewrite Hp.
  pose proof (participantsForTx_nodup tx) as Hnd. fold parts in Hnd. clear Hp.
  generalize (participantMap q) as m. induction Hnd as [|b l Hb Hnd IH]; intros m; cbn [foldl].
  - rewrite decide_False by apply not_elem_of_nil. by rewrite app_nil_r.
  - rewrite IH, lookup_insert. destruct (decide (b = a)) as [->|Hba].
    + simpl. rewrite decide_False, decide_True by (done || by apply list_elem_of_here). by rewrite app_nil_r.
    + f_equal. destruct (decide (a ∈ l)) as [Hl|Hl].
      * rewrite decide_True by by apply list_elem_of_further. done.
      * rewrite decide_False; [done|]. intros [?|?]%elem_of_cons; congruence.
Qed.

Lemma enq_shares_old x e :
  tracked q x e → shares new_entry e → (in_flight e ∧ x ∈ cs) ∨ (te_state e = stateWaiting ∧ x ∈ ws).
Proof.
  intros Ht (a & Ha & Hae). simpl in Ha. destruct (decide (te_state e = stateWaiting)) as [Hs|Hs].
  - right. split; [done|]. apply enq_ws. eauto 10.
  - left. split; [done|]. apply enq_cs. eauto 10.
Qed.

Lemma enq_old_ws x e : tracked q x e → in_flight e → cnt x ws = 0.
Proof.
  intros Ht Hf. apply cnt_zero. intros (f & a & Htf & Hs & _)%enq_ws.
  assert (e = f) as -> by by eapply tracked_fun. done.
Qed.

Lemma enq_old_by x e : tracked q x e → cnt p (te_isBlockedBy e) = 0 ∧ cnt p (te_blocks e) = 0.
Proof.
  intros Ht. split; apply cnt_zero; intros Hin.
  - destruct (vi_by _ Hinv x e p Ht Hin) as [f Hf%enq_fresh]. lia.
  - destruct (vi_blocks _ Hinv x e p Ht Hin) as [f Hf%enq_fresh]. lia.
Qed.

Lemma enq_sym x e' b f' :
  tracked q' x e' → tracked q' b f' → cnt b (te_blocks e') = cnt x (te_isBlockedBy f').
Proof.
  intros [[-> ->]|(e & He & ->)]%enq_tracked [[-> ->]|(f & Hf & ->)]%enq_tracked; simpl.
  - rewrite !cnt_zero; [done|apply enq_cs_p|apply enq_ws_p].
  - destruct (enq_old_by b f Hf) as [-> _] || rewrite cnt_app. rewrite ?cnt_app, ?cnt_replicate.
    destruct (enq_old_by b f Hf) as [-> _]. by rewrite decide_True.
  - rewrite cnt_app, cnt_replicate. destruct (enq_old_by x e He) as [_ ->]. by rewrite decide_True.
  - pose proof (enq_fresh _ _ He). pose proof (enq_fresh _ _ Hf).
    rewrite !cnt_app, !cnt_replicate, !decide_False by lia.
    by rewrite (vi_sym _ Hinv x e b f).
Qed.

Lemma enq_lists : v2_lists q'.
Proof.
  destruct enq_fields as (_ & Hn & Hr & Hw & Hh & Hp & _).
  assert (∀ x e, tracked q x e → tracked q' x (upd x e)) as Hold.
  { intros x e He. apply enq_tracked. eauto. }
  assert (tracked q' p new_entry) as Hpnew by (apply enq_tracked; auto).
  constructor.
  - intros h x. rewrite Hh, lookup_insert, enq_heap. case_decide as Hd.
    + intros [= <-]. rewrite decide_True by done. exists new_entry. by subst h.
    + intros (e & He & Hhe)%(hash_tracked q h x Hinv). pose proof (enq_fresh _ _ He).
      rewrite decide_False by lia. destruct He as [_ He]. rewrite He. simpl. by eexists.
  - intros x e' [[-> ->]|(e & He & ->)]%enq_tracked; [done|]. by apply (vi_tx _ Hinv x e).
  - intros x. rewrite Hn, enq_heap. case_decide; [subst; lia|]. rewrite fmap_is_Some.
    intros Hx%(vi_fresh _ Hinv). fold p in Hx. lia.
  - intros a x. rewrite enq_plist, elem_of_app, (vi_part _ Hinv). split.
    + intros [(e & He & Ha)|Hx]; [exists (upd x e); auto|]. case_decide; [|by apply not_elem_of_nil in Hx].
      apply list_elem_of_singleton in Hx as ->. by exists new_entry.
    + intros (e' & [[-> ->]|(e & He & ->)]%enq_tracked & Ha).
      * right. simpl in Ha. rewrite decide_True by done. apply list_elem_of_here.
      * left. exists e. done.
  - intros a. rewrite enq_plist. apply NoDup_app. split_and!; [apply (vi_part_nodup _ Hinv)| |].
    + intros x Hx Hx'. case_decide; [|by apply not_elem_of_nil in Hx'].
      apply list_elem_of_singleton in Hx' as ->. apply (vi_part _ Hinv) in Hx as (e & He%enq_fresh & _). lia.
    + case_decide; [apply NoDup_singleton|constructor].
  - intros x. rewrite Hr. transitivity (x ∈ readyList q ∨ conflict = false ∧ x = p).
    { destruct conflict; [naive_solver|]. rewrite elem_of_app, list_elem_of_singleton. naive_solver. }
    rewrite (vi_ready _ Hinv). split.
    + intros [(e & He & Hs)|[Hc ->]]; [exists (upd x e); auto|]. exists new_entry. simpl. by rewrite Hc.
    + intros (e' & [[-> ->]|(e & He & ->)]%enq_tracked & Hs); [right|left; by exists e].
      simpl in Hs. by destruct conflict.
  - rewrite Hr. destruct conflict; [apply (vi_ready_nodup _ Hinv)|]. apply NoDup_app.
    split_and!; [apply (vi_ready_nodup _ Hinv)| |apply NoDup_singleton].
    intros x (e & He%enq_fresh & _)%(vi_ready _ Hinv) ->%list_elem_of_singleton. lia.
  - intros x. rewrite Hw. transitivity (x ∈ waitingList q ∨ conflict = true ∧ x = p).
    { destruct conflict; [|naive_solver]. rewrite elem_of_app, list_elem_of_singleton. naive_solver. }
    rewrite (vi_waiting _ Hinv). split.
    + intros [(e & He & Hs)|[Hc ->]]; [exists (upd x e); auto|]. exists new_entry. simpl. by rewrite Hc.
    + intros (e' & [[-> ->]|(e & He & ->)]%enq_tracked & Hs); [right|left; by exists e].
      simpl in Hs. by destruct conflict.
  - rewrite Hw. destruct conflict; [|apply (vi_waiting_nodup _ Hinv)]. apply NoDup_app.
    split_and!; [apply (vi_waiting_nodup _ Hinv)| |apply NoDup_singleton].
    intros x (e & He%enq_fresh & _)%(vi_waiting _ Hinv) ->%list_elem_of_singleton. lia.
  - intros h t. rewrite Hp, (vi_pending _ Hinv). split.
    + intros (x & e & He & ? & ? & ?). exists x, (upd x e). auto.
    + intros (x & e' & [[-> ->]|(e & He & ->)]%enq_tracked & ? & Hs & ?); [simpl in Hs; by destruct conflict|].
      by exists x, e.
Qed.

Lemma enq_links : v2_links q'.
Proof.
  assert (∀ x e, tracked q x e → tracked q' x (upd x e)) as Hold.
  { intros x e He. apply enq_tracked. eauto. }
  assert (tracked q' p new_entry) as Hpnew by (apply enq_tracked; auto).
  constructor.
  - intros x e' [[-> ->]|(e & He & ->)]%enq_tracked; simpl.
    + rewrite enq_cs_nil. by destruct conflict.
    + rewrite <-(vi_unblocked _ Hinv x e He). split; [by intros [? _]%app_nil|]. intros Hnil.
      assert (in_flight e) as Hf by by apply (vi_unblocked _ Hinv x e He). rewrite Hnil, (enq_old_ws x e); done.
  - intros x e' [[-> ->]|(e & He & ->)]%enq_tracked; simpl; [by destruct conflict|]. by apply (vi_elem _ Hinv x).
  - apply enq_sym.
  - intros x e' b [[-> ->]|(e & He & ->)]%enq_tracked Hb; simpl in Hb.
    + apply enq_ws in Hb as (f & a & Hf & _). eauto.
    + apply elem_of_app in Hb as [Hb|Hb]; [destruct (vi_blocks _ Hinv x e b He Hb); eauto|].
      apply elem_of_replicate in Hb as [-> _]. eauto.
  - intros x e' b [[-> ->]|(e & He & ->)]%enq_tracked Hb; simpl in Hb.
    + apply enq_cs in Hb as (f & a & Hf & _). eauto.
    + apply elem_of_app in Hb as [Hb|Hb]; [destruct (vi_by _ Hinv x e b He Hb); eauto|].
      apply elem_of_replicate in Hb as [-> _]. eauto.
  - intros x e' b f' [[-> ->]|(e & He & ->)]%enq_tracked [[-> ->]|(f & Hf & ->)]%enq_tracked Hne Hsh; try done.
    + destruct (enq_shares_old b f Hf Hsh) as [[_ ?]|[_ Hin]]; [by left|right]. simpl.
      apply cnt_elem. rewrite cnt_app, cnt_replicate, decide_True by done. apply cnt_elem in Hin. lia.
    + assert (shares new_entry e) as Hsh' by (destruct Hsh as (a & ? & ?); by exists a).
      destruct (enq_shares_old x e He Hsh') as [[_ ?]|[_ Hin]]; [by right|left]. simpl.
      apply cnt_elem. rewrite cnt_app, cnt_replicate, decide_True by done. apply cnt_elem in Hin. lia.
    + simpl. rewrite !elem_of_app. destruct (vi_linked _ Hinv x e b f He Hf Hne Hsh); auto.
  - intros x e' b f' [[-> ->]|(e & He & ->)]%enq_tracked Hf' Hb Hs; simpl in Hb.
    + apply enq_cs in Hb as (g & a & Hg & Hfl & _).
      apply enq_tracked in Hf' as [[-> _]|(f & Hf & ->)]; [by apply enq_fresh in Hg; lia|].
      assert (f = g) as -> by by eapply tracked_fun. done.
    + pose proof (enq_fresh _ _ He). apply elem_of_app in Hb as [Hb|Hb].
      * apply enq_tracked in Hf' as [[-> _]|(f & Hf & ->)]; [done|]. by eapply (vi_order _ Hinv x e b f).
      * apply elem_of_replicate in Hb as [-> _]. done.
  - intros x e' [[-> ->]|(e & He & ->)]%enq_tracked; simpl; [done|].
    by apply (vi_parts _ Hinv x).
Qed.

Lemma enq_inv : v2_inv q'.
Proof. split; [apply enq_lists|apply enq_links]. Qed.
End enqueue.

(** ** Dequeue *)

Section dequeue.
Context (q : TxQueueV2) (p : nat) (rest : list nat).
Hypothesis Hinv : v2_inv q.
Hypothesis Hready : readyList q = p :: rest.

Definition moved (x : nat) (e : txEntry) : txEntry :=
  if decide (x = p) then set_state statePending None e else e.

Lemma moved_same x e :
  te_tx (moved x e) = te_tx e ∧ te_hash (moved x e) = te_hash e ∧
  te_participants (moved x e) = te_participants e ∧
  te_blocks (moved x e) = te_blocks e ∧ te_isBlockedBy (moved x e) = te_isBlockedBy e.
Proof. unfold moved. by case_decide. Qed.

Lemma deq_head : ∃ e, tracked q p e ∧ te_state e = stateReady.
Proof. apply (vi_ready _ Hinv). rewrite Hready. apply list_elem_of_here. Qed.

Definition deq_fields (e : txEntry) (q' : TxQueueV2) : Prop :=
  (∀ x, v_heap q' !! x = moved x <$> v_heap q !! x) ∧
  v_next q' = v_next q ∧ readyList q' = rest ∧ waitingList q' = waitingList q ∧
  participantMap q' = participantMap q ∧ hashMap q' = hashMap q ∧
  pendingMap q' = <[te_hash e := te_tx e]> (pendingMap q).

Lemma deq_result : ∃ e q',
  v2_Dequeue q = Done (DqTx (te_tx e), q') ∧ tracked q p e ∧ te_state e = stateReady ∧ deq_fields e q'.
Proof.
  destruct deq_head as (e & He & Hs). eexists e, _. unfold v2_Dequeue, deq_fields. rewrite Hready.
  pose proof He as [_ Hp]. rewrite Hp. split; [reflexivity|]. simpl. split_and!; try done.
  intros x. rewrite lookup_insert. unfold moved. destruct (decide (x = p)) as [->|Hne].
  - by rewrite decide_True, Hp by done.
  - rewrite decide_False by done. by destruct (v_heap q !! x).
Qed.

Lemma deq_state x e : tracked q x e → x ≠ p → te_state (moved x e) = te_state e.
Proof. intros _ H. unfold moved. by rewrite decide_False. Qed.

Lemma deq_waiting x e : tracked q x e → te_state (moved x e) = stateWaiting ↔ te_state e = stateWaiting.
Proof.
  intros Hx. unfold moved. case_decide; [|done]. subst x. simpl.
  destruct deq_head as (f & Hf & Hs). assert (e = f) as -> by by eapply tracked_fun. by rewrite Hs.
Qed.

Lemma deq_tracked e0 q' x e' : deq_fields e0 q' →
  tracked q' x e' ↔ ∃ e, tracked q x e ∧ e' = moved x e.
Proof.
  intros (Hheap & _ & _ & _ & _ & Hh & _). unfold tracked. rewrite Hh, Hheap, fmap_Some. split.
  - intros (Ha & e & He & ->). exists e. rewrite (proj1 (proj2 (moved_same x e))) in Ha. done.
  - intros (e & [Ha He] & ->). rewrite (proj1 (proj2 (moved_same x e))). eauto.
Qed.

Lemma deq_lists e0 q' : tracked q p e0 → deq_fields e0 q' → v2_lists q'.
Proof.
  intros He0 Hf. assert (∀ x e', tracked q' x e' ↔ ∃ e, tracked q x e ∧ e' = moved x e) as Htr
    by (intros x e'; by apply (deq_tracked e0)).
  destruct Hf as (Hheap & Hn & Hr & Hw & Hpm & Hh & Hp).
  pose proof (vi_ready_nodup _ Hinv) as Hnd. rewrite Hready in Hnd. apply NoDup_cons in Hnd as [Hprest Hnd].
  constructor.
  - intros h x. rewrite Hh, Hheap. intros (e & He & Hhe)%(vi_hash _ Hinv). rewrite He. simpl.
    eexists. split; [done|]. by rewrite (proj1 (proj2 (moved_same x e))).
  - intros x e' (e & He & ->)%Htr. destruct (moved_same x e) as (-> & -> & _). by apply (vi_tx _ Hinv x).
  - intros x. rewrite Hheap, Hn, fmap_is_Some. apply (vi_fresh _ Hinv).
  - intros a x. unfold plist. rewrite Hpm. fold (plist q a). rewrite (vi_part _ Hinv). split.
    + intros (e & He & Ha). exists (moved x e). rewrite Htr. destruct (moved_same x e) as (_ & _ & -> & _). eauto.
    + intros (e' & (e & He & ->)%Htr & Ha). destruct (moved_same x e) as (_ & _ & Hpa & _). rewrite Hpa in Ha. eauto.
  - intros a. unfold plist. rewrite Hpm. apply (vi_part_nodup _ Hinv).
  - intros x. rewrite Hr. split.
    + intros Hx. assert (x ≠ p) by (intros ->; done).
      destruct (proj1 (vi_ready _ Hinv x)) as (e & He & Hs); [rewrite Hready; by right|].
      exists (moved x e). rewrite Htr, (deq_state x e) by done. eauto.
    + intros (e' & (e & He & ->)%Htr & Hs). destruct (decide (x = p)) as [->|Hne].
      { unfold moved in Hs. by rewrite decide_True in Hs. }
      rewrite deq_state in Hs by done. assert (x ∈ readyList q) as Hx by (apply (vi_ready _ Hinv); eauto).
      rewrite Hready in Hx. by apply elem_of_cons in Hx as [->|?].
  - by rewrite Hr.
  - intros x. rewrite Hw, (vi_waiting _ Hinv). split.
    + intros (e & He & Hs). exists (moved x e). rewrite Htr, deq_waiting by done. eauto.
    + intros (e' & (e & He & ->)%Htr & Hs). rewrite deq_waiting in Hs by done. eauto.
  - rewrite Hw. apply (vi_waiting_nodup _ Hinv).
  - intros h t. rewrite Hp, lookup_insert. case_decide as Hd.
    + split.
      * intros [= <-]. exists p, (moved p e0). rewrite Htr. destruct (moved_same p e0) as (-> & -> & _).
        split_and!; [by exists e0|done| |done]. unfold moved. by rewrite decide_True.
      * intros (x & e' & (e & He & ->)%Htr & Hhe & Hs & <-).
        destruct (moved_same x e) as (-> & Hhe' & _). rewrite Hhe' in Hhe.
        assert (x = p) as -> by (destruct He as [H1 _], He0 as [H2 _]; congruence).
        by rewrite (tracked_fun q p e e0).
    + rewrite (vi_pending _ Hinv). split.
      * intros (x & e & He & Hhe & Hs & Ht). exists x, (moved x e). rewrite Htr.
        destruct (moved_same x e) as (-> & -> & _). rewrite deq_state; eauto 10.
        intros ->. apply Hd. by rewrite (tracked_fun q p e0 e).
      * intros (x & e' & (e & He & ->)%Htr & Hhe & Hs & Ht).
        destruct (moved_same x e) as (Ht' & Hhe' & _). rewrite Ht' in Ht. rewrite Hhe' in Hhe.
        rewrite deq_state in Hs; eauto 10. intros ->. apply Hd. by rewrite (tracked_fun q p e0 e).
Qed.

Lemma deq_links e0 q' : deq_fields e0 q' → v2_links q'.
Proof.
  intros Hq'. assert (∀ x e', tracked q' x e' ↔ ∃ e, tracked q x e ∧ e' = moved x e) as Htr
    by (intros x e'; by apply (deq_tracked e0)).
  constructor.
  - intros x e' (e & He & ->)%Htr. rewrite deq_waiting by done.
    destruct (moved_same x e) as (_ & _ & _ & _ & ->). by apply (vi_unblocked _ Hinv x).
  - intros x e' (e & He & ->)%Htr Hs. pose proof Hs as Hs'. rewrite deq_waiting in Hs by done.
    unfold moved in *. case_decide; [done|]. by apply (vi_elem _ Hinv x).
  - intros x e' b f' (e & He & ->)%Htr (f & Hf & ->)%Htr.
    destruct (moved_same x e) as (_ & _ & _ & -> & _), (moved_same b f) as (_ & _ & _ & _ & ->).
    by apply (vi_sym _ Hinv).
  - intros x e' b (e & He & ->)%Htr Hb. destruct (moved_same x e) as (_ & _ & _ & Hbl & _). rewrite Hbl in Hb.
    destruct (vi_blocks _ Hinv x e b He Hb) as [f Hf]. exists (moved b f). apply Htr. eauto.
  - intros x e' b (e & He & ->)%Htr Hb. destruct (moved_same x e) as (_ & _ & _ & _ & Hbl). rewrite Hbl in Hb.
    destruct (vi_by _ Hinv x e b He Hb) as [f Hf]. exists (moved b f). apply Htr. eauto.
  - intros x e' b f' (e & He & ->)%Htr (f & Hf & ->)%Htr Hne (a & Ha1 & Ha2).
    destruct (moved_same x e) as (_ & _ & Hpe & _ & ->), (moved_same b f) as (_ & _ & Hpf & _ & ->).
    rewrite Hpe in Ha1. rewrite Hpf in Ha2. apply (vi_linked _ Hinv); try done. by exists a.
  - intros x e' b f' (e & He & ->)%Htr (f & Hf & ->)%Htr Hb Hs. rewrite deq_waiting in Hs by done.
    destruct (moved_same x e) as (_ & _ & _ & _ & Hbl). rewrite Hbl in Hb. by eapply (vi_order _ Hinv x e b f).
  - intros x e' (e & He & ->)%Htr. destruct (moved_same x e) as (-> & _ & -> & _). by apply (vi_parts _ Hinv x).
Qed.

Lemma deq_inv : ∃ e q',
  v2_Dequeue q = Done (DqTx (te_tx e), q') ∧ tracked q p e ∧ te_state e = stateReady ∧ v2_inv q' ∧
  hashMap q' = hashMap q.
Proof.
  destruct deq_result as (e & q' & Hq' & He & Hs & Hf). exists e, q'.
  split_and!; [done..|split; [by apply (deq_lists e)|by apply (deq_links e)]|]. apply Hf.
Qed.
End dequeue.

(** ** Complete *)

Fixpoint rm (p k : nat) (l : list nat) : list nat :=
  match k with 0 => l | S k => rm p k (removeFromSlice l p) end.

Lemma cnt_rm x p k : ∀ l, cnt x (rm p k l) = cnt x l - (if decide (p = x) then k else 0).
Proof.
  induction k as [|k IH]; intros l; simpl; [case_decide; lia|].
  rewrite IH, cnt_remove. case_decide; lia.
Qed.

Definition is_nil (l : list nat) : bool := bool_decide (l = []).

(** What unblocking [k] times does to an entry. *)
Definition released (p k : nat) (e : txEntry) : txEntry :=
  let e' := set_blocked_by (rm p k (te_isBlockedBy e)) e in
  if (0 <? k) && is_nil (te_isBlockedBy e') then set_state stateReady (Some InReady) e' else e'.

Lemma released_0 p e : released p 0 e = e.
Proof. by destruct e. Qed.

Lemma released_same p k e :
  te_tx (released p k e) = te_tx e ∧ te_hash (released p k e) = te_hash e ∧
  te_participants (released p k e) = te_participants e ∧
  te_blocks (released p k e) = te_blocks e ∧
  te_isBlockedBy (released p k e) = rm p k (te_isBlockedBy e).
Proof. unfold released. by destruct (_ && _). Qed.

Definition promoted (p : nat) (heap : gmap nat txEntry) (l : list nat) (x : nat) : Prop :=
  x ∈ l ∧ ∃ e, heap !! x = Some e ∧ rm p (cnt x l) (te_isBlockedBy e) = [].

(** The entries still to be unblocked wait, once per remaining link at least. *)
Definition unblockable (p : nat) (heap : gmap nat txEntry) (l : list nat) : Prop :=
  ∀ x, x ∈ l → ∃ e, heap !! x = Some e ∧ te_elem e = Some InWaiting ∧
    cnt x l ≤ cnt p (te_isBlockedBy e).

Lemma unblock_head p heap b l e :
  unblockable p heap (b :: l) → heap !! b = Some e →
  let by' := removeFromSlice (te_isBlockedBy e) p in
  if decide (by' = []) then cnt b l = 0
  else cnt b l ≤ cnt p by' ∧ te_elem e = Some InWaiting.
Proof.
  intros Hu He. destruct (Hu b) as (e' & He' & Hel & Hc); [apply list_elem_of_here|].
  assert (e = e') as <- by congruence. rewrite cnt_cons, decide_True in Hc by done.
  pose proof (cnt_remove p p (te_isBlockedBy e)) as Hr. rewrite decide_True in Hr by done. simpl.
  case_decide as Hd; [rewrite Hd in Hr; unfold cnt in Hr at 1; simpl in Hr|]; [|split; [|done]]; lia.
Qed.

Lemma unblock_tail p heap b l e e' :
  unblockable p heap (b :: l) → heap !! b = Some e →
  (b ∈ l → te_elem e' = Some InWaiting ∧ cnt b l ≤ cnt p (te_isBlockedBy e')) →
  unblockable p (<[b := e']> heap) l.
Proof.
  intros Hu He Hb x Hx. rewrite lookup_insert. case_decide as Hd; [subst x; naive_solver|].
  destruct (Hu x) as (f & Hf & Hel & Hc); [by right|]. exists f. split_and!; [done..|].
  rewrite cnt_cons, decide_False in Hc by done. lia.
Qed.

(** Promotions of the rest of the list, after the first unblocking of [b]. *)
Lemma promoted_cons p heap b l e e' x :
  heap !! b = Some e → te_isBlockedBy e' = removeFromSlice (te_isBlockedBy e) p →
  te_isBlockedBy e' ≠ [] →
  promoted p heap (b :: l) x ↔ promoted p (<[b := e']> heap) l x.
Proof.
  intros He Hby Hne. unfold promoted. rewrite elem_of_cons, cnt_cons, lookup_insert.
  destruct (decide (b = x)) as [<-|Hx]; [|naive_solver].
  rewrite He. simpl. split.
  - intros (_ & f & [= <-] & H). rewrite <-Hby in H. split; [|eauto].
    apply cnt_elem. destruct (cnt b l); [done|lia].
  - intros (_ & f & [= <-] & H). split; [by left|]. exists e. by rewrite <-Hby.
Qed.

Lemma promoted_last p heap b l e e' x :
  heap !! b = Some e → removeFromSlice (te_isBlockedBy e) p = [] → cnt b l = 0 →
  promoted p heap (b :: l) x ↔ x = b ∨ promoted p (<[b := e']> heap) l x.
Proof.
  intros He Hby Hc. assert (b ∉ l) by (intros ?%cnt_elem; lia).
  unfold promoted. rewrite elem_of_cons, cnt_cons, lookup_insert.
  destruct (decide (b = x)) as [<-|Hx]; [|naive_solver].
  rewrite Hc. simpl. split; [by left|]. intros _. split; [by left|]. by exists e.
Qed.

Lemma released_cons p b l e :
  released p (cnt b (b :: l)) e =
  released p (cnt b l) (released p 1 e) ∨ removeFromSlice (te_isBlockedBy e) p = [].
Proof.
  destruct (decide (removeFromSlice (te_isBlockedBy e) p = [])) as [|Hne]; [by right|left].
  rewrite cnt_cons, decide_True by done. simpl. unfold released at 3. simpl.
  unfold is_nil. rewrite bool_decide_eq_false_2 by done. unfold released. simpl.
  destruct (cnt b l) eqn:E; simpl; [|done]. unfold is_nil. by rewrite bool_decide_eq_false_2.
Qed.

Lemma unblock_fold p l : ∀ heap ready waiting n,
  unblockable p heap l → NoDup ready → NoDup waiting → (∀ x, x ∈ l → x ∉ ready) →
  let '(heap', ready', waiting', _) := foldl (unblock p) (heap, ready, waiting, n) l in
  (∀ x, heap' !! x = released p (cnt x l) <$> heap !! x) ∧
  NoDup ready' ∧ (∀ x, x ∈ ready' ↔ x ∈ ready ∨ promoted p heap l x) ∧
  NoDup waiting' ∧ (∀ x, x ∈ waiting' ↔ x ∈ waiting ∧ ¬ promoted p heap l x).
Proof.
  induction l as [|b l IH]; intros heap ready waiting n Hu Hr Hw Hdisj; cbn [foldl].
  { split_and!; try done.
    - intros x. unfold cnt. simpl. destruct (heap !! x); simpl; [by rewrite released_0|done].
    - intros x. unfold promoted. split; [by left|]. by intros [?|[?%not_elem_of_nil _]].
    - intros x. unfold promoted. split; [|tauto]. intros H. split; [done|]. by intros [?%not_elem_of_nil _]. }
  destruct (Hu b) as (e & He & Hel & _); [apply list_elem_of_here|].
  pose proof (unblock_head p heap b l e Hu He) as Hhd. simpl in Hhd.
  unfold unblock at 2. rewrite He. cbn [te_isBlockedBy set_blocked_by te_elem].
  case_decide as Hd.
  - set (e' := set_state _ _ _). rewrite decide_True by done.
    assert (b ∉ l) as Hbl by (intros ?%cnt_elem; lia).
    specialize (IH (<[b := e']> heap) (ready ++ [b]) (filter (λ x, x ≠ b) waiting) (n + 1)%Z).
    destruct (foldl _ _ l) as [[[heap' ready'] waiting'] n']. destruct IH as (I1 & I2 & I3 & I4 & I5).
    + by eapply unblock_tail.
    + apply NoDup_app. split_and!; [done| |apply NoDup_singleton].
      intros x Hx ->%list_elem_of_singleton. by destruct (Hdisj b (list_elem_of_here _ _)).
    + by apply NoDup_filter.
    + intros x Hx. rewrite elem_of_app, list_elem_of_singleton. intros [?| ->]; [|done].
      apply (Hdisj x); [by right|done].
    + split_and!; try done.
      * intros x. rewrite I1, lookup_insert, cnt_cons. destruct (decide (b = x)) as [<-|Hx]; [|done].
        rewrite He, Hhd. simpl. rewrite released_0. f_equal. unfold released. simpl.
        unfold is_nil. by rewrite bool_decide_eq_true_2.
      * intros x. rewrite I3, elem_of_app, list_elem_of_singleton, (promoted_last p heap b l e e') by done. tauto.
      * intros x. rewrite I5, list_elem_of_filter, (promoted_last p heap b l e e') by done. tauto.
  - destruct Hhd as [Hc _]. set (e' := set_blocked_by _ e).
    specialize (IH (<[b := e']> heap) ready waiting n).
    destruct (foldl _ _ l) as [[[heap' ready'] waiting'] n']. destruct IH as (I1 & I2 & I3 & I4 & I5).
    + by eapply unblock_tail.
    + done.
    + done.
    + intros x Hx. apply Hdisj. by right.
    + split_and!; try done.
      * intros x. rewrite I1, lookup_insert. destruct (decide (b = x)) as [<-|Hx]; [|by rewrite cnt_cons, decide_False].
        rewrite He. simpl. f_equal. destruct (released_cons p b l e) as [->|]; [|done]. f_equal.
        unfold released. simpl. unfold is_nil. by rewrite bool_decide_eq_false_2.
      * intros x. by rewrite I3, (promoted_cons p heap b l e e').
      * intros x. by rewrite I5, (promoted_cons p heap b l e e').
Qed.

Lemma forget_participants_lookup p parts : ∀ m a, NoDup parts →
  default [] (forget_participants p m parts !! a) =
  if decide (a ∈ parts) then removeFromSlice (default [] (m !! a)) p else default [] (m !! a).
Proof.
  induction parts as [|c parts IH]; intros m a Hnd; cbn [forget_participants foldl].
  { by rewrite decide_False by apply not_elem_of_nil. }
  apply NoDup_cons in Hnd as [Hc Hnd]. unfold forget_participants in IH. rewrite IH by done.
  assert (∀ x : list nat, x = (if decide (a = c) then removeFromSlice (default [] (m !! a)) p else default [] (m !! a)) →
    (if decide (a ∈ parts) then removeFromSlice x p else x) =
    if decide (a ∈ c :: parts) then removeFromSlice (default [] (m !! a)) p else default [] (m !! a)) as Hx.
  { intros x ->. destruct (decide (a = c)) as [->|Hne].
    - rewrite decide_False, decide_True; [done|by left|done].
    - destruct (decide (a ∈ parts)).
      + rewrite decide_True; [done|by right].
      + rewrite decide_False; [done|]. by intros [?|?]%elem_of_cons. }
  apply Hx. clear Hx IH. destruct (decide (a = c)) as [->|Hne].
  - destruct (m !! c) as [l|] eqn:E; [|by rewrite E]. simpl. case_decide as Hd.
    + by rewrite lookup_delete_eq, Hd.
    + by rewrite lookup_insert_eq.
  - destruct (m !! c) as [l|]; [|done]. case_decide; by rewrite ?lookup_delete_ne, ?lookup_insert_ne by done.
Qed.

Section complete.
Context (q : TxQueueV2) (h : Hash) (p : nat) (ep : txEntry).
Hypothesis Hinv : v2_inv q.
Hypothesis Hp : tracked q p ep.
Hypothesis Hh : te_hash ep = h.
Hypothesis Hpend : te_state ep = statePending.

Let q' := (completeUnlocked h q).2.
Let rel x e := released p (cnt x (te_blocks ep)) e.

Lemma cmp_unblocked : te_isBlockedBy ep = [].
Proof. apply (vi_unblocked _ Hinv p ep Hp). by rewrite Hpend. Qed.

Lemma cmp_links x e : tracked q x e → cnt x (te_blocks ep) = cnt p (te_isBlockedBy e).
Proof. intros He. by apply (vi_sym _ Hinv). Qed.

Lemma cmp_waiting x e : tracked q x e → x ∈ te_blocks ep → te_state e = stateWaiting ∧ te_elem e = Some InWaiting.
Proof.
  intros He Hx%cnt_elem. rewrite (cmp_links x e He) in Hx. apply cnt_elem in Hx.
  assert (te_state e = stateWaiting) as Hs; [|by split; [|apply (vi_elem _ Hinv x)]].
  apply dec_stable. intros Hn%(vi_unblocked _ Hinv x e He). rewrite Hn in Hx. by apply not_elem_of_nil in Hx.
Qed.

Lemma cmp_blocks_p : p ∉ te_blocks ep.
Proof.
  intros Hx%cnt_elem. rewrite (cmp_links p ep Hp), cmp_unblocked in Hx. unfold cnt in Hx. simpl in Hx. lia.
Qed.

Lemma cmp_promoted x e : tracked q x e →
  promoted p (v_heap q) (te_blocks ep) x ↔ te_state e = stateWaiting ∧ te_isBlockedBy (rel x e) = [].
Proof.
  intros He. unfold rel. destruct (released_same p (cnt x (te_blocks ep)) e) as (_ & _ & _ & _ & ->). split.
  - intros (Hx & f & Hf & Hby). assert (e = f) as <- by (destruct He; congruence).
    by destruct (cmp_waiting x e He Hx).
  - intros [Hs Hby]. split.
    + apply cnt_elem. destruct (cnt x (te_blocks ep)); [|lia]. simpl in Hby.
      by apply (vi_unblocked _ Hinv x e He) in Hby.
    + exists e. split; [apply He|done].
Qed.

Lemma cmp_fold :
  (∀ x, v_heap q' !! x = rel x <$> v_heap q !! x) ∧
  NoDup (readyList q') ∧
  (∀ x, x ∈ readyList q' ↔ x ∈ readyList q ∨ promoted p (v_heap q) (te_blocks ep) x) ∧
  NoDup (waitingList q') ∧
  (∀ x, x ∈ waitingList q' ↔ x ∈ waitingList q ∧ ¬ promoted p (v_heap q) (te_blocks ep) x) ∧
  v_next q' = v_next q ∧ hashMap q' = delete h (hashMap q) ∧ pendingMap q' = delete h (pendingMap q) ∧
  participantMap q' = forget_participants p (participantMap q) (te_participants ep).
Proof.
  destruct Hp as [H1 H2]. unfold q', completeUnlocked. rewrite Hh in H1. rewrite H1, H2.
  pose proof (unblock_fold p (te_blocks ep) (v_heap q) (readyList q) (waitingList q) 0%Z) as Hf.
  destruct (foldl _ _ _) as [[[heap' ready'] waiting'] n']. simpl.
  destruct Hf as (F1 & F2 & F3 & F4 & F5); [| | | |by split_and!].
  - intros x Hx. destruct (vi_blocks _ Hinv p ep x Hp Hx) as [e He]. exists e.
    split_and!; [apply He|by destruct (cmp_waiting x e He Hx)|by rewrite (cmp_links x e He)].
  - apply (vi_ready_nodup _ Hinv).
  - apply (vi_waiting_nodup _ Hinv).
  - intros x Hx (f & Hf & Hs)%(vi_ready _ Hinv). destruct (cmp_waiting x f Hf Hx) as [Hw _]. congruence.
Qed.

Lemma cmp_tracked x e' : tracked q' x e' ↔ ∃ e, tracked q x e ∧ x ≠ p ∧ e' = rel x e.
Proof.
  destruct cmp_fold as (F1 & _ & _ & _ & _ & _ & F2 & _ & _). unfold tracked. rewrite F1, F2, lookup_delete_Some, fmap_Some.
  split.
  - intros ([Hne Hx] & e & He & ->). unfold rel in *.
    destruct (released_same p (cnt x (te_blocks ep)) e) as (_ & Hhe & _). rewrite Hhe in Hne, Hx.
    exists e. split_and!; [done..| |done]. intros ->. apply Hne. destruct Hp as [_ Hp']. congruence.
  - intros (e & [Hx He] & Hne & ->). unfold rel.
    destruct (released_same p (cnt x (te_blocks ep)) e) as (_ & -> & _). split_and!; [|done|by exists e].
    intros Heq. rewrite <-Heq, <-Hh in Hx. destruct Hp. congruence.
Qed.

Lemma cmp_plist a x : x ∈ plist q' a ↔ x ∈ plist q a ∧ x ≠ p.
Proof.
  destruct cmp_fold as (_ & _ & _ & _ & _ & _ & _ & _ & F). unfold plist. rewrite F, forget_participants_lookup
    by apply (vi_pnodup q p ep Hinv Hp). fold (plist q a). case_decide as Ha.
  - rewrite <-!cnt_elem, cnt_remove. case_decide as Hd.
    + subst x. rewrite cnt_nodup; [split; [lia|by intros [_ ?]]|apply (vi_part_nodup _ Hinv)|].
      apply (vi_part _ Hinv). eauto.
    + rewrite Nat.sub_0_r. naive_solver.
  - split; [|by intros [? _]]. intros Hx. split; [done|]. intros ->.
    apply (vi_part _ Hinv) in Hx as (e & He & Ha'). by rewrite (tracked_fun q p e ep) in Ha'.
Qed.

Lemma cmp_by x e y : tracked q x e → y ∈ te_isBlockedBy (rel x e) ↔ y ∈ te_isBlockedBy e ∧ y ≠ p.
Proof.
  intros He. unfold rel. destruct (released_same p (cnt x (te_blocks ep)) e) as (_ & _ & _ & _ & ->).
  rewrite <-!cnt_elem, cnt_rm, (cmp_links x e He). case_decide as Hd; [subst y; split; [lia|by intros [_ ?]]|].
  rewrite Nat.sub_0_r. naive_solver.
Qed.

Lemma cmp_cnt_by x e y : tracked q x e → y ≠ p → cnt y (te_isBlockedBy (rel x e)) = cnt y (te_isBlockedBy e).
Proof.
  intros He Hne. unfold rel. destruct (released_same p (cnt x (te_blocks ep)) e) as (_ & _ & _ & _ & ->).
  rewrite cnt_rm, decide_False by done. lia.
Qed.

(** The state after the release: waiting entries with no blocker left are ready. *)
Lemma cmp_state x e : tracked q x e →
  te_state (rel x e) =
    (if decide (te_state e = stateWaiting ∧ te_isBlockedBy (rel x e) = []) then stateReady else te_state e) ∧
  (te_state (rel x e) = stateWaiting → te_elem (rel x e) = te_elem e).
Proof.
  intros He. destruct (decide (te_state e = stateWaiting ∧ te_isBlockedBy (rel x e) = [])) as [Hd|Hd];
    unfold rel, released; simpl.
  - apply (cmp_promoted x e He) in Hd as (Hx & f & Hf & Hby).
    assert (e = f) as <- by (destruct He; congruence). apply cnt_elem in Hx.
    rewrite (proj2 (Nat.ltb_lt _ _)) by done. unfold is_nil. by rewrite bool_decide_eq_true_2.
  - destruct (0 <? cnt x (te_blocks ep)) eqn:E; [|done]. simpl. unfold is_nil. case_bool_decide as Hn; [|done].
    destruct Hd. apply (cmp_promoted x e He). apply Nat.ltb_lt, cnt_elem in E. split; [done|].
    exists e. split; [apply He|done].
Qed.

Lemma cmp_lists : v2_lists q'.
Proof.
  destruct cmp_fold as (F1 & F2 & F3 & F4 & F5 & F6 & F7 & F8 & F9).
  assert (∀ x e, te_hash (rel x e) = te_hash e ∧ te_tx (rel x e) = te_tx e ∧
    te_participants (rel x e) = te_participants e ∧ te_blocks (rel x e) = te_blocks e) as Hsame.
  { intros x e. unfold rel. destruct (released_same p (cnt x (te_blocks ep)) e) as (? & ? & ? & ? & _). done. }
  assert (∀ x e, tracked q x e → te_state e = stateWaiting → x ≠ p) as Hwp.
  { intros x e He Hs ->. rewrite (tracked_fun q p e ep He Hp) in Hs. congruence. }
  constructor.
  - intros h' x. rewrite F7, lookup_delete_Some. intros [Hne (e & He & Hhe)%(hash_tracked q h' x Hinv)].
    rewrite F1. destruct He as [_ He]. rewrite He. simpl. eexists. split; [done|]. by destruct (Hsame x e) as [-> _].
  - intros x e' (e & He & _ & ->)%cmp_tracked. destruct (Hsame x e) as (-> & -> & _). by apply (vi_tx _ Hinv x).
  - intros x. rewrite F1, F6, fmap_is_Some. apply (vi_fresh _ Hinv).
  - intros a x. rewrite cmp_plist, (vi_part _ Hinv). split.
    + intros [(e & He & Ha) Hne]. exists (rel x e). rewrite cmp_tracked. destruct (Hsame x e) as (_ & _ & -> & _). eauto 10.
    + intros (e' & (e & He & Hne & ->)%cmp_tracked & Ha). destruct (Hsame x e) as (_ & _ & Hpa & _). rewrite Hpa in Ha. eauto.
  - intros a. unfold plist. rewrite F9, forget_participants_lookup by apply (vi_pnodup q p ep Hinv Hp).
    pose proof (vi_part_nodup _ Hinv a) as Hnd. fold (plist q a). case_decide; [|done].
    apply cnt_le_nodup. intros x. rewrite cnt_remove. destruct (decide (x ∈ plist q a)).
    + rewrite cnt_nodup by done. lia.
    + rewrite cnt_zero by done. lia.
  - intros x. rewrite F3. split.
    + intros [(e & He & Hs)%(vi_ready _ Hinv)|Hpr].
      * exists (rel x e). rewrite cmp_tracked. destruct (cmp_state x e He) as [-> _].
        rewrite decide_False by (rewrite Hs; by intros [? _]). split; [|done]. exists e. split_and!; try done.
        intros ->. rewrite (tracked_fun q p e ep He Hp) in Hs. congruence.
      * destruct (vi_blocks _ Hinv p ep x Hp (proj1 Hpr)) as [e He]. apply (cmp_promoted x e He) in Hpr.
        exists (rel x e). rewrite cmp_tracked. destruct (cmp_state x e He) as [-> _].
        rewrite decide_True by done. split; [|done]. exists e. split_and!; try done. by apply (Hwp x e He), Hpr.
    + intros (e' & (e & He & Hne & ->)%cmp_tracked & Hs). destruct (cmp_state x e He) as [Hst _].
      rewrite Hs in Hst. case_decide as Hd; [right; by apply (cmp_promoted x e He)|].
      left. apply (vi_ready _ Hinv). by exists e.
  - done.
  - intros x. rewrite F5. split.
    + intros [(e & He & Hs)%(vi_waiting _ Hinv) Hpr]. exists (rel x e). rewrite cmp_tracked.
      destruct (cmp_state x e He) as [-> _]. rewrite (cmp_promoted x e He) in Hpr. rewrite decide_False by done.
      split; [|done]. exists e. split_and!; [done|by apply (Hwp x e)|done].
    + intros (e' & (e & He & Hne & ->)%cmp_tracked & Hs). rewrite (cmp_promoted x e He).
      destruct (cmp_state x e He) as [Hst _]. rewrite Hs in Hst. case_decide as Hd; [done|].
      split; [|done]. apply (vi_waiting _ Hinv). by exists e.
  - done.
  - intros h' t. rewrite F8, lookup_delete_Some, (vi_pending _ Hinv). split.
    + intros (Hne & x & e & He & Hhe & Hs & Ht). exists x, (rel x e). rewrite cmp_tracked.
      destruct (cmp_state x e He) as [-> _]. destruct (Hsame x e) as (-> & -> & _).
      rewrite decide_False by (rewrite Hs; by intros [? _]). split_and!; try done. exists e.
      split_and!; try done. intros ->. rewrite (tracked_fun q p e ep He Hp) in Hhe. congruence.
    + intros (x & e' & (e & He & Hne & ->)%cmp_tracked & Hhe & Hs & Ht). destruct (Hsame x e) as (Hhe' & Ht' & _).
      rewrite Hhe' in Hhe. rewrite Ht' in Ht. destruct (cmp_state x e He) as [Hst _]. rewrite Hs in Hst.
      case_decide; [done|]. split; [|by exists x, e]. intros <-. apply Hne.
      destruct He as [H1 _], Hp as [H2 _]. congruence.
Qed.

Lemma cmp_v2_links : v2_links q'.
Proof.
  assert (∀ x e, te_hash (rel x e) = te_hash e ∧ te_tx (rel x e) = te_tx e ∧
    te_participants (rel x e) = te_participants e ∧ te_blocks (rel x e) = te_blocks e) as Hsame.
  { intros x e. unfold rel. destruct (released_same p (cnt x (te_blocks ep)) e) as (? & ? & ? & ? & _). done. }
  assert (∀ x e, tracked q x e → te_state (rel x e) = stateWaiting → te_state e = stateWaiting) as Hwait.
  { intros x e He. destruct (cmp_state x e He) as [-> _]. by case_decide. }
  constructor.
  - intros x e' (e & He & Hne & ->)%cmp_tracked. destruct (cmp_state x e He) as [-> _].
    case_decide as Hd; [by destruct Hd as [_ ->]|]. split.
    + intros Hby Hs. by apply Hd.
    + intros Hs. apply (vi_unblocked _ Hinv x e He) in Hs. apply elem_of_nil_inv. intros y Hy.
      apply (cmp_by x e y He) in Hy as [Hy _]. rewrite Hs in Hy. by apply not_elem_of_nil in Hy.
  - intros x e' (e & He & Hne & ->)%cmp_tracked Hs. destruct (cmp_state x e He) as [_ Hel].
    rewrite Hel by done. apply (vi_elem _ Hinv x e He). by apply (Hwait x).
  - intros x e' b f' (e & He & Hne & ->)%cmp_tracked (f & Hf & Hnf & ->)%cmp_tracked.
    destruct (Hsame x e) as (_ & _ & _ & ->). rewrite cmp_cnt_by by done. by apply (vi_sym _ Hinv).
  - intros x e' b (e & He & Hne & ->)%cmp_tracked Hb. destruct (Hsame x e) as (_ & _ & _ & Hbl). rewrite Hbl in Hb.
    destruct (vi_blocks _ Hinv x e b He Hb) as [f Hf]. exists (rel b f). apply cmp_tracked. exists f.
    split_and!; try done. intros ->. apply cnt_elem in Hb. rewrite (vi_sym _ Hinv x e p ep He Hp), cmp_unblocked in Hb.
    unfold cnt in Hb. simpl in Hb. lia.
  - intros x e' b (e & He & Hne & ->)%cmp_tracked [Hb Hbp]%(cmp_by x e b He).
    destruct (vi_by _ Hinv x e b He Hb) as [f Hf]. exists (rel b f). apply cmp_tracked. by exists f.
  - intros x e' b f' (e & He & Hne & ->)%cmp_tracked (f & Hf & Hnf & ->)%cmp_tracked Hxb (a & Ha1 & Ha2).
    destruct (Hsame x e) as (_ & _ & Hp1 & _), (Hsame b f) as (_ & _ & Hp2 & _). rewrite Hp1 in Ha1. rewrite Hp2 in Ha2.
    rewrite (cmp_by x e b He), (cmp_by b f x Hf). destruct (vi_linked _ Hinv x e b f He Hf Hxb); [by exists a|auto..].
  - intros x e' b f' (e & He & Hne & ->)%cmp_tracked (f & Hf & Hnf & ->)%cmp_tracked [Hb _]%(cmp_by x e b He) Hs.
    apply (vi_order _ Hinv x e b f); try done. by apply (Hwait b).
  - intros x e' (e & He & Hne & ->)%cmp_tracked. destruct (Hsame x e) as (_ & -> & -> & _). by apply (vi_parts _ Hinv x).
Qed.

Lemma cmp_inv : v2_inv q'.
Proof. split; [apply cmp_lists|apply cmp_v2_links]. Qed.
End complete.

(** ** Histories *)

(** A hash may be completed once its transaction was dequeued, or when it is not
    tracked at all. *)
Definition settled (h : Hash) (q : TxQueueV2) : Prop :=
  ∀ p e, tracked q p e → te_hash e = h → te_state e = statePending.

Inductive v2_step : TxQueueV2 → TxQueueV2 → Prop :=
| step_enqueue q tx : v2_step q (v2_Enqueue range tx q).2
| step_dequeue q r q' : v2_Dequeue q = Done (r, q') → v2_step q q'
| step_complete q h : settled h q → v2_step q (v2_Complete h q)
| step_handle q block :
    (∀ c, c ∈ block → settled (ch_Hash c) q) → v2_step q (v2_Handle block q)
| step_close q : v2_step q (v2_Close q).

Lemma new_inv : v2_inv NewTxQueueV2.
Proof.
  assert (∀ x e, ¬ tracked NewTxQueueV2 x e) as Hno by (by intros x e [? _]).
  split; constructor; simpl.
  all: try (intros; match goal with H : tracked _ ?x ?e |- _ => by destruct (Hno x e H) end).
  all: try (by intros ? ? ?%lookup_empty_Some).
  all: try (by intros ? [? ?]).
  all: try (intros *; split; [by intros ?%not_elem_of_nil|naive_solver]).
  all: try constructor.
  - by rewrite lookup_empty.
  - intros (p & e & ? & _). by destruct (Hno p e).
Qed.

Lemma complete_inv q h :
  v2_inv q → settled h q →
  v2_inv (v2_Complete h q) ∧ (∀ h', settled h' q → settled h' (v2_Complete h q)) ∧
  hashMap (v2_Complete h q) = delete h (hashMap q).
Proof.
  intros Hi Hs. unfold v2_Complete. destruct (hashMap q !! h) as [p|] eqn:E.
  - destruct (hash_tracked q h p Hi E) as (e & He & Hh). pose proof (Hs p e He Hh) as Hp. split_and!.
    + by eapply cmp_inv.
    + intros h' Hs' x e' (f & Hf & Hne & ->)%(cmp_tracked q h p e Hi He Hh).
      destruct (released_same p (cnt x (te_blocks e)) f) as (_ & -> & _). intros Hhf.
      destruct (cmp_state q p e Hi He x f Hf) as [-> _].
      pose proof (Hs' x f Hf Hhf) as Hst. by rewrite decide_False by (rewrite Hst; by intros [? _]).
    + by apply (cmp_fold q h p e).
  - unfold completeUnlocked. rewrite E. cbn [snd]. split_and!; [|done|symmetry; by apply delete_id].
    assert (delete h (pendingMap q) = pendingMap q) as ->.
    { apply delete_id. apply eq_None_ne_Some. intros t (x & f & [Hf _] & <- & _)%(vi_pending _ Hi). congruence. }
    destruct Hi as [[] []]. split; by constructor.
Qed.

Lemma handle_inv block : ∀ q, v2_inv q → (∀ c, c ∈ block → settled (ch_Hash c) q) → v2_inv (v2_Handle block q).
Proof.
  induction block as [|c block IH]; intros q Hi Hs; [done|]. unfold v2_Handle. cbn [foldl].
  unfold v2_Handle_tx at 2. set (q0 := Build_TxQueueV2 _ _ _ _ _ _ _ _ _ _ _ _).
  assert (v2_inv q0) as Hi0 by (destruct Hi as [[] []]; split; by constructor).
  destruct (complete_inv q0 (ch_Hash c) Hi0) as (Hi' & Hs' & _); [by apply Hs; left|].
  apply IH; [done|]. intros c' Hc'. apply Hs'. apply Hs. by right.
Qed.

Lemma step_inv q q' : v2_step q q' → v2_inv q → v2_inv q'.
Proof.
  intros Hst Hi. destruct Hst as [q tx|q r q' Hd|q h Hs|q block Hs|q].
  - destruct (hashMap q !! Tx_Hash tx) eqn:E; [|by apply enq_inv].
    unfold v2_Enqueue. by rewrite decide_True by (rewrite E; by eexists).
  - destruct (readyList q) as [|p rest] eqn:E; [unfold v2_Dequeue in Hd; rewrite E in Hd; by simplify_eq|].
    destruct (deq_inv q p rest Hi E) as (e & q'' & Hd' & _ & _ & Hi' & _). rewrite Hd in Hd'. by simplify_eq.
  - by apply complete_inv.
  - by apply handle_inv.
  - destruct Hi as [[] []]; split; by constructor.
Qed.

Lemma reachable_inv q : rtc v2_step NewTxQueueV2 q → v2_inv q.
Proof.
  intros H. apply (rtc_ind_r (R := v2_step) v2_inv NewTxQueueV2); [apply new_inv| |done].
  intros x y _ Hst. by apply step_inv.
Qed.

(** ** Observable behaviour *)

Lemma isPending_spec q h tx :
  v2_inv q → v2_IsPending h q = Some tx ↔ ∃ p e, tracked q p e ∧ te_hash e = h ∧ te_tx e = tx.
Proof.
  intros Hi. unfold v2_IsPending. destruct (pendingMap q !! h) as [t|] eqn:E.
  - apply (vi_pending _ Hi) in E as (p & e & He & Hh & _ & Ht). split.
    + intros [= <-]. by exists p, e.
    + intros (x & f & Hf & Hhf & Htf). assert (x = p) as -> by (destruct He as [H1 _], Hf as [H2 _]; congruence).
      rewrite (tracked_fun q p f e) in Htf by done. congruence.
  - split.
    + intros (p & Hp & (e & He & Ht)%fmap_Some)%bind_Some.
      destruct (hash_tracked q h p Hi Hp) as (f & Hf & Hh). exists p, f. split_and!; [done..|].
      destruct Hf as [_ Hf]. congruence.
    + intros (p & e & [Hp He] & <- & <-). rewrite Hp. simpl. by rewrite He.
Qed.

Lemma isPending_hash q h : v2_inv q → v2_IsPending h q = None ↔ hashMap q !! h = None.
Proof.
  intros Hi. rewrite !eq_None_not_Some. f_equiv. split.
  - intros [tx (p & e & [Hp _] & <- & _)%isPending_spec]; [by exists p|done].
  - intros [p (e & He & Hh)%(hash_tracked q h p Hi)]. exists (te_tx e). apply isPending_spec; [done|]. by exists p, e.
Qed.

(** Two states with the same view of [h]. *)
Lemma isPending_same q q' h :
  v2_inv q → v2_inv q' →
  (∀ tx, (∃ p e, tracked q p e ∧ te_hash e = h ∧ te_tx e = tx) ↔ (∃ p e, tracked q' p e ∧ te_hash e = h ∧ te_tx e = tx)) →
  v2_IsPending h q' = v2_IsPending h q.
Proof.
  intros Hi Hi' H. apply option_eq. intros tx. by rewrite !isPending_spec, H.
Qed.

Lemma enqueue_view q tx :
  v2_inv q → v2_IsPending (Tx_Hash tx) q = None →
  (v2_Enqueue range tx q).1 = None ∧
  ∀ h, v2_IsPending h (v2_Enqueue range tx q).2 = if decide (h = Tx_Hash tx) then Some tx else v2_IsPending h q.
Proof.
  intros Hi Hn%isPending_hash; [|done]. split; [by apply enq_fields|]. intros h.
  pose proof (enq_inv q tx Hi Hn) as Hi'. case_decide as Hd.
  - apply isPending_spec; [done|]. exists (v_next q), (new_entry q tx). split; [|done].
    apply enq_tracked; auto.
  - apply isPending_same; [done..|]. intros t. split.
    + intros (p & e & He & Hh & Ht). exists p, (upd q tx p e). split; [|done]. apply enq_tracked; eauto.
    + intros (p & e' & [[-> ->]|(e & He & ->)]%enq_tracked & Hh & Ht); [by destruct Hd|by exists p, e|done..].
Qed.

Lemma dequeue_view q r q' h :
  v2_inv q → v2_Dequeue q = Done (r, q') → v2_IsPending h q' = v2_IsPending h q.
Proof.
  intros Hi Hd. destruct (readyList q) as [|p rest] eqn:E; [unfold v2_Dequeue in Hd; rewrite E in Hd; by simplify_eq|].
  destruct (deq_result q p rest Hi E) as (e & q'' & Hd' & He & _ & Hf). rewrite Hd in Hd'. simplify_eq.
  assert (v2_inv q'') as Hi' by (eapply step_inv; [by eapply step_dequeue|done]).
  apply isPending_same; [done..|]. intros t. split.
  - intros (x & f & Hx & Hh & Ht). exists x, (moved p x f). rewrite (deq_tracked q p rest e q'') by done.
    destruct (moved_same p x f) as (-> & -> & _). eauto.
  - intros (x & f' & (f & Hx & ->)%(deq_tracked q p rest e q'') & Hh & Ht); [|done].
    destruct (moved_same p x f) as (Ht' & Hh' & _). rewrite Ht' in Ht. rewrite Hh' in Hh. by exists x, f.
Qed.

Lemma complete_view q h h' :
  v2_inv q → settled h q →
  v2_IsPending h' (v2_Complete h q) = if decide (h' = h) then None else v2_IsPending h' q.
Proof.
  intros Hi Hs. destruct (complete_inv q h Hi Hs) as (Hi' & _ & Hm). case_decide as Hd.
  - subst h'. apply isPending_hash; [done|]. by rewrite Hm, lookup_delete_eq.
  - destruct (hashMap q !! h) as [p|] eqn:E.
    2: { unfold v2_Complete, completeUnlocked, v2_IsPending. rewrite E. simpl. by rewrite lookup_delete_ne. }
    destruct (hash_tracked q h p Hi E) as (ep & Hp & Hh).
    apply isPending_same; [done..|]. intros t. unfold v2_Complete. split.
    + intros (x & f & Hx & Hhf & Ht). eexists x, _. rewrite (cmp_tracked q h p ep) by done. split.
      * exists f. split_and!; [done| |done]. intros ->. rewrite (tracked_fun q p f ep) in Hhf by done. congruence.
      * by destruct (released_same p (cnt x (te_blocks ep)) f) as (-> & -> & _).
    + intros (x & f' & (f & Hx & _ & ->)%(cmp_tracked q h p ep) & Hhf & Ht); [|done..].
      destruct (released_same p (cnt x (te_blocks ep)) f) as (Ht' & Hh' & _).
      rewrite Ht' in Ht. rewrite Hh' in Hhf. by exists x, f.
Qed.

Lemma no_deadlock q : v2_inv q → hashMap q ≠ ∅ → readyList q = [] → pendingMap q ≠ ∅.
Proof.
  intros Hi Hne Hr Hp. apply map_choose in Hne as (h & p & Hhp).
  assert (∀ n x e, v_next q - x ≤ n → ¬ tracked q x e) as Hall.
  { induction n as [|n IH]; intros x e Hn He.
    - assert (x < v_next q) by (apply (vi_fresh _ Hi); exists e; apply He). lia.
    - assert (te_state e = stateWaiting) as Hw.
      { destruct (te_state e) eqn:Es; [|done|].
        - assert (x ∈ readyList q) as Hx by (apply (vi_ready _ Hi); eauto). rewrite Hr in Hx. by apply not_elem_of_nil in Hx.
        - assert (pendingMap q !! te_hash e = Some (te_tx e)) as Hx by (apply (vi_pending _ Hi); eauto 10).
          by rewrite Hp in Hx. }
      destruct (te_isBlockedBy e) as [|b l] eqn:Eb; [by apply (vi_unblocked _ Hi x e He) in Eb|].
      assert (b ∈ te_isBlockedBy e) as Hb by (rewrite Eb; apply list_elem_of_here).
      destruct (vi_by _ Hi x e b He Hb) as [f Hf]. destruct (decide (te_state f = stateWaiting)) as [Hs|Hs].
      + pose proof (vi_order _ Hi x e b f He Hf Hb Hs). apply (IH b f); [lia|done].
      + destruct (te_state f) eqn:Es; [|done|].
        * assert (b ∈ readyList q) as Hx by (apply (vi_ready _ Hi); eauto). rewrite Hr in Hx. by apply not_elem_of_nil in Hx.
        * assert (pendingMap q !! te_hash f = Some (te_tx f)) as Hx by (apply (vi_pending _ Hi); eauto 10).
          by rewrite Hp in Hx. }
  destruct (hash_tracked q h p Hi Hhp) as (e & He & _). by apply (Hall (v_next q - p) p e).
Qed.

(** One worker: dequeue, process, complete, up to [n] times. *)
Fixpoint drain (n : nat) (q : TxQueueV2) : list EthTx * TxQueueV2 :=
  match n with
  | 0 => ([], q)
  | S n =>
      match v2_Dequeue q with
      | Done (DqTx tx, q1) =>
          let '(out, q2) := drain n (v2_Complete (Tx_Hash tx) q1) in (tx :: out, q2)
      | _ => ([], q)
      end
  end.

Lemma complete_pendingMap h q : pendingMap (v2_Complete h q) = delete h (pendingMap q).
Proof.
  unfold v2_Complete, completeUnlocked. destruct (hashMap q !! h); [|done].
  by destruct (foldl _ _ _) as [[[? ?] ?] ?].
Qed.

(** A round of the worker removes one tracked transaction. *)
Lemma drain_round q :
  v2_inv q → pendingMap q = ∅ → hashMap q ≠ ∅ →
  ∃ tx q1, v2_Dequeue q = Done (DqTx tx, q1) ∧
    let q2 := v2_Complete (Tx_Hash tx) q1 in
    v2_inv q2 ∧ pendingMap q2 = ∅ ∧ S (size (hashMap q2)) = size (hashMap q) ∧
    v2_IsPending (Tx_Hash tx) q = Some tx ∧
    ∀ h, v2_IsPending h q2 = if decide (h = Tx_Hash tx) then None else v2_IsPending h q.
Proof.
  intros Hi Hp Hne. destruct (readyList q) as [|p rest] eqn:E; [by destruct (no_deadlock q)|].
  destruct (deq_result q p rest Hi E) as (e & q1 & Hd & He & _ & Hf). exists (te_tx e), q1. split; [done|].
  assert (v2_inv q1) as Hi1 by (eapply step_inv; [by eapply step_dequeue|done]).
  pose proof (vi_tx _ Hi p e He) as Htx.
  assert (tracked q1 p (moved p p e)) as He1 by (apply (deq_tracked q p rest e q1); eauto).
  assert (settled (Tx_Hash (te_tx e)) q1) as Hs.
  { intros x f Hx Hhf. destruct (moved_same p p e) as (_ & Hhm & _).
    assert (x = p) as -> by (destruct He1 as [H1 _], Hx as [H2 _]; congruence).
    rewrite (tracked_fun q1 p f (moved p p e)) by done. unfold moved. by rewrite decide_True. }
  destruct (complete_inv q1 _ Hi1 Hs) as (Hi2 & _ & Hm). destruct Hf as (_ & _ & _ & _ & _ & Hh & Hpm).
  split_and!; [done| | | |].
  - by rewrite complete_pendingMap, Hpm, Hp, Htx, delete_insert_id.
  - rewrite Hm, Hh, Htx. destruct He as [Hx _]. rewrite map_size_delete, Hx. unfold id.
    assert (size (hashMap q) ≠ 0); [|simpl; lia]. by apply map_size_non_empty_iff.
  - apply isPending_spec; [done|]. exists p, e. by rewrite Htx.
  - intros h. rewrite complete_view by done. by rewrite (dequeue_view q (DqTx (te_tx e)) q1).
Qed.

Lemma drain_all n : ∀ q,
  v2_inv q → pendingMap q = ∅ → size (hashMap q) ≤ n →
  hashMap (drain n q).2 = ∅ ∧ NoDup (drain n q).1 ∧
  ∀ tx, tx ∈ (drain n q).1 ↔ v2_IsPending (Tx_Hash tx) q = Some tx.
Proof.
  induction n as [|n IH]; intros q Hi Hp Hn.
  { assert (hashMap q = ∅) as H0 by (apply map_size_empty_iff; lia). simpl. split_and!; [done|constructor|].
    intros tx. split; [by intros ?%not_elem_of_nil|]. intros H.
    assert (v2_IsPending (Tx_Hash tx) q = None) by (apply isPending_hash; [done|by rewrite H0]). congruence. }
  destruct (decide (hashMap q = ∅)) as [H0|Hne].
  - assert (drain (S n) q = ([], q)) as ->.
    { simpl. unfold v2_Dequeue. destruct (readyList q) as [|p l] eqn:E; [by destruct (v_done q)|].
      assert (p ∈ readyList q) as (e & [He _] & _)%(vi_ready _ Hi) by (rewrite E; apply list_elem_of_here).
      by rewrite H0 in He. }
    simpl. split_and!; [done|constructor|]. intros tx. split; [by intros ?%not_elem_of_nil|]. intros H.
    assert (v2_IsPending (Tx_Hash tx) q = None) by (apply isPending_hash; [done|by rewrite H0]). congruence.
  - destruct (drain_round q Hi Hp Hne) as (tx & q1 & Hd & Hi2 & Hp2 & Hsz & Hin & Hv).
    specialize (IH _ Hi2 Hp2). simpl. rewrite Hd. destruct (drain n _) as [out q2]. simpl in *.
    destruct IH as (I1 & I2 & I3); [lia|]. split_and!; [done| |].
    + constructor; [|done]. rewrite I3, Hv, decide_True; done.
    + intros t. rewrite elem_of_cons, I3, Hv. case_decide as Hd'.
      * apply (inj Tx_Hash) in Hd' as ->. naive_solver.
      * split; [intros [->|?]; done|by right].
Qed.

(** C13: exclusion.  In every state the queue reaches (completing only
    transactions that were dequeued or are unknown), two different tracked
    transactions that are ready or being processed have no participant in
    common. *)
Theorem v2_exclusion q p e b f :
  rtc v2_step NewTxQueueV2 q →
  tracked q p e → tracked q b f → p ≠ b →
  te_state e ≠ stateWaiting → te_state f ≠ stateWaiting →
  ∀ a, a ∈ participantsForTx (te_tx e) → a ∉ participantsForTx (te_tx f).
Proof.
  intros Hi%reachable_inv He Hf Hne Hse Hsf a Ha Ha'.
  rewrite <-(vi_parts _ Hi p e He) in Ha. rewrite <-(vi_parts _ Hi b f Hf) in Ha'.
  apply (vi_unblocked _ Hi p e He) in Hse. apply (vi_unblocked _ Hi b f Hf) in Hsf.
  destruct (vi_linked _ Hi p e b f He Hf Hne) as [H|H]; [by exists a| |].
  - rewrite Hse in H. by apply not_elem_of_nil in H.
  - rewrite Hsf in H. by apply not_elem_of_nil in H.
Qed.

(** The queue drains.  In every state it reaches with nothing being
    processed, a worker that dequeues and completes transactions one after the
    other is handed every tracked transaction exactly once and leaves the queue
    empty: no dependency cycle holds a waiting transaction back. *)
Theorem v2_drains q :
  rtc v2_step NewTxQueueV2 q → pendingMap q = ∅ →
  let '(out, q') := drain (Z.to_nat (v2_InFlight q)) q in
  v2_InFlight q' = 0%Z ∧ NoDup out ∧ ∀ tx, tx ∈ out ↔ v2_IsPending (Tx_Hash tx) q = Some tx.
Proof.
  intros Hi%reachable_inv Hp. pose proof (drain_all (size (hashMap q)) q Hi Hp) as H.
  unfold v2_InFlight. rewrite Nat2Z.id. destruct (drain _ q) as [out q']. simpl in H.
  destruct H as (H1 & H2 & H3); [done|]. rewrite H1, map_size_empty. done.
Qed.

(** The queue is a set of pending transactions to its clients.  [Enqueue]
    is refused exactly when the hash is pending and otherwise adds it;
    [Dequeue] hands out a pending transaction and leaves the set alone;
    [Complete] removes its hash. *)
Theorem v2_pending_set q tx h :
  rtc v2_step NewTxQueueV2 q →
  ((v2_Enqueue range tx q).1 = None ↔ v2_IsPending (Tx_Hash tx) q = None) ∧
  v2_IsPending h (v2_Enqueue range tx q).2 =
    (if decide (h = Tx_Hash tx ∧ v2_IsPending h q = None) then Some tx else v2_IsPending h q) ∧
  (∃ r q', v2_Dequeue q = Done (r, q') ∧ v2_IsPending h q' = v2_IsPending h q ∧
     ∀ t, r = DqTx t → v2_IsPending (Tx_Hash t) q = Some t) ∧
  (settled h q → ∀ h', v2_IsPending h' (v2_Complete h q) = if decide (h' = h) then None else v2_IsPending h' q).
Proof.
  intros Hi%reachable_inv. split_and!.
  - destruct (v2_IsPending (Tx_Hash tx) q) eqn:E; [|by split; [|intros _; apply enqueue_view]].
    split; [|done]. unfold v2_Enqueue. case_decide as Hd; [done|]. destruct Hd.
    apply not_eq_None_Some. intros Hn%isPending_hash; [congruence|done].
  - destruct (v2_IsPending (Tx_Hash tx) q) eqn:E.
    + unfold v2_Enqueue. rewrite decide_True by (apply not_eq_None_Some; intros Hn%isPending_hash; [congruence|done]).
      simpl. case_decide as Hd; [|done]. destruct Hd as [-> ?]. congruence.
    + rewrite (proj2 (enqueue_view q tx Hi E)). destruct (decide (h = Tx_Hash tx)) as [->|Hne].
      * by rewrite decide_True.
      * rewrite decide_False by (by intros [? _]). done.
  - destruct (readyList q) as [|p rest] eqn:E.
    + unfold v2_Dequeue. rewrite E. eexists _, q. split_and!; [done..|]. by destruct (v_done q).
    + destruct (deq_result q p rest Hi E) as (e & q1 & Hd & He & _ & Hf). exists (DqTx (te_tx e)), q1.
      split_and!; [done|by eapply dequeue_view|]. intros t [= <-]. apply isPending_spec; [done|].
      exists p, e. by rewrite (vi_tx _ Hi p e He).
  - intros Hs h'. by apply complete_view.
Qed.

(** Enqueueing when no participant is tracked. *)
Lemma enqueue_free q tx :
  hashMap q !! Tx_Hash tx = None → (∀ a, plist q a = []) →
  let entry := {| te_tx := tx; te_hash := Tx_Hash tx; te_participants := participantsForTx tx;
                  te_elem := Some InReady; te_state := stateReady; te_blocks := []; te_isBlockedBy := [] |} in
  let '(err, q') := v2_Enqueue range tx q in
  err = None ∧ v_heap q' = <[v_next q := entry]> (v_heap q) ∧ readyList q' = readyList q ++ [v_next q] ∧
  hashMap q' = <[Tx_Hash tx := v_next q]> (hashMap q) ∧ v_next q' = S (v_next q).
Proof.
  intros Hh Hp. assert (range ∅ = []) as Hr by (apply Permutation_nil_r; by rewrite range_perm, elements_empty).
  assert (scan_conflicts q (participantsForTx tx) = (∅, [])) as Hs.
  { unfold scan_conflicts. induction (participantsForTx tx) as [|a l IH]; [done|]. cbn [foldl].
    pose proof (Hp a) as Ha. unfold plist in Ha. by rewrite Ha. }
  unfold v2_Enqueue. rewrite decide_False by (rewrite Hh; by intros [? ?]). rewrite Hs, Hr.
  rewrite bool_decide_eq_false_2 by (intros H; by apply H). done.
Qed.

(** Completing a transaction right after it was enqueued alone. *)
Lemma complete_free tx :
  let q0 := (v2_Enqueue range tx NewTxQueueV2).2 in
  let q1 := v2_Complete (Tx_Hash tx) q0 in
  hashMap q1 = ∅ ∧ pendingMap q1 = ∅ ∧ readyList q1 = [0] ∧ v_next q1 = 1 ∧
  (te_tx <$> v_heap q1 !! 0) = Some tx ∧ ∀ a, plist q1 a = [].
Proof.
  assert (hashMap NewTxQueueV2 !! Tx_Hash tx = None) as H0 by apply lookup_empty.
  assert (∀ a, plist NewTxQueueV2 a = []) as Hp0 by (intros a; unfold plist; simpl; by rewrite lookup_empty).
  pose proof (enqueue_free NewTxQueueV2 tx H0 Hp0) as E.
  pose proof (enq_plist NewTxQueueV2 tx H0) as Hpl.
  destruct (enq_fields NewTxQueueV2 tx H0) as (_ & _ & _ & _ & _ & Hpm & _).
  destruct (v2_Enqueue range tx NewTxQueueV2) as [err q0]. simpl in *. destruct E as (_ & Hheap & Hr & Hh & Hn).
  unfold v2_Complete, completeUnlocked. rewrite Hh, lookup_insert_eq, Hheap, lookup_insert_eq. simpl.
  split_and!; [by rewrite delete_insert_id by apply lookup_empty|by rewrite Hpm|done|done|by rewrite lookup_insert_eq|].
  intros a. unfold plist. simpl. rewrite forget_participants_lookup by apply participantsForTx_nodup.
  fold (plist q0 a). rewrite Hpl, Hp0. case_decide; [|done]. done.
Qed.

(** A limit of [Complete].  Completing a transaction that was enqueued but
    not dequeued, which a block notification does when another gateway submitted
    it, untracks it but leaves it on the ready list: the queue reports nothing in
    flight and accepts the transaction again, and workers are handed it twice,
    although it is committed. *)
Theorem v2_Complete_ready_stays tx :
  let q1 := v2_Complete (Tx_Hash tx) (v2_Enqueue range tx NewTxQueueV2).2 in
  v2_InFlight q1 = 0%Z ∧ v2_IsPending (Tx_Hash tx) q1 = None ∧
  (v2_Enqueue range tx q1).1 = None ∧
  ∃ q2 q3, v2_Dequeue (v2_Enqueue range tx q1).2 = Done (DqTx tx, q2) ∧
    v2_Dequeue q2 = Done (DqTx tx, q3).
Proof.
  destruct (complete_free tx) as (Hh & Hpm & Hr & Hn & Htx & Hp). set (q1 := v2_Complete _ _) in *. simpl.
  unfold v2_InFlight, v2_IsPending. rewrite Hh, Hpm, map_size_empty, !lookup_empty. split_and!; [done..| |];
    (assert (hashMap q1 !! Tx_Hash tx = None) as Hnone by (rewrite Hh; apply lookup_empty));
    pose proof (enqueue_free q1 tx Hnone Hp) as E;
    destruct (v2_Enqueue range tx q1) as [err q']; destruct E as (-> & Hheap & Hr' & _ & _); [done|].
  rewrite Hr, Hn in Hr'. rewrite Hn in Hheap. simpl. unfold v2_Dequeue at 1. rewrite Hr'. simpl.
  apply fmap_Some in Htx as (e0 & He0 & ->). rewrite Hheap, lookup_insert_ne, He0 by done.
  eexists _, _. split; [reflexivity|]. unfold v2_Dequeue. simpl. rewrite lookup_insert_ne, ?Hheap, lookup_insert_eq by done.
  reflexivity.
Qed.
End v2.

(** ** Concrete runs *)

(** Sender and nonce as in [four_txs]; no call data. *)
Definition four_access : TxAccess four_types four_txs :=
  @Build_TxAccess four_types four_txs (λ _, []) (λ _, true) (λ _, 0%Z) (λ t, Some t.1) (λ _, false).

Definition enq4 (t : bool * bool) (q : @TxQueueV2 four_types four_txs) : @TxQueueV2 four_types four_txs :=
  (@v2_Enqueue four_types four_txs four_access elements t q).2.

(** Two transactions of one sender, the second waiting, and one of another. *)
Definition busy_queue : @TxQueueV2 four_types four_txs :=
  enq4 (true, false) (enq4 (false, true) (enq4 (false, false) NewTxQueueV2)).

Definition busy_entry (t : bool * bool) (blocks : list nat) : @txEntry four_types four_txs :=
  @Build_txEntry four_types four_txs t t [t.1] (Some InReady) stateReady blocks [].

Lemma busy_reachable : rtc (@v2_step four_types four_txs four_access elements) NewTxQueueV2 busy_queue.
Proof.
  eapply rtc_l; [apply (@step_enqueue four_types four_txs four_access elements NewTxQueueV2 (false, false))|].
  eapply rtc_l; [apply (@step_enqueue four_types four_txs four_access elements _ (false, true))|].
  eapply rtc_l; [apply (@step_enqueue four_types four_txs four_access elements _ (true, false))|].
  apply rtc_refl.
Qed.

Lemma v2_exclusion_witness :
  (false : @Address four_types) ∉ @participantsForTx four_types four_txs four_access (true, false).
Proof.
  apply (@v2_exclusion four_types four_txs four_tx_laws four_access elements (λ s, reflexivity _)
    busy_queue 0 (busy_entry (false, false) [1]) 2 (busy_entry (true, false) [])).
  - exact busy_reachable.
  - split; vm_compute; reflexivity.
  - split; vm_compute; reflexivity.
  - discriminate.
  - discriminate.
  - discriminate.
  - apply list_elem_of_here.
Defined.

Lemma v2_drains_witness :
  (drain 3 busy_queue).1 = [(false, false); (true, false); (false, true)] ∧
  NoDup (drain 3 busy_queue).1.
Proof.
  split; [vm_compute; reflexivity|].
  pose proof (@v2_drains four_types four_txs four_tx_laws four_access elements (λ s, reflexivity _)
    busy_queue busy_reachable eq_refl) as H.
  change (Z.to_nat (v2_InFlight busy_queue)) with 3 in H.
  destruct (drain 3 busy_queue) as [out q']. exact (proj1 (proj2 H)).
Defined.

Lemma v2_pending_set_witness :
  ((@v2_Enqueue four_types four_txs four_access elements (false, true) busy_queue).1 = None ↔
   v2_IsPending (T := four_txs) ((false, true) : @Hash four_types) busy_queue = None).
Proof.
  exact (proj1 (@v2_pending_set four_types four_txs four_tx_laws four_access elements (λ s, reflexivity _)
    busy_queue (false, true) (false, true) busy_reachable)).
Defined.

Lemma v2_Complete_ready_stays_witness :
  v2_InFlight (v2_Complete (T := four_txs) ((false, true) : @Hash four_types)
    (enq4 (false, true) NewTxQueueV2)) = 0%Z.
Proof.
  exact (proj1 (@v2_Complete_ready_stays four_types four_txs four_tx_laws four_access elements (λ s, reflexivity _) (false, true))).
Defined.
