(* ===== verification/Domain.v ===== *)
(** * Domain: the gateway's own data and the wire formats behind it

    The records of gateway/domain/models.go, the classification of committed
    transactions in common/events.go, and the interface of what the conversion
    code calls outside the repository: go-ethereum's transaction decoding and
    sender recovery, the protobuf decoding of execution metadata, the JSON
    decoding of logs, and the numeric value of a commit status. *)

From Stdlib Require Import ZArith Lia.
From stdpp Require Import base numbers list strings.
From S2P Require Import Prelude Blocks Geth.

Local Open Scope Z_scope.

(** ** Signed integers *)

(** Conversion to [int64] (two's complement). *)
Definition i64 (z : Z) : Z := int_of_u64 (u64 z).
Definition is_i64 (z : Z) : Prop := - 2 ^ 63 ≤ z < 2 ^ 63.

Lemma u64_i64 z : u64 (i64 z) = u64 z.
Proof.
  unfold i64, int_of_u64. destruct (Z.ltb_spec (u64 z) (2 ^ 63)); [apply u64_u64|].
  unfold u64 in *. replace (z mod 2 ^ 64 - 2 ^ 64) with (z mod 2 ^ 64 + (-1) * 2 ^ 64) by lia.
  rewrite Z.mod_add by lia. apply Z.mod_mod. lia.
Qed.

Lemma i64_small z : is_i64 z → i64 z = z.
Proof.
  intros Hz. unfold is_i64 in Hz. unfold i64, int_of_u64, u64.
  destruct (decide (0 ≤ z)) as [Hp|Hn].
  - rewrite Z.mod_small by lia. destruct (Z.ltb_spec z (2 ^ 63)); lia.
  - replace (z mod 2 ^ 64) with (z + 2 ^ 64).
    + destruct (Z.ltb_spec (z + 2 ^ 64) (2 ^ 63)); lia.
    + symmetry. rewrite <-(Z.mod_add z 1 (2 ^ 64)) by lia. apply Z.mod_small. lia.
Qed.

Lemma i64_range z : is_i64 (i64 z).
Proof.
  unfold i64, int_of_u64, is_i64. pose proof (u64_range z) as H. unfold is_u64 in H.
  destruct (Z.ltb_spec (u64 z) (2 ^ 63)); lia.
Qed.

#[export] Hint Resolve i64_range : gomachine.
#[export] Hint Rewrite u64_i64 : gorewrite.

(** ** gateway/domain/models.go

    Every [[]byte] is an [option byte_slice]: the store tells a nil slice
    (NULL) from an empty one. *)

Record DLog := {
  dl_BlockNumber : Z;
  dl_BlockHash : option byte_slice;
  dl_TxHash : option byte_slice;
  dl_TxIndex : Z;
  dl_LogIndex : Z;
  dl_Address : option byte_slice;
  dl_Topics : list (option byte_slice);
  dl_Data : option byte_slice;
  dl_Timestamp : Z
}.

Record DTransaction := {
  dt_TxHash : option byte_slice;
  dt_BlockHash : option byte_slice;
  dt_BlockNumber : Z;
  dt_TxIndex : Z;
  dt_RawTx : option byte_slice;
  dt_FromAddress : option byte_slice;
  dt_ToAddress : option byte_slice;
  dt_ContractAddress : option byte_slice;
  dt_Status : Z;
  dt_FabricTxID : string;
  dt_FabricTxStatus : Status;
  dt_GasUsed : Z;
  dt_CumulativeGasUsed : Z;
  dt_Logs : list DLog
}.

Record DBlock := {
  db_BlockNumber : Z;
  db_BlockHash : option byte_slice;
  db_ParentHash : option byte_slice;
  db_StateRoot : option byte_slice;
  db_Timestamp : Z;
  db_Transactions : list DTransaction
}.

(** A filter's [BlockHash], [FromBlock] and [ToBlock] are pointers. *)
Record LogFilter := {
  lf_BlockHash : option byte_slice;
  lf_FromBlock : option Z;
  lf_ToBlock : option Z;
  lf_Addresses : list byte_slice;
  lf_Topics : list (list byte_slice)
}.

(** [Transaction.TxType]: the EIP-2718 type byte, 0 for legacy transactions. *)
Definition TxType (t : DTransaction) : Z :=
  match slice_bytes (dt_RawTx t) with
  | [] => 0
  | b :: _ => if b <? 192 then b else 0
  end.

(** ** Code outside the repository *)

(** The two signers the conversion chooses from. *)
Inductive Signer :=
| LatestSignerForChainID (id : Z)
| HomesteadSigner.

Class EthCodec (G : GethTypes) (T : EthTxTypes G) := {
  UnmarshalBinary : byte_slice → option EthTx;
  Tx_ChainId : EthTx → Z;
  types_Sender : Signer → EthTx → option Address;
  CreateAddress : Address → Z → Address;
  BytesToAddress : byte_slice → Address;
  EmptyRootHash : Hash
}.

(** An address is its 20 bytes; 32 zero bytes are the zero hash. *)
Class EthCodecLaws (G : GethTypes) (T : EthTxTypes G) (C : EthCodec G T) := {
  Address_Bytes_length a : length (Address_Bytes a) = 20%nat;
  BytesToAddress_Bytes a : BytesToAddress (Address_Bytes a) = a;
  BytesToHash_zeros : BytesToHash (replicate 32 0) = Hash_zero
}.

(** [endorsementpb.ExecutionMetadata] and the SDK's [state.Log]. *)
Record ExecutionMetadata := {
  md_Status : Z;
  md_Reason : byte_slice;
  md_GasUsed : Z;
  md_Timestamp : Z
}.

Record RawLog := {
  rl_Address : option byte_slice;
  rl_Topics : list (option byte_slice);
  rl_Data : option byte_slice
}.

(** The decoders, and the integer behind the SDK's [blocks.Status]. *)
Class Wire := {
  proto_Unmarshal : byte_slice → option ExecutionMetadata;
  json_Unmarshal : byte_slice → option (list RawLog);
  Status_code : Status → Z;
  Status_of : Z → Status
}.

Class WireLaws (W : Wire) := {
  Status_of_code s : Status_of (Status_code s) = s;
  md_GasUsed_range b md : proto_Unmarshal b = Some md → is_u64 (md_GasUsed md)
}.

(** ** common/events.go *)

Definition ProposalTypeEVMTx : string := "evm_tx".
Definition EXECUTION_STATUS_SUCCESS : Z := 1.
Definition EXECUTION_STATUS_REVERTED : Z := 2.
Definition EXECUTION_STATUS_EXEC_FAILED : Z := 3.

Definition EVMTx (tx : Transaction) : option byte_slice :=
  if bool_decide (tx_EventName tx ≠ ProposalTypeEVMTx)
     || negb (Nat.eqb (length (tx_InputArgs tx)) 1)
  then None
  else tx_InputArgs tx !! 0%nat.

Definition UnmarshalExecutionMetadata `{Wire} (payload : byte_slice)
    : result unit ExecutionMetadata :=
  match proto_Unmarshal payload with Some md => Ok md | None => Err tt end.

Definition ExecutionOutcome `{Wire} (tx : Transaction) : bool * Z :=
  if negb (tx_Valid tx) then (false, 0)
  else match UnmarshalExecutionMetadata (tx_Payload tx) with
       | Err _ => (false, 0)
       | Ok md => (md_Status md =? EXECUTION_STATUS_SUCCESS, md_GasUsed md)
       end.

Definition UnmarshalLogs `{Wire} (event : byte_slice) : result unit (list RawLog) :=
  match event with
  | [] => Ok []
  | _ => match json_Unmarshal event with Some l => Ok l | None => Err tt end
  end.

#[global] Arguments UnmarshalLogs : simpl never.

(** ** Lemmas *)

Lemma EVMTx_Some tx raw : EVMTx tx = Some raw →
  tx_EventName tx = ProposalTypeEVMTx ∧ tx_InputArgs tx = [raw].
Proof.
  unfold EVMTx. case_bool_decide as He; [done|].
  destruct (tx_InputArgs tx) as [|x [|y l]]; simpl; try done.
  intros [= ->]. done.
Qed.

(** Success implies a committed transaction. *)
Lemma ExecutionOutcome_valid `{Wire} tx g : ExecutionOutcome tx = (true, g) → tx_Valid tx = true.
Proof. unfold ExecutionOutcome. by destruct (tx_Valid tx). Qed.

Lemma ExecutionOutcome_gas `{WireLaws} tx : is_u64 (ExecutionOutcome tx).2.
Proof.
  unfold ExecutionOutcome, UnmarshalExecutionMetadata.
  destruct (tx_Valid tx); simpl; [|unfold is_u64; lia].
  destruct (proto_Unmarshal (tx_Payload tx)) as [md|] eqn:E; simpl; [|unfold is_u64; lia].
  by eapply md_GasUsed_range.
Qed.
