(* ===== verification/Convert.v ===== *)
(** * Convert: from committed Fabric blocks to Ethereum blocks and logs

    [ConvertToDomain] and [convertTransaction] (gateway/core/chain.go) build the
    block the store keeps; [logsFromBlock] (gateway/api/filters/match.go)
    extracts the logs the polling filters match against the same Fabric block.
    The theorems say what the converted block holds and that the two paths
    report the same logs. *)

From Stdlib Require Import ZArith Lia.
From stdpp Require Import base numbers list list_numbers strings.
From S2P Require Import Prelude Blocks Geth Domain.

Local Open Scope Z_scope.

(** [types.Log] of go-ethereum, the JSON-RPC shape of a log. *)
Record TLog `{GethTypes} := {
  tl_Address : Address;
  tl_Topics : list Hash;
  tl_Data : option byte_slice;
  tl_BlockNumber : Z;
  tl_TxHash : Hash;
  tl_TxIndex : Z;
  tl_BlockHash : Hash;
  tl_BlockTimestamp : Z;
  tl_Index : Z
}.

Inductive convert_error := InvalidTx | InvalidSender.

Section conversion.
Context {G : GethTypes} {T : EthTxTypes G} {C : EthCodec G T} {W : Wire}.

(** ** gateway/core/chain.go *)

(** A log with its block and transaction context. *)
Definition dlog_of (blockHash : byte_slice) (blockNumber : Z) (hash : byte_slice)
    (txIndex logIndex : Z) (l : RawLog) : DLog := {|
  dl_BlockNumber := blockNumber;
  dl_BlockHash := Some blockHash;
  dl_TxHash := Some hash;
  dl_TxIndex := txIndex;
  dl_LogIndex := logIndex;
  dl_Address := rl_Address l;
  dl_Topics := rl_Topics l;
  dl_Data := rl_Data l;
  dl_Timestamp := 0
|}.

(** The logs of one transaction and the next log index of the block. *)
Definition convertLogs (blockHash : byte_slice) (blockNumber : Z) (hash : byte_slice)
    (txIndex : Z) (rawLogs : list RawLog) (logIndex : Z) : list DLog * Z :=
  foldl (λ acc l, (acc.1 ++ [dlog_of blockHash blockNumber hash txIndex acc.2 l],
                   i64 (acc.2 + 1)))
    ([], logIndex) rawLogs.

(** A chain id selects the latest signer, none the Homestead one. *)
Definition signer_for (ethTx : EthTx) : Signer :=
  if 0 <? Tx_ChainId ethTx then LatestSignerForChainID (Tx_ChainId ethTx)
  else HomesteadSigner.

(** The gas fields are set by the caller; a log payload that does not decode
    is taken as no logs. *)
Definition convertTransaction (ethTxBytes blockHash : byte_slice) (blockNumber txIndex : Z)
    (txID : string) (ethStatus : Z) (fabricStatus : Status) (events : byte_slice)
    (logIndex : Z) : result convert_error (DTransaction * Z) :=
  match UnmarshalBinary ethTxBytes with
  | None => Err InvalidTx
  | Some ethTx =>
      match types_Sender (signer_for ethTx) ethTx with
      | None => Err InvalidSender
      | Some from =>
          let '(to, contractAddr) :=
            match Tx_To ethTx with
            | Some a => (Some (Address_Bytes a), None)
            | None => (None, Some (Address_Bytes (CreateAddress from (Tx_Nonce ethTx))))
            end in
          let hash := Hash_Bytes (Tx_Hash ethTx) in
          let '(logs, logIndex) :=
            if (ethStatus =? 1) && (0 <? length events)%nat then
              let rawLogs := match UnmarshalLogs events with Ok l => l | Err _ => [] end in
              convertLogs blockHash blockNumber hash txIndex rawLogs logIndex
            else ([], logIndex) in
          Ok ({| dt_TxHash := Some hash;
                 dt_BlockHash := Some blockHash;
                 dt_BlockNumber := blockNumber;
                 dt_TxIndex := txIndex;
                 dt_RawTx := Some ethTxBytes;
                 dt_FromAddress := Some (Address_Bytes from);
                 dt_ToAddress := to;
                 dt_ContractAddress := contractAddr;
                 dt_Status := ethStatus;
                 dt_FabricTxID := txID;
                 dt_FabricTxStatus := fabricStatus;
                 dt_GasUsed := 0;
                 dt_CumulativeGasUsed := 0;
                 dt_Logs := logs |}, logIndex)
      end
  end.

(** [etx.GasUsed = ...; etx.CumulativeGasUsed = ...]. *)
Definition with_gas (gasUsed cumulativeGas : Z) (t : DTransaction) : DTransaction := {|
  dt_TxHash := dt_TxHash t; dt_BlockHash := dt_BlockHash t;
  dt_BlockNumber := dt_BlockNumber t; dt_TxIndex := dt_TxIndex t;
  dt_RawTx := dt_RawTx t; dt_FromAddress := dt_FromAddress t;
  dt_ToAddress := dt_ToAddress t; dt_ContractAddress := dt_ContractAddress t;
  dt_Status := dt_Status t; dt_FabricTxID := dt_FabricTxID t;
  dt_FabricTxStatus := dt_FabricTxStatus t;
  dt_GasUsed := gasUsed; dt_CumulativeGasUsed := cumulativeGas;
  dt_Logs := dt_Logs t
|}.

(** The loop of [ConvertToDomain] over the block's transactions. *)
Fixpoint convert_txs (b : Block) (txs : list Transaction) (logIndex cumulativeGas : Z)
    : result convert_error (list DTransaction) :=
  match txs with
  | [] => Ok []
  | tx :: txs =>
      match EVMTx tx with
      | None => convert_txs b txs logIndex cumulativeGas
      | Some ethTxBytes =>
          let '(succeeded, gasUsed) := ExecutionOutcome tx in
          let status := if succeeded then 1 else 0 in
          let cumulativeGas := u64 (cumulativeGas + gasUsed) in
          match convertTransaction ethTxBytes (b_Hash b) (b_Number b) (tx_Number tx)
                  (tx_ID tx) status (tx_Status tx) (tx_Event tx) logIndex with
          | Err e => Err e
          | Ok (etx, logIndex) =>
              match convert_txs b txs logIndex cumulativeGas with
              | Err e => Err e
              | Ok rest => Ok (with_gas gasUsed cumulativeGas etx :: rest)
              end
          end
      end
  end.

Definition ConvertToDomain (b : Block) : result convert_error DBlock :=
  match convert_txs b (b_Transactions b) 0 0 with
  | Err e => Err e
  | Ok txs => Ok {| db_BlockNumber := b_Number b;
                    db_BlockHash := Some (b_Hash b);
                    db_ParentHash := Some (b_ParentHash b);
                    db_StateRoot := None;
                    db_Timestamp := b_Timestamp b;
                    db_Transactions := txs |}
  end.

(** ** gateway/api/filters *)

Definition tlog_of (b : Block) (txHash : Hash) (txIndex logIndex : Z) (l : RawLog) : TLog := {|
  tl_Address := BytesToAddress (slice_bytes (rl_Address l));
  tl_Topics := (λ t, BytesToHash (slice_bytes t)) <$> rl_Topics l;
  tl_Data := rl_Data l;
  tl_BlockNumber := b_Number b;
  tl_TxHash := txHash;
  tl_TxIndex := txIndex;
  tl_BlockHash := BytesToHash (b_Hash b);
  tl_BlockTimestamp := 0;
  tl_Index := logIndex
|}.

(** The inner loop of [logsFromBlock]. *)
Definition tlogs_of (b : Block) (txHash : Hash) (txIndex : Z) (raw : list RawLog)
    (logIndex : Z) : list TLog * Z :=
  foldl (λ acc l, (acc.1 ++ [tlog_of b txHash txIndex acc.2 l], u64 (acc.2 + 1)))
    ([], logIndex) raw.

Definition logs_tx (b : Block) (acc : list TLog * Z) (tx : Transaction) : list TLog * Z :=
  match EVMTx tx with
  | None => acc
  | Some ethTxBytes =>
      if negb (tx_Valid tx) || (length (tx_Event tx) =? 0)%nat then acc
      else if negb (ExecutionOutcome tx).1 then acc
      else match UnmarshalLogs (tx_Event tx) with
           | Err _ => acc
           | Ok [] => acc
           | Ok raw =>
               match UnmarshalBinary ethTxBytes with
               | None => acc
               | Some ethTx =>
                   let '(out, logIndex) :=
                     tlogs_of b (Tx_Hash ethTx) (u64 (tx_Number tx)) raw acc.2 in
                   (acc.1 ++ out, logIndex)
               end
           end
  end.

Definition logsFromBlock (b : Block) : list TLog :=
  (foldl (logs_tx b) ([], 0) (b_Transactions b)).1.

Definition DomainLogToTypes (l : DLog) : TLog := {|
  tl_Address := BytesToAddress (slice_bytes (dl_Address l));
  tl_Topics := (λ t, BytesToHash (slice_bytes t)) <$> dl_Topics l;
  tl_Data := dl_Data l;
  tl_BlockNumber := dl_BlockNumber l;
  tl_TxHash := BytesToHash (slice_bytes (dl_TxHash l));
  tl_TxIndex := u64 (dl_TxIndex l);
  tl_BlockHash := BytesToHash (slice_bytes (dl_BlockHash l));
  tl_BlockTimestamp := u64 (dl_Timestamp l);
  tl_Index := u64 (dl_LogIndex l)
|}.

(** The logs of a block in the order the store sees them. *)
Definition block_logs (ebl : DBlock) : list DLog :=
  concat (dt_Logs <$> db_Transactions ebl).
End conversion.

(** ** Lemmas *)

(** A loop that appends one element per item and steps an index. *)
Lemma foldl_index_app {A B} (f : Z → A → B) (nx : Z → Z) (acc : list B) (n : Z) (l : list A) :
  foldl (λ s x, (s.1 ++ [f s.2 x], nx s.2)) (acc, n) l =
  let r := foldl (λ s x, (s.1 ++ [f s.2 x], nx s.2)) ([], n) l in (acc ++ r.1, r.2).
Proof.
  revert acc n. induction l as [|x l IH]; intros acc n; simpl; [by rewrite app_nil_r|].
  rewrite (IH (acc ++ _)), (IH [_]). simpl. by rewrite <-app_assoc.
Qed.

Section conversion_props.
Context {G : GethTypes} {GL : GethLaws G} {T : EthTxTypes G} {C : EthCodec G T}
  {W : Wire}.

Lemma convertLogs_cons bh bn h ti l raw i :
  convertLogs bh bn h ti (l :: raw) i =
  let r := convertLogs bh bn h ti raw (i64 (i + 1)) in
  (dlog_of bh bn h ti i l :: r.1, r.2).
Proof.
  exact (foldl_index_app (dlog_of bh bn h ti) (λ i, i64 (i + 1)) [_] _ raw).
Qed.

Lemma tlogs_of_cons b h ti l raw i :
  tlogs_of b h ti (l :: raw) i =
  let r := tlogs_of b h ti raw (u64 (i + 1)) in (tlog_of b h ti i l :: r.1, r.2).
Proof.
  exact (foldl_index_app (tlog_of b h ti) (λ i, u64 (i + 1)) [_] _ raw).
Qed.

(** The two loops walk the same logs with the same indices. *)
Lemma tlogs_convertLogs b h ti raw i :
  tlogs_of b h (u64 ti) raw (u64 i) =
  let r := convertLogs (b_Hash b) (b_Number b) (Hash_Bytes h) ti raw i in
  (DomainLogToTypes <$> r.1, u64 r.2).
Proof.
  revert i. induction raw as [|l raw IH]; intros i; [done|].
  rewrite tlogs_of_cons, convertLogs_cons. cbn zeta. simpl.
  replace (u64 (u64 i + 1)) with (u64 (i64 (i + 1)))
    by (autorewrite with gorewrite; done).
  rewrite IH. simpl. unfold tlog_of, DomainLogToTypes at 2. simpl.
  by rewrite BytesToHash_Bytes, u64_0.
Qed.

Lemma convertTransaction_Ok raw b txn id st fs ev li etx li' :
  convertTransaction raw (b_Hash b) (b_Number b) txn id st fs ev li = Ok (etx, li') →
  ∃ ethTx from, UnmarshalBinary raw = Some ethTx ∧
    types_Sender (signer_for ethTx) ethTx = Some from ∧
    (dt_Logs etx, li') =
      (if (st =? 1) && (0 <? length ev)%nat then
         convertLogs (b_Hash b) (b_Number b) (Hash_Bytes (Tx_Hash ethTx)) txn
           match UnmarshalLogs ev with Ok l => l | Err _ => [] end li
       else ([], li)) ∧
    dt_RawTx etx = Some raw ∧ dt_TxHash etx = Some (Hash_Bytes (Tx_Hash ethTx)) ∧
    dt_BlockHash etx = Some (b_Hash b) ∧ dt_BlockNumber etx = b_Number b ∧
    dt_TxIndex etx = txn ∧ dt_Status etx = st ∧ dt_FabricTxID etx = id ∧
    dt_FabricTxStatus etx = fs ∧ dt_FromAddress etx = Some (Address_Bytes from) ∧
    dt_ToAddress etx = Address_Bytes <$> Tx_To ethTx ∧
    dt_ContractAddress etx = match Tx_To ethTx with
      | Some _ => None
      | None => Some (Address_Bytes (CreateAddress from (Tx_Nonce ethTx)))
      end.
Proof.
  unfold convertTransaction. destruct (UnmarshalBinary raw) as [ethTx|]; [|done].
  destruct (types_Sender _ ethTx) as [from|] eqn:Hs; [|done].
  destruct (if (st =? 1) && (0 <? length ev)%nat then _ else _) as [logs li2] eqn:Hl.
  destruct (Tx_To ethTx) as [a|] eqn:Ht; intros [= <- <-]; exists ethTx, from; simpl;
    split_and!; try done; by rewrite Ht.
Qed.

(** One transaction contributes the same logs on both paths. *)
Lemma logs_tx_convert b acc tx raw etx li li' :
  acc.2 = u64 li → EVMTx tx = Some raw →
  convertTransaction raw (b_Hash b) (b_Number b) (tx_Number tx) (tx_ID tx)
    (if (ExecutionOutcome tx).1 then 1 else 0) (tx_Status tx) (tx_Event tx) li
  = Ok (etx, li') →
  logs_tx b acc tx = (acc.1 ++ (DomainLogToTypes <$> dt_Logs etx), u64 li').
Proof.
  intros Hacc Hraw Hc. destruct (convertTransaction_Ok _ _ _ _ _ _ _ _ _ _ Hc)
    as (ethTx & from & Hu & _ & Hl & _).
  unfold logs_tx. rewrite Hraw, Hu.
  assert (∀ x : list TLog * Z, x = acc → x = (acc.1 ++ [], u64 li)) as Hskip.
  { intros x ->. rewrite app_nil_r, <-Hacc. by destruct acc. }
  destruct (ExecutionOutcome tx) as [[] g] eqn:Ho; simpl in *.
  - rewrite (ExecutionOutcome_valid tx g Ho). simpl.
    destruct (tx_Event tx) as [|e ev] eqn:Hev.
    + simpl in *. injection Hl as -> ->. by apply Hskip.
    + cbn [length Nat.eqb]. simpl in Hl.
      destruct (UnmarshalLogs (e :: ev)) as [[|l ls]|] eqn:Hr.
      * change (convertLogs _ _ _ _ [] li) with (@nil DLog, li) in Hl.
        injection Hl as -> ->. by apply Hskip.
      * rewrite Hacc, tlogs_convertLogs. by rewrite <-Hl.
      * change (convertLogs _ _ _ _ [] li) with (@nil DLog, li) in Hl.
        injection Hl as -> ->. by apply Hskip.
  - injection Hl as -> ->. destruct (negb _ || _); by apply Hskip.
Qed.

Lemma logs_tx_skip b acc tx : EVMTx tx = None → logs_tx b acc tx = acc.
Proof. unfold logs_tx. by intros ->. Qed.

Lemma convert_txs_logs b txs li g etxs acc :
  acc.2 = u64 li → convert_txs b txs li g = Ok etxs →
  (foldl (logs_tx b) acc txs).1 =
  acc.1 ++ (DomainLogToTypes <$> concat (dt_Logs <$> etxs)).
Proof.
  revert li g etxs acc. induction txs as [|tx txs IH]; intros li g etxs acc Hacc; simpl.
  { intros [= <-]. by rewrite app_nil_r. }
  destruct (EVMTx tx) as [raw|] eqn:Hraw.
  - pose proof (logs_tx_convert b acc tx raw) as Hstep.
    destruct (ExecutionOutcome tx) as [ok gas] eqn:Ho. simpl in Hstep.
    destruct (convertTransaction _ _ _ _ _ _ _ _ _) as [[etx li']|] eqn:Hc; [|done].
    destruct (convert_txs b txs li' _) as [rest|] eqn:Hrest; [|done].
    intros [= <-]. simpl. rewrite (Hstep etx li li') by done.
    rewrite (IH li' _ rest) by done. simpl. rewrite fmap_app. by rewrite app_assoc.
  - rewrite logs_tx_skip by done. by apply IH.
Qed.

(** ** What the converted block holds *)

Definition evm_txs (b : Block) : list Transaction :=
  filter (λ tx, is_Some (EVMTx tx)) (b_Transactions b).

(** The bytes are a transaction whose sender can be recovered. *)
Definition tx_decodes (raw : byte_slice) : Prop :=
  ∃ ethTx from, UnmarshalBinary raw = Some ethTx ∧
    types_Sender (signer_for ethTx) ethTx = Some from.

(** The stored form of one committed transaction, logs and cumulative gas apart. *)
Definition converted (b : Block) (tx : Transaction) (etx : DTransaction) : Prop :=
  ∃ raw ethTx from, EVMTx tx = Some raw ∧ UnmarshalBinary raw = Some ethTx ∧
    types_Sender (signer_for ethTx) ethTx = Some from ∧
    dt_RawTx etx = Some raw ∧ dt_TxHash etx = Some (Hash_Bytes (Tx_Hash ethTx)) ∧
    dt_BlockHash etx = Some (b_Hash b) ∧ dt_BlockNumber etx = b_Number b ∧
    dt_TxIndex etx = tx_Number tx ∧ dt_FabricTxID etx = tx_ID tx ∧
    dt_FabricTxStatus etx = tx_Status tx ∧
    dt_FromAddress etx = Some (Address_Bytes from) ∧
    dt_ToAddress etx = Address_Bytes <$> Tx_To ethTx ∧
    (dt_ContractAddress etx = None ↔ is_Some (Tx_To ethTx)) ∧
    dt_Status etx = (if (ExecutionOutcome tx).1 then 1 else 0) ∧
    dt_GasUsed etx = (ExecutionOutcome tx).2 ∧
    (tx_Valid tx = false → dt_Status etx = 0 ∧ dt_GasUsed etx = 0) ∧
    (dt_Status etx = 0 → dt_Logs etx = []) ∧
    Forall (λ l, dl_BlockNumber l = b_Number b ∧ dl_BlockHash l = Some (b_Hash b) ∧
                 dl_TxHash l = dt_TxHash etx ∧ dl_TxIndex l = tx_Number tx) (dt_Logs etx).

Lemma convertLogs_context bh bn h ti raw i :
  Forall (λ l, dl_BlockNumber l = bn ∧ dl_BlockHash l = Some bh ∧
               dl_TxHash l = Some h ∧ dl_TxIndex l = ti) (convertLogs bh bn h ti raw i).1.
Proof.
  revert i. induction raw as [|l raw IH]; intros i; [constructor|].
  rewrite convertLogs_cons. constructor; [done|apply IH].
Qed.

Lemma convertLogs_next bh bn h ti raw i :
  is_i64 i →
  (convertLogs bh bn h ti raw i).2 = i64 (i + Z.of_nat (length (convertLogs bh bn h ti raw i).1)).
Proof.
  revert i. induction raw as [|l raw IH]; intros i Hi.
  { simpl. rewrite Z.add_0_r. by rewrite i64_small. }
  rewrite convertLogs_cons. cbn zeta. simpl. rewrite IH by apply i64_range.
  unfold i64 at 1. rewrite <-u64_add_l, u64_i64, u64_add_l. unfold i64. do 2 f_equal. lia.
Qed.

Lemma convertLogs_indices bh bn h ti raw i n :
  is_i64 i → length (convertLogs bh bn h ti raw i).1 = n → i + Z.of_nat n ≤ 2 ^ 63 →
  dl_LogIndex <$> (convertLogs bh bn h ti raw i).1 = seqZ i (Z.of_nat n).
Proof.
  revert i n. induction raw as [|l raw IH]; intros i n Hi.
  { simpl. by intros <- _. }
  rewrite convertLogs_cons. cbn zeta. simpl. intros <- Hb.
  rewrite Nat2Z.inj_succ, seqZ_cons by lia. simpl. f_equal.
  rewrite Z.pred_succ. unfold is_i64 in *.
  destruct (decide (i + 1 = 2 ^ 63)) as [Heq|Hne].
  - destruct raw as [|r raw]; [done|].
    rewrite convertLogs_cons in Hb. cbn zeta in Hb. simpl in Hb. lia.
  - assert (i64 (i + 1) = i + 1) as Hs by (apply i64_small; unfold is_i64; lia).
    rewrite Hs in Hb |- *. rewrite <-Z.add_1_r.
    apply (IH (i + 1)); [unfold is_i64; lia|done|lia].
Qed.

(** A head transaction of the loop that converts. *)
Lemma convert_txs_inv b tx raw txs li g etxs :
  EVMTx tx = Some raw → convert_txs b (tx :: txs) li g = Ok etxs →
  ∃ etx li' rest, etxs = with_gas (ExecutionOutcome tx).2
      (u64 (g + (ExecutionOutcome tx).2)) etx :: rest ∧
    convertTransaction raw (b_Hash b) (b_Number b) (tx_Number tx) (tx_ID tx)
      (if (ExecutionOutcome tx).1 then 1 else 0) (tx_Status tx) (tx_Event tx) li
      = Ok (etx, li') ∧
    convert_txs b txs li' (u64 (g + (ExecutionOutcome tx).2)) = Ok rest.
Proof.
  intros Hraw. simpl. rewrite Hraw. destruct (ExecutionOutcome tx) as [ok gas]. simpl.
  destruct (convertTransaction _ _ _ _ _ _ _ _ _) as [[etx li']|]; [|done].
  destruct (convert_txs b txs li' _) as [rest|] eqn:Hrest; [|done].
  intros [= <-]. by exists etx, li', rest.
Qed.

Lemma convert_txs_None b tx txs li g :
  EVMTx tx = None → convert_txs b (tx :: txs) li g = convert_txs b txs li g.
Proof. simpl. by intros ->. Qed.

(** The logs a conversion adds, and the index it leaves. *)
Lemma convertTransaction_logs raw b txn id st fs ev li etx li' :
  convertTransaction raw (b_Hash b) (b_Number b) txn id st fs ev li = Ok (etx, li') →
  is_i64 li →
  (st = 0 → dt_Logs etx = []) ∧
  li' = i64 (li + Z.of_nat (length (dt_Logs etx))) ∧
  (li + Z.of_nat (length (dt_Logs etx)) ≤ 2 ^ 63 →
   dl_LogIndex <$> dt_Logs etx = seqZ li (Z.of_nat (length (dt_Logs etx)))) ∧
  Forall (λ l, dl_BlockNumber l = b_Number b ∧ dl_BlockHash l = Some (b_Hash b) ∧
               dl_TxHash l = dt_TxHash etx ∧ dl_TxIndex l = txn) (dt_Logs etx).
Proof.
  intros Hc Hi. destruct (convertTransaction_Ok _ _ _ _ _ _ _ _ _ _ Hc)
    as (ethTx & from & _ & _ & Hl & _ & Hh & _). rewrite Hh.
  destruct ((st =? 1) && _) eqn:Hg.
  - match type of Hl with _ = convertLogs ?bh ?bn ?h ?ti ?r ?i =>
      pose proof (convertLogs_next bh bn h ti r i Hi) as Hn;
      pose proof (convertLogs_indices bh bn h ti r i _ Hi eq_refl) as Hx;
      pose proof (convertLogs_context bh bn h ti r i) as Hf
    end.
    rewrite <-Hl in Hn, Hx, Hf. simpl in *. split_and!; try done.
    intros ->. done.
  - injection Hl as -> ->. simpl. rewrite Z.add_0_r, i64_small by done.
    by split_and!.
Qed.

Lemma convert_txs_converted b txs li g etxs :
  is_i64 li → convert_txs b txs li g = Ok etxs →
  Forall2 (converted b) (filter (λ tx, is_Some (EVMTx tx)) txs) etxs.
Proof.
  revert li g etxs. induction txs as [|tx txs IH]; intros li g etxs Hi.
  { simpl. intros [= <-]. constructor. }
  destruct (EVMTx tx) as [raw|] eqn:Hraw.
  - intros H. destruct (convert_txs_inv _ _ _ _ _ _ _ Hraw H) as (etx & li' & rest & -> & Hc & Hr).
    destruct (convertTransaction_logs _ _ _ _ _ _ _ _ _ _ Hc Hi) as (H0 & -> & _ & Hf).
    rewrite filter_cons_True by (rewrite Hraw; done).
    constructor; [|eapply IH, Hr; apply i64_range].
    destruct (convertTransaction_Ok _ _ _ _ _ _ _ _ _ _ Hc) as
      (ethTx & from & Hu & Hs & _ & ? & ? & ? & ? & ? & Hst & ? & ? & ? & ? & Hca).
    exists raw, ethTx, from. simpl. split_and!; try done.
    + rewrite Hca. destruct (Tx_To ethTx); by split; [|intros []].
    + intros Hv. rewrite Hst. unfold ExecutionOutcome. by rewrite Hv.
    + rewrite Hst. done.
  - rewrite convert_txs_None by done. rewrite filter_cons_False by (rewrite Hraw; by intros []).
    by apply IH.
Qed.

Lemma convert_txs_gas b txs li g etxs :
  is_u64 g → convert_txs b txs li g = Ok etxs → ∀ i etx, etxs !! i = Some etx →
  dt_CumulativeGasUsed etx = u64 (g + foldr Z.add 0 (dt_GasUsed <$> take (S i) etxs)).
Proof.
  revert li g etxs. induction txs as [|tx txs IH]; intros li g etxs Hg.
  { simpl. by intros [= <-]. }
  destruct (EVMTx tx) as [raw|] eqn:Hraw.
  - intros H. destruct (convert_txs_inv _ _ _ _ _ _ _ Hraw H) as (etx & li' & rest & -> & _ & Hr).
    intros [|i] x; simpl.
    + intros [= <-]. simpl. f_equal. lia.
    + intros Hx. rewrite (IH _ _ _ (u64_range _) Hr i x Hx), u64_add_l. f_equal. symmetry. apply Z.add_assoc.
  - rewrite convert_txs_None by done. by apply IH.
Qed.

Lemma convert_txs_indices b txs li g etxs n :
  is_i64 li → convert_txs b txs li g = Ok etxs →
  length (concat (dt_Logs <$> etxs)) = n → li + Z.of_nat n ≤ 2 ^ 63 →
  dl_LogIndex <$> concat (dt_Logs <$> etxs) = seqZ li (Z.of_nat n).
Proof.
  revert li g etxs n. induction txs as [|tx txs IH]; intros li g etxs n Hi.
  { simpl. intros [= <-] <- _. done. }
  destruct (EVMTx tx) as [raw|] eqn:Hraw.
  - intros H. destruct (convert_txs_inv _ _ _ _ _ _ _ Hraw H) as (etx & li' & rest & -> & Hc & Hr).
    destruct (convertTransaction_logs _ _ _ _ _ _ _ _ _ _ Hc Hi) as (_ & -> & Hx & _).
    rewrite fmap_cons. cbn [concat dt_Logs with_gas].
    rewrite length_app, fmap_app. intros <- Hb. rewrite Hx by lia.
    rewrite Nat2Z.inj_add, seqZ_app by lia. f_equal.
    destruct (concat (dt_Logs <$> rest)) as [|l ls] eqn:Hrest; [done|].
    rewrite <-Hrest in *. assert (0 < Z.of_nat (length (concat (dt_Logs <$> rest))))
      by (rewrite Hrest; simpl; lia). unfold is_i64 in *.
    rewrite i64_small in Hr by (unfold is_i64; lia).
    eapply IH; [|exact Hr|done|lia]. unfold is_i64. lia.
  - rewrite convert_txs_None by done. by apply IH.
Qed.

Lemma convert_txs_Err b txs li g e :
  convert_txs b txs li g = Err e →
  ∃ tx raw, tx ∈ txs ∧ EVMTx tx = Some raw ∧ ¬ tx_decodes raw.
Proof.
  revert li g. induction txs as [|tx txs IH]; intros li g; [done|].
  destruct (EVMTx tx) as [raw|] eqn:Hraw.
  - simpl. rewrite Hraw. destruct (ExecutionOutcome tx) as [ok gas].
    destruct (convertTransaction _ _ _ _ _ _ _ _ _) as [[etx li']|] eqn:Hc.
    + destruct (convert_txs b txs li' _) as [|e'] eqn:Hr; [done|]. intros [= ->].
      destruct (IH _ _ Hr) as (t & r & ? & ?). exists t, r.
      split; [by apply list_elem_of_further|done].
    + intros _. exists tx, raw. split_and!; [apply list_elem_of_here|done|].
      intros (ethTx & from & Hu & Hs). unfold convertTransaction in Hc.
      rewrite Hu, Hs in Hc. repeat case_match; done.
  - rewrite convert_txs_None by done. intros H. destruct (IH _ _ H) as (t & r & ? & ?).
    exists t, r. split; [by apply list_elem_of_further|done].
Qed.

(** ** The properties *)

(** What a converted block holds.  [ConvertToDomain] fails exactly on a
    committed EVM transaction that does not decode or has no recoverable
    sender.  Otherwise the block carries, in order, one transaction per EVM
    transaction of the Fabric block with its bytes, hash, sender, recipient or
    created contract, commit status and execution outcome (an uncommitted
    transaction is failed and used no gas, a failed one has no logs); each
    cumulative gas is the sum up to it modulo 2^64; and the logs of the whole
    block are numbered 0, 1, 2, ... across its transactions. *)
Theorem ConvertToDomain_spec b :
  match ConvertToDomain b with
  | Err _ => ∃ tx raw, tx ∈ b_Transactions b ∧ EVMTx tx = Some raw ∧ ¬ tx_decodes raw
  | Ok ebl =>
      (db_BlockNumber ebl = b_Number b ∧ db_BlockHash ebl = Some (b_Hash b) ∧
       db_Timestamp ebl = b_Timestamp b) ∧
      Forall2 (converted b) (evm_txs b) (db_Transactions ebl) ∧
      (∀ i etx, db_Transactions ebl !! i = Some etx →
         dt_CumulativeGasUsed etx =
         u64 (foldr Z.add 0 (dt_GasUsed <$> take (S i) (db_Transactions ebl)))) ∧
      (Z.of_nat (length (block_logs ebl)) ≤ 2 ^ 63 →
       dl_LogIndex <$> block_logs ebl = seqZ 0 (Z.of_nat (length (block_logs ebl))))
  end.
Proof.
  unfold ConvertToDomain. destruct (convert_txs b _ 0 0) as [etxs|e] eqn:H.
  - assert (is_i64 0 ∧ is_u64 0) as [Hi Hu] by (unfold is_i64, is_u64; lia).
    simpl. split_and!; try done.
    + by apply (convert_txs_converted _ _ _ _ _ Hi H).
    + intros i etx Hx. apply (convert_txs_gas _ _ _ _ _ Hu H i etx Hx).
    + intros Hb. by apply (convert_txs_indices _ _ _ _ _ _ Hi H).
  - by apply (convert_txs_Err _ _ _ _ _ H).
Qed.

(** The live and the stored log paths agree.  For every Fabric block that
    converts, the logs [logsFromBlock] hands to the polling filters are, one by
    one and in order, the logs [ConvertToDomain] stores, in JSON-RPC form:
    same address, topics, data, transaction hash and index and same log index
    within the block. *)
Theorem live_logs_are_stored_logs b ebl (Hc : ConvertToDomain b = Ok ebl) :
  logsFromBlock b = DomainLogToTypes <$> block_logs ebl.
Proof.
  unfold ConvertToDomain in Hc. destruct (convert_txs b _ 0 0) as [etxs|] eqn:H; [|done].
  injection Hc as <-. unfold logsFromBlock, block_logs. simpl.
  by rewrite (convert_txs_logs b _ 0 0 etxs ([], 0)).
Qed.
End conversion_props.

(** ** A concrete wire format

    One payload byte gives the status, the event bytes list one log each (a
    topic made of the byte); a transaction is its first two bytes. *)

Definition demo_codec : EthCodec four_types four_txs :=
  @Build_EthCodec four_types four_txs
    (λ b, match b with
          | x :: y :: _ => Some (bool_decide (x = 1), bool_decide (y = 1))
          | _ => None
          end)
    (λ _, 1) (λ _ t, Some t.1) (λ a n, negb a) (λ b, bool_decide (last b = Some 10))
    (true, true).

#[export] Instance demo_codec_laws : EthCodecLaws four_types four_txs demo_codec.
Proof. constructor; [by intros []..|done]. Qed.

Definition demo_wire : Wire := {|
  proto_Unmarshal := λ p, match p with [s] => Some {| md_Status := s; md_Reason := [];
    md_GasUsed := 21000; md_Timestamp := 1000 |} | _ => None end;
  json_Unmarshal := λ e, Some ((λ x, {| rl_Address := Some (replicate 20 x);
    rl_Topics := [Some (replicate 32 x)]; rl_Data := Some [x] |}) <$> e);
  Status_code := λ s, match s with
    | StatusUnknown => 0 | StatusCommitted => 1 | StatusMVCCConflict => 2
    | StatusInvalidSignature => 3 | StatusOther c => if c <? 0 then c else c + 4 end;
  Status_of := λ z, if z =? 0 then StatusUnknown else if z =? 1 then StatusCommitted
    else if z =? 2 then StatusMVCCConflict else if z =? 3 then StatusInvalidSignature
    else StatusOther (if z <? 0 then z else z - 4)
|}.

#[export] Instance demo_wire_laws : WireLaws demo_wire.
Proof.
  constructor; simpl.
  - intros []; simpl; try done. destruct (Z.ltb_spec code 0);
      repeat (case_match; try lia); f_equal; lia.
  - intros [|s [|]] md; simpl; try done. intros [= <-]. unfold is_u64. simpl. lia.
Qed.

(** An EVM transaction with the given bytes, status byte and events. *)
Definition evm_tx (id : string) (n : Z) (raw : byte_slice) (st : Status) (payload : Z)
    (events : byte_slice) : Transaction := {|
  tx_ID := id; tx_Number := n; tx_Status := st; tx_NsRWS := [];
  tx_EventName := ProposalTypeEVMTx; tx_Event := events;
  tx_InputArgs := [raw]; tx_Payload := [payload]
|}.

(** Two successful transactions with logs, one MVCC-rejected, one not EVM. *)
Definition demo_block : Block := {|
  b_Number := 7; b_Hash := replicate 32 7; b_ParentHash := replicate 32 6; b_Timestamp := 1007;
  b_Transactions := [
    evm_tx "a" 0 [1; 0] StatusCommitted 1 [10; 11];
    evm_tx "b" 1 [0; 1] StatusMVCCConflict 1 [12];
    {| tx_ID := "cfg"; tx_Number := 2; tx_Status := StatusCommitted; tx_NsRWS := [];
       tx_EventName := ""; tx_Event := []; tx_InputArgs := []; tx_Payload := [] |};
    evm_tx "c" 3 [1; 1] StatusCommitted 1 [13]
  ]
|}.

#[local] Existing Instances four_types four_txs demo_codec demo_wire.

Lemma live_logs_are_stored_logs_witness :
  ∃ ebl, ConvertToDomain demo_block = Ok ebl ∧ length (block_logs ebl) = 3%nat ∧
    dl_LogIndex <$> block_logs ebl = [0; 1; 2] ∧
    (dt_CumulativeGasUsed <$> db_Transactions ebl) = [21000; 21000; 42000] ∧
    logsFromBlock demo_block = DomainLogToTypes <$> block_logs ebl.
Proof.
  destruct (ConvertToDomain demo_block) as [ebl|] eqn:E; [|discriminate E].
  exists ebl. split; [reflexivity|].
  pose proof (live_logs_are_stored_logs demo_block ebl E) as H.
  injection E as <-. split_and!; [reflexivity..|exact H].
Defined.
