(* ===== verification/Store.v ===== *)
(** * Store: the gateway's block store over SQL tables

    The tables of gateway/storage/schema.sql as lists of rows, the statements of
    query.sql (generated Go: query.sql.go) with the constraints the schema puts
    on them, and the operations of store.go and snapshot_store.go on top.  SQL
    is modelled as far as the statements use it: NULL never compares equal, a
    CHECK passes on NULL, NOT NULL and CHECK are tested before uniqueness,
    [ON CONFLICT (c) DO NOTHING] absorbs a conflict on [c] only, foreign keys
    are enforced, and a failed statement rolls its transaction back. *)

From Stdlib Require Import ZArith Lia.
From stdpp Require Import base numbers list sorting strings.
From S2P Require Import Prelude Blocks Geth Domain.

Local Open Scope Z_scope.

(** ** SQL *)

Inductive sql_error := CheckFailed | UniqueFailed | ForeignKeyFailed | BindFailed.

(** [=] on blobs; NULL (a nil slice) equals nothing. *)
Definition sql_eq (a b : option byte_slice) : bool :=
  match a, b with Some x, Some y => bool_decide (x = y) | _, _ => false end.

(** [CHECK (length (v) = n)], which NULL passes, and [NOT NULL]. *)
Definition check_len (n : nat) (v : option byte_slice) : bool :=
  match v with None => true | Some b => (length b =? n)%nat end.
Definition not_null (v : option byte_slice) : bool :=
  match v with None => false | Some _ => true end.

(** [ORDER BY] a list of integer columns, ascending. *)
Fixpoint lex_le (a b : list Z) : bool :=
  match a, b with
  | x :: a, y :: b => (x <? y) || ((x =? y) && lex_le a b)
  | [], _ => true
  | _ :: _, [] => false
  end.
Definition by_key {A} (key : A → list Z) (x y : A) : Prop := lex_le (key x) (key y) = true.
#[global] Instance by_key_dec {A} (key : A → list Z) : RelDecision (by_key key).
Proof. intros x y. unfold by_key. apply _. Defined.
Definition order_by {A} (key : A → list Z) (l : list A) : list A := merge_sort (by_key key) l.

(** The highest of a column, as [ORDER BY c DESC LIMIT 1] selects it. *)
Definition max_row {A} (col : A → Z) (l : list A) : option A :=
  foldl (λ best r, match best with
                   | None => Some r
                   | Some m => if col m <? col r then Some r else Some m
                   end) None l.

(** How the driver scans a zero-length blob: as a nil or as an empty slice. *)
Class Driver := { scan_empty : option byte_slice; scan_empty_len : slice_bytes scan_empty = [] }.

Definition scan_blob `{Driver} (v : option byte_slice) : option byte_slice :=
  match v with Some [] => scan_empty | _ => v end.

(** [database/sql] binds a [uint64] only without its high bit. *)
Definition bind_u64 (z : Z) : result sql_error Z :=
  if z <? 2 ^ 63 then Ok z else Err BindFailed.

(** ** Rows (storage/models.go; the Params structs have the same fields) *)

Record BlockRow := {
  br_block_number : Z;
  br_block_hash : option byte_slice;
  br_parent_hash : option byte_slice;
  br_state_root : option byte_slice;
  br_timestamp : Z;
  br_extra_data : option byte_slice
}.

Record TxRow := {
  tr_tx_hash : option byte_slice;
  tr_block_hash : option byte_slice;
  tr_block_number : Z;
  tr_tx_index : Z;
  tr_raw_tx : option byte_slice;
  tr_from_address : option byte_slice;
  tr_to_address : option byte_slice;
  tr_contract_address : option byte_slice;
  tr_status : Z;
  tr_fabric_tx_id : string;
  tr_fabric_tx_status : Z;
  tr_gas_used : Z;
  tr_cumulative_gas_used : Z
}.

Record LogRow := {
  lr_block_number : Z;
  lr_block_hash : option byte_slice;
  lr_tx_hash : option byte_slice;
  lr_tx_index : Z;
  lr_log_index : Z;
  lr_address : option byte_slice;
  lr_topic0 : option byte_slice;
  lr_topic1 : option byte_slice;
  lr_topic2 : option byte_slice;
  lr_topic3 : option byte_slice;
  lr_data : option byte_slice
}.

Record DB := { t_blocks : list BlockRow; t_txs : list TxRow; t_logs : list LogRow }.

(** ** schema.sql *)

Definition block_check (r : BlockRow) : bool :=
  (0 <=? br_block_number r) &&
  not_null (br_block_hash r) && check_len 32 (br_block_hash r) &&
  check_len 32 (br_parent_hash r) &&
  not_null (br_state_root r) && check_len 32 (br_state_root r) &&
  (0 <=? br_timestamp r).

Definition tx_check (r : TxRow) : bool :=
  check_len 32 (tr_tx_hash r) && check_len 32 (tr_block_hash r) &&
  (0 <=? tr_tx_index r) && not_null (tr_raw_tx r) &&
  not_null (tr_from_address r) && check_len 20 (tr_from_address r) &&
  check_len 20 (tr_to_address r) && check_len 20 (tr_contract_address r) &&
  ((tr_status r =? 0) || (tr_status r =? 1)) &&
  (0 <=? tr_gas_used r) && (0 <=? tr_cumulative_gas_used r).

Definition log_check (r : LogRow) : bool :=
  check_len 32 (lr_block_hash r) &&
  not_null (lr_tx_hash r) && check_len 32 (lr_tx_hash r) &&
  (0 <=? lr_tx_index r) && (0 <=? lr_log_index r) &&
  not_null (lr_address r) && check_len 20 (lr_address r) &&
  check_len 32 (lr_topic0 r) && check_len 32 (lr_topic1 r) &&
  check_len 32 (lr_topic2 r) && check_len 32 (lr_topic3 r) && not_null (lr_data r).

(** The uniqueness constraints that no [ON CONFLICT] clause absorbs. *)
Definition block_clash (r r' : BlockRow) : bool :=
  sql_eq (br_block_hash r) (br_block_hash r') || sql_eq (br_parent_hash r) (br_parent_hash r').

Definition tx_clash (r r' : TxRow) : bool :=
  bool_decide (tr_fabric_tx_id r = tr_fabric_tx_id r') ||
  ((tr_block_number r =? tr_block_number r') && (tr_tx_index r =? tr_tx_index r')) ||
  (sql_eq (tr_block_hash r) (tr_block_hash r') && (tr_tx_index r =? tr_tx_index r')).

Definition has_block (db : DB) (n : Z) : bool :=
  existsb (λ b, br_block_number b =? n) (t_blocks db).
Definition has_tx (db : DB) (h : option byte_slice) : bool :=
  existsb (λ t, sql_eq (tr_tx_hash t) h) (t_txs db).

(** ** query.sql: the statements *)

Definition q_InsertBlock (db : DB) (r : BlockRow) : result sql_error DB :=
  if negb (block_check r) then Err CheckFailed
  else if has_block db (br_block_number r) then Ok db
  else if existsb (block_clash r) (t_blocks db) then Err UniqueFailed
  else Ok {| t_blocks := t_blocks db ++ [r]; t_txs := t_txs db; t_logs := t_logs db |}.

Definition q_InsertTransaction (db : DB) (r : TxRow) : result sql_error DB :=
  if negb (tx_check r) then Err CheckFailed
  else if has_tx db (tr_tx_hash r) then Ok db
  else if existsb (tx_clash r) (t_txs db) then Err UniqueFailed
  else if negb (has_block db (tr_block_number r)) then Err ForeignKeyFailed
  else Ok {| t_blocks := t_blocks db; t_txs := t_txs db ++ [r]; t_logs := t_logs db |}.

Definition log_key_eq (r r' : LogRow) : bool :=
  sql_eq (lr_tx_hash r) (lr_tx_hash r') && (lr_log_index r =? lr_log_index r').

Definition q_InsertLog (db : DB) (r : LogRow) : result sql_error DB :=
  if negb (log_check r) then Err CheckFailed
  else if existsb (log_key_eq r) (t_logs db) then Ok db
  else if negb (has_tx db (lr_tx_hash r)) then Err ForeignKeyFailed
  else if negb (has_block db (lr_block_number r)) then Err ForeignKeyFailed
  else Ok {| t_blocks := t_blocks db; t_txs := t_txs db; t_logs := t_logs db ++ [r] |}.

Section queries.
Context `{Driver}.

Definition scan_block (r : BlockRow) : BlockRow := {|
  br_block_number := br_block_number r; br_block_hash := scan_blob (br_block_hash r);
  br_parent_hash := scan_blob (br_parent_hash r); br_state_root := scan_blob (br_state_root r);
  br_timestamp := br_timestamp r; br_extra_data := scan_blob (br_extra_data r)
|}.

Definition scan_tx (r : TxRow) : TxRow := {|
  tr_tx_hash := scan_blob (tr_tx_hash r); tr_block_hash := scan_blob (tr_block_hash r);
  tr_block_number := tr_block_number r; tr_tx_index := tr_tx_index r;
  tr_raw_tx := scan_blob (tr_raw_tx r); tr_from_address := scan_blob (tr_from_address r);
  tr_to_address := scan_blob (tr_to_address r);
  tr_contract_address := scan_blob (tr_contract_address r);
  tr_status := tr_status r; tr_fabric_tx_id := tr_fabric_tx_id r;
  tr_fabric_tx_status := tr_fabric_tx_status r; tr_gas_used := tr_gas_used r;
  tr_cumulative_gas_used := tr_cumulative_gas_used r
|}.

Definition scan_log (r : LogRow) : LogRow := {|
  lr_block_number := lr_block_number r; lr_block_hash := scan_blob (lr_block_hash r);
  lr_tx_hash := scan_blob (lr_tx_hash r); lr_tx_index := lr_tx_index r;
  lr_log_index := lr_log_index r; lr_address := scan_blob (lr_address r);
  lr_topic0 := scan_blob (lr_topic0 r); lr_topic1 := scan_blob (lr_topic1 r);
  lr_topic2 := scan_blob (lr_topic2 r); lr_topic3 := scan_blob (lr_topic3 r);
  lr_data := scan_blob (lr_data r)
|}.

(** The [:one] queries; [None] is [sql.ErrNoRows]. *)
Definition q_LatestBlock (db : DB) : option BlockRow :=
  scan_block <$> max_row br_block_number (t_blocks db).
Definition q_BlockNumber (db : DB) : option Z :=
  br_block_number <$> max_row br_block_number (t_blocks db).
Definition block_with_hash (db : DB) (h : option byte_slice) : option BlockRow :=
  head (filter (λ b, sql_eq (br_block_hash b) h = true) (t_blocks db)).
Definition q_BlockNumberByHash (db : DB) (h : option byte_slice) : option Z :=
  br_block_number <$> block_with_hash db h.
Definition q_GetBlockByHash (db : DB) (h : option byte_slice) : option BlockRow :=
  scan_block <$> block_with_hash db h.
Definition q_GetBlockByNumber (db : DB) (n : Z) : option BlockRow :=
  scan_block <$> head (filter (λ b, br_block_number b = n) (t_blocks db)).
Definition q_GetTransactionByHash (db : DB) (h : option byte_slice) : option TxRow :=
  scan_tx <$> head (filter (λ t, sql_eq (tr_tx_hash t) h = true) (t_txs db)).
Definition q_GetTransactionByBlockHashAndIndex (db : DB) (h : option byte_slice) (i : Z)
    : option TxRow :=
  scan_tx <$> head (filter (λ t, sql_eq (tr_block_hash t) h = true ∧ tr_tx_index t = i) (t_txs db)).
Definition q_GetTransactionByBlockNumberAndIndex (db : DB) (n i : Z) : option TxRow :=
  scan_tx <$> head (filter (λ t, tr_block_number t = n ∧ tr_tx_index t = i) (t_txs db)).

(** [transactions t JOIN blocks b ON t.block_number = b.block_number
    WHERE b.block_hash = ?]. *)
Definition txs_joined (db : DB) (h : option byte_slice) : list TxRow :=
  t ← t_txs db;
  b ← filter (λ b, br_block_number b = tr_block_number t ∧ sql_eq (br_block_hash b) h = true)
        (t_blocks db);
  [t].

Definition q_GetBlockTxCountByNumber (db : DB) (n : Z) : Z :=
  Z.of_nat (length (filter (λ t, tr_block_number t = n) (t_txs db))).
Definition q_GetBlockTxCountByHash (db : DB) (h : option byte_slice) : Z :=
  Z.of_nat (length (txs_joined db h)).
Definition q_GetTransactionsByBlockNumber (db : DB) (n : Z) : list TxRow :=
  scan_tx <$> order_by (λ t, [tr_tx_index t]) (filter (λ t, tr_block_number t = n) (t_txs db)).
Definition q_GetTransactionsByBlockHash (db : DB) (h : option byte_slice) : list TxRow :=
  scan_tx <$> order_by (λ t, [tr_tx_index t]) (txs_joined db h).

(** [logs l JOIN blocks b ON l.block_number = b.block_number WHERE p l], each
    row with its block's timestamp. *)
Definition logs_joined (db : DB) (p : LogRow → bool) : list (LogRow * Z) :=
  l ← filter (λ l, p l = true) (t_logs db);
  b ← filter (λ b, br_block_number b = lr_block_number l) (t_blocks db);
  [(l, br_timestamp b)].
Definition scan_logs (rows : list (LogRow * Z)) : list (LogRow * Z) :=
  (λ r, (scan_log r.1, r.2)) <$> rows.

Definition q_GetLogsByTxHash (db : DB) (h : option byte_slice) : list (LogRow * Z) :=
  scan_logs (order_by (λ r, [lr_log_index r.1]) (logs_joined db (λ l, sql_eq (lr_tx_hash l) h))).
End queries.

(** ** storage/store.go *)

Section store.
Context `{Driver} {W : Wire}.

(** The tables and the cached tip. *)
Record Store := { st_db : DB; st_CachedBlockNumber : Z }.

Definition toStorageBlock (b : DBlock) : BlockRow := {|
  br_block_number := i64 (db_BlockNumber b);
  br_block_hash := db_BlockHash b;
  br_parent_hash := db_ParentHash b;
  br_state_root := db_StateRoot b;
  br_timestamp := db_Timestamp b;
  br_extra_data := None
|}.

Definition toDomainBlock (b : BlockRow) : DBlock := {|
  db_BlockNumber := u64 (br_block_number b);
  db_BlockHash := br_block_hash b;
  db_ParentHash := br_parent_hash b;
  db_StateRoot := br_state_root b;
  db_Timestamp := br_timestamp b;
  db_Transactions := []
|}.

(** Topics past the fourth are dropped; nil data becomes an empty blob. *)
Definition toStorageLog (l : DLog) : LogRow := {|
  lr_block_number := i64 (dl_BlockNumber l);
  lr_block_hash := dl_BlockHash l;
  lr_tx_hash := dl_TxHash l;
  lr_tx_index := dl_TxIndex l;
  lr_log_index := dl_LogIndex l;
  lr_address := dl_Address l;
  lr_topic0 := match dl_Topics l !! 0%nat with Some t => t | None => None end;
  lr_topic1 := match dl_Topics l !! 1%nat with Some t => t | None => None end;
  lr_topic2 := match dl_Topics l !! 2%nat with Some t => t | None => None end;
  lr_topic3 := match dl_Topics l !! 3%nat with Some t => t | None => None end;
  lr_data := match dl_Data l with None => Some [] | d => d end
|}.

Definition toStorageTransaction (t : DTransaction) : TxRow * list LogRow :=
  ({| tr_tx_hash := dt_TxHash t;
      tr_block_hash := dt_BlockHash t;
      tr_block_number := i64 (dt_BlockNumber t);
      tr_tx_index := dt_TxIndex t;
      tr_raw_tx := dt_RawTx t;
      tr_from_address := dt_FromAddress t;
      tr_to_address := dt_ToAddress t;
      tr_contract_address := dt_ContractAddress t;
      tr_status := dt_Status t;
      tr_fabric_tx_id := dt_FabricTxID t;
      tr_fabric_tx_status := i64 (Status_code (dt_FabricTxStatus t));
      tr_gas_used := i64 (dt_GasUsed t);
      tr_cumulative_gas_used := i64 (dt_CumulativeGasUsed t) |},
   toStorageLog <$> dt_Logs t).

Definition toDomainTransaction (t : TxRow) : DTransaction := {|
  dt_TxHash := tr_tx_hash t;
  dt_BlockHash := tr_block_hash t;
  dt_BlockNumber := u64 (tr_block_number t);
  dt_TxIndex := tr_tx_index t;
  dt_RawTx := tr_raw_tx t;
  dt_FromAddress := tr_from_address t;
  dt_ToAddress := tr_to_address t;
  dt_ContractAddress := tr_contract_address t;
  dt_Status := tr_status t mod 256;
  dt_FabricTxID := tr_fabric_tx_id t;
  dt_FabricTxStatus := Status_of (tr_fabric_tx_status t);
  dt_GasUsed := u64 (tr_gas_used t);
  dt_CumulativeGasUsed := u64 (tr_cumulative_gas_used t);
  dt_Logs := []
|}.

(** The non-NULL topics up to the first NULL. *)
Fixpoint collect_topics (l : list (option byte_slice)) : list (option byte_slice) :=
  match l with
  | Some t :: l => Some t :: collect_topics l
  | _ => []
  end.

Definition toDomainLog (l : LogRow) : DLog := {|
  dl_BlockNumber := u64 (lr_block_number l);
  dl_BlockHash := lr_block_hash l;
  dl_TxHash := lr_tx_hash l;
  dl_TxIndex := lr_tx_index l;
  dl_LogIndex := lr_log_index l;
  dl_Address := lr_address l;
  dl_Topics := collect_topics [lr_topic0 l; lr_topic1 l; lr_topic2 l; lr_topic3 l];
  dl_Data := lr_data l;
  dl_Timestamp := 0
|}.

Definition with_timestamp (ts : Z) (l : DLog) : DLog := {|
  dl_BlockNumber := dl_BlockNumber l; dl_BlockHash := dl_BlockHash l;
  dl_TxHash := dl_TxHash l; dl_TxIndex := dl_TxIndex l; dl_LogIndex := dl_LogIndex l;
  dl_Address := dl_Address l; dl_Topics := dl_Topics l; dl_Data := dl_Data l;
  dl_Timestamp := ts
|}.

Definition with_txs (txs : list DTransaction) (b : DBlock) : DBlock := {|
  db_BlockNumber := db_BlockNumber b; db_BlockHash := db_BlockHash b;
  db_ParentHash := db_ParentHash b; db_StateRoot := db_StateRoot b;
  db_Timestamp := db_Timestamp b; db_Transactions := txs
|}.

(** [Init] on an existing database: the tables stay, the cache is seeded. *)
Definition Init (db : DB) : Store :=
  {| st_db := db;
     st_CachedBlockNumber := match q_BlockNumber db with None => 0 | Some num => u64 num end |}.

Definition empty_db : DB := {| t_blocks := []; t_txs := []; t_logs := [] |}.

(** A sequence of statements of one SQL transaction. *)
Fixpoint exec_all {A} (stmt : DB → A → result sql_error DB) (db : DB) (l : list A)
    : result sql_error DB :=
  match l with
  | [] => Ok db
  | x :: l => match stmt db x with Err e => Err e | Ok db => exec_all stmt db l end
  end.

(** One iteration of the loop over the block's transactions. *)
Definition insert_tx (db : DB) (t : DTransaction) : result sql_error DB :=
  let '(tx, logs) := toStorageTransaction t in
  match q_InsertTransaction db tx with
  | Err e => Err e
  | Ok db => exec_all q_InsertLog db logs
  end.

(** The SQL transaction of [InsertBlock]. *)
Definition insert_rows (db : DB) (block : DBlock) : result sql_error DB :=
  match q_InsertBlock db (toStorageBlock block) with
  | Err e => Err e
  | Ok db => exec_all insert_tx db (db_Transactions block)
  end.

(** An error leaves the store as it was (rollback); the cache only rises. *)
Definition InsertBlock (s : Store) (block : DBlock) : Store * option sql_error :=
  match insert_rows (st_db s) block with
  | Err e => (s, Some e)
  | Ok db =>
      let current := st_CachedBlockNumber s in
      ({| st_db := db;
          st_CachedBlockNumber :=
            if db_BlockNumber block <=? current then current else db_BlockNumber block |},
       None)
  end.

(** *** Queries *)

Definition BlockNumber (s : Store) : Z := st_CachedBlockNumber s.

Definition BlockNumberByHash (s : Store) (h : option byte_slice) : option Z :=
  u64 <$> q_BlockNumberByHash (st_db s) h.

Definition GetBlockByNumber (s : Store) (n : Z) : option DBlock :=
  b ← q_GetBlockByNumber (st_db s) (i64 n);
  Some (with_txs (toDomainTransaction <$> q_GetTransactionsByBlockNumber (st_db s) (i64 n))
          (toDomainBlock b)).

Definition GetBlockByHash (s : Store) (h : option byte_slice) : option DBlock :=
  b ← q_GetBlockByHash (st_db s) h;
  Some (with_txs (toDomainTransaction <$> q_GetTransactionsByBlockHash (st_db s) h)
          (toDomainBlock b)).

Definition LatestBlock (s : Store) : option DBlock :=
  b ← q_LatestBlock (st_db s);
  Some (with_txs (toDomainTransaction <$>
                    q_GetTransactionsByBlockNumber (st_db s) (br_block_number b))
          (toDomainBlock b)).

Definition GetBlockTxCountByHash (s : Store) (h : option byte_slice) : Z :=
  q_GetBlockTxCountByHash (st_db s) h.
Definition GetBlockTxCountByNumber (s : Store) (n : Z) : Z :=
  q_GetBlockTxCountByNumber (st_db s) (i64 n).
Definition GetTransactionByHash (s : Store) (h : option byte_slice) : option DTransaction :=
  toDomainTransaction <$> q_GetTransactionByHash (st_db s) h.
Definition GetTransactionByBlockHashAndIndex (s : Store) (h : option byte_slice) (i : Z)
    : option DTransaction :=
  toDomainTransaction <$> q_GetTransactionByBlockHashAndIndex (st_db s) h i.
Definition GetTransactionByBlockNumberAndIndex (s : Store) (n i : Z) : option DTransaction :=
  toDomainTransaction <$> q_GetTransactionByBlockNumberAndIndex (st_db s) (i64 n) i.

Definition GetLogsByTxHash (s : Store) (h : option byte_slice) : list DLog :=
  (λ r, with_timestamp r.2 (toDomainLog r.1)) <$> q_GetLogsByTxHash (st_db s) h.

(** *** [GetLogs] *)

(** The topic clauses: positions beyond the columns and empty alternatives add
    no condition. *)
Fixpoint topics_where (topics : list (list byte_slice)) (cols : list (option byte_slice)) : bool :=
  match topics, cols with
  | alternatives :: topics, c :: cols =>
      match alternatives with
      | [] => true
      | _ => existsb (λ t, sql_eq c (Some t)) alternatives
      end && topics_where topics cols
  | _, _ => true
  end.

Definition block_where (db : DB) (f : LogFilter) (l : LogRow) : bool :=
  match lf_BlockHash f with
  | Some h => match q_BlockNumberByHash db (Some h) with
              | Some n => lr_block_number l =? n
              | None => false
              end
  | None =>
      match lf_FromBlock f with Some n => n <=? lr_block_number l | None => true end &&
      match lf_ToBlock f with Some n => lr_block_number l <=? n | None => true end
  end.

Definition log_where (db : DB) (f : LogFilter) (l : LogRow) : bool :=
  block_where db f l &&
  match lf_Addresses f with
  | [] => true
  | addrs => existsb (λ a, sql_eq (lr_address l) (Some a)) addrs
  end &&
  topics_where (lf_Topics f) [lr_topic0 l; lr_topic1 l; lr_topic2 l; lr_topic3 l].

(** Binding the two bounds, where the query has them. *)
Definition bind_bounds (f : LogFilter) : result sql_error unit :=
  match lf_BlockHash f with
  | Some _ => Ok tt
  | None =>
      match lf_FromBlock f with Some n => bind_u64 n | None => Ok 0 end;;
      match lf_ToBlock f with Some n => bind_u64 n | None => Ok 0 end;;
      Ok tt
  end.

Definition GetLogs (s : Store) (f : LogFilter) : result sql_error (list DLog) :=
  match bind_bounds f with
  | Err e => Err e
  | Ok _ =>
      Ok ((λ r, with_timestamp r.2 (toDomainLog r.1)) <$>
          scan_logs (order_by (λ r, [lr_block_number r.1; lr_tx_index r.1; lr_log_index r.1])
                       (logs_joined (st_db s) (log_where (st_db s) f))))
  end.

(** ** storage/snapshot_store.go *)

Definition Snapshot (s : Store) : Z := st_CachedBlockNumber s.

Definition del_logs (n : Z) (db : DB) : result sql_error DB :=
  Ok {| t_blocks := t_blocks db; t_txs := t_txs db;
        t_logs := filter (λ l, ¬ n < lr_block_number l) (t_logs db) |}.

(** A delete fails while a row it removes is still referenced. *)
Definition del_txs (n : Z) (db : DB) : result sql_error DB :=
  if existsb (λ t, (n <? tr_block_number t) &&
                   existsb (λ l, sql_eq (lr_tx_hash l) (tr_tx_hash t)) (t_logs db)) (t_txs db)
  then Err ForeignKeyFailed
  else Ok {| t_blocks := t_blocks db;
             t_txs := filter (λ t, ¬ n < tr_block_number t) (t_txs db);
             t_logs := t_logs db |}.

Definition del_blocks (n : Z) (db : DB) : result sql_error DB :=
  if existsb (λ b, (n <? br_block_number b) &&
                   (existsb (λ t, tr_block_number t =? br_block_number b) (t_txs db) ||
                    existsb (λ l, lr_block_number l =? br_block_number b) (t_logs db))) (t_blocks db)
  then Err ForeignKeyFailed
  else Ok {| t_blocks := filter (λ b, ¬ n < br_block_number b) (t_blocks db);
             t_txs := t_txs db; t_logs := t_logs db |}.

(** A revert past the tip is refused before any statement runs. *)
Inductive revert_error := RevertPastTip | RevertSql (e : sql_error).

Definition RevertToBlock (s : Store) (blockNumber : Z) : Store * option revert_error :=
  let current := st_CachedBlockNumber s in
  if current <? blockNumber then (s, Some RevertPastTip)
  else if blockNumber =? current then (s, None)
  else match (n ← bind_u64 blockNumber;
              db ← del_logs n (st_db s); db ← del_txs n db; del_blocks n db) with
       | Err e => (s, Some (RevertSql e))
       | Ok db => ({| st_db := db; st_CachedBlockNumber := blockNumber |}, None)
       end.
End store.
