(* ===== verification/StoreProps.v ===== *)
(** * StoreProps: the schema is an invariant, blocks read back, reverts restore

    Every statement keeps the constraints of schema.sql ([db_wf]); an inserted
    block is read back by number, by hash and by transaction; [RevertToBlock]
    gives back the tables as they were at the snapshot. *)

From Stdlib Require Import ZArith Lia.
From stdpp Require Import base numbers list sorting strings relations.
From S2P Require Import Prelude Blocks Geth Domain Convert Store.

Local Open Scope Z_scope.

(** ** SQL lemmas *)

Lemma sql_eq_true a b : sql_eq a b = true ↔ ∃ x, a = Some x ∧ b = Some x.
Proof.
  unfold sql_eq. destruct a as [x|], b as [y|]; rewrite ?bool_decide_eq_true; naive_solver.
Qed.

Lemma sql_eq_refl x : sql_eq (Some x) (Some x) = true.
Proof. by apply sql_eq_true; eauto. Qed.

Lemma sql_eq_sym a b : sql_eq a b = sql_eq b a.
Proof.
  destruct (sql_eq a b) eqn:E, (sql_eq b a) eqn:F; try done.
  - apply sql_eq_true in E as (x & -> & ->). by rewrite sql_eq_refl in F.
  - apply sql_eq_true in F as (x & -> & ->). by rewrite sql_eq_refl in E.
Qed.

Lemma existsb_true {A} (p : A → bool) l : existsb p l = true ↔ ∃ x, x ∈ l ∧ p x = true.
Proof. rewrite existsb_exists. by setoid_rewrite list_elem_of_In. Qed.

Lemma existsb_false {A} (p : A → bool) l : existsb p l = false ↔ ∀ x, x ∈ l → p x = false.
Proof.
  split.
  - intros H x Hx. destruct (p x) eqn:E; [|done].
    assert (existsb p l = true) by (apply existsb_true; eauto). congruence.
  - intros H. destruct (existsb p l) eqn:E; [|done].
    apply existsb_true in E as (x & Hx & E). by rewrite H in E.
Qed.

Lemma lex_le_refl a : lex_le a a = true.
Proof. induction a as [|x a IH]; simpl; [done|]. rewrite Z.eqb_refl, IH. by rewrite orb_true_r. Qed.

Lemma lex_le_cons x a y b :
  lex_le (x :: a) (y :: b) = true ↔ x < y ∨ x = y ∧ lex_le a b = true.
Proof. simpl. rewrite orb_true_iff, andb_true_iff, Z.ltb_lt, Z.eqb_eq. done. Qed.

Lemma lex_le_trans a b c : lex_le a b = true → lex_le b c = true → lex_le a c = true.
Proof.
  revert b c. induction a as [|x a IH]; intros [|y b] [|z c]; try done.
  rewrite !lex_le_cons. intros [?|[-> ?]] [?|[-> ?]]; [left; lia|by left|by left|].
  right. split; [done|by eapply IH].
Qed.

Lemma lex_le_total a b : lex_le a b = true ∨ lex_le b a = true.
Proof.
  revert b. induction a as [|x a IH]; intros [|y b]; [by left..|by right|].
  rewrite !lex_le_cons. destruct (IH b), (Z.lt_trichotomy x y) as [?|[?|?]]; auto.
Qed.

#[export] Instance by_key_trans {A} (key : A → list Z) : Transitive (by_key key).
Proof. intros x y z. unfold by_key. apply lex_le_trans. Qed.

#[export] Instance by_key_total {A} (key : A → list Z) : Total (by_key key).
Proof. intros x y. unfold by_key. apply lex_le_total. Qed.

Lemma order_by_perm {A} (key : A → list Z) l : order_by key l ≡ₚ l.
Proof. apply merge_sort_Permutation. Qed.

Lemma elem_of_order_by {A} (key : A → list Z) l x : x ∈ order_by key l ↔ x ∈ l.
Proof. by rewrite order_by_perm. Qed.

Lemma order_by_sorted {A} (key : A → list Z) l : StronglySorted (by_key key) (order_by key l).
Proof. apply StronglySorted_merge_sort; apply _. Qed.

(** Rows that already come in strictly ascending order stay as they are. *)
Lemma order_by_id {A} (key : A → list Z) l :
  StronglySorted (λ x y, lex_le (key y) (key x) = false) l → order_by key l = l.
Proof.
  intros Hs. apply (StronglySorted_unique_strong (by_key key)).
  - intros x y Hx Hy Hxy Hyx. rewrite elem_of_order_by in Hx. unfold by_key in *.
    clear -Hs Hx Hy Hxy Hyx. induction Hs as [|z l Hs IH Hz]; [by apply not_elem_of_nil in Hx|].
    rewrite Forall_forall in Hz. apply elem_of_cons in Hx as [->|Hx], Hy as [->|Hy]; auto.
    + specialize (Hz y Hy). simpl in Hz. congruence.
    + specialize (Hz x Hx). simpl in Hz. congruence.
  - apply order_by_sorted.
  - clear -Hs. induction Hs as [|z l Hs IH Hz]; constructor; [done|].
    eapply Forall_impl; [exact Hz|]. simpl. intros y Hy. unfold by_key.
    by destruct (lex_le_total (key z) (key y)); [|congruence].
  - apply order_by_perm.
Qed.

Lemma StronglySorted_filter_list {A} (R : relation A) (P : A → Prop) `{∀ x, Decision (P x)} l :
  StronglySorted R l → StronglySorted R (filter P l).
Proof.
  induction 1 as [|x l Hs IH Hx]; [constructor|]. rewrite filter_cons. case_decide; [|done].
  constructor; [done|]. apply Forall_forall. intros y Hy.
  apply list_elem_of_filter in Hy as [_ Hy]. by eapply Forall_forall in Hx.
Qed.

Lemma Forall_filter_list {A} (Q P : A → Prop) `{∀ x, Decision (P x)} l :
  Forall Q l → Forall Q (filter P l).
Proof.
  rewrite !Forall_forall. intros HQ x [_ Hx]%list_elem_of_filter. auto.
Qed.

Lemma Forall_sublist {A} (Q : A → Prop) (k l : list A) :
  sublist k l → Forall Q l → Forall Q k.
Proof. rewrite !Forall_forall. intros Hs HQ x Hx. by eapply HQ, elem_of_sublist. Qed.

Lemma StronglySorted_snoc {A} (R : relation A) l x :
  StronglySorted R l → (∀ y, y ∈ l → R y x) → StronglySorted R (l ++ [x]).
Proof.
  intros Hl Hx. apply StronglySorted_app_2; [|done|by repeat constructor].
  intros a b Ha ->%list_elem_of_singleton. auto.
Qed.

(** The maximum of a column. *)
Lemma max_row_spec {A} (col : A → Z) l :
  match max_row col l with
  | None => l = []
  | Some m => m ∈ l ∧ ∀ x, x ∈ l → col x ≤ col m
  end.
Proof.
  unfold max_row. induction l as [|x l IH] using rev_ind; [done|].
  rewrite foldl_app. simpl. destruct (foldl _ None l) as [m|] eqn:E.
  - destruct IH as [Hm Hmax]. destruct (Z.ltb_spec (col m) (col x)).
    + split; [apply elem_of_app; right; by apply list_elem_of_singleton|].
      intros y [Hy| ->%list_elem_of_singleton]%elem_of_app; [|lia]. specialize (Hmax y Hy). lia.
    + split; [apply elem_of_app; by left|].
      intros y [Hy| ->%list_elem_of_singleton]%elem_of_app; [auto|lia].
  - subst l. split; [by apply list_elem_of_singleton|].
    intros y ->%list_elem_of_singleton. lia.
Qed.

(** ** The schema as an invariant *)

(** No two rows clash on a unique column; the later row is the first argument. *)
Definition unique_by {A} (clash : A → A → bool) (l : list A) : Prop :=
  StronglySorted (λ old new, clash new old = false) l.

Definition block_conflict (r r' : BlockRow) : bool :=
  (br_block_number r' =? br_block_number r) || block_clash r r'.
Definition tx_conflict (r r' : TxRow) : bool :=
  sql_eq (tr_tx_hash r') (tr_tx_hash r) || tx_clash r r'.

Record db_wf (db : DB) : Prop := {
  wf_blocks : Forall (λ r, block_check r = true) (t_blocks db);
  wf_blocks_range : Forall (λ r, is_i64 (br_block_number r)) (t_blocks db);
  wf_blocks_unique : unique_by block_conflict (t_blocks db);
  wf_txs : Forall (λ r, tx_check r = true) (t_txs db);
  wf_txs_unique : unique_by tx_conflict (t_txs db);
  wf_txs_fk : ∀ t, t ∈ t_txs db → has_block db (tr_block_number t) = true;
  wf_logs : Forall (λ r, log_check r = true) (t_logs db);
  wf_logs_unique : unique_by log_key_eq (t_logs db);
  wf_logs_tx : ∀ l, l ∈ t_logs db → has_tx db (lr_tx_hash l) = true;
  wf_logs_block : ∀ l, l ∈ t_logs db → has_block db (lr_block_number l) = true
}.

Lemma unique_by_snoc {A} (clash : A → A → bool) l x :
  unique_by clash l → existsb (clash x) l = false → unique_by clash (l ++ [x]).
Proof.
  intros Hl Hx. apply StronglySorted_snoc; [done|].
  intros y Hy. by eapply existsb_false in Hx.
Qed.

Lemma unique_by_elem {A} (clash : A → A → bool) l x y :
  unique_by clash l → (∀ a b, clash a b = clash b a) → x ∈ l → y ∈ l → clash x y = true → x = y.
Proof.
  intros Hl Hsym. induction Hl as [|z l Hs IH Hz]; intros Hx Hy Hc.
  { by apply not_elem_of_nil in Hx. }
  rewrite Forall_forall in Hz. apply elem_of_cons in Hx as [->|Hx], Hy as [->|Hy]; auto.
  - specialize (Hz y Hy). simpl in Hz. rewrite Hsym in Hz. congruence.
  - specialize (Hz x Hx). simpl in Hz. congruence.
Qed.

Lemma block_conflict_sym r r' : block_conflict r r' = block_conflict r' r.
Proof.
  unfold block_conflict, block_clash. rewrite Z.eqb_sym.
  by rewrite (sql_eq_sym (br_block_hash r)), (sql_eq_sym (br_parent_hash r)).
Qed.

Lemma tx_conflict_sym r r' : tx_conflict r r' = tx_conflict r' r.
Proof.
  unfold tx_conflict, tx_clash. rewrite (sql_eq_sym (tr_tx_hash r')).
  rewrite (sql_eq_sym (tr_block_hash r)), (Z.eqb_sym (tr_tx_index r)), (Z.eqb_sym (tr_block_number r)).
  by rewrite (bool_decide_ext _ (tr_fabric_tx_id r' = tr_fabric_tx_id r)).
Qed.

Lemma log_key_eq_sym r r' : log_key_eq r r' = log_key_eq r' r.
Proof. unfold log_key_eq. by rewrite sql_eq_sym, Z.eqb_sym. Qed.

Lemma existsb_orb {A} (p q : A → bool) l :
  existsb (λ x, p x || q x) l = existsb p l || existsb q l.
Proof.
  induction l as [|x l IH]; simpl; [done|]. rewrite IH.
  by destruct (p x), (q x), (existsb p l), (existsb q l).
Qed.

(** What a successful statement did. *)
Lemma q_InsertBlock_Ok db r db' :
  q_InsertBlock db r = Ok db' →
  block_check r = true ∧
  (has_block db (br_block_number r) = true ∧ db' = db ∨
   existsb (block_conflict r) (t_blocks db) = false ∧
   db' = {| t_blocks := t_blocks db ++ [r]; t_txs := t_txs db; t_logs := t_logs db |}).
Proof.
  unfold q_InsertBlock. destruct (block_check r); [|done]. simpl.
  destruct (has_block db (br_block_number r)) eqn:Hb; [intros [= <-]; auto|].
  destruct (existsb (block_clash r) (t_blocks db)) eqn:Hu; [done|]. intros [= <-].
  split; [done|]. right. split; [|done]. unfold block_conflict. rewrite existsb_orb, Hu.
  unfold has_block in Hb. by rewrite Hb.
Qed.

Lemma q_InsertTransaction_Ok db r db' :
  q_InsertTransaction db r = Ok db' →
  tx_check r = true ∧
  (has_tx db (tr_tx_hash r) = true ∧ db' = db ∨
   has_tx db (tr_tx_hash r) = false ∧
   existsb (tx_conflict r) (t_txs db) = false ∧ has_block db (tr_block_number r) = true ∧
   db' = {| t_blocks := t_blocks db; t_txs := t_txs db ++ [r]; t_logs := t_logs db |}).
Proof.
  unfold q_InsertTransaction. destruct (tx_check r); [|done]. simpl.
  destruct (has_tx db (tr_tx_hash r)) eqn:Hb; [intros [= <-]; auto|].
  destruct (existsb (tx_clash r) (t_txs db)) eqn:Hu; [done|].
  destruct (has_block db (tr_block_number r)) eqn:Hf; [|done]. intros [= <-].
  split; [done|]. right. split_and!; try done. unfold tx_conflict. rewrite existsb_orb, Hu.
  unfold has_tx in Hb. by rewrite Hb.
Qed.

Lemma q_InsertLog_Ok db r db' :
  q_InsertLog db r = Ok db' →
  log_check r = true ∧
  (existsb (log_key_eq r) (t_logs db) = true ∧ db' = db ∨
   existsb (log_key_eq r) (t_logs db) = false ∧ has_tx db (lr_tx_hash r) = true ∧
   has_block db (lr_block_number r) = true ∧
   db' = {| t_blocks := t_blocks db; t_txs := t_txs db; t_logs := t_logs db ++ [r] |}).
Proof.
  unfold q_InsertLog. destruct (log_check r); [|done]. simpl.
  destruct (existsb (log_key_eq r) (t_logs db)); [intros [= <-]; auto|].
  destruct (has_tx db (lr_tx_hash r)) eqn:Ht; [|done].
  destruct (has_block db (lr_block_number r)) eqn:Hf; [|done]. intros [= <-]. auto 10.
Qed.

Lemma has_block_true db n : has_block db n = true ↔ ∃ r, r ∈ t_blocks db ∧ br_block_number r = n.
Proof. unfold has_block. rewrite existsb_true. by setoid_rewrite Z.eqb_eq. Qed.

Lemma has_tx_true db h :
  has_tx db h = true ↔ ∃ r, r ∈ t_txs db ∧ sql_eq (tr_tx_hash r) h = true.
Proof. apply existsb_true. Qed.

(** Rows are only ever appended by the statements of one SQL transaction. *)
Record db_ext (db db' : DB) : Prop := {
  ext_blocks : ∃ bs, t_blocks db' = t_blocks db ++ bs;
  ext_txs : ∃ ts, t_txs db' = t_txs db ++ ts;
  ext_logs : ∃ ls, t_logs db' = t_logs db ++ ls
}.

#[export] Instance db_ext_po : PreOrder db_ext.
Proof.
  split.
  - intros db. split; exists []; by rewrite app_nil_r.
  - intros a b c [[bs Hb] [ts Ht] [ls Hl]] [[bs' Hb'] [ts' Ht'] [ls' Hl']].
    split; eexists; rewrite ?Hb', ?Ht', ?Hl', ?Hb, ?Ht, ?Hl; by rewrite <-app_assoc.
Qed.

Lemma has_block_mono db db' n : db_ext db db' → has_block db n = true → has_block db' n = true.
Proof.
  intros [[bs Hb] _ _]. rewrite !has_block_true. intros (r & Hr & Hn). exists r.
  split; [|done]. rewrite Hb. apply elem_of_app. by left.
Qed.

Lemma has_tx_mono db db' h : db_ext db db' → has_tx db h = true → has_tx db' h = true.
Proof.
  intros [_ [ts Ht] _]. rewrite !has_tx_true. intros (r & Hr & Hn). exists r.
  split; [|done]. rewrite Ht. apply elem_of_app. by left.
Qed.

Lemma exec_all_ind {A} (stmt : DB → A → result sql_error DB) (P : DB → Prop) l db db' :
  (∀ db x db', x ∈ l → P db → stmt db x = Ok db' → P db') →
  P db → exec_all stmt db l = Ok db' → P db'.
Proof.
  revert db. induction l as [|x l IH]; intros db Hstep Hdb; simpl; [by intros [= <-]|].
  destruct (stmt db x) as [db1|] eqn:E; [|done]. apply IH.
  - intros db2 y db3 Hy. apply Hstep. by apply list_elem_of_further.
  - eapply Hstep; [apply list_elem_of_here|exact Hdb|exact E].
Qed.

(** Closes [db_ext db db'] where at most one row was appended. *)
Ltac ext_rows :=
  split; simpl; first [by eexists [_] | exists []; by rewrite app_nil_r].

#[local] Arguments toStorageTransaction : simpl never.

Section inserts.
Context `{Driver} {W : Wire}.

Lemma q_InsertBlock_wf db r db' :
  is_i64 (br_block_number r) →
  db_wf db → q_InsertBlock db r = Ok db' → db_wf db' ∧ db_ext db db'.
Proof.
  intros Hrange Hwf Hq. apply q_InsertBlock_Ok in Hq as [Hc [[_ ->]|[Hu ->]]]; [by split|].
  assert (db_ext db {| t_blocks := t_blocks db ++ [r]; t_txs := t_txs db; t_logs := t_logs db |})
    as He by ext_rows.
  split; [|done]. destruct Hwf. split; simpl; try done.
  - apply Forall_app. auto.
  - apply Forall_app. auto.
  - by apply unique_by_snoc.
  - intros t Ht. eapply has_block_mono; [exact He|auto].
  - intros l Hl. eapply has_block_mono; [exact He|auto].
Qed.

Lemma q_InsertTransaction_wf db r db' :
  db_wf db → q_InsertTransaction db r = Ok db' → db_wf db' ∧ db_ext db db'.
Proof.
  intros Hwf Hq. apply q_InsertTransaction_Ok in Hq as [Hc [[_ ->]|(_ & Hu & Hb & ->)]]; [by split|].
  assert (db_ext db {| t_blocks := t_blocks db; t_txs := t_txs db ++ [r]; t_logs := t_logs db |})
    as He by ext_rows.
  split; [|done]. destruct Hwf. split; simpl; try done.
  - apply Forall_app. auto.
  - by apply unique_by_snoc.
  - intros t [Ht| ->%list_elem_of_singleton]%elem_of_app; [by apply wf_txs_fk0|done].
  - intros l Hl. eapply has_tx_mono; [exact He|auto].
Qed.

Lemma q_InsertLog_wf db r db' :
  db_wf db → q_InsertLog db r = Ok db' → db_wf db' ∧ db_ext db db'.
Proof.
  intros Hwf Hq. apply q_InsertLog_Ok in Hq as [Hc [[_ ->]|(Hu & Ht & Hb & ->)]]; [by split|].
  split; [|ext_rows].
  destruct Hwf. split; simpl; try done.
  - apply Forall_app. auto.
  - by apply unique_by_snoc.
  - intros l [Hl| ->%list_elem_of_singleton]%elem_of_app; [by apply wf_logs_tx0|done].
  - intros l [Hl| ->%list_elem_of_singleton]%elem_of_app; [by apply wf_logs_block0|done].
Qed.

Lemma insert_tx_wf db t db' : db_wf db → insert_tx db t = Ok db' → db_wf db' ∧ db_ext db db'.
Proof.
  intros Hwf. unfold insert_tx. destruct (toStorageTransaction t) as [r ls].
  destruct (q_InsertTransaction db r) as [db1|] eqn:E; [|done].
  apply q_InsertTransaction_wf in E as [Hwf1 He1]; [|done].
  apply (exec_all_ind q_InsertLog (λ db', db_wf db' ∧ db_ext db db')); [|by split].
  intros d l d' _ [Hd Hed] Hq. apply q_InsertLog_wf in Hq as [Hwf' He']; [|done].
  split; [done|by etrans].
Qed.

Lemma insert_rows_wf db b db' : db_wf db → insert_rows db b = Ok db' → db_wf db' ∧ db_ext db db'.
Proof.
  intros Hwf. unfold insert_rows.
  destruct (q_InsertBlock db (toStorageBlock b)) as [db1|] eqn:E; [|done].
  apply q_InsertBlock_wf in E as [Hwf1 He1]; [|apply i64_range|done].
  apply (exec_all_ind insert_tx (λ db', db_wf db' ∧ db_ext db db')); [|by split].
  intros d t d' _ [Hd Hed] Hq. apply insert_tx_wf in Hq as [Hwf' He']; [|done].
  split; [done|by etrans].
Qed.

Lemma db_wf_empty : db_wf empty_db.
Proof. split; simpl; try constructor; intros ? []%not_elem_of_nil. Qed.

(** The blocks table gains at most the block's own row, the others no row that
    is not of the block. *)
Lemma exec_logs_tables db ls db' :
  exec_all q_InsertLog db ls = Ok db' →
  t_blocks db' = t_blocks db ∧ t_txs db' = t_txs db ∧
  ∃ new, t_logs db' = t_logs db ++ new ∧ sublist new ls.
Proof.
  revert db. induction ls as [|l ls IH]; intros db; simpl.
  { intros [= <-]. split_and!; [done..|]. exists []. by rewrite app_nil_r. }
  destruct (q_InsertLog db l) as [db1|] eqn:E; [|done].
  intros (Hb & Ht & new & Hl & Hs)%IH.
  apply q_InsertLog_Ok in E as [_ [[_ ->]|(_ & _ & _ & ->)]].
  - split_and!; [done..|]. exists new. split; [done|by constructor].
  - simpl in *. split_and!; [done..|]. exists (l :: new).
    split; [by rewrite Hl, <-app_assoc|by constructor].
Qed.

Lemma insert_tx_tables db t db' :
  insert_tx db t = Ok db' →
  t_blocks db' = t_blocks db ∧
  (∃ new, t_txs db' = t_txs db ++ new ∧ sublist new [(toStorageTransaction t).1]) ∧
  (∃ new, t_logs db' = t_logs db ++ new ∧ sublist new (toStorageTransaction t).2).
Proof.
  unfold insert_tx. destruct (toStorageTransaction t) as [r ls]. simpl.
  destruct (q_InsertTransaction db r) as [db1|] eqn:E; [|done].
  intros (Hb & Ht & Hl)%exec_logs_tables.
  apply q_InsertTransaction_Ok in E as [_ [[_ ->]|(_ & _ & _ & ->)]]; simpl in *.
  - split_and!; [done| |done]. exists []. rewrite app_nil_r. split; [done|constructor; constructor].
  - split_and!; [done| |done]. by exists [r].
Qed.

Definition tx_rows (txs : list DTransaction) : list TxRow :=
  (λ t, (toStorageTransaction t).1) <$> txs.
Definition log_rows (txs : list DTransaction) : list LogRow :=
  t ← txs; (toStorageTransaction t).2.

Lemma insert_txs_tables db txs db' :
  exec_all insert_tx db txs = Ok db' →
  t_blocks db' = t_blocks db ∧
  (∃ new, t_txs db' = t_txs db ++ new ∧ sublist new (tx_rows txs)) ∧
  (∃ new, t_logs db' = t_logs db ++ new ∧ sublist new (log_rows txs)).
Proof.
  revert db. induction txs as [|t txs IH]; intros db; simpl.
  { intros [= <-]. split_and!; [done|exists []..]; by rewrite app_nil_r. }
  destruct (insert_tx db t) as [db1|] eqn:E; [|done].
  intros (Hb & (nt & Ht & Hst) & (nl & Hl & Hsl))%IH.
  apply insert_tx_tables in E as (Hb1 & (nt1 & Ht1 & Hst1) & (nl1 & Hl1 & Hsl1)).
  split_and!; [congruence| |].
  - exists (nt1 ++ nt). rewrite Ht, Ht1, app_assoc. split; [done|].
    by apply (sublist_app nt1 [_] nt).
  - exists (nl1 ++ nl). rewrite Hl, Hl1, app_assoc. split; [done|]. by apply sublist_app.
Qed.

(** ** The cached tip *)

(** The cache is the highest stored number, 0 on an empty store. *)
Definition tip_ok (s : Store) : Prop :=
  (∀ r, r ∈ t_blocks (st_db s) → br_block_number r ≤ st_CachedBlockNumber s) ∧
  (t_blocks (st_db s) = [] ∧ st_CachedBlockNumber s = 0 ∨
   has_block (st_db s) (st_CachedBlockNumber s) = true).

Definition store_wf (s : Store) : Prop := db_wf (st_db s) ∧ tip_ok s.

Lemma block_check_facts r :
  block_check r = true → 0 ≤ br_block_number r ∧ (∃ h, br_block_hash r = Some h ∧ length h = 32%nat) ∧
  check_len 32 (br_parent_hash r) = true ∧ (∃ h, br_state_root r = Some h ∧ length h = 32%nat).
Proof.
  unfold block_check. rewrite !andb_true_iff, Z.leb_le.
  intros ((((((? & ?) & Hh) & ?) & ?) & Hr) & ?).
  destruct (br_block_hash r) as [h|], (br_state_root r) as [h'|]; try done.
  apply Nat.eqb_eq in Hh, Hr. eauto 10.
Qed.

Lemma i64_nonneg n : is_u64 n → 0 ≤ i64 n → i64 n = n ∧ n < 2 ^ 63.
Proof.
  intros Hn. unfold i64. rewrite u64_small by done. unfold int_of_u64.
  unfold is_u64 in Hn. destruct (Z.ltb_spec n (2 ^ 63)); lia.
Qed.

(** A block that was inserted (or already there) has a signed 64-bit number. *)
Lemma insert_rows_blocks db b db' :
  is_u64 (db_BlockNumber b) → insert_rows db b = Ok db' →
  i64 (db_BlockNumber b) = db_BlockNumber b ∧ block_check (toStorageBlock b) = true ∧
  (has_block db (db_BlockNumber b) = true ∧ t_blocks db' = t_blocks db ∨
   has_block db (db_BlockNumber b) = false ∧
   existsb (block_conflict (toStorageBlock b)) (t_blocks db) = false ∧
   t_blocks db' = t_blocks db ++ [toStorageBlock b]).
Proof.
  intros Hn. unfold insert_rows.
  destruct (q_InsertBlock db (toStorageBlock b)) as [db1|] eqn:E; [|done].
  intros (Hb & _ & _)%insert_txs_tables. apply q_InsertBlock_Ok in E as [Hc Hcase].
  destruct (block_check_facts _ Hc) as (Hp & _). simpl in Hp.
  destruct (i64_nonneg _ Hn Hp) as [Hi _]. split_and!; [done..|].
  destruct Hcase as [[Hh ->]|[Hu ->]]; simpl in *; rewrite ?Hi in *; [by left|].
  right. split_and!; [|done..]. destruct (has_block db (db_BlockNumber b)) eqn:Hh; [|done].
  apply has_block_true in Hh as (r & Hr & Hnr).
  rewrite existsb_false in Hu. specialize (Hu r Hr). unfold block_conflict in Hu.
  simpl in Hu. rewrite Hi, Hnr, Z.eqb_refl in Hu. done.
Qed.

Lemma InsertBlock_wf s b s' e :
  is_u64 (db_BlockNumber b) → store_wf s → InsertBlock s b = (s', e) → store_wf s'.
Proof.
  intros Hn [Hwf [Hle Htip]]. unfold InsertBlock.
  destruct (insert_rows (st_db s) b) as [db'|] eqn:E; [|by intros [= <- _]].
  intros [= <- _]. split; [by eapply insert_rows_wf|]. unfold tip_ok. simpl.
  destruct (insert_rows_blocks _ _ _ Hn E) as (Hi & _ & [[Hb ->]|(Hb & _ & Hbs)]).
  - apply has_block_true in Hb as (r & Hr & Hnr). pose proof (Hle r Hr).
    destruct (Z.leb_spec (db_BlockNumber b) (st_CachedBlockNumber s)); [|lia].
    split; [by apply Hle|]. destruct Htip as [[-> ?]|Hh]; [by left|right].
    eapply has_block_mono; [|exact Hh]. by eapply insert_rows_wf.
  - rewrite Hbs. split.
    + intros r [Hr| ->%list_elem_of_singleton]%elem_of_app.
      * specialize (Hle r Hr). destruct (Z.leb_spec (db_BlockNumber b) (st_CachedBlockNumber s)); lia.
      * simpl. rewrite Hi. destruct (Z.leb_spec (db_BlockNumber b) (st_CachedBlockNumber s)); lia.
    + right. destruct (Z.leb_spec (db_BlockNumber b) (st_CachedBlockNumber s)) as [Hl|Hl].
      * destruct Htip as [[Hemp Hz]|Hh].
        { rewrite Hz in *. apply has_block_true. rewrite Hbs, Hemp. simpl.
          exists (toStorageBlock b). split; [by apply list_elem_of_singleton|]. simpl.
          unfold is_u64 in Hn. lia. }
        eapply has_block_mono; [|exact Hh]. by eapply insert_rows_wf.
      * apply has_block_true. rewrite Hbs. exists (toStorageBlock b).
        split; [|done]. apply elem_of_app. right. by apply list_elem_of_singleton.
Qed.

(** ** Reverts *)

Lemma del_logs_wf n db db' : db_wf db → del_logs n db = Ok db' → db_wf db'.
Proof.
  intros Hwf [= <-]. destruct Hwf. split; simpl; try done.
  - by apply Forall_filter_list.
  - by apply StronglySorted_filter_list.
  - intros l [_ Hl]%list_elem_of_filter. by apply wf_logs_tx0.
  - intros l [_ Hl]%list_elem_of_filter. by apply wf_logs_block0.
Qed.

Lemma del_txs_wf n db db' : db_wf db → del_txs n db = Ok db' → db_wf db'.
Proof.
  intros Hwf. unfold del_txs. destruct (existsb _ (t_txs db)) eqn:E; [done|]. intros [= <-].
  rewrite existsb_false in E. destruct Hwf. split; simpl; try done.
  - by apply Forall_filter_list.
  - by apply StronglySorted_filter_list.
  - intros t [_ Ht]%list_elem_of_filter. by apply wf_txs_fk0.
  - intros l Hl. pose proof (wf_logs_tx0 l Hl) as Hx. rewrite has_tx_true in Hx |- *.
    destruct Hx as (t & Ht & Hq). exists t. split; [|done]. simpl.
    apply list_elem_of_filter. split; [|done]. intros Hlt.
    specialize (E t Ht). apply andb_false_iff in E as [E|E].
    + apply Z.ltb_ge in E. lia.
    + rewrite existsb_false in E. specialize (E l Hl). rewrite sql_eq_sym in E. congruence.
Qed.

Lemma del_blocks_keeps n db db' m :
  del_blocks n db = Ok db' → has_block db m = true →
  (∃ t, t ∈ t_txs db ∧ tr_block_number t = m) ∨ (∃ l, l ∈ t_logs db ∧ lr_block_number l = m) →
  has_block db' m = true.
Proof.
  unfold del_blocks. destruct (existsb _ (t_blocks db)) eqn:E; [done|]. intros [= <-].
  rewrite existsb_false in E. rewrite !has_block_true. intros (r & Hr & <-) Href.
  exists r. split; [|done]. simpl. apply list_elem_of_filter. split; [|done]. intros Hlt.
  specialize (E r Hr). apply andb_false_iff in E as [E|E]; [apply Z.ltb_ge in E; lia|].
  apply orb_false_iff in E as [Et El]. rewrite existsb_false in Et. rewrite existsb_false in El.
  destruct Href as [(t & Ht & Hm)|(l & Hl & Hm)].
  - specialize (Et t Ht). simpl in Et. rewrite Hm, Z.eqb_refl in Et. done.
  - specialize (El l Hl). simpl in El. rewrite Hm, Z.eqb_refl in El. done.
Qed.

Lemma del_blocks_wf n db db' : db_wf db → del_blocks n db = Ok db' → db_wf db'.
Proof.
  intros Hwf Hd. pose proof (λ m, del_blocks_keeps n db db' m Hd) as Hk. revert Hd.
  unfold del_blocks. destruct (existsb _ (t_blocks db)) eqn:E; [done|]. intros [= <-].
  destruct Hwf. split; simpl; try done.
  - by apply Forall_filter_list.
  - by apply Forall_filter_list.
  - by apply StronglySorted_filter_list.
  - intros t Ht. apply Hk; [by apply wf_txs_fk0|eauto].
  - intros l Hl. apply Hk; [by apply wf_logs_block0|eauto].
Qed.

(** The rows at or below a height. *)
Definition truncate (n : Z) (db : DB) : DB := {|
  t_blocks := filter (λ b, ¬ n < br_block_number b) (t_blocks db);
  t_txs := filter (λ t, ¬ n < tr_block_number t) (t_txs db);
  t_logs := filter (λ l, ¬ n < lr_block_number l) (t_logs db)
|}.

Lemma del_all_Ok n db db' :
  (db ← del_logs n db; db ← del_txs n db; del_blocks n db) = Ok db' →
  db' = truncate n db ∧ (db_wf db → db_wf db').
Proof.
  unfold mbind, result_bind. destruct (del_logs n db) as [d1|] eqn:E1; [|done].
  destruct (del_txs n d1) as [d2|] eqn:E2; [|done]. intros E3.
  split; [|intros Hwf; eauto using del_logs_wf, del_txs_wf, del_blocks_wf].
  revert E1 E2 E3. unfold del_logs, del_txs, del_blocks. intros [= <-]. simpl.
  case_match; [done|]. intros [= <-]. simpl. case_match; [done|]. by intros [= <-].
Qed.

Lemma RevertToBlock_cases s n s' e :
  RevertToBlock s n = (s', e) →
  s' = s ∨ n < st_CachedBlockNumber s ∧ e = None ∧
    st_db s' = truncate n (st_db s) ∧ st_CachedBlockNumber s' = n ∧
    (db_wf (st_db s) → db_wf (st_db s')).
Proof.
  unfold RevertToBlock. destruct (Z.ltb_spec (st_CachedBlockNumber s) n); [intros [= <- _]; auto|].
  destruct (Z.eqb_spec n (st_CachedBlockNumber s)); [intros [= <- _]; auto|].
  unfold bind_u64. destruct (n <? 2 ^ 63); [|intros [= <- _]; auto].
  change (mbind ?f (Ok n)) with (f n). cbn beta.
  destruct (db ← del_logs n (st_db s); db ← del_txs n db; del_blocks n db)
    as [db'|] eqn:E; [|intros [= <- _]; auto].
  destruct (del_all_Ok _ _ _ E) as [-> Hwf]. intros [= <- <-]. right. simpl.
  split_and!; [lia|done..].
Qed.

Lemma RevertToBlock_wf s n s' e :
  store_wf s → has_block (st_db s) n = true → RevertToBlock s n = (s', e) → store_wf s'.
Proof.
  intros [Hwf Htip] Hn Hr. destruct (RevertToBlock_cases _ _ _ _ Hr)
    as [->|(Hlt & -> & Hdb & Hc & Hwf')]; [by split|]. split; [auto|].
  unfold tip_ok. rewrite Hc, Hdb. simpl. split.
  - intros r [? _]%list_elem_of_filter. lia.
  - right. apply has_block_true in Hn as (r & Hr' & <-). apply has_block_true.
    exists r. split; [|done]. simpl. apply list_elem_of_filter. split; [lia|done].
Qed.

Lemma Init_wf db : db_wf db → store_wf (Init db).
Proof.
  intros Hwf. split; [done|]. unfold Init, tip_ok, q_BlockNumber. simpl.
  pose proof (max_row_spec br_block_number (t_blocks db)) as Hm.
  destruct (max_row br_block_number (t_blocks db)) as [m|] eqn:E; simpl.
  - destruct Hm as [Hin Hmax].
    assert (is_u64 (br_block_number m)) as Hs.
    { destruct Hwf. rewrite Forall_forall in wf_blocks0, wf_blocks_range0.
      apply wf_blocks_range0 in Hin as Hi. apply wf_blocks0, block_check_facts in Hin as [? _].
      unfold is_u64, is_i64 in *. lia. }
    rewrite u64_small by done. split; [done|]. right. apply has_block_true. eauto.
  - rewrite Hm. split; [by intros r ?%not_elem_of_nil|]. by left.
Qed.

(** ** Coming back to a snapshot *)

(** The block's transactions and logs carry its number. *)
Definition numbered (b : DBlock) : Prop :=
  Forall (λ t, dt_BlockNumber t = db_BlockNumber b ∧
               Forall (λ l, dl_BlockNumber l = db_BlockNumber b) (dt_Logs t))
    (db_Transactions b).

Fixpoint InsertBlocks (s : Store) (bs : list DBlock) : option Store :=
  match bs with
  | [] => Some s
  | b :: bs => match InsertBlock s b with
               | (s', None) => InsertBlocks s' bs
               | _ => None
               end
  end.

(** [db'] is [db] with rows above height [n] appended. *)
Record ext_above (n : Z) (db db' : DB) : Prop := {
  ea_blocks : ∃ bs, t_blocks db' = t_blocks db ++ bs ∧ Forall (λ r, n < br_block_number r) bs;
  ea_txs : ∃ ts, t_txs db' = t_txs db ++ ts ∧ Forall (λ r, n < tr_block_number r) ts;
  ea_logs : ∃ ls, t_logs db' = t_logs db ++ ls ∧ Forall (λ r, n < lr_block_number r) ls
}.

Lemma ext_above_refl n db : ext_above n db db.
Proof. split; exists []; by rewrite app_nil_r. Qed.

Lemma ext_above_trans n a b c : ext_above n a b → ext_above n b c → ext_above n a c.
Proof.
  intros [(b1 & Hb1 & F1) (t1 & Ht1 & G1) (l1 & Hl1 & K1)]
         [(b2 & Hb2 & F2) (t2 & Ht2 & G2) (l2 & Hl2 & K2)].
  split; eexists; (split; [rewrite ?Hb2, ?Hb1, ?Ht2, ?Ht1, ?Hl2, ?Hl1; by rewrite <-app_assoc|]);
    by apply Forall_app.
Qed.

Lemma numbered_rows b :
  numbered b → i64 (db_BlockNumber b) = db_BlockNumber b →
  Forall (λ r, tr_block_number r = db_BlockNumber b) (tx_rows (db_Transactions b)) ∧
  Forall (λ r, lr_block_number r = db_BlockNumber b) (log_rows (db_Transactions b)).
Proof.
  intros Hnum Hi. split; apply Forall_forall; intros r.
  - intros (t & -> & Ht)%list_elem_of_fmap. simpl.
    eapply Forall_forall in Hnum as [-> _]; done.
  - intros (t & Hr & Ht)%list_elem_of_bind. eapply Forall_forall in Hnum as [_ Hl]; [|done].
    apply list_elem_of_fmap in Hr as (l & -> & Hin). simpl.
    eapply Forall_forall in Hl as ->; done.
Qed.

Lemma insert_rows_above n db b db' :
  is_u64 (db_BlockNumber b) → n < db_BlockNumber b → numbered b →
  insert_rows db b = Ok db' → ext_above n db db'.
Proof.
  intros Hu Hn Hnum E. destruct (insert_rows_blocks _ _ _ Hu E) as (Hi & _ & Hb).
  destruct (numbered_rows b Hnum Hi) as [Ht Hl].
  unfold insert_rows in E. destruct (q_InsertBlock _ _) as [d1|] eqn:Eb; [|done].
  apply insert_txs_tables in E as (_ & (ts & Hts & Hst) & (ls & Hls & Hsl)).
  assert (t_txs d1 = t_txs db ∧ t_logs d1 = t_logs db) as [Ht1 Hl1].
  { by apply q_InsertBlock_Ok in Eb as [_ [[_ ->]|[_ ->]]]. }
  split.
  - destruct Hb as [[_ ->]|(_ & _ & ->)]; [exists []; by rewrite app_nil_r|].
    eexists; split; [done|]. constructor; [simpl; lia|constructor].
  - exists ts. split; [congruence|]. eapply Forall_impl; [exact (Forall_sublist _ _ _ Hst Ht)|].
    simpl. intros ? ->. done.
  - exists ls. split; [congruence|]. eapply Forall_impl; [exact (Forall_sublist _ _ _ Hsl Hl)|].
    simpl. intros ? ->. done.
Qed.

(** The blocks a snapshot at [n] may be followed by. *)
Definition later_block (n : Z) (b : DBlock) : Prop :=
  is_u64 (db_BlockNumber b) ∧ n < db_BlockNumber b ∧ numbered b.

Lemma InsertBlocks_above n s bs s' :
  Forall (later_block n) bs → store_wf s → InsertBlocks s bs = Some s' →
  store_wf s' ∧ ext_above n (st_db s) (st_db s') ∧
  (bs = [] ∧ s' = s ∨ n < st_CachedBlockNumber s').
Proof.
  intros Hbs. revert s. induction Hbs as [|b bs (Hu & Hn & Hnum) _ IH]; intros s Hwf; simpl.
  { intros [= <-]. auto using ext_above_refl. }
  destruct (InsertBlock s b) as [s1 [e|]] eqn:E; [done|]. intros Hrest.
  pose proof (InsertBlock_wf _ _ _ _ Hu Hwf E) as Hwf1.
  unfold InsertBlock in E. destruct (insert_rows (st_db s) b) as [db1|] eqn:Er; [|done].
  injection E as <-. destruct (IH _ Hwf1 Hrest) as (Hwf' & Hext & Hc).
  split_and!; [done| |right].
  - eapply ext_above_trans; [|exact Hext]. by eapply insert_rows_above.
  - destruct Hc as [[_ ->]|?]; [|done]. simpl.
    destruct (Z.leb_spec (db_BlockNumber b) (st_CachedBlockNumber s)); lia.
Qed.

Lemma filter_app_keep {A} (P : A → Prop) `{∀ x, Decision (P x)} (l k : list A) :
  Forall P l → Forall (λ x, ¬ P x) k → filter P (l ++ k) = l.
Proof.
  intros Hl Hk. rewrite filter_app.
  assert (filter P k = []) as ->.
  { induction Hk; [done|]. by rewrite filter_cons_False. }
  rewrite app_nil_r. induction Hl as [|x l Hx _ IH]; [done|].
  by rewrite filter_cons_True, IH.
Qed.

Lemma rows_below s :
  store_wf s →
  Forall (λ r, ¬ st_CachedBlockNumber s < br_block_number r) (t_blocks (st_db s)) ∧
  Forall (λ r, ¬ st_CachedBlockNumber s < tr_block_number r) (t_txs (st_db s)) ∧
  Forall (λ r, ¬ st_CachedBlockNumber s < lr_block_number r) (t_logs (st_db s)).
Proof.
  intros [Hwf [Hle _]]. assert (∀ m, has_block (st_db s) m = true → ¬ st_CachedBlockNumber s < m) as Hb.
  { intros m (r & Hr & <-)%has_block_true. specialize (Hle r Hr). lia. }
  split_and!; apply Forall_forall; intros r Hr.
  - specialize (Hle r Hr). lia.
  - by apply Hb, Hwf.
  - by apply Hb, Hwf.
Qed.

Lemma has_tx_old db h t ts :
  unique_by tx_conflict (t_txs db ++ ts) → t ∈ ts → has_tx db h = true →
  sql_eq h (tr_tx_hash t) = false.
Proof.
  intros Hu Ht (t0 & Ht0 & Hq)%has_tx_true. destruct (sql_eq h (tr_tx_hash t)) eqn:E; [|done].
  apply sql_eq_true in Hq as (x & Hx & ->). apply sql_eq_true in E as (y & [= <-] & Hy).
  eapply StronglySorted_app_1_elem_of in Hu; [|exact Ht0|exact Ht].
  unfold tx_conflict in Hu. rewrite Hx, Hy, sql_eq_refl in Hu. done.
Qed.

(** Deleting above the tip of [s] from an extension of it succeeds and gives
    [s]'s tables back. *)
Lemma del_all_restores s db' :
  store_wf s → db_wf db' → ext_above (st_CachedBlockNumber s) (st_db s) db' →
  let n := st_CachedBlockNumber s in
  (db ← del_logs n db'; db ← del_txs n db; del_blocks n db) = Ok (st_db s).
Proof.
  intros Hs Hwf [(bs & Hb & Fb) (ts & Ht & Ft) (ls & Hl & Fl)] n.
  destruct (rows_below s Hs) as (Ob & Ot & Ol). destruct Hs as [Hwf0 _].
  assert (∀ A (f : A → Z) l, Forall (λ r, n < f r) l → Forall (λ r, ¬ ¬ n < f r) l) as Hnn.
  { intros A f l Hf. eapply Forall_impl; [exact Hf|]. simpl. tauto. }
  unfold del_logs. cbn [mbind result_bind]. unfold mbind, result_bind.
  rewrite Hl, (filter_app_keep _ _ ls Ol) by (by apply Hnn).
  unfold del_txs. cbn [t_txs t_logs t_blocks].
  assert (existsb (λ t, (n <? tr_block_number t) &&
    existsb (λ l, sql_eq (lr_tx_hash l) (tr_tx_hash t)) (t_logs (st_db s))) (t_txs db') = false) as ->.
  { apply existsb_false. intros t Hin. rewrite Ht in Hin. apply elem_of_app in Hin as [Hin|Hin].
    - eapply Forall_forall in Ot; [|exact Hin]. simpl in Ot.
      destruct (Z.ltb_spec n (tr_block_number t)); [lia|done].
    - apply andb_false_intro2, existsb_false. intros l Hlin.
      eapply has_tx_old; [|exact Hin|by apply Hwf0]. rewrite <-Ht. apply Hwf. }
  rewrite Ht, (filter_app_keep _ _ ts Ot) by (by apply Hnn).
  unfold del_blocks. cbn [t_txs t_logs t_blocks].
  assert (existsb (λ b, (n <? br_block_number b) &&
    (existsb (λ t, tr_block_number t =? br_block_number b) (t_txs (st_db s)) ||
     existsb (λ l, lr_block_number l =? br_block_number b) (t_logs (st_db s)))) (t_blocks db')
    = false) as ->.
  { apply existsb_false. intros b _. destruct (Z.ltb_spec n (br_block_number b)); [|done].
    apply orb_false_iff. split; apply existsb_false; intros r Hr; apply Z.eqb_neq.
    - eapply Forall_forall in Ot; [|exact Hr]. simpl in Ot. lia.
    - eapply Forall_forall in Ol; [|exact Hr]. simpl in Ol. lia. }
  rewrite Hb, (filter_app_keep _ _ bs Ob) by (by apply Hnn). by destruct (st_db s).
Qed.

Lemma tip_range s : store_wf s → 0 ≤ st_CachedBlockNumber s < 2 ^ 63.
Proof.
  intros [Hwf [_ [[_ ->]|(r & Hr & <-)%has_block_true]]]; [lia|].
  destruct Hwf. rewrite Forall_forall in wf_blocks0, wf_blocks_range0.
  apply wf_blocks_range0 in Hr as Hi. apply wf_blocks0, block_check_facts in Hr as [? _].
  unfold is_i64 in Hi. lia.
Qed.

(** ** Reachable stores *)

(** Inserting any block, reverting to a stored height, reopening. *)
Inductive store_step : Store → Store → Prop :=
| step_insert s b s' e :
    is_u64 (db_BlockNumber b) → InsertBlock s b = (s', e) → store_step s s'
| step_revert s n s' e :
    has_block (st_db s) n = true → RevertToBlock s n = (s', e) → store_step s s'
| step_reopen s : store_step s (Init (st_db s)).

Lemma reachable_wf s : rtc store_step (Init empty_db) s → store_wf s.
Proof.
  intros Hr. pattern s. eapply rtc_ind_r; [apply Init_wf, db_wf_empty| |exact Hr].
  intros x y _ [] IH.
  - by eapply InsertBlock_wf.
  - by eapply RevertToBlock_wf.
  - apply Init_wf, IH.
Qed.

Lemma LatestBlock_tip s :
  store_wf s →
  match LatestBlock s with
  | None => t_blocks (st_db s) = [] ∧ BlockNumber s = 0
  | Some b => db_BlockNumber b = BlockNumber s
  end.
Proof.
  intros Hs. pose proof (tip_range s Hs) as Hr. destruct Hs as [_ [Hle Htip]].
  unfold LatestBlock, q_LatestBlock, BlockNumber.
  pose proof (max_row_spec br_block_number (t_blocks (st_db s))) as Hm.
  destruct (max_row _ _) as [m|]; simpl.
  - destruct Hm as [Hin Hmax]. destruct Htip as [[He _]|(r & Hr' & Hn)%has_block_true].
    { rewrite He in Hin. by apply not_elem_of_nil in Hin. }
    specialize (Hle m Hin). specialize (Hmax r Hr').
    rewrite u64_small; [lia|]. unfold is_u64. lia.
  - destruct Htip as [|(r & Hr' & _)%has_block_true]; [done|].
    rewrite Hm in Hr'. by apply not_elem_of_nil in Hr'.
Qed.
End inserts.

(** ** Reading a block back *)

Section readback.
Context `{Driver} {W : Wire} {WL : WireLaws W}.

(** A log as the store can represent it. *)
Definition log_ok (t : DTransaction) (l : DLog) : Prop :=
  dl_TxHash l = dt_TxHash t ∧ dl_Timestamp l = 0 ∧ is_u64 (dl_BlockNumber l) ∧
  Forall is_Some (dl_Topics l) ∧ (length (dl_Topics l) ≤ 4)%nat.

(** A block as the conversion produces it: numbers agree, transactions come in
    index order with distinct hashes, logs in index order with their
    transaction's hash. *)
Record block_ok (b : DBlock) : Prop := {
  bo_number : is_u64 (db_BlockNumber b);
  bo_numbered : numbered b;
  bo_tx : Forall (λ t, is_Some (dt_TxHash t) ∧ is_u64 (dt_GasUsed t) ∧
                       is_u64 (dt_CumulativeGasUsed t) ∧
                       is_i64 (Status_code (dt_FabricTxStatus t))) (db_Transactions b);
  bo_index : StronglySorted (λ t t', dt_TxIndex t < dt_TxIndex t') (db_Transactions b);
  bo_hashes : NoDup (dt_TxHash <$> db_Transactions b);
  bo_logs : Forall (λ t, Forall (log_ok t) (dt_Logs t) ∧
                         StronglySorted (λ l l', dl_LogIndex l < dl_LogIndex l') (dt_Logs t))
              (db_Transactions b)
}.

(** What is read back: transactions without their logs, logs with their
    block's timestamp, zero-length blobs as the driver scans them. *)
Definition stored_tx (t : DTransaction) : DTransaction := {|
  dt_TxHash := dt_TxHash t; dt_BlockHash := dt_BlockHash t;
  dt_BlockNumber := dt_BlockNumber t; dt_TxIndex := dt_TxIndex t;
  dt_RawTx := scan_blob (dt_RawTx t); dt_FromAddress := dt_FromAddress t;
  dt_ToAddress := dt_ToAddress t; dt_ContractAddress := dt_ContractAddress t;
  dt_Status := dt_Status t; dt_FabricTxID := dt_FabricTxID t;
  dt_FabricTxStatus := dt_FabricTxStatus t; dt_GasUsed := dt_GasUsed t;
  dt_CumulativeGasUsed := dt_CumulativeGasUsed t; dt_Logs := []
|}.

Definition stored_log (ts : Z) (l : DLog) : DLog := {|
  dl_BlockNumber := dl_BlockNumber l; dl_BlockHash := dl_BlockHash l;
  dl_TxHash := dl_TxHash l; dl_TxIndex := dl_TxIndex l; dl_LogIndex := dl_LogIndex l;
  dl_Address := dl_Address l; dl_Topics := dl_Topics l;
  dl_Data := scan_blob (match dl_Data l with None => Some [] | d => d end);
  dl_Timestamp := ts
|}.

Definition stored_block (b : DBlock) : DBlock :=
  with_txs (stored_tx <$> db_Transactions b) b.

Lemma scan_blob_len n v : (0 < n)%nat → check_len n v = true → scan_blob v = v.
Proof.
  intros Hn. unfold check_len, scan_blob. destruct v as [[|x b]|]; try done.
  intros Hc%Nat.eqb_eq. simpl in Hc. lia.
Qed.

Ltac split_check H :=
  repeat match type of H with _ && _ = true => apply andb_true_iff in H as [H ?] end.

(** Columns with a length check scan as they were bound. *)
Ltac scan_cols :=
  repeat match goal with
  | H : check_len ?n ?v = true |- context [scan_blob ?v] =>
      rewrite (scan_blob_len n v) by (exact H || lia)
  end.

Lemma toDomainBlock_roundtrip b :
  is_u64 (db_BlockNumber b) → block_check (toStorageBlock b) = true →
  toDomainBlock (scan_block (toStorageBlock b)) = with_txs [] b.
Proof.
  intros Hn Hc. unfold block_check in Hc. split_check Hc. simpl in *.
  unfold toDomainBlock, scan_block, with_txs. simpl.
  scan_cols. rewrite u64_i64, u64_small by done. done.
Qed.

Lemma toDomainTransaction_roundtrip b t :
  block_ok b → t ∈ db_Transactions b → tx_check (toStorageTransaction t).1 = true →
  toDomainTransaction (scan_tx (toStorageTransaction t).1) = stored_tx t.
Proof.
  intros Hb Ht Hc. destruct Hb. unfold numbered in *. rewrite Forall_forall in bo_numbered0, bo_tx0.
  destruct (bo_numbered0 t Ht) as [Hn _]. destruct (bo_tx0 t Ht) as (_ & Hg & Hcg & Hst).
  unfold tx_check in Hc. split_check Hc. simpl in *.
  unfold toDomainTransaction, scan_tx, stored_tx. simpl.
  scan_cols.
  rewrite !u64_i64, !u64_small by (rewrite ?Hn; done).
  rewrite i64_small, Status_of_code by done. f_equal.
  assert (dt_Status t = 0 ∨ dt_Status t = 1) as [-> | ->]; [|done..].
  match goal with H : (_ =? 0) || _ = true |- _ => apply orb_true_iff in H as [?|?] end; lia.
Qed.

Lemma collect_topics_pad l k :
  Forall is_Some l → collect_topics (l ++ replicate k None) = l.
Proof.
  induction 1 as [|t l [x ->] _ IH]; simpl; [by destruct k|]. by rewrite IH.
Qed.

Lemma topics_roundtrip (ts : list (option byte_slice)) :
  Forall is_Some ts → (length ts ≤ 4)%nat →
  collect_topics [match ts !! 0%nat with Some t => t | None => None end;
                  match ts !! 1%nat with Some t => t | None => None end;
                  match ts !! 2%nat with Some t => t | None => None end;
                  match ts !! 3%nat with Some t => t | None => None end] = ts.
Proof.
  intros Hs Hl. rewrite <-(collect_topics_pad ts (4 - length ts) Hs) at 5. f_equal.
  destruct ts as [|a [|b [|c [|d [|e ts]]]]]; simpl in *; try done. lia.
Qed.

Lemma toDomainLog_roundtrip t l ts :
  log_ok t l → log_check (toStorageLog l) = true →
  with_timestamp ts (toDomainLog (scan_log (toStorageLog l))) = stored_log ts l.
Proof.
  intros (_ & _ & Hn & Hs & Hl) Hc. unfold log_check in Hc. split_check Hc.
  cbn [toStorageLog lr_block_hash lr_tx_hash lr_tx_index lr_log_index lr_address
       lr_topic0 lr_topic1 lr_topic2 lr_topic3 lr_data] in *.
  unfold with_timestamp, toDomainLog, scan_log, stored_log.
  cbn [toStorageLog lr_block_number lr_block_hash lr_tx_hash lr_tx_index lr_log_index lr_address
       lr_topic0 lr_topic1 lr_topic2 lr_topic3 lr_data dl_BlockNumber dl_BlockHash dl_TxHash
       dl_TxIndex dl_LogIndex dl_Address dl_Topics dl_Data].
  scan_cols.
  rewrite topics_roundtrip by done. rewrite u64_i64, u64_small by done. done.
Qed.

(** *** A fresh block's rows are appended as they are *)

Lemma exec_logs_exact db ls db' :
  unique_by log_key_eq ls →
  (∀ l, l ∈ ls → existsb (log_key_eq l) (t_logs db) = false) →
  exec_all q_InsertLog db ls = Ok db' →
  t_logs db' = t_logs db ++ ls ∧ Forall (λ r, log_check r = true) ls.
Proof.
  intros Hu. revert db. induction Hu as [|l ls Hs IH Hl]; intros db Hnew; simpl.
  { intros [= <-]. by rewrite app_nil_r. }
  destruct (q_InsertLog db l) as [db1|] eqn:E; [|done]. intros Hx.
  apply q_InsertLog_Ok in E as [Hc [[Hk _]|(_ & _ & _ & ->)]].
  { rewrite Hnew in Hk; [done|apply list_elem_of_here]. }
  edestruct IH as [Hls Hf]; [|exact Hx|].
  - intros r Hr. simpl. rewrite existsb_app. rewrite Hnew by (by apply list_elem_of_further).
    eapply Forall_forall in Hl; [|exact Hr]. simpl in *. by rewrite Hl.
  - simpl in Hls. rewrite Hls, <-app_assoc. split; [done|by constructor].
Qed.

Lemma log_rows_of_tx b t :
  block_ok b → t ∈ db_Transactions b →
  unique_by log_key_eq (toStorageTransaction t).2 ∧
  Forall (λ r, lr_tx_hash r = dt_TxHash t) (toStorageTransaction t).2.
Proof.
  intros Hb Ht. destruct Hb. rewrite Forall_forall in bo_logs0.
  destruct (bo_logs0 t Ht) as [Hl Hs]. simpl. split.
  - clear Hl. induction Hs as [|l ls Hs IH Hl]; constructor; [done|].
    apply Forall_fmap. eapply Forall_impl; [exact Hl|]. simpl. intros l' Hlt.
    unfold log_key_eq. simpl. apply andb_false_iff. right. apply Z.eqb_neq. lia.
  - apply Forall_fmap. eapply Forall_impl; [exact Hl|]. simpl. by intros l' [? _].
Qed.

Lemma insert_tx_exact b db t db' :
  block_ok b → t ∈ db_Transactions b → db_wf db → has_tx db (dt_TxHash t) = false →
  insert_tx db t = Ok db' →
  t_txs db' = t_txs db ++ [(toStorageTransaction t).1] ∧
  t_logs db' = t_logs db ++ (toStorageTransaction t).2 ∧
  tx_check (toStorageTransaction t).1 = true ∧
  Forall (λ r, log_check r = true) (toStorageTransaction t).2.
Proof.
  intros Hb Ht Hwf Hnew. destruct (log_rows_of_tx b t Hb Ht) as [Hu Hh].
  unfold insert_tx. destruct (toStorageTransaction t) as [r ls] eqn:Er. simpl in *.
  assert (tr_tx_hash r = dt_TxHash t) as Hrh by (unfold toStorageTransaction in Er; by injection Er as <- _).
  destruct (q_InsertTransaction db r) as [db1|] eqn:E; [|done]. intros Hx.
  apply q_InsertTransaction_Ok in E as [Hc [[Hk _]|(_ & _ & _ & ->)]]; [congruence|].
  destruct (exec_logs_tables _ _ _ Hx) as (_ & Htx & _).
  edestruct exec_logs_exact as [Hls Hf]; [exact Hu| |exact Hx|].
  - intros l Hl. simpl. apply existsb_false. intros l' Hl'. unfold log_key_eq.
    destruct (sql_eq (lr_tx_hash l) (lr_tx_hash l')) eqn:Eq; [|done].
    apply sql_eq_true in Eq as (x & Hlx & Hlx'). apply Hwf in Hl'. rewrite Hlx' in Hl'.
    eapply Forall_forall in Hh; [|exact Hl]. simpl in Hh. congruence.
  - by split_and!.
Qed.

Lemma insert_txs_exact b db txs db' :
  block_ok b → (∀ t, t ∈ txs → t ∈ db_Transactions b) → NoDup (dt_TxHash <$> txs) →
  db_wf db → (∀ t, t ∈ txs → has_tx db (dt_TxHash t) = false) →
  exec_all insert_tx db txs = Ok db' →
  t_txs db' = t_txs db ++ tx_rows txs ∧ t_logs db' = t_logs db ++ log_rows txs ∧
  Forall (λ r, tx_check r = true) (tx_rows txs) ∧ Forall (λ r, log_check r = true) (log_rows txs).
Proof.
  intros Hb. revert db. induction txs as [|t txs IH]; intros db Hin Hnd Hwf Hnew; simpl.
  { intros [= <-]. rewrite !app_nil_r. by split_and!; try constructor. }
  destruct (insert_tx db t) as [db1|] eqn:E; [|done]. intros Hx.
  apply NoDup_cons in Hnd as [Hni Hnd].
  assert (t ∈ t :: txs) as Ht0 by apply list_elem_of_here.
  destruct (insert_tx_exact b db t db1 Hb (Hin _ Ht0) Hwf (Hnew _ Ht0) E) as (Ht & Hl & Hct & Hcl).
  destruct (insert_tx_wf _ _ _ Hwf E) as [Hwf1 _].
  destruct (IH db1) as (Ht' & Hl' & Hct' & Hcl'); try done.
  - intros t' Ht'. by apply Hin, list_elem_of_further.
  - intros t' Ht'. unfold has_tx. rewrite Ht, existsb_app. simpl.
    fold (has_tx db (dt_TxHash t')). rewrite Hnew by (by apply list_elem_of_further). simpl.
    rewrite orb_false_r. destruct (sql_eq _ _) eqn:Eq; [|done].
    apply sql_eq_true in Eq as (x & Hx1 & Hx2). simpl in Hx1. exfalso. apply Hni.
    rewrite Hx1, <-Hx2. by apply list_elem_of_fmap_2.
  - rewrite Ht', Hl', Ht, Hl, <-!app_assoc. split_and!; try done.
    + by constructor.
    + by apply Forall_app.
Qed.

(** *** Reads after the insert *)

Lemma head_filter_unique {A} (P : A → Prop) `{∀ x, Decision (P x)} (l : list A) x :
  x ∈ l → P x → (∀ y, y ∈ l → P y → y = x) → head (filter P l) = Some x.
Proof.
  intros Hx Hp Hu. destruct (filter P l) as [|y k] eqn:E; simpl.
  - assert (x ∈ filter P l) as Hin by (by apply list_elem_of_filter).
    rewrite E in Hin. by apply not_elem_of_nil in Hin.
  - assert (y ∈ filter P l) as [Hy Hyl]%list_elem_of_filter by (rewrite E; apply list_elem_of_here).
    by rewrite (Hu y).
Qed.

(** The tables after a fresh block went in. *)
Record fresh_insert (db : DB) (b : DBlock) (db' : DB) : Prop := {
  fi_wf : db_wf db;
  fi_wf' : db_wf db';
  fi_ok : block_ok b;
  fi_new : has_block db (db_BlockNumber b) = false;
  fi_num : i64 (db_BlockNumber b) = db_BlockNumber b;
  fi_check : block_check (toStorageBlock b) = true;
  fi_blocks : t_blocks db' = t_blocks db ++ [toStorageBlock b];
  fi_txs : t_txs db' = t_txs db ++ tx_rows (db_Transactions b);
  fi_logs : t_logs db' = t_logs db ++ log_rows (db_Transactions b);
  fi_tx_new : ∀ t, t ∈ db_Transactions b → has_tx db (dt_TxHash t) = false;
  fi_tx_check : Forall (λ r, tx_check r = true) (tx_rows (db_Transactions b));
  fi_log_check : Forall (λ r, log_check r = true) (log_rows (db_Transactions b))
}.

Lemma insert_rows_fresh db b db' :
  db_wf db → block_ok b → has_block db (db_BlockNumber b) = false →
  (∀ t, t ∈ db_Transactions b → has_tx db (dt_TxHash t) = false) →
  insert_rows db b = Ok db' → fresh_insert db b db'.
Proof.
  intros Hwf Hb Hnew Htx E. destruct (insert_rows_wf _ _ _ Hwf E) as [Hwf' _].
  destruct (insert_rows_blocks _ _ _ (bo_number b Hb) E) as (Hi & Hc & [[? _]|(_ & _ & Hbs)]);
    [congruence|].
  unfold insert_rows in E. destruct (q_InsertBlock db (toStorageBlock b)) as [d1|] eqn:Eb; [|done].
  destruct (q_InsertBlock_wf _ (toStorageBlock b) _ (i64_range _) Hwf Eb) as [Hwf1 _].
  assert (t_txs d1 = t_txs db ∧ t_logs d1 = t_logs db) as [Ht1 Hl1].
  { by apply q_InsertBlock_Ok in Eb as [_ [[_ ->]|[_ ->]]]. }
  destruct (insert_txs_exact b d1 (db_Transactions b) db' Hb ltac:(done) (bo_hashes b Hb) Hwf1)
    as (Ht & Hl & Hct & Hcl); [| |split; congruence || done].
  - intros t Hin. unfold has_tx. rewrite Ht1. by apply Htx.
  - done.
Qed.

Section reads.
Variables (db : DB) (b : DBlock) (db' : DB).
Hypothesis Hf : fresh_insert db b db'.

Lemma old_tx_number t : t ∈ t_txs db → tr_block_number t ≠ db_BlockNumber b.
Proof.
  intros Ht Hn. destruct Hf. apply fi_wf0 in Ht. rewrite Hn in Ht. congruence.
Qed.

Lemma rows_number :
  Forall (λ r, tr_block_number r = db_BlockNumber b) (tx_rows (db_Transactions b)) ∧
  Forall (λ r, lr_block_number r = db_BlockNumber b) (log_rows (db_Transactions b)).
Proof. destruct Hf. apply numbered_rows; [apply fi_ok0|done]. Qed.

Lemma block_row_filter :
  filter (λ r, br_block_number r = db_BlockNumber b) (t_blocks db') = [toStorageBlock b].
Proof.
  destruct Hf. rewrite fi_blocks0, filter_app, filter_none.
  - apply filter_every. by intros r ->%list_elem_of_singleton.
  - intros r Hr Hn. assert (has_block db (db_BlockNumber b) = true); [|congruence].
    apply has_block_true. eauto.
Qed.

Lemma tx_rows_filter :
  filter (λ r, tr_block_number r = db_BlockNumber b) (t_txs db') = tx_rows (db_Transactions b).
Proof.
  rewrite (fi_txs _ _ _ Hf), filter_app, filter_none by (by apply old_tx_number).
  apply filter_every, Forall_forall, rows_number.
Qed.

Lemma tx_rows_sorted : order_by (λ t, [tr_tx_index t]) (tx_rows (db_Transactions b)) =
  tx_rows (db_Transactions b).
Proof.
  apply order_by_id. destruct (fi_ok _ _ _ Hf). unfold tx_rows.
  clear -bo_index0. induction bo_index0 as [|t txs Hs IH Ht]; [apply SSorted_nil|].
  rewrite fmap_cons. apply SSorted_cons; [done|].
  apply Forall_fmap. eapply Forall_impl; [exact Ht|]. simpl. intros t' Hlt.
  destruct (Z.ltb_spec (dt_TxIndex t') (dt_TxIndex t)); [lia|].
  destruct (Z.eqb_spec (dt_TxIndex t') (dt_TxIndex t)); [lia|done].
Qed.

Lemma tx_rows_read :
  toDomainTransaction <$> (scan_tx <$> tx_rows (db_Transactions b)) =
  stored_tx <$> db_Transactions b.
Proof.
  destruct Hf. unfold tx_rows in *. rewrite <-!list_fmap_compose.
  apply list_fmap_ext. intros i t Hi%list_elem_of_lookup_2.
  apply (toDomainTransaction_roundtrip b); [done..|].
  rewrite Forall_fmap, Forall_forall in fi_tx_check0. by apply fi_tx_check0.
Qed.

Lemma tx_row_by_hash t :
  t ∈ db_Transactions b →
  head (filter (λ r, sql_eq (tr_tx_hash r) (dt_TxHash t) = true) (t_txs db')) =
  Some (toStorageTransaction t).1.
Proof.
  intros Ht. destruct Hf as [_ Hwf' Hok _ _ _ _ Htx _ _ _ _].
  destruct Hok as [_ _ Hsome _ _ _]. rewrite Forall_forall in Hsome.
  destruct (Hsome t Ht) as ([h Hh] & _). rewrite Hh. apply head_filter_unique.
  - rewrite Htx. apply elem_of_app. right. unfold tx_rows.
    by apply (list_elem_of_fmap_2 (λ t, (toStorageTransaction t).1)).
  - simpl. rewrite Hh. apply sql_eq_refl.
  - intros r Hr Hq. eapply (unique_by_elem tx_conflict); [apply Hwf'|apply tx_conflict_sym|done| |].
    + rewrite Htx. apply elem_of_app. right.
      by apply (list_elem_of_fmap_2 (λ t, (toStorageTransaction t).1)).
    + unfold tx_conflict. simpl. rewrite Hh, sql_eq_sym, Hq. done.
Qed.

(** Block and index name one row. *)
Lemma tx_row_by_index t :
  t ∈ db_Transactions b →
  head (filter (λ r, tr_block_number r = db_BlockNumber b ∧ tr_tx_index r = dt_TxIndex t) (t_txs db')) =
    Some (toStorageTransaction t).1 ∧
  (is_Some (dt_BlockHash t) →
   head (filter (λ r, sql_eq (tr_block_hash r) (dt_BlockHash t) = true ∧ tr_tx_index r = dt_TxIndex t) (t_txs db')) =
    Some (toStorageTransaction t).1).
Proof.
  intros Ht. assert ((toStorageTransaction t).1 ∈ t_txs db') as Hin.
  { rewrite (fi_txs _ _ _ Hf). apply elem_of_app. right.
    by apply (list_elem_of_fmap_2 (λ t, (toStorageTransaction t).1)). }
  assert (tr_block_number (toStorageTransaction t).1 = db_BlockNumber b) as Hnum
    by (pose proof (proj1 rows_number) as Hn; rewrite Forall_forall in Hn; apply Hn;
        by apply (list_elem_of_fmap_2 (λ t, (toStorageTransaction t).1))).
  split; [|intros [h Hh]]; apply head_filter_unique; try done.
  - intros r Hr [Hn Hi]. eapply (unique_by_elem tx_conflict); [apply fi_wf' with (1 := Hf)|apply tx_conflict_sym|done..|].
    unfold tx_conflict, tx_clash. rewrite Hnum, Hn, Hi. simpl. rewrite !Z.eqb_refl. by rewrite !orb_true_r.
  - simpl. rewrite Hh, sql_eq_refl. done.
  - intros r Hr [Hn Hi]. eapply (unique_by_elem tx_conflict); [apply fi_wf' with (1 := Hf)|apply tx_conflict_sym|done..|].
    unfold tx_conflict, tx_clash. simpl. rewrite sql_eq_sym, Hn, Hi, Z.eqb_refl. by rewrite !orb_true_r.
Qed.

Lemma log_rows_by_hash t :
  t ∈ db_Transactions b →
  filter (λ l, sql_eq (lr_tx_hash l) (dt_TxHash t) = true) (t_logs db') = (toStorageTransaction t).2.
Proof.
  intros Ht. destruct Hf as [Hwf _ Hok _ _ _ _ _ Hl Hnew _ _]. rewrite Hl, filter_app, filter_none.
  2:{ intros l Hin (x & Hx & Hx')%sql_eq_true. apply Hwf in Hin.
      specialize (Hnew t Ht). congruence. }
  pose proof (bo_hashes b Hok) as Hnd. pose proof (λ t, log_rows_of_tx b t Hok) as Hrows.
  apply list_elem_of_split in Ht as (l1 & l2 & Heq). rewrite Heq in Hnd, Hrows |- *.
  unfold log_rows. rewrite bind_app, bind_cons, !filter_app.
  rewrite fmap_app, fmap_cons in Hnd. apply NoDup_app in Hnd as (_ & Hd & [Hd2 _]%NoDup_cons).
  assert (∀ l, (l = l1 ∨ l = l2) → filter (λ l, sql_eq (lr_tx_hash l) (dt_TxHash t) = true)
    (t ← l; (toStorageTransaction t).2) = []) as Hnone.
  { intros l Hcase. apply filter_none. intros r (t' & Hr & Ht')%list_elem_of_bind.
    intros (x & Hx & Hx')%sql_eq_true. destruct (Hrows t') as [_ Hh].
    { destruct Hcase as [->| ->]; set_solver. }
    eapply Forall_forall in Hh; [|exact Hr]. simpl in Hh.
    assert (dt_TxHash t' = dt_TxHash t) as He by congruence.
    destruct Hcase as [->| ->].
    - apply (Hd (dt_TxHash t)); [rewrite <-He; by apply list_elem_of_fmap_2|].
      apply list_elem_of_here.
    - apply Hd2. rewrite <-He. by apply list_elem_of_fmap_2. }
  rewrite (Hnone l1), (Hnone l2) by auto. rewrite !app_nil_r, app_nil_l.
  apply filter_every. intros r Hr. destruct (Hrows t) as [_ Hh]; [set_solver|].
  eapply Forall_forall in Hh; [|exact Hr]. simpl in Hh.
  pose proof (bo_tx b Hok) as Hsome. rewrite Heq, Forall_forall in Hsome.
  destruct (Hsome t ltac:(set_solver)) as ([h Hx] & _). rewrite Hh, Hx. apply sql_eq_refl.
Qed.

(** A log row of the block joins with the block's own row only. *)
Lemma join_block rows :
  Forall (λ r, lr_block_number r = db_BlockNumber b) rows →
  (l ← rows; b' ← filter (λ b, br_block_number b = lr_block_number l) (t_blocks db');
   [(l, br_timestamp b')]) = (λ l, (l, db_Timestamp b)) <$> rows.
Proof.
  induction 1 as [|l rows Hl _ IH]; [done|]. rewrite bind_cons, IH.
  rewrite (list_filter_iff _ (λ r, br_block_number r = db_BlockNumber b)) by (intros; by rewrite Hl).
  by rewrite block_row_filter.
Qed.

Lemma logs_read t :
  t ∈ db_Transactions b →
  (λ r, with_timestamp r.2 (toDomainLog r.1)) <$> q_GetLogsByTxHash db' (dt_TxHash t) =
  stored_log (db_Timestamp b) <$> dt_Logs t.
Proof.
  intros Ht. unfold q_GetLogsByTxHash, scan_logs, logs_joined.
  rewrite (log_rows_by_hash t Ht), join_block.
  2:{ apply Forall_forall. intros r Hr. destruct rows_number as [_ Hn].
      eapply Forall_forall in Hn; [exact Hn|]. apply list_elem_of_bind. eauto. }
  pose proof (fi_ok _ _ _ Hf) as Hok. pose proof (bo_logs b Hok) as Hlogs.
  rewrite Forall_forall in Hlogs. destruct (Hlogs t Ht) as [Hlok Hsort].
  rewrite order_by_id.
  - unfold toStorageTransaction. cbn [snd]. rewrite <-!list_fmap_compose.
    apply list_fmap_ext. intros i l Hi%list_elem_of_lookup_2.
    rewrite Forall_forall in Hlok. apply (toDomainLog_roundtrip t); [by apply Hlok|].
    pose proof (fi_log_check _ _ _ Hf) as Hc. rewrite Forall_forall in Hc. apply Hc.
    apply list_elem_of_bind. exists t. split; [|done]. unfold toStorageTransaction. cbn [snd].
    by apply list_elem_of_fmap_2.
  - unfold toStorageTransaction. cbn [snd]. clear Hlok.
    induction Hsort as [|l ls Hs IH Hl]; [apply SSorted_nil|].
    rewrite !fmap_cons. apply SSorted_cons; [done|].
    apply Forall_fmap, Forall_fmap. eapply Forall_impl; [exact Hl|]. simpl. intros l' Hlt.
    destruct (Z.ltb_spec (dl_LogIndex l') (dl_LogIndex l)); [lia|].
    destruct (Z.eqb_spec (dl_LogIndex l') (dl_LogIndex l)); [lia|done].
Qed.

Lemma block_row_by_hash :
  block_with_hash db' (db_BlockHash b) = Some (toStorageBlock b).
Proof.
  destruct Hf as [_ Hwf' _ _ _ Hc Hb _ _ _ _ _].
  destruct (block_check_facts _ Hc) as (_ & (h & Hh & _) & _). simpl in Hh.
  unfold block_with_hash. rewrite Hh. apply head_filter_unique.
  - rewrite Hb. apply elem_of_app. right. by apply list_elem_of_singleton.
  - simpl. rewrite Hh. apply sql_eq_refl.
  - intros r Hr Hq. eapply (unique_by_elem block_conflict);
      [apply Hwf'|apply block_conflict_sym|done| |].
    + rewrite Hb. apply elem_of_app. right. by apply list_elem_of_singleton.
    + unfold block_conflict, block_clash. simpl. rewrite Hh, Hq. by rewrite orb_true_r.
Qed.

(** The join of a transaction with the block's hash selects the block's rows. *)
Lemma txs_joined_block : txs_joined db' (db_BlockHash b) = tx_rows (db_Transactions b).
Proof.
  assert (∀ t, filter (λ b0, br_block_number b0 = tr_block_number t ∧
      sql_eq (br_block_hash b0) (db_BlockHash b) = true) (t_blocks db') =
    if decide (tr_block_number t = db_BlockNumber b) then [toStorageBlock b] else []) as Hj.
  { intros t. destruct Hf as [_ Hwf' _ _ Hn Hc Hb _ _ _ _ _].
    destruct (block_check_facts _ Hc) as (_ & (h & Hh & _) & _). simpl in Hh. case_decide as Hd.
    - rewrite Hd, <-block_row_filter. apply filter_ext_in.
      intros r Hr. split; [by intros [? _]|]. intros Hnr. split; [done|].
      assert (r ∈ [toStorageBlock b]) as ->%list_elem_of_singleton
        by (rewrite <-block_row_filter; by apply list_elem_of_filter).
      simpl. rewrite Hh. apply sql_eq_refl.
    - apply filter_none. intros r Hr [Hnr Hq]. apply Hd. rewrite <-Hnr.
      assert (r = toStorageBlock b) as ->; [|by simpl].
      eapply (unique_by_elem block_conflict); [apply Hwf'|apply block_conflict_sym|done| |].
      + rewrite Hb. apply elem_of_app. right. by apply list_elem_of_singleton.
      + unfold block_conflict, block_clash. simpl. rewrite Hq. by rewrite orb_true_r. }
  unfold txs_joined. rewrite <-tx_rows_filter.
  induction (t_txs db') as [|t ts IH]; [done|]. rewrite bind_cons, IH, Hj, filter_cons.
  by case_decide.
Qed.
End reads.

Lemma latest_row db b db' :
  fresh_insert db b db' → (∀ r, r ∈ t_blocks db → br_block_number r < db_BlockNumber b) →
  max_row br_block_number (t_blocks db') = Some (toStorageBlock b).
Proof.
  intros Hf Hold. pose proof (max_row_spec br_block_number (t_blocks db')) as Hm.
  assert (toStorageBlock b ∈ t_blocks db') as Hin.
  { rewrite (fi_blocks _ _ _ Hf). apply elem_of_app. right. by apply list_elem_of_singleton. }
  destruct (max_row _ _) as [m|].
  - destruct Hm as [Hmin Hmax]. specialize (Hmax _ Hin). simpl in Hmax.
    rewrite (fi_num _ _ _ Hf) in Hmax. rewrite (fi_blocks _ _ _ Hf) in Hmin.
    apply elem_of_app in Hmin as [Hr| ->%list_elem_of_singleton]; [|done].
    specialize (Hold m Hr). lia.
  - rewrite Hm in Hin. by apply not_elem_of_nil in Hin.
Qed.

(** C20: an inserted block reads back.  When [InsertBlock] accepts a block the
    store does not hold yet, with transactions it does not hold yet, then
    looking it up by number and by hash gives its header and its transactions
    in order, every transaction is found by hash, by block number and index and
    by block hash and index, its logs are found by its hash (in index order,
    stamped with the block's timestamp), the transaction counts agree, and a
    block above the tip becomes the latest block. *)
Theorem InsertBlock_readback s b s'
    (Hs : store_wf s) (Hb : block_ok b)
    (Hnew : has_block (st_db s) (db_BlockNumber b) = false)
    (Htx : ∀ t, t ∈ db_Transactions b → has_tx (st_db s) (dt_TxHash t) = false)
    (Hins : InsertBlock s b = (s', None)) :
  GetBlockByNumber s' (db_BlockNumber b) = Some (stored_block b) ∧
  GetBlockByHash s' (db_BlockHash b) = Some (stored_block b) ∧
  BlockNumberByHash s' (db_BlockHash b) = Some (db_BlockNumber b) ∧
  (∀ t, t ∈ db_Transactions b →
     GetTransactionByHash s' (dt_TxHash t) = Some (stored_tx t) ∧
     GetTransactionByBlockNumberAndIndex s' (db_BlockNumber b) (dt_TxIndex t) = Some (stored_tx t) ∧
     (is_Some (dt_BlockHash t) →
      GetTransactionByBlockHashAndIndex s' (dt_BlockHash t) (dt_TxIndex t) = Some (stored_tx t)) ∧
     GetLogsByTxHash s' (dt_TxHash t) = stored_log (db_Timestamp b) <$> dt_Logs t) ∧
  GetBlockTxCountByNumber s' (db_BlockNumber b) = Z.of_nat (length (db_Transactions b)) ∧
  GetBlockTxCountByHash s' (db_BlockHash b) = Z.of_nat (length (db_Transactions b)) ∧
  (BlockNumber s < db_BlockNumber b →
   BlockNumber s' = db_BlockNumber b ∧ LatestBlock s' = Some (stored_block b)).
Proof.
  unfold InsertBlock in Hins. destruct (insert_rows (st_db s) b) as [db'|] eqn:E; [|done].
  injection Hins as <-. destruct Hs as [Hwf [Hle _]].
  pose proof (insert_rows_fresh _ _ _ Hwf Hb Hnew Htx E) as Hf.
  pose proof (toDomainBlock_roundtrip b (bo_number b Hb) (fi_check _ _ _ Hf)) as Hrt.
  assert (length (tx_rows (db_Transactions b)) = length (db_Transactions b)) as Hlen
    by apply length_fmap.
  assert (toDomainTransaction <$> q_GetTransactionsByBlockNumber db' (db_BlockNumber b) =
          stored_tx <$> db_Transactions b) as Hrd.
  { unfold q_GetTransactionsByBlockNumber.
    rewrite (tx_rows_filter _ _ _ Hf), (tx_rows_sorted _ _ _ Hf). apply (tx_rows_read _ _ _ Hf). }
  unfold GetBlockByNumber, GetBlockByHash, BlockNumberByHash, GetTransactionByHash,
    GetLogsByTxHash, GetBlockTxCountByNumber, GetBlockTxCountByHash, BlockNumber, LatestBlock,
    q_GetBlockByNumber, q_GetBlockByHash, q_BlockNumberByHash, q_GetTransactionByHash,
    q_GetBlockTxCountByNumber, q_GetBlockTxCountByHash, q_LatestBlock,
    GetTransactionByBlockNumberAndIndex, GetTransactionByBlockHashAndIndex,
    q_GetTransactionByBlockNumberAndIndex, q_GetTransactionByBlockHashAndIndex.
  cbn [st_db st_CachedBlockNumber]. rewrite (fi_num _ _ _ Hf).
  rewrite (block_row_filter _ _ _ Hf), (block_row_by_hash _ _ _ Hf), (tx_rows_filter _ _ _ Hf),
    (txs_joined_block _ _ _ Hf), Hlen, Hrd.
  split_and!; try done.
  - cbn [head fmap option_fmap option_map mbind option_bind]. by rewrite Hrt.
  - unfold q_GetTransactionsByBlockHash.
    rewrite (txs_joined_block _ _ _ Hf), (tx_rows_sorted _ _ _ Hf), (tx_rows_read _ _ _ Hf).
    cbn [fmap option_fmap option_map mbind option_bind]. by rewrite Hrt.
  - cbn [fmap option_fmap option_map toStorageBlock br_block_number].
    rewrite u64_i64, u64_small by apply Hb. done.
  - intros t Ht. destruct (tx_row_by_index _ _ _ Hf t Ht) as [-> Hbh].
    rewrite (tx_row_by_hash _ _ _ Hf t Ht).
    assert (toDomainTransaction <$> (scan_tx <$> Some (toStorageTransaction t).1) = Some (stored_tx t)) as Hst.
    { cbn [fmap option_fmap option_map]. f_equal. apply (toDomainTransaction_roundtrip b); [done..|].
      pose proof (fi_tx_check _ _ _ Hf) as Hc. unfold tx_rows in Hc.
      rewrite Forall_fmap, Forall_forall in Hc. by apply Hc. }
    split_and!; [exact Hst..|intros Hs; by rewrite (Hbh Hs)|].
    by apply (logs_read _ _ _ Hf).
  - intros Hlt. destruct (Z.leb_spec (db_BlockNumber b) (st_CachedBlockNumber s)); [lia|].
    split; [done|]. rewrite (latest_row _ _ _ Hf) by (intros r Hr; specialize (Hle r Hr); lia).
    cbn [fmap option_fmap option_map mbind option_bind].
    change (br_block_number (scan_block (toStorageBlock b))) with (i64 (db_BlockNumber b)).
    rewrite (fi_num _ _ _ Hf), Hrd. by rewrite Hrt.
Qed.

(** Reverting to a snapshot restores the store.  From any store whose tables
    satisfy the schema, after any sequence of accepted blocks above the
    snapshot, [RevertToBlock] succeeds (children are deleted before the rows
    they reference) and gives back exactly the tables and the tip of the
    snapshot. *)
Theorem RevertToBlock_truncates s bs s'
    (Hs : store_wf s) (Hbs : Forall (later_block (Snapshot s)) bs)
    (Hins : InsertBlocks s bs = Some s') :
  RevertToBlock s' (Snapshot s) = (s, None).
Proof.
  destruct (InsertBlocks_above _ _ _ _ Hbs Hs Hins) as ([Hwf' _] & Hext & Hc).
  unfold RevertToBlock, Snapshot in *. destruct Hc as [[_ ->]|Hc].
  { rewrite Z.ltb_irrefl. by rewrite Z.eqb_refl. }
  destruct (Z.ltb_spec (st_CachedBlockNumber s') (st_CachedBlockNumber s)); [lia|].
  destruct (Z.eqb_spec (st_CachedBlockNumber s) (st_CachedBlockNumber s')); [lia|].
  unfold bind_u64. destruct (tip_range s Hs) as [_ Hr].
  destruct (Z.ltb_spec (st_CachedBlockNumber s) (2 ^ 63)); [|lia].
  change (mbind ?f (Ok ?n)) with (f n). cbn beta.
  rewrite (del_all_restores s (st_db s') Hs Hwf' Hext). by destruct s.
Qed.

(** C38: the tables always satisfy the schema.  Whatever blocks are inserted
    (accepted or refused), whatever stored heights are reverted to and however
    often the database is reopened, every row passes its checks, block numbers
    and hashes, transaction hashes, Fabric ids and block positions and log keys
    are unique, every transaction and log references a stored block and every
    log a stored transaction; and the cached number is that of the latest
    block. *)
Theorem store_schema s (Hr : rtc store_step (Init empty_db) s) :
  db_wf (st_db s) ∧
  match LatestBlock s with
  | None => t_blocks (st_db s) = [] ∧ BlockNumber s = 0
  | Some b => db_BlockNumber b = BlockNumber s
  end.
Proof.
  apply reachable_wf in Hr. split; [apply Hr|by apply LatestBlock_tip].
Qed.
End readback.

(** ** Concrete instances *)

(** A driver that scans zero-length blobs as nil. *)
Definition nil_driver : Driver := {| scan_empty := None; scan_empty_len := eq_refl |}.

(** A block with one transaction that emitted two logs, the second without data. *)
Definition demo_dblock (n : Z) : DBlock :=
  let h := Some (replicate 32 n) in
  let th := Some (replicate 32 (100 + n)) in
  let log i topics data := {|
    dl_BlockNumber := n; dl_BlockHash := h; dl_TxHash := th; dl_TxIndex := 0; dl_LogIndex := i;
    dl_Address := Some (replicate 20 9); dl_Topics := topics; dl_Data := data; dl_Timestamp := 0 |} in
  {| db_BlockNumber := n; db_BlockHash := h; db_ParentHash := Some (replicate 32 (n - 1));
     db_StateRoot := Some (replicate 32 1); db_Timestamp := 1000 + n;
     db_Transactions := [ {|
       dt_TxHash := th; dt_BlockHash := h; dt_BlockNumber := n; dt_TxIndex := 0;
       dt_RawTx := Some [1; 0]; dt_FromAddress := Some (replicate 20 5);
       dt_ToAddress := Some (replicate 20 6); dt_ContractAddress := None; dt_Status := 1;
       dt_FabricTxID := String (Ascii.ascii_of_nat (Z.to_nat n)) EmptyString;
       dt_FabricTxStatus := StatusCommitted; dt_GasUsed := 21000; dt_CumulativeGasUsed := 21000;
       dt_Logs := [log 0 [Some (replicate 32 3)] (Some [7]); log 1 [] None] |} ] |}.

#[local] Existing Instances nil_driver demo_wire.

Definition demo_store (bs : list DBlock) : Store := default (Init empty_db) (InsertBlocks (Init empty_db) bs).

Lemma demo_dblock_ok n : 0 ≤ n < 2 ^ 63 → block_ok (demo_dblock n) ∧ numbered (demo_dblock n).
Proof.
  intros Hn. assert (is_u64 n) by (unfold is_u64; lia).
  assert (numbered (demo_dblock n)) as Hnum by (repeat constructor).
  split; [|done]. split; try done.
  - constructor; [|constructor]. simpl. unfold is_u64, is_i64. split_and!; eauto; lia.
  - repeat constructor.
  - apply NoDup_singleton.
  - constructor; [|constructor]. simpl. split.
    + repeat constructor; simpl; try done; eauto; lia.
    + repeat constructor; simpl; lia.
Qed.

Lemma demo_store_reachable bs s :
  Forall (λ b, is_u64 (db_BlockNumber b)) bs → InsertBlocks (Init empty_db) bs = Some s →
  rtc store_step (Init empty_db) s.
Proof.
  intros Hbs. generalize (Init empty_db). induction Hbs as [|b bs Hb _ IH]; intros s0; simpl.
  { intros [= <-]. done. }
  destruct (InsertBlock s0 b) as [s1 [|]] eqn:E; [done|]. intros Hs.
  eapply rtc_l; [by eapply step_insert|by apply IH].
Qed.

(** Block 2 on top of block 1. *)
Lemma InsertBlock_readback_witness :
  ∃ s', InsertBlock (demo_store [demo_dblock 1]) (demo_dblock 2) = (s', None) ∧
    GetBlockByNumber s' 2 = Some (stored_block (demo_dblock 2)) ∧
    LatestBlock s' = Some (stored_block (demo_dblock 2)) ∧
    length (GetLogsByTxHash s' (Some (replicate 32 102))) = 2%nat.
Proof.
  set (s := demo_store [demo_dblock 1]).
  assert ((InsertBlock s (demo_dblock 2)).2 = None) as Hok by (vm_compute; reflexivity).
  destruct (InsertBlock s (demo_dblock 2)) as [s' [|]] eqn:E; [done|].
  exists s'. split; [reflexivity|].
  destruct (InsertBlock_readback s (demo_dblock 2) s') as (Hn & _ & _ & Ht & _ & _ & Hl).
  - apply reachable_wf, (demo_store_reachable [demo_dblock 1]); [|vm_compute; reflexivity].
    repeat constructor; unfold is_u64; simpl; lia.
  - apply demo_dblock_ok. lia.
  - vm_compute; reflexivity.
  - intros t ->%list_elem_of_singleton. vm_compute; reflexivity.
  - exact E.
  - split; [exact Hn|]. split; [apply Hl; vm_compute; reflexivity|].
    destruct (Ht _ (list_elem_of_here _ _)) as (_ & _ & _ & Hlog).
    etransitivity; [exact (f_equal length Hlog)|reflexivity].
Defined.

(** Two blocks on top of a snapshot at block 1, then back. *)
Lemma RevertToBlock_truncates_witness :
  let s := demo_store [demo_dblock 1] in
  ∃ s', InsertBlocks s [demo_dblock 2; demo_dblock 4] = Some s' ∧
    BlockNumber s' = 4 ∧ RevertToBlock s' (Snapshot s) = (s, None).
Proof.
  intros s. assert (option_map BlockNumber (InsertBlocks s [demo_dblock 2; demo_dblock 4]) = Some 4)
    as Hnum by (vm_compute; reflexivity).
  destruct (InsertBlocks s [demo_dblock 2; demo_dblock 4]) as [s'|] eqn:E; [|done].
  exists s'. split; [reflexivity|]. split; [by injection Hnum|].
  apply (RevertToBlock_truncates s [demo_dblock 2; demo_dblock 4]); [| |exact E].
  - apply reachable_wf, (demo_store_reachable [demo_dblock 1]); [|vm_compute; reflexivity].
    repeat constructor; unfold is_u64; simpl; lia.
  - change (Snapshot s) with 1. constructor; [|constructor; [|constructor]]; split_and!;
      try (apply demo_dblock_ok; lia); unfold is_u64; simpl; lia.
Defined.

Lemma store_schema_witness :
  let s := demo_store [demo_dblock 1; demo_dblock 2] in
  db_wf (st_db s) ∧ option_map db_BlockNumber (LatestBlock s) = Some (BlockNumber s).
Proof.
  intros s. assert (rtc store_step (Init empty_db) s) as Hr.
  { apply (demo_store_reachable [demo_dblock 1; demo_dblock 2]); [|vm_compute; reflexivity].
    repeat constructor; unfold is_u64; simpl; lia. }
  destruct (store_schema s Hr) as [Hwf Hl]. split; [exact Hwf|].
  assert (is_Some (LatestBlock s)) as Hsome by (vm_compute; eauto).
  destruct (LatestBlock s) as [b|]; [|by destruct Hsome].
  exact (f_equal Some Hl).
Defined.
