(* ===== verification/Trie.v ===== *)
(** * Trie: the state trie beside the block store

    gateway/storage/trie/store.go keeps go-ethereum's state trie up to date by
    replaying the committed write sets.  go-ethereum's state database is an
    interface here; the theorem relates the accounts it holds to the world
    state the endorsers keep ([KVSpec]), the write format being that of
    endorser/execution/statedb.go ([StateDB]). *)

From Stdlib Require Import ZArith Lia Ascii.
From stdpp Require Import base numbers list gmap strings.
From S2P Require Import Prelude Blocks KVSpec Geth Codec StateDB.

Local Open Scope Z_scope.

(** ** go-ethereum's state database *)

(** [mpt_db] is the backing database, [mpt_sdb] a state opened at a root. *)
Class StateTrie (G : GethTypes) := {
  mpt_db : Type;
  mpt_sdb : Type;
  state_New : Hash → mpt_db → option mpt_sdb;
  mpt_SetBalance : Address → Z → mpt_sdb → mpt_sdb;
  mpt_SetNonce : Address → Z → mpt_sdb → mpt_sdb;
  mpt_SetCode : Address → byte_slice → mpt_sdb → mpt_sdb;
  mpt_SetState : Address → Hash → Hash → mpt_sdb → mpt_sdb;
  mpt_Commit : mpt_db → mpt_sdb → Z → option (Hash * mpt_db);
  TrieDB_Commit : mpt_db → Hash → option mpt_db;
  mpt_GetBalance : mpt_sdb → Address → Z;
  mpt_GetNonce : mpt_sdb → Address → Z;
  mpt_GetCode : mpt_sdb → Address → byte_slice;
  mpt_GetState : mpt_sdb → Address → Hash → Hash;
  HexToAddress : string → Address;
  HexToHash : string → Hash
}.

Fixpoint no_colon (s : string) : bool :=
  match s with
  | EmptyString => true
  | String c s => negb (bool_decide (c = ":"%char)) && no_colon s
  end.

(** A setter changes its own field of its own account; committing keeps what
    an account reads as and makes the new root accessible; parsing inverts
    printing, and a text of at most 32 characters encodes at most 16 bytes,
    which a hash holds at its end. *)
Class StateTrieLaws (G : GethTypes) (S : StateTrie G) := {
  SetBalance_balance a v s a' : mpt_GetBalance (mpt_SetBalance a v s) a' =
    if decide (a = a') then v else mpt_GetBalance s a';
  SetBalance_nonce a v s a' : mpt_GetNonce (mpt_SetBalance a v s) a' = mpt_GetNonce s a';
  SetBalance_code a v s a' : mpt_GetCode (mpt_SetBalance a v s) a' = mpt_GetCode s a';
  SetNonce_nonce a v s a' : mpt_GetNonce (mpt_SetNonce a v s) a' =
    if decide (a = a') then v else mpt_GetNonce s a';
  SetNonce_balance a v s a' : mpt_GetBalance (mpt_SetNonce a v s) a' = mpt_GetBalance s a';
  SetNonce_code a v s a' : mpt_GetCode (mpt_SetNonce a v s) a' = mpt_GetCode s a';
  SetCode_code a v s a' : mpt_GetCode (mpt_SetCode a v s) a' =
    if decide (a = a') then v else mpt_GetCode s a';
  SetCode_balance a v s a' : mpt_GetBalance (mpt_SetCode a v s) a' = mpt_GetBalance s a';
  SetCode_nonce a v s a' : mpt_GetNonce (mpt_SetCode a v s) a' = mpt_GetNonce s a';
  SetState_balance a k v s a' : mpt_GetBalance (mpt_SetState a k v s) a' = mpt_GetBalance s a';
  SetState_nonce a k v s a' : mpt_GetNonce (mpt_SetState a k v s) a' = mpt_GetNonce s a';
  SetState_code a k v s a' : mpt_GetCode (mpt_SetState a k v s) a' = mpt_GetCode s a';
  SetState_state a k v s : mpt_GetState (mpt_SetState a k v s) a k = v;
  Commit_reads d s n r d' : mpt_Commit d s n = Some (r, d') →
    ∃ s', state_New r d' = Some s' ∧ ∀ a, mpt_GetBalance s' a = mpt_GetBalance s a ∧
      mpt_GetNonce s' a = mpt_GetNonce s a ∧ mpt_GetCode s' a = mpt_GetCode s a;
  TrieDB_Commit_reads d r d' : TrieDB_Commit d r = Some d' → state_New r d' = state_New r d;
  HexToAddress_Hex a : HexToAddress (Address_Hex a) = a;
  Address_Hex_nocolon a : no_colon (Address_Hex a) = true;
  HexToHash_Hex h : HexToHash (Hash_Hex h) = h;
  HexToHash_short s : (String.length s ≤ 32)%nat →
    take 16 (Hash_Bytes (HexToHash s)) = replicate 16 0
}.

(** ** storage/trie/store.go *)

Inductive trie_error := OpenState | CommitState | FlushTrie.

Section trie.
Context {G : GethTypes} {S : StateTrie G}.

Record TrieStore := {
  trie_db : mpt_db;
  trie_root : Hash;
  trie_persistent : bool
}.

(** [New] over an opened backing database. *)
Definition trie_New (db : mpt_db) (persistent : bool) (initialRoot : Hash)
    : result trie_error TrieStore :=
  match state_New initialRoot db with
  | None => Err OpenState
  | Some _ => Ok {| trie_db := db; trie_root := initialRoot; trie_persistent := persistent |}
  end.

(** The text before and after the first colon. *)
Fixpoint cut_colon (s : string) : option (string * string) :=
  match s with
  | EmptyString => None
  | String c s =>
      if bool_decide (c = ":"%char) then Some (EmptyString, s)
      else match cut_colon s with
           | Some (a, b) => Some (String c a, b)
           | None => None
           end
  end.

(** [strings.SplitN(key, ":", 3)]. *)
Definition SplitN3 (s : string) : list string :=
  match cut_colon s with
  | None => [s]
  | Some (a, r) => match cut_colon r with
                   | None => [a; r]
                   | Some (b, c) => [a; b; c]
                   end
  end.

Definition applyAccountWrite (sdb : mpt_sdb) (w : KVWrite) : mpt_sdb :=
  match SplitN3 (kw_Key w) with
  | [_; hexAddr; field] =>
      let addr := HexToAddress hexAddr in
      let v := slice_bytes (kw_Value w) in
      if decide (field = "bal") then
        if kw_IsDelete w || (length v =? 0)%nat then mpt_SetBalance addr 0 sdb
        else mpt_SetBalance addr (u256 (be_value v)) sdb
      else if decide (field = "nonce") then
        if kw_IsDelete w then mpt_SetNonce addr 0 sdb
        else if (length v =? 8)%nat then mpt_SetNonce addr (be_value v) sdb
        else sdb
      else if decide (field = "code") then
        if kw_IsDelete w then mpt_SetCode addr [] sdb
        else mpt_SetCode addr v sdb
      else sdb
  | _ => sdb
  end.

Definition applyStorageWrite (sdb : mpt_sdb) (w : KVWrite) : mpt_sdb :=
  match SplitN3 (kw_Key w) with
  | [_; hexAddr; hexSlot] =>
      let addr := HexToAddress hexAddr in
      let slot := HexToHash hexSlot in
      if kw_IsDelete w then mpt_SetState addr slot Hash_zero sdb
      else mpt_SetState addr slot (HexToHash (bytes_str (slice_bytes (kw_Value w)))) sdb
  | _ => sdb
  end.

Definition applyWrite (sdb : mpt_sdb) (w : KVWrite) : mpt_sdb :=
  if String.prefix "acc:" (kw_Key w) then applyAccountWrite sdb w
  else if String.prefix "str:" (kw_Key w) then applyStorageWrite sdb w
  else sdb.

(** The three nested loops of [Commit]. *)
Definition apply_tx (sdb : mpt_sdb) (tx : Transaction) : mpt_sdb :=
  if negb (tx_Valid tx) then sdb
  else foldl (λ sdb nsRWS, foldl applyWrite sdb (rws_Writes (ns_RWS nsRWS))) sdb (tx_NsRWS tx).

Definition trie_Commit (s : TrieStore) (block : Block) : result trie_error Hash * TrieStore :=
  match state_New (trie_root s) (trie_db s) with
  | None => (Err OpenState, s)
  | Some sdb =>
      match mpt_Commit (trie_db s) (foldl apply_tx sdb (b_Transactions block)) (b_Number block) with
      | None => (Err CommitState, s)
      | Some (newRoot, db) =>
          match (if trie_persistent s then TrieDB_Commit db newRoot else Some db) with
          | None => (Err FlushTrie,
                     {| trie_db := db; trie_root := trie_root s; trie_persistent := trie_persistent s |})
          | Some db =>
              (Ok newRoot,
               {| trie_db := db; trie_root := newRoot; trie_persistent := trie_persistent s |})
          end
      end
  end.
End trie.

(** ** Keys *)

Lemma cut_colon_app a b : no_colon a = true → cut_colon (a +:+ ":" +:+ b) = Some (a, b).
Proof.
  induction a as [|c a IH]; simpl; [done|].
  rewrite andb_true_iff, negb_true_iff. intros [Hc Ha].
  rewrite Hc. simpl in IH. by rewrite IH.
Qed.

Lemma SplitN3_key p a r :
  no_colon p = true → no_colon a = true → SplitN3 (p +:+ ":" +:+ a +:+ ":" +:+ r) = [p; a; r].
Proof.
  intros Hp Ha. unfold SplitN3. rewrite (cut_colon_app p (a +:+ ":" +:+ r) Hp).
  by rewrite (cut_colon_app a r Ha).
Qed.

Lemma string_app_inj_l a b c : a +:+ b = a +:+ c → b = c.
Proof. induction a as [|x a IH]; simpl; [done|]. intros [= H]. auto. Qed.

Section props.
Context {G : GethTypes} {GL : GethLaws G} {S : StateTrie G} {SL : StateTrieLaws G S}.

Lemma accKey_split a f : SplitN3 (accKey a f) = ["acc"; Address_Hex a; f].
Proof.
  change (accKey a f) with ("acc" +:+ ":" +:+ Address_Hex a +:+ ":" +:+ f).
  apply SplitN3_key; [done|apply Address_Hex_nocolon].
Qed.

Lemma storeKey_split a h : SplitN3 (storeKey a h) = ["str"; Address_Hex a; Hash_Hex h].
Proof.
  change (storeKey a h) with ("str" +:+ ":" +:+ Address_Hex a +:+ ":" +:+ Hash_Hex h).
  apply SplitN3_key; [done|apply Address_Hex_nocolon].
Qed.

(** ** The account view *)

(** The bytes a reader of the world state gets for a key. *)
Definition kv_value (ns : string) (d : worldstate) (k : string) : byte_slice :=
  match d !! fullKey ns k with
  | Some vv => if vv_IsDelete vv then [] else slice_bytes (vv_Value vv)
  | None => []
  end.

Definition kv_balance (ns : string) (d : worldstate) (a : Address) : Z :=
  bytesToUint256 (kv_value ns d (accKey a "bal")).
Definition kv_nonce (ns : string) (d : worldstate) (a : Address) : Z :=
  be_value (kv_value ns d (accKey a "nonce")).
Definition kv_code (ns : string) (d : worldstate) (a : Address) : byte_slice :=
  kv_value ns d (accKey a "code").

(** The trie state holds the accounts of the world state. *)
Definition trie_agrees (ns : string) (d : worldstate) (s : mpt_sdb) : Prop :=
  ∀ a, mpt_GetBalance s a = kv_balance ns d a ∧ mpt_GetNonce s a = kv_nonce ns d a ∧
       mpt_GetCode s a = kv_code ns d a.

(** The writes the endorser produces: account and storage keys in its own
    format (or keys of neither form), nonces of eight bytes. *)
Definition evm_write (w : KVWrite) : Prop :=
  (∃ a f, kw_Key w = accKey a f ∧
     (f = "nonce" → kw_IsDelete w = false → length (slice_bytes (kw_Value w)) = 8%nat)) ∨
  (∃ a h, kw_Key w = storeKey a h) ∨
  (String.prefix "acc:" (kw_Key w) = false ∧ String.prefix "str:" (kw_Key w) = false).

Definition evm_block (ns : string) (b : Block) : Prop :=
  Forall (λ tx, Forall (λ n, ns_Namespace n = ns ∧ Forall evm_write (rws_Writes (ns_RWS n)))
                  (tx_NsRWS tx)) (b_Transactions b).

(** The world state after one write, as far as its values go. *)
Definition w_value (w : KVWrite) : byte_slice :=
  if kw_IsDelete w then [] else slice_bytes (kw_Value w).

Lemma kv_value_write ns d u k w :
  kvv_Key u = fullKey ns (kw_Key w) → kvv_IsDelete u = kw_IsDelete w → kvv_Value u = kw_Value w →
  kv_value ns (write1 d u) k = if decide (kw_Key w = k) then w_value w else kv_value ns d k.
Proof.
  intros Hk Hd Hv. unfold kv_value, write1. rewrite Hk, lookup_insert. case_decide as He.
  - simpl. rewrite Hd, Hv. apply (string_app_inj_l ns), (string_app_inj_l ":") in He.
    by rewrite decide_True.
  - rewrite decide_False; [done|]. intros <-. done.
Qed.

Lemma prefix_app p s : String.prefix p (p +:+ s) = true.
Proof.
  induction p as [|c p IH]; [by destruct s|]. simpl. by destruct (ascii_dec c c).
Qed.

Lemma prefix_acc a f : String.prefix "acc:" (accKey a f) = true.
Proof. apply (prefix_app "acc:"). Qed.

Lemma if_accKey {A} a f a' g (x y : A) :
  (if decide (accKey a f = accKey a' g) then x else y) =
  if decide (a = a' ∧ f = g) then x else y.
Proof.
  destruct (decide (a = a' ∧ f = g)) as [[-> ->]|Hne]; [by rewrite decide_True|].
  rewrite decide_False; [done|]. intros ?%accKey_inj. done.
Qed.

(** What [applyWrite] does to the account fields. *)
Lemma applyAccount_reads s w a f a' :
  kw_Key w = accKey a f →
  (f = "nonce" → kw_IsDelete w = false → length (slice_bytes (kw_Value w)) = 8%nat) →
  mpt_GetBalance (applyWrite s w) a' =
    (if decide (a = a' ∧ f = "bal") then bytesToUint256 (w_value w) else mpt_GetBalance s a') ∧
  mpt_GetNonce (applyWrite s w) a' =
    (if decide (a = a' ∧ f = "nonce") then be_value (w_value w) else mpt_GetNonce s a') ∧
  mpt_GetCode (applyWrite s w) a' =
    (if decide (a = a' ∧ f = "code") then w_value w else mpt_GetCode s a').
Proof.
  intros Hk Hf. unfold applyWrite. rewrite Hk, prefix_acc. unfold applyAccountWrite, w_value.
  rewrite Hk, accKey_split, HexToAddress_Hex. cbn zeta.
  destruct (decide (f = "bal")) as [->|Hb].
  { replace (if kw_IsDelete w || _ then _ else _) with
      (mpt_SetBalance a (bytesToUint256 (if kw_IsDelete w then [] else slice_bytes (kw_Value w))) s)
      by (destruct (kw_IsDelete w); [done|by destruct (slice_bytes (kw_Value w))]).
    rewrite SetBalance_balance, SetBalance_nonce, SetBalance_code.
    split_and!; repeat case_decide; naive_solver. }
  destruct (decide (f = "nonce")) as [->|Hn].
  { replace (if kw_IsDelete w then mpt_SetNonce a 0 s else _) with
      (mpt_SetNonce a (be_value (if kw_IsDelete w then [] else slice_bytes (kw_Value w))) s)
      by (destruct (kw_IsDelete w); [done|by rewrite Hf]).
    rewrite SetNonce_balance, SetNonce_nonce, SetNonce_code.
    split_and!; repeat case_decide; naive_solver. }
  destruct (decide (f = "code")) as [->|Hc].
  { replace (if kw_IsDelete w then mpt_SetCode a [] s else mpt_SetCode a (slice_bytes (kw_Value w)) s)
      with (mpt_SetCode a (if kw_IsDelete w then [] else slice_bytes (kw_Value w)) s)
      by (by destruct (kw_IsDelete w)).
    rewrite SetCode_balance, SetCode_nonce, SetCode_code.
    split_and!; repeat case_decide; naive_solver. }
  split_and!; repeat case_decide; naive_solver.
Qed.

Lemma applyStorage_reads s w a h a' :
  kw_Key w = storeKey a h →
  mpt_GetBalance (applyWrite s w) a' = mpt_GetBalance s a' ∧
  mpt_GetNonce (applyWrite s w) a' = mpt_GetNonce s a' ∧
  mpt_GetCode (applyWrite s w) a' = mpt_GetCode s a'.
Proof.
  intros Hk. unfold applyWrite. rewrite Hk.
  change (String.prefix "acc:" (storeKey a h)) with false.
  rewrite (prefix_app "str:" _ : String.prefix "str:" (storeKey a h) = true).
  unfold applyStorageWrite.
  rewrite Hk, storeKey_split. destruct (kw_IsDelete w);
    by rewrite SetState_balance, SetState_nonce, SetState_code.
Qed.

(** One write keeps the agreement. *)
Lemma applyWrite_agrees ns d s u w :
  evm_write w → trie_agrees ns d s →
  kvv_Key u = fullKey ns (kw_Key w) → kvv_IsDelete u = kw_IsDelete w → kvv_Value u = kw_Value w →
  trie_agrees ns (write1 d u) (applyWrite s w).
Proof.
  intros Hw Hs Hk Hd Hv a. destruct (Hs a) as (Hb & Hn & Hc).
  unfold kv_balance, kv_nonce, kv_code. rewrite !(kv_value_write _ _ _ _ w Hk Hd Hv).
  destruct Hw as [(a' & f & Hkey & Hf)|[(a' & h & Hkey)|[Hp1 Hp2]]].
  - destruct (applyAccount_reads s w a' f a Hkey Hf) as (-> & -> & ->).
    rewrite Hkey, !if_accKey, Hb, Hn, Hc. repeat case_decide; done.
  - destruct (applyStorage_reads s w a' h a Hkey) as (-> & -> & ->).
    rewrite Hkey, !decide_False by done. done.
  - unfold applyWrite. rewrite Hp1, Hp2.
    rewrite !decide_False by (intros He; by rewrite He, prefix_acc in Hp1). done.
Qed.

Lemma apply_tx_agrees ns d s bn tx :
  Forall (λ n, ns_Namespace n = ns ∧ Forall evm_write (rws_Writes (ns_RWS n))) (tx_NsRWS tx) →
  trie_agrees ns d s → trie_agrees ns (writes d (tx_updates bn tx)) (apply_tx s tx).
Proof.
  intros Hl. unfold tx_updates, apply_tx. destruct (tx_Valid tx); [simpl|done].
  revert d s. induction Hl as [|n l [Hns Hws] _ IH]; intros d s Hs; [done|].
  simpl. rewrite writes_app. apply IH. clear IH.
  revert d s Hs. induction Hws as [|w ws Hw _ IH]; intros d s Hs; [done|].
  simpl. apply IH. apply applyWrite_agrees; try done. simpl. by rewrite Hns.
Qed.

Lemma apply_txs_agrees ns d s bn txs :
  Forall (λ tx, Forall (λ n, ns_Namespace n = ns ∧ Forall evm_write (rws_Writes (ns_RWS n)))
                  (tx_NsRWS tx)) txs →
  trie_agrees ns d s → trie_agrees ns (writes d (txs ≫= tx_updates bn)) (foldl apply_tx s txs).
Proof.
  intros Hl. revert d s. induction Hl as [|tx txs Htx _ IH]; intros d s Hs; [done|].
  simpl. rewrite writes_app. apply IH. by apply apply_tx_agrees.
Qed.

(** ** The properties *)

(** C37: the trie follows the ledger.  If the state at the trie's root holds the
    balances, nonces and code of a world state, then after a successful
    [Commit] of a block of endorser-format writes the state at the returned
    root holds those of the world state with the block's valid writes applied:
    deletes read as zero, the last write of a block wins, writes of invalid
    transactions do not show. *)
Theorem trie_follows_ledger ns d (ts : TrieStore) s b r ts'
    (Hopen : state_New (trie_root ts) (trie_db ts) = Some s)
    (Hs : trie_agrees ns d s) (Hb : evm_block ns b)
    (Hc : trie_Commit ts b = (Ok r, ts')) :
  trie_root ts' = r ∧
  ∃ s', state_New r (trie_db ts') = Some s' ∧ trie_agrees ns (writes d (blockUpdates b)) s'.
Proof.
  unfold trie_Commit in Hc. rewrite Hopen in Hc.
  destruct (mpt_Commit _ _ _) as [[newRoot db]|] eqn:E; [|done].
  destruct (Commit_reads _ _ _ _ _ E) as (s' & Hn & Hr).
  assert (trie_agrees ns (writes d (blockUpdates b)) s') as Hag.
  { rewrite blockUpdates_flat. intros a. destruct (Hr a) as (-> & -> & ->).
    by apply apply_txs_agrees. }
  destruct (trie_persistent ts); [destruct (TrieDB_Commit db newRoot) as [db'|] eqn:Ef; [|done]|];
    injection Hc as <- <-; (split; [done|]); exists s'; (split; [|done]); simpl.
  - by rewrite (TrieDB_Commit_reads _ _ _ Ef).
  - done.
Qed.

(** The endorser stores a slot as the 32 raw bytes of its value
    ([StateDB.SetState]); [applyStorageWrite] reads the bytes as hexadecimal
    text, so the trie never holds a value with a non-zero byte among its first
    sixteen. *)
Lemma trie_storage_mangled (s : mpt_sdb) addr slot value :
  take 16 (Hash_Bytes value) ≠ replicate 16 0 →
  mpt_GetState (applyWrite s {| kw_Key := storeKey addr slot; kw_IsDelete := false;
                                kw_Value := Some (Hash_Bytes value) |}) addr slot ≠ value.
Proof.
  intros Hv. unfold applyWrite. cbn [kw_Key].
  change (String.prefix "acc:" (storeKey addr slot)) with false.
  rewrite (prefix_app "str:" _ : String.prefix "str:" (storeKey addr slot) = true).
  unfold applyStorageWrite. cbn [kw_Key kw_IsDelete kw_Value slice_bytes default].
  rewrite storeKey_split, HexToAddress_Hex, HexToHash_Hex, SetState_state. cbn [from_option id].
  intros He. apply Hv. rewrite <-He at 1. apply HexToHash_short.
  rewrite bytes_str_length, Hash_Bytes_length. lia.
Qed.
End props.

(** ** A concrete state database

    Accounts in finite maps; every commit prepends its state under one root. *)

Record map_sdb := {
  ms_bal : gmap bool Z; ms_nonce : gmap bool Z; ms_code : gmap bool byte_slice;
  ms_store : gmap (bool * (bool * bool)) (bool * bool)
}.

Definition hash_texts (f : bool * bool → bool) : list string :=
  (@Hash_Hex four_types) <$> filter (λ h, f h = true) [(true, true); (true, false); (false, true)].

Definition map_trie : StateTrie four_types :=
  @Build_StateTrie four_types (list ((bool * bool) * map_sdb)) map_sdb
    (λ r db, snd <$> head (filter (λ e, e.1 = r) db))
    (λ a v s, {| ms_bal := <[a := v]> (ms_bal s); ms_nonce := ms_nonce s;
                 ms_code := ms_code s; ms_store := ms_store s |})
    (λ a v s, {| ms_bal := ms_bal s; ms_nonce := <[a := v]> (ms_nonce s);
                 ms_code := ms_code s; ms_store := ms_store s |})
    (λ a v s, {| ms_bal := ms_bal s; ms_nonce := ms_nonce s;
                 ms_code := <[a := v]> (ms_code s); ms_store := ms_store s |})
    (λ a k v s, {| ms_bal := ms_bal s; ms_nonce := ms_nonce s; ms_code := ms_code s;
                   ms_store := <[(a, k) := v]> (ms_store s) |})
    (λ db s _, Some ((true, true), ((true, true), s) :: db))
    (λ db _, Some db)
    (λ s a, default 0 (ms_bal s !! a)) (λ s a, default 0 (ms_nonce s !! a))
    (λ s a, default [] (ms_code s !! a))
    (λ s a k, default (false, false) (ms_store s !! (a, k)))
    (λ t, bool_decide (t = @Address_Hex four_types true))
    (λ t, (bool_decide (t ∈ hash_texts fst), bool_decide (t ∈ hash_texts snd))).

#[export] Instance map_trie_laws : StateTrieLaws four_types map_trie.
Proof.
  constructor; simpl; try done; try (intros; rewrite lookup_insert; by case_decide).
  - intros d s n r d' [= <- <-]. exists s. done.
  - by intros d r d' [= <-].
  - by intros [].
  - by intros [].
  - by intros [[] []].
  - intros t Ht. assert (∀ f, t ∉ hash_texts f) as Hn.
    { intros f (h & -> & _)%list_elem_of_fmap. revert Ht. destruct h as [[] []]; vm_compute; lia. }
    rewrite !bool_decide_eq_false_2 by apply Hn. done.
Qed.

(** A block that sets a balance and a nonce and deletes an account's code. *)
Definition trie_block : Block := {|
  b_Number := 1; b_Hash := [1]; b_ParentHash := [0]; b_Timestamp := 1;
  b_Transactions := [ {|
    tx_ID := "t"; tx_Number := 0; tx_Status := StatusCommitted;
    tx_NsRWS := [ {| ns_Namespace := "evm"; ns_RWS := {| rws_Reads := []; rws_Writes := [
      {| kw_Key := @accKey four_types true "bal"; kw_IsDelete := false; kw_Value := Some [1; 0] |};
      {| kw_Key := @accKey four_types true "nonce"; kw_IsDelete := false;
         kw_Value := Some [0; 0; 0; 0; 0; 0; 0; 7] |};
      {| kw_Key := @accKey four_types false "code"; kw_IsDelete := true; kw_Value := None |} ] |} |} ];
    tx_EventName := ""; tx_Event := []; tx_InputArgs := []; tx_Payload := [] |} ]
|}.

#[local] Existing Instances four_types map_trie.

Lemma trie_follows_ledger_witness :
  let s0 := {| ms_bal := ∅; ms_nonce := ∅; ms_code := ∅; ms_store := ∅ |} in
  let ts := {| trie_db := [((false, false), s0)]; trie_root := (false, false);
               trie_persistent := true |} in
  ∃ r ts' s', trie_Commit ts trie_block = (Ok r, ts') ∧ state_New r (trie_db ts') = Some s' ∧
    trie_agrees "evm" (writes ∅ (blockUpdates trie_block)) s' ∧
    mpt_GetBalance s' true = 256 ∧ mpt_GetNonce s' true = 7.
Proof.
  intros s0 ts. destruct (trie_Commit ts trie_block) as [[r|] ts'] eqn:E; [|discriminate E].
  destruct (trie_follows_ledger "evm" ∅ ts s0 trie_block r ts') as (_ & s' & Hs' & Hag).
  - reflexivity.
  - intros a. unfold kv_balance, kv_nonce, kv_code, kv_value. rewrite lookup_empty. by destruct a.
  - constructor; [|constructor]. constructor; [|constructor]. split; [reflexivity|].
    apply Forall_cons; split; [left; exists true, "bal"; by split|].
    apply Forall_cons; split; [left; exists true, "nonce"; by split|].
    apply Forall_singleton. left. exists false, "code". by split.
  - exact E.
  - exists r, ts', s'. split; [reflexivity|]. split; [exact Hs'|]. split; [exact Hag|].
    destruct (Hag true) as (Hb & Hn & _). rewrite Hb, Hn. vm_compute. by split.
Defined.
