(* ===== verification/Chain.v ===== *)
(** * Chain: block ingestion on the gateway

    [Chain] (gateway/core/chain.go) composes the conversion ([Convert]), the
    state trie ([Trie]) and the block store ([Store]): each committed Fabric
    block is converted, its writes go to the trie, and the block is inserted
    with the previous block's hash as parent.  The theorems: stored blocks form
    a hash-linked chain through deliveries, refused blocks, replays and
    restarts, and replaying delivered blocks changes nothing. *)

From Stdlib Require Import ZArith Lia.
From stdpp Require Import base numbers list sorting strings relations.
From S2P Require Import Prelude Blocks Geth Domain Convert Store StoreProps Trie.

Local Open Scope Z_scope.

Inductive chain_error :=
| ConvertError (e : convert_error)
| TrieError (e : trie_error)
| InsertError (e : sql_error).

Section chain.
Context {G : GethTypes} {T : EthTxTypes G} {C : EthCodec G T} {W : Wire} {D : Driver}
  {S : StateTrie G}.

Record Chain := {
  ch_Store : Store;
  ch_ts : option TrieStore;
  ch_prevHash : Hash
}.

(** The last hash and state root of the store seed a reopened chain; [trie] is
    the opened trie database, when the chain runs with one. *)
Definition NewChain (db : DB) (trie : option (mpt_db * bool)) : result chain_error Chain :=
  let blockStore := Init db in
  let '(initialRoot, prevHash) :=
    match LatestBlock blockStore with
    | Some latest => (BytesToHash (slice_bytes (db_StateRoot latest)),
                      BytesToHash (slice_bytes (db_BlockHash latest)))
    | None => (Hash_zero, Hash_zero)
    end in
  match trie with
  | None => Ok {| ch_Store := blockStore; ch_ts := None; ch_prevHash := prevHash |}
  | Some (tdb, persistent) =>
      match trie_New tdb persistent initialRoot with
      | Err e => Err (TrieError e)
      | Ok ts => Ok {| ch_Store := blockStore; ch_ts := Some ts; ch_prevHash := prevHash |}
      end
  end.

(** [ebl.ParentHash = ...; ebl.StateRoot = ...]. *)
Definition with_links (parent root : byte_slice) (b : DBlock) : DBlock := {|
  db_BlockNumber := db_BlockNumber b; db_BlockHash := db_BlockHash b;
  db_ParentHash := Some parent; db_StateRoot := Some root;
  db_Timestamp := db_Timestamp b; db_Transactions := db_Transactions b
|}.

(** The state root of the block and the trie after it. *)
Definition commit_root (ts : option TrieStore) (b : Block)
    : result trie_error Hash * option TrieStore :=
  match ts with
  | None => (Ok EmptyRootHash, None)
  | Some t => let '(r, t') := trie_Commit t b in (r, Some t')
  end.

(** [Handle]: the trie first, then the store, and the new tip's hash last. *)
Definition Chain_Handle (c : Chain) (b : Block) : Chain * option chain_error :=
  match ConvertToDomain b with
  | Err e => (c, Some (ConvertError e))
  | Ok ebl =>
      let '(root, ts) := commit_root (ch_ts c) b in
      match root with
      | Err e => ({| ch_Store := ch_Store c; ch_ts := ts; ch_prevHash := ch_prevHash c |},
                  Some (TrieError e))
      | Ok stateRoot =>
          let ebl := with_links (Hash_Bytes (ch_prevHash c)) (Hash_Bytes stateRoot) ebl in
          match InsertBlock (ch_Store c) ebl with
          | (s, Some e) => ({| ch_Store := s; ch_ts := ts; ch_prevHash := ch_prevHash c |},
                            Some (InsertError e))
          | (s, None) => ({| ch_Store := s; ch_ts := ts;
                             ch_prevHash := BytesToHash (slice_bytes (db_BlockHash ebl)) |}, None)
          end
      end
  end.

(** [genesisHash] is the Keccak hash of a fixed text. *)
Definition EnsureGenesisBlock (c : Chain) (genesisHash : Hash) : Chain * option chain_error :=
  match LatestBlock (ch_Store c) with
  | Some _ => (c, None)
  | None =>
      match InsertBlock (ch_Store c)
              {| db_BlockNumber := 0; db_BlockHash := Some (Hash_Bytes genesisHash);
                 db_ParentHash := Some (replicate 32 0);
                 db_StateRoot := Some (Hash_Bytes EmptyRootHash);
                 db_Timestamp := 0; db_Transactions := [] |} with
      | (s, Some e) => ({| ch_Store := s; ch_ts := ch_ts c; ch_prevHash := ch_prevHash c |},
                        Some (InsertError e))
      | (s, None) => ({| ch_Store := s; ch_ts := ch_ts c;
                         ch_prevHash := BytesToHash (Hash_Bytes genesisHash) |}, None)
      end
  end.

(** Blocks handled one after the other, all accepted. *)
Fixpoint handle_all (c : Chain) (bs : list Block) : option Chain :=
  match bs with
  | [] => Some c
  | b :: bs => match Chain_Handle c b with
               | (c', None) => handle_all c' bs
               | _ => None
               end
  end.
End chain.

(** ** Blocks the store already absorbed *)

Section absorbed.
Context {G : GethTypes} {GL : GethLaws G} {T : EthTxTypes G} {C : EthCodec G T} {W : Wire}
  {D : Driver} {S : StateTrie G}.

Definition row_of (t : DTransaction) : TxRow := (toStorageTransaction t).1.
Definition rows_of (t : DTransaction) : list LogRow := (toStorageTransaction t).2.

(** Every row of the transaction is in the tables or yields to one that is. *)
Definition tx_absorbed (db : DB) (t : DTransaction) : Prop :=
  tx_check (row_of t) = true ∧ has_tx db (dt_TxHash t) = true ∧
  Forall (λ l, log_check l = true ∧ existsb (log_key_eq l) (t_logs db) = true) (rows_of t).

Definition absorbed (db : DB) (ebl : DBlock) : Prop :=
  has_block db (i64 (db_BlockNumber ebl)) = true ∧ Forall (tx_absorbed db) (db_Transactions ebl).

Lemma tx_absorbed_mono db db' t : db_ext db db' → tx_absorbed db t → tx_absorbed db' t.
Proof.
  intros He (? & Hh & Hl). split_and!; [done| |].
  - by eapply has_tx_mono.
  - eapply Forall_impl; [exact Hl|]. simpl. intros l [? Hk]. split; [done|].
    destruct He as [_ _ [ls ->]]. rewrite existsb_app, Hk. done.
Qed.

Lemma absorbed_mono db db' ebl : db_ext db db' → absorbed db ebl → absorbed db' ebl.
Proof.
  intros He [Hb Ht]. split; [by eapply has_block_mono|].
  eapply Forall_impl; [exact Ht|]. intros t. by apply tx_absorbed_mono.
Qed.

Lemma exec_logs_absorbed db ls db' :
  Forall (λ l, is_Some (lr_tx_hash l)) ls → exec_all q_InsertLog db ls = Ok db' →
  db_wf db →
  Forall (λ l, log_check l = true ∧ existsb (log_key_eq l) (t_logs db') = true) ls.
Proof.
  intros Hs. revert db. induction Hs as [|l ls [h Hh] _ IH]; intros db; simpl; [constructor|].
  destruct (q_InsertLog db l) as [db1|] eqn:E; [|done]. intros Hx Hwf.
  destruct (q_InsertLog_wf _ _ _ Hwf E) as [Hwf1 _].
  constructor; [|by eapply IH]. apply q_InsertLog_Ok in E as [Hc Hcase]. split; [done|].
  destruct (exec_logs_tables _ _ _ Hx) as (_ & _ & new & -> & _). rewrite existsb_app.
  apply orb_true_iff. left. destruct Hcase as [[? ->]|(_ & _ & _ & ->)]; [done|]. simpl.
  rewrite existsb_app. simpl. unfold log_key_eq at 2. rewrite Hh, sql_eq_refl, Z.eqb_refl.
  by rewrite orb_true_r.
Qed.

Definition hashed (t : DTransaction) : Prop :=
  is_Some (dt_TxHash t) ∧ Forall (λ l, dl_TxHash l = dt_TxHash t) (dt_Logs t).

Lemma insert_tx_absorbed db t db' :
  db_wf db → hashed t → insert_tx db t = Ok db' → tx_absorbed db' t.
Proof.
  intros Hwf [[h Hh] Hl] E. unfold insert_tx in E.
  destruct (toStorageTransaction t) as [r ls] eqn:Er.
  assert (row_of t = r ∧ rows_of t = ls) as [Hr Hls] by (unfold row_of, rows_of; by rewrite Er).
  destruct (q_InsertTransaction db r) as [db1|] eqn:Et; [|done].
  destruct (q_InsertTransaction_wf _ _ _ Hwf Et) as [Hwf1 _].
  apply q_InsertTransaction_Ok in Et as [Hc Hcase]. rewrite <-Hr in Hc, Hcase.
  unfold tx_absorbed. rewrite Hls. split_and!; [done| |].
  - destruct (exec_logs_tables _ _ _ E) as (_ & Ht & _). unfold has_tx. rewrite Ht.
    destruct Hcase as [[Hx ->]|(_ & _ & _ & ->)]; [exact Hx|]. simpl. rewrite existsb_app.
    simpl. rewrite Hh, sql_eq_refl. by rewrite orb_true_r.
  - eapply exec_logs_absorbed; [|exact E|done]. rewrite <-Hls. apply Forall_fmap.
    eapply Forall_impl; [exact Hl|]. simpl. intros l ->. by rewrite Hh.
Qed.

Lemma insert_txs_absorbed db txs db' :
  db_wf db → Forall hashed txs → exec_all insert_tx db txs = Ok db' → Forall (tx_absorbed db') txs.
Proof.
  intros Hwf Htx. revert db Hwf. induction Htx as [|t txs Ht _ IH]; intros db Hwf; simpl; [constructor|].
  destruct (insert_tx db t) as [db1|] eqn:E; [|done]. intros Hx.
  destruct (insert_tx_wf _ _ _ Hwf E) as [Hwf1 _].
  constructor; [|by eapply IH]. apply (tx_absorbed_mono db1); [|by apply (insert_tx_absorbed db)].
  apply (exec_all_ind insert_tx (λ d, db_wf d ∧ db_ext db1 d)) in Hx; [apply Hx| |by split].
  intros d x d' _ [Hd Hed] Hq. apply insert_tx_wf in Hq as [? ?]; [|done]. split; [done|by etrans].
Qed.

Lemma insert_rows_absorbed db ebl db' :
  db_wf db → Forall hashed (db_Transactions ebl) → insert_rows db ebl = Ok db' → absorbed db' ebl.
Proof.
  intros Hwf Htx E. unfold insert_rows in E.
  destruct (q_InsertBlock db (toStorageBlock ebl)) as [db1|] eqn:Eb; [|done].
  destruct (q_InsertBlock_wf _ (toStorageBlock ebl) _ (i64_range _) Hwf Eb) as [Hwf1 _].
  split; [|by eapply insert_txs_absorbed].
  destruct (insert_txs_tables _ _ _ E) as (Hb & _). unfold has_block. rewrite Hb.
  apply q_InsertBlock_Ok in Eb as [_ [[Hh ->]|[_ ->]]]; [exact Hh|]. simpl.
  rewrite existsb_app. simpl. rewrite Z.eqb_refl. by rewrite orb_true_r.
Qed.

(** Inserting an absorbed block again changes nothing, whatever parent and
    root it now carries. *)
Lemma absorbed_again db ebl :
  absorbed db ebl → block_check (toStorageBlock ebl) = true → insert_rows db ebl = Ok db.
Proof.
  intros [Hb Htx] Hc. unfold insert_rows, q_InsertBlock. rewrite Hc. simpl. rewrite Hb.
  induction Htx as [|t txs (Hct & Hh & Hl) _ IH]; [done|]. simpl.
  assert (insert_tx db t = Ok db) as ->; [|done].
  unfold insert_tx. unfold row_of, rows_of in *.
  destruct (toStorageTransaction t) as [r ls] eqn:Er. simpl in *.
  assert (tr_tx_hash r = dt_TxHash t) as Hr by (unfold toStorageTransaction in Er; by injection Er as <- _).
  unfold q_InsertTransaction. rewrite Hct, Hr, Hh. simpl.
  clear -Hl. induction Hl as [|l ls [Hc Hk] _ IH]; [done|]. simpl.
  unfold q_InsertLog at 1. rewrite Hc, Hk. simpl. exact IH.
Qed.
End absorbed.

(** ** The chain of stored blocks *)

Section linkage.
Context {G : GethTypes} {GL : GethLaws G} {T : EthTxTypes G} {C : EthCodec G T}
  {CL : EthCodecLaws G T C} {W : Wire} {D : Driver} {S : StateTrie G}.

Definition row_hash (r : BlockRow) : Hash := BytesToHash (slice_bytes (br_block_hash r)).

(** Each row's parent is the hash of the row before it. *)
Fixpoint linked (prev : Hash) (rows : list BlockRow) : Prop :=
  match rows with
  | [] => True
  | r :: rows => BytesToHash (slice_bytes (br_parent_hash r)) = prev ∧ linked (row_hash r) rows
  end.

Definition tip_hash (prev : Hash) (rows : list BlockRow) : Hash :=
  match last rows with Some r => row_hash r | None => prev end.

Lemma linked_snoc prev rows r :
  linked prev rows → BytesToHash (slice_bytes (br_parent_hash r)) = tip_hash prev rows →
  linked prev (rows ++ [r]).
Proof.
  revert prev. induction rows as [|x rows IH]; intros prev; simpl.
  { intros _ Hr. by split. }
  intros [-> Hl] Hr. split; [done|]. apply IH; [done|]. rewrite Hr.
  unfold tip_hash. destruct rows as [|y rows]; [done|]. rewrite last_cons_cons.
  destruct (last (y :: rows)) eqn:E; [done|by apply last_None in E].
Qed.

Lemma tip_hash_snoc prev rows r : tip_hash prev (rows ++ [r]) = row_hash r.
Proof. unfold tip_hash. by rewrite last_snoc. Qed.

(** What the conversion guarantees of a block's rows. *)
Lemma ConvertToDomain_facts b ebl :
  ConvertToDomain b = Ok ebl →
  db_BlockNumber ebl = b_Number b ∧ db_BlockHash ebl = Some (b_Hash b) ∧
  Forall hashed (db_Transactions ebl).
Proof.
  unfold ConvertToDomain. destruct (convert_txs b _ 0 0) as [etxs|] eqn:E; [|done].
  intros [= <-]. simpl. split_and!; [done..|].
  apply convert_txs_converted in E; [|unfold is_i64; lia].
  clear -E. induction E as [|tx etx txs etxs Hc _ IH]; constructor; [|done].
  destruct Hc as (raw & ethTx & from & _ & _ & _ & _ & Hh & Hc).
  destruct Hc as (_ & _ & _ & _ & _ & _ & _ & _ & _ & _ & _ & _ & Hl).
  split; [by rewrite Hh|]. eapply Forall_impl; [exact Hl|]. simpl. tauto.
Qed.

(** The header checks do not depend on which 32-byte parent and root it has. *)
Lemma block_check_links p r p' r' ebl :
  length p' = 32%nat → length r' = 32%nat →
  block_check (toStorageBlock (with_links p r ebl)) = true →
  block_check (toStorageBlock (with_links p' r' ebl)) = true.
Proof.
  intros Hp Hr. unfold block_check. simpl. rewrite Hp, Hr, !andb_true_iff. tauto.
Qed.

(** A delivered block is in the store, and would be accepted again. *)
Definition delivered (db : DB) (b : Block) : Prop :=
  ∃ ebl, ConvertToDomain b = Ok ebl ∧ absorbed db ebl ∧
    ∀ p r, length p = 32%nat → length r = 32%nat →
      block_check (toStorageBlock (with_links p r ebl)) = true.

Lemma delivered_mono db db' b : db_ext db db' → delivered db b → delivered db' b.
Proof. intros He (ebl & ? & Ha & ?). exists ebl. split_and!; try done. by eapply absorbed_mono. Qed.

Lemma store_again s ebl :
  store_wf s → is_u64 (db_BlockNumber ebl) → absorbed (st_db s) ebl →
  block_check (toStorageBlock ebl) = true → InsertBlock s ebl = (s, None).
Proof.
  intros [Hwf [Hle _]] Hu Ha Hc. unfold InsertBlock. rewrite (absorbed_again _ _ Ha Hc).
  destruct Ha as [(r & Hr & Hn)%has_block_true _]. specialize (Hle r Hr).
  destruct (block_check_facts _ Hc) as (Hp & _). simpl in Hp.
  destruct (i64_nonneg _ Hu Hp) as [Hi _].
  destruct (Z.leb_spec (db_BlockNumber ebl) (st_CachedBlockNumber s)); [by destruct s|lia].
Qed.

(** A second delivery only moves the remembered hash. *)
Lemma Chain_Handle_again c b :
  store_wf (ch_Store c) → is_u64 (b_Number b) → delivered (st_db (ch_Store c)) b →
  match (commit_root (ch_ts c) b).1 with
  | Err e => Chain_Handle c b =
      ({| ch_Store := ch_Store c; ch_ts := (commit_root (ch_ts c) b).2;
          ch_prevHash := ch_prevHash c |}, Some (TrieError e))
  | Ok _ => Chain_Handle c b =
      ({| ch_Store := ch_Store c; ch_ts := (commit_root (ch_ts c) b).2;
          ch_prevHash := BytesToHash (b_Hash b) |}, None)
  end.
Proof.
  intros Hs Hu (ebl & Hc & Ha & Hchk). destruct (ConvertToDomain_facts _ _ Hc) as (Hn & Hh & _).
  unfold Chain_Handle. rewrite Hc. destruct (commit_root (ch_ts c) b) as [[root|e] ts]; [|done].
  simpl. rewrite store_again; try done.
  - simpl. by rewrite Hh.
  - simpl. by rewrite Hn.
  - apply Hchk; apply Hash_Bytes_length.
Qed.

(** ** Reachable chains *)

(** The remembered hash is that of a stored block. *)
Definition remembered (h : Hash) (rows : list BlockRow) : Prop :=
  (rows = [] ∧ h = Hash_zero) ∨ ∃ i r, rows !! i = Some r ∧ h = row_hash r.

Lemma remembered_tip rows : remembered (tip_hash Hash_zero rows) rows.
Proof.
  unfold tip_hash. destruct (last rows) as [r|] eqn:El; [right|left; split; [by apply last_None|done]].
  exists (pred (length rows)), r. by rewrite <-last_lookup.
Qed.

Record chain_inv (c : Chain) (dl : list Block) : Prop := {
  ci_wf : store_wf (ch_Store c);
  ci_links : linked Hash_zero (t_blocks (st_db (ch_Store c)));
  ci_sorted : StronglySorted (λ r r', br_block_number r < br_block_number r')
                (t_blocks (st_db (ch_Store c)));
  ci_parents i r r' :
    t_blocks (st_db (ch_Store c)) !! i = Some r → t_blocks (st_db (ch_Store c)) !! Datatypes.S i = Some r' →
    br_parent_hash r' = Some (Hash_Bytes (row_hash r));
  ci_last : remembered (ch_prevHash c) (t_blocks (st_db (ch_Store c)));
  ci_rows : ∃ pre, (length pre ≤ 1)%nat ∧
    ((λ r, (br_block_number r, br_block_hash r)) <$> t_blocks (st_db (ch_Store c))) =
    pre ++ ((λ b, (b_Number b, Some (b_Hash b))) <$> dl);
  ci_range : Forall (λ b, is_u64 (b_Number b)) dl;
  ci_delivered : Forall (delivered (st_db (ch_Store c))) dl
}.

(** Delivery of the next block, a refused block, any delivered block handled
    again, the genesis block of a test node, and a restart over the same tables;
    the second component lists the delivered blocks. *)
Inductive chain_step : Chain * list Block → Chain * list Block → Prop :=
| chain_deliver c dl b c' :
    is_u64 (b_Number b) →
    (∀ r, r ∈ t_blocks (st_db (ch_Store c)) → br_block_number r < b_Number b) →
    Chain_Handle c b = (c', None) → chain_step (c, dl) (c', dl ++ [b])
| chain_refuse c dl b c' e :
    Chain_Handle c b = (c', Some e) → chain_step (c, dl) (c', dl)
| chain_redeliver c dl b c' :
    b ∈ dl → Chain_Handle c b = (c', None) → chain_step (c, dl) (c', dl)
| chain_genesis c dl g c' e :
    EnsureGenesisBlock c g = (c', e) → chain_step (c, dl) (c', dl)
| chain_restart c dl trie c' :
    NewChain (st_db (ch_Store c)) trie = Ok c' → chain_step (c, dl) (c', dl).

Lemma Chain_Handle_Ok c b c' :
  Chain_Handle c b = (c', None) →
  ∃ ebl root ts s', ConvertToDomain b = Ok ebl ∧
    InsertBlock (ch_Store c) (with_links (Hash_Bytes (ch_prevHash c)) (Hash_Bytes root) ebl)
      = (s', None) ∧
    c' = {| ch_Store := s'; ch_ts := ts; ch_prevHash := BytesToHash (b_Hash b) |}.
Proof.
  unfold Chain_Handle. destruct (ConvertToDomain b) as [ebl|] eqn:Ec; [|done].
  destruct (commit_root (ch_ts c) b) as [[root|] ts]; [|done].
  destruct (InsertBlock _ _) as [s' [|]] eqn:Ei; [done|]. intros [= <-].
  destruct (ConvertToDomain_facts _ _ Ec) as (_ & Hh & _).
  exists ebl, root, ts, s'. split_and!; try done. simpl. by rewrite Hh.
Qed.

Lemma InsertBlock_error s b s' e : InsertBlock s b = (s', Some e) → s' = s.
Proof. unfold InsertBlock. by destruct (insert_rows _ _); intros [= <- <-]. Qed.

Lemma Chain_Handle_Err c b c' e :
  Chain_Handle c b = (c', Some e) →
  ch_Store c' = ch_Store c ∧ ch_prevHash c' = ch_prevHash c.
Proof.
  unfold Chain_Handle. destruct (ConvertToDomain b) as [ebl|]; [|by intros [= <- <-]].
  destruct (commit_root (ch_ts c) b) as [[root|] ts]; [|by intros [= <- <-]].
  destruct (InsertBlock _ _) as [s' [|]] eqn:Ei; [|done].
  apply InsertBlock_error in Ei as ->. by intros [= <- <-].
Qed.

(** The invariant only looks at the store and the remembered hash. *)
Lemma chain_inv_ext c c' dl :
  ch_Store c' = ch_Store c → ch_prevHash c' = ch_prevHash c → chain_inv c dl → chain_inv c' dl.
Proof. intros Hs Hp []. split; rewrite ?Hs, ?Hp; done. Qed.

Lemma InsertBlock_new s b s' :
  store_wf s → is_u64 (db_BlockNumber b) →
  (∀ r, r ∈ t_blocks (st_db s) → br_block_number r < db_BlockNumber b) →
  InsertBlock s b = (s', None) →
  store_wf s' ∧ db_ext (st_db s) (st_db s') ∧ insert_rows (st_db s) b = Ok (st_db s') ∧
  t_blocks (st_db s') = t_blocks (st_db s) ++ [toStorageBlock b] ∧
  br_block_number (toStorageBlock b) = db_BlockNumber b ∧ block_check (toStorageBlock b) = true ∧
  (∀ r, r ∈ t_blocks (st_db s) → is_Some (br_parent_hash r) → br_parent_hash r ≠ db_ParentHash b).
Proof.
  intros Hs Hu Hlt Hi. split; [by eapply InsertBlock_wf|].
  unfold InsertBlock in Hi. destruct (insert_rows (st_db s) b) as [db'|] eqn:E; [|done].
  injection Hi as <-. simpl. destruct (insert_rows_wf _ _ _ (proj1 Hs) E) as [_ He].
  destruct (insert_rows_blocks _ _ _ Hu E) as (Hi & Hc & [[Hb _]|(_ & Hno & Hb)]).
  - apply has_block_true in Hb as (r & Hr & Hn). specialize (Hlt r Hr). lia.
  - split_and!; try done. intros r Hr [p Hp] Heq.
    assert (existsb (block_conflict (toStorageBlock b)) (t_blocks (st_db s)) = true) as Hyes; [|congruence].
    apply existsb_exists. exists r. split; [by apply list_elem_of_In|]. unfold block_conflict, block_clash.
    simpl. rewrite <-Heq, Hp, sql_eq_refl. by rewrite ?orb_true_r.
Qed.

(** A stored block takes the parent hash, so the next one is accepted only if the
    remembered hash is the tip's. *)
Lemma new_block_at_tip c dl b c' :
  chain_inv c dl → is_u64 (b_Number b) →
  (∀ r, r ∈ t_blocks (st_db (ch_Store c)) → br_block_number r < b_Number b) →
  Chain_Handle c b = (c', None) → ch_prevHash c = tip_hash Hash_zero (t_blocks (st_db (ch_Store c))).
Proof.
  intros Hinv Hu Hlt (ebl & root & ts & s' & Hc & Hi & ->)%Chain_Handle_Ok.
  destruct (ConvertToDomain_facts _ _ Hc) as (Hn & _ & _). set (ebl' := with_links _ _ ebl) in *.
  assert (db_BlockNumber ebl' = b_Number b) as Hn' by done. rewrite <-Hn' in Hu, Hlt.
  destruct (InsertBlock_new _ ebl' _ (ci_wf _ _ Hinv) Hu Hlt Hi) as (_ & _ & _ & _ & _ & _ & Hfree).
  unfold tip_hash. destruct (ci_last _ _ Hinv) as [[-> ->]|(i & r & Hr & Hp)]; [done|].
  destruct (t_blocks (st_db (ch_Store c)) !! Datatypes.S i) as [r'|] eqn:Hr'.
  - destruct (Hfree r'); [by eapply list_elem_of_lookup_2|rewrite (ci_parents _ _ Hinv i r r' Hr Hr'); by eexists|].
    rewrite (ci_parents _ _ Hinv i r r' Hr Hr'). simpl. by rewrite Hp.
  - apply lookup_ge_None in Hr'. pose proof (lookup_lt_Some _ _ _ Hr).
    rewrite last_lookup. replace (pred (length (t_blocks (st_db (ch_Store c))))) with i by lia. by rewrite Hr.
Qed.

Lemma chain_inv_deliver c dl b c' :
  chain_inv c dl → is_u64 (b_Number b) →
  (∀ r, r ∈ t_blocks (st_db (ch_Store c)) → br_block_number r < b_Number b) →
  Chain_Handle c b = (c', None) → chain_inv c' (dl ++ [b]).
Proof.
  intros Hinv Hu Hlt Hh. pose proof (new_block_at_tip _ _ _ _ Hinv Hu Hlt Hh) as Htip.
  destruct Hinv as [Hwf Hl Hsort Hpar Hlast (pre & Hpre & Hrows) Hrange Hdel].
  destruct (Chain_Handle_Ok _ _ _ Hh) as (ebl & root & ts & s' & Hc & Hi & ->).
  destruct (ConvertToDomain_facts _ _ Hc) as (Hn & Hhash & Hhashed).
  set (ebl' := with_links _ _ ebl) in *. assert (db_BlockNumber ebl' = b_Number b) as Hn' by done.
  rewrite <-Hn' in Hu, Hlt.
  destruct (InsertBlock_new _ ebl' _ Hwf Hu Hlt Hi) as (Hwf' & He & Hrow & Hb & Hnum & Hchk & _).
  split; simpl; rewrite ?Hb; try done.
  - apply linked_snoc; [done|]. simpl. by rewrite BytesToHash_Bytes.
  - apply StronglySorted_snoc; [done|]. intros r Hr. rewrite Hnum. by apply Hlt.
  - intros i r r' Hr Hr'. pose proof (lookup_lt_Some _ _ _ Hr') as Hlen. rewrite length_app in Hlen. simpl in Hlen.
    destruct (decide (Datatypes.S i < length (t_blocks (st_db (ch_Store c))))%nat) as [Hin|Hout].
    + rewrite lookup_app_l in Hr, Hr' by lia. by eapply Hpar.
    + rewrite lookup_app_r in Hr' by lia. rewrite lookup_app_l in Hr by lia.
      replace (Datatypes.S i - length _)%nat with 0%nat in Hr' by lia. injection Hr' as <-. simpl.
      rewrite Htip. unfold tip_hash. rewrite last_lookup.
      replace (pred (length (t_blocks (st_db (ch_Store c))))) with i by lia. by rewrite Hr.
  - right. exists (length (t_blocks (st_db (ch_Store c)))), (toStorageBlock ebl').
    split; [by apply list_lookup_middle|]. unfold row_hash. simpl. by rewrite Hhash.
  - exists pre. split; [done|]. rewrite !fmap_app, Hrows, <-app_assoc. do 2 f_equal. simpl.
    change (i64 (db_BlockNumber ebl)) with (br_block_number (toStorageBlock ebl')).
    by rewrite Hnum, Hhash, Hn'.
  - rewrite Hn' in Hu. apply Forall_app. auto.
  - apply Forall_app. split; [eapply Forall_impl; [exact Hdel|]; intros x; by apply delivered_mono|].
    constructor; [|constructor]. exists ebl. split_and!; [done| |].
    + apply (insert_rows_absorbed (st_db (ch_Store c)) ebl'); [apply Hwf|done|done].
    + intros p r Hp Hr. by eapply block_check_links.
Qed.

(** Replaying delivered blocks leaves the store alone and remembers the last. *)
Lemma replay_effect c bs c' :
  store_wf (ch_Store c) → Forall (λ b, is_u64 (b_Number b)) bs →
  Forall (delivered (st_db (ch_Store c))) bs → handle_all c bs = Some c' →
  ch_Store c' = ch_Store c ∧
  ch_prevHash c' = match last bs with Some b => BytesToHash (b_Hash b) | None => ch_prevHash c end.
Proof.
  intros Hwf Hr Hd. revert c Hwf Hd. induction Hr as [|b bs Hu _ IH]; intros c Hwf Hd; cbn [handle_all].
  { by intros [= <-]. }
  apply Forall_cons in Hd as [Hb Hbs]. pose proof (Chain_Handle_again c b Hwf Hu Hb) as Ha.
  destruct ((commit_root (ch_ts c) b).1); rewrite Ha; [|done]. intros Hall.
  edestruct IH as [-> ->]; [| |exact Hall|]; [done..|].
  split; [done|]. rewrite last_cons. by destruct (last bs).
Qed.

(** The last delivered block is the tip. *)
Lemma delivered_tip c dl b :
  chain_inv c dl → last dl = Some b →
  tip_hash Hash_zero (t_blocks (st_db (ch_Store c))) = BytesToHash (b_Hash b).
Proof.
  intros [_ _ _ _ _ (pre & _ & Hrows) _ _] Hl. unfold tip_hash.
  assert (last ((λ r, (br_block_number r, br_block_hash r)) <$> t_blocks (st_db (ch_Store c))) =
          Some (b_Number b, Some (b_Hash b))) as Hlast.
  { rewrite Hrows, last_app, fmap_last, Hl. done. }
  rewrite fmap_last in Hlast. destruct (last (t_blocks _)) as [r|]; [|done].
  injection Hlast as _ Hh. unfold row_hash. by rewrite Hh.
Qed.

Lemma chain_inv_redeliver c dl b c' :
  chain_inv c dl → b ∈ dl → Chain_Handle c b = (c', None) →
  ch_Store c' = ch_Store c ∧ ch_prevHash c' = BytesToHash (b_Hash b) ∧ chain_inv c' dl.
Proof.
  intros Hinv Hb Hh. pose proof Hinv as [Hwf Hl Hs Hp Hla (pre & Hpre & Hrows) Hr Hd].
  rewrite Forall_forall in Hr, Hd. pose proof (Chain_Handle_again c b Hwf (Hr b Hb) (Hd b Hb)) as Ha.
  rewrite Hh in Ha. destruct ((commit_root (ch_ts c) b).1); [|done]. injection Ha as ->.
  split_and!; [done..|]. split; simpl; try done; [|by exists pre|by apply Forall_forall..].
  right. assert ((b_Number b, Some (b_Hash b)) ∈ (λ r, (br_block_number r, br_block_hash r)) <$> t_blocks (st_db (ch_Store c))) as Hin.
  { rewrite Hrows. apply elem_of_app. right. apply list_elem_of_fmap. by exists b. }
  apply list_elem_of_fmap in Hin as (r & [= _ Hrh] & Hin). apply list_elem_of_lookup in Hin as [i Hi].
  exists i, r. split; [done|]. unfold row_hash. by rewrite <-Hrh.
Qed.

Lemma chain_inv_replay c l1 l2 c' :
  chain_inv c (l1 ++ l2) → handle_all c l2 = Some c' →
  ch_Store c' = ch_Store c ∧
  (l2 ≠ [] → ch_prevHash c' = tip_hash Hash_zero (t_blocks (st_db (ch_Store c)))).
Proof.
  intros Hinv Hall. pose proof (ci_range _ _ Hinv) as Hr. pose proof (ci_delivered _ _ Hinv) as Hd.
  apply Forall_app in Hr as [_ Hr], Hd as [_ Hd].
  destruct (replay_effect c l2 c' (ci_wf _ _ Hinv) Hr Hd Hall) as [Hs Hp]. split; [done|]. intros Hne.
  rewrite Hp. destruct (last l2) as [b|] eqn:El; [|by apply last_None in El]. symmetry.
  apply (delivered_tip _ _ _ Hinv). rewrite last_app, El. done.
Qed.

Lemma chain_inv_genesis c dl g c' e :
  chain_inv c dl → EnsureGenesisBlock c g = (c', e) → chain_inv c' dl.
Proof.
  intros Hinv. unfold EnsureGenesisBlock. pose proof (LatestBlock_tip _ (ci_wf _ _ Hinv)) as Hl.
  destruct (LatestBlock (ch_Store c)); [by intros [= <- _]|]. destruct Hl as [Hemp _].
  destruct (InsertBlock _ _) as [s' [e'|]] eqn:Hi.
  { apply InsertBlock_error in Hi as ->. intros [= <- _]. by apply (chain_inv_ext c). }
  intros [= <- _]. destruct Hinv as [Hwf _ _ _ _ (pre & _ & Hrows) _ _].
  rewrite Hemp in Hrows. symmetry in Hrows. apply app_nil in Hrows as [_ Hdl].
  apply fmap_nil_inv in Hdl as ->.
  edestruct InsertBlock_new as (Hwf' & _ & _ & Hb & _ & _ & _); [exact Hwf| | |exact Hi|].
  { unfold is_u64. simpl. lia. }
  { intros r Hr. rewrite Hemp in Hr. by apply not_elem_of_nil in Hr. }
  rewrite Hemp in Hb. split; simpl; rewrite ?Hb; try done.
  - split; [|done]. apply BytesToHash_zeros.
  - repeat constructor.
  - right. eexists 0%nat, _. split; [reflexivity|done].
  - eexists [_]. split; [simpl; lia|done].
Qed.

(** The latest block of a sorted table is its last row. *)
Lemma max_row_last rows :
  StronglySorted (λ r r', br_block_number r < br_block_number r') rows →
  max_row br_block_number rows = last rows.
Proof.
  intros Hs. pose proof (max_row_spec br_block_number rows) as Hm.
  destruct (max_row br_block_number rows) as [m|]; [|by rewrite Hm].
  destruct Hm as [Hin Hmax]. destruct (last rows) as [r|] eqn:El.
  - apply last_Some in El as [rows' ->].
    apply elem_of_app in Hin as [Hin| ->%list_elem_of_singleton]; [|done].
    assert (r ∈ rows' ++ [r]) as Hr by (apply elem_of_app; right; by apply list_elem_of_singleton).
    specialize (Hmax r Hr).
    eapply StronglySorted_app_1_elem_of in Hs; [|exact Hin|by apply list_elem_of_singleton].
    simpl in Hs. lia.
  - apply last_None in El as ->. by apply not_elem_of_nil in Hin.
Qed.

Lemma NewChain_tip (s : Store) trie c' :
  store_wf s → StronglySorted (λ r r', br_block_number r < br_block_number r') (t_blocks (st_db s)) →
  NewChain (st_db s) trie = Ok c' →
  ch_Store c' = Init (st_db s) ∧ ch_prevHash c' = tip_hash Hash_zero (t_blocks (st_db s)).
Proof.
  intros Hwf Hs Hnew. unfold NewChain, LatestBlock, q_LatestBlock in Hnew. cbn [st_db Init] in Hnew.
  rewrite (max_row_last _ Hs) in Hnew. unfold tip_hash.
  destruct (last (t_blocks (st_db s))) as [r|] eqn:El.
  - apply last_Some in El as [rows El]. destruct Hwf as [Hdb _].
    pose proof (wf_blocks _ Hdb) as Hc. rewrite El, Forall_app, Forall_singleton in Hc.
    destruct Hc as [_ Hc]. destruct (block_check_facts _ Hc) as (_ & (h & Hh & Hlen) & _).
    simpl in Hnew. rewrite Hh in Hnew. unfold row_hash. rewrite Hh.
    assert (scan_blob (Some h) = Some h) as Hsc
      by (apply (scan_blob_len 32); [lia|simpl; by rewrite Hlen]).
    rewrite Hsc in Hnew.
    destruct trie as [[tdb p]|]; [destruct (trie_New _ _ _); [|done]|]; by injection Hnew as <-.
  - simpl in Hnew.
    destruct trie as [[tdb p]|]; [destruct (trie_New _ _ _); [|done]|]; by injection Hnew as <-.
Qed.

Lemma chain_inv_restart c dl trie c' :
  chain_inv c dl → NewChain (st_db (ch_Store c)) trie = Ok c' → chain_inv c' dl.
Proof.
  intros [Hwf Hl Hs Hp0 Hla Hr Hrange Hdel] Hnew.
  destruct (NewChain_tip _ _ _ Hwf Hs Hnew) as [Hst Hp].
  split; rewrite ?Hst; try done; [apply Init_wf, Hwf|]. rewrite Hp. apply remembered_tip.
Qed.

Lemma chain_reachable_inv c0 trie c dl :
  NewChain empty_db trie = Ok c0 → rtc chain_step (c0, []) (c, dl) → chain_inv c dl.
Proof.
  intros H0 Hr.
  assert (chain_inv c0 []) as Hi.
  { unfold NewChain in H0. simpl in H0.
    destruct trie as [[tdb p]|]; [destruct (trie_New _ _ _); [|done]|]; injection H0 as <-;
      (split; simpl; try done; [apply Init_wf, db_wf_empty|apply SSorted_nil|by left|
        exists []; split; [simpl; lia|done]]). }
  apply (rtc_ind_r (λ x, chain_inv x.1 x.2) (c0, [])) in Hr; [exact Hr|exact Hi|].
  intros x y _ [] IH; simpl in *.
  - by apply (chain_inv_deliver c1).
  - destruct (Chain_Handle_Err _ _ _ _ H) as [? ?]. by apply (chain_inv_ext c1).
  - by apply (chain_inv_redeliver _ _ _ _ IH H H1).
  - by eapply chain_inv_genesis.
  - by eapply chain_inv_restart.
Qed.

(** ** The properties *)

(** C10: the stored blocks form a hash-linked chain.  Starting from an empty
    database, through any deliveries of further blocks, refused blocks (failed
    conversions, trie or insert errors), delivered blocks handled again in any
    order, a test node's genesis block and restarts: the stored blocks are exactly
    the delivered ones in order (after at most the genesis block), and each
    carries its predecessor's hash as parent, the first the zero hash.  The hash
    the next block will be linked to is that of a stored block; a new block is
    accepted only while it is the tip's, and handling the last delivered block
    again, or a restart, makes it the tip's. *)
Theorem chain_linked c0 trie c dl
    (H0 : NewChain empty_db trie = Ok c0) (Hr : rtc chain_step (c0, []) (c, dl)) :
  let rows := t_blocks (st_db (ch_Store c)) in
  linked Hash_zero rows ∧ remembered (ch_prevHash c) rows ∧
  (∃ pre, (length pre ≤ 1)%nat ∧ ((λ r, (br_block_number r, br_block_hash r)) <$> rows) =
    pre ++ ((λ b, (b_Number b, Some (b_Hash b))) <$> dl)) ∧
  (∀ b c', is_u64 (b_Number b) → (∀ r, r ∈ rows → br_block_number r < b_Number b) →
     Chain_Handle c b = (c', None) → ch_prevHash c = tip_hash Hash_zero rows) ∧
  (∀ b c', last dl = Some b → Chain_Handle c b = (c', None) → ch_prevHash c' = tip_hash Hash_zero rows) ∧
  (∀ trie' c', NewChain (st_db (ch_Store c)) trie' = Ok c' → ch_prevHash c' = tip_hash Hash_zero rows).
Proof.
  pose proof (chain_reachable_inv _ _ _ _ H0 Hr) as Hinv. pose proof Hinv as [Hwf Hl Hs _ Hla Hrows _ _].
  split_and!; [done..|by intros b c'; apply new_block_at_tip with dl| |].
  - intros b c' Hb Hh. destruct (chain_inv_redeliver c dl b c' Hinv) as (_ & -> & _); [|done|].
    + apply last_Some in Hb as [l ->]. apply elem_of_app. right. left.
    + symmetry. by apply (delivered_tip _ _ _ Hinv).
  - intros trie' c' Hn. by apply (NewChain_tip _ _ _ Hwf Hs Hn).
Qed.

(** Replays are idempotent.  In every reached state, handling the last
    delivered blocks again, in order, accepts each of them, leaves every table
    and the cached tip as they are and remembers the hash of the tip; without a
    trie the whole chain is unchanged when that was remembered before, with one
    only the trie is recommitted. *)
Theorem Chain_replay_idempotent c0 trie c l1 l2
    (H0 : NewChain empty_db trie = Ok c0) (Hr : rtc chain_step (c0, []) (c, l1 ++ l2)) :
  (ch_ts c = None → ch_prevHash c = tip_hash Hash_zero (t_blocks (st_db (ch_Store c))) → handle_all c l2 = Some c) ∧
  (∀ c', handle_all c l2 = Some c' → ch_Store c' = ch_Store c ∧
     (l2 ≠ [] → ch_prevHash c' = tip_hash Hash_zero (t_blocks (st_db (ch_Store c))))).
Proof.
  pose proof (chain_reachable_inv _ _ _ _ H0 Hr) as Hinv.
  split; [|intros c'; by apply (chain_inv_replay c l1 l2)]. intros Hts Htip.
  assert (∃ c', handle_all c l2 = Some c' ∧ ch_ts c' = None) as (c' & Hall & Hts').
  { pose proof (ci_range _ _ Hinv) as Hrg. pose proof (ci_delivered _ _ Hinv) as Hd.
    pose proof (ci_wf _ _ Hinv) as Hwf. apply Forall_app in Hrg as [_ Hrg], Hd as [_ Hd].
    clear -GL CL Hts Hrg Hd Hwf. revert c Hts Hwf Hd.
    induction Hrg as [|b bs Hu _ IH]; intros c Hts Hwf Hd; [by exists c|].
    apply Forall_cons in Hd as [Hb Hbs]. pose proof (Chain_Handle_again c b Hwf Hu Hb) as Ha.
    rewrite Hts in Ha. simpl in Ha. cbn [handle_all]. rewrite Ha. by apply IH. }
  destruct (chain_inv_replay _ _ _ _ Hinv Hall) as [Hs Hp]. rewrite Hall. f_equal.
  destruct l2 as [|b l2]; [by injection Hall|]. specialize (Hp ltac:(done)).
  destruct c, c'. simpl in *. congruence.
Qed.
End linkage.

(** ** Concrete runs *)

#[local] Existing Instances four_types four_txs demo_codec demo_wire nil_driver map_trie.

(** Block [n] with a hash read from two bits and one EVM transaction. *)
Definition fabric_block (n : Z) (hash : bool * bool) (txs : list Transaction) : Block := {|
  b_Number := n; b_Hash := @Hash_Bytes four_types hash; b_ParentHash := []; b_Timestamp := 1000 + n;
  b_Transactions := txs
|}.

Definition run_blocks : list Block := [
  fabric_block 1 (true, false) [evm_tx "a" 0 [1; 0] StatusCommitted 1 [10; 11]];
  fabric_block 2 (false, true) [evm_tx "b" 0 [0; 1] StatusCommitted 1 [12]];
  fabric_block 4 (true, true) [evm_tx "c" 0 [1; 1] StatusCommitted 2 []]].

Definition start_chain : Chain :=
  {| ch_Store := Init empty_db; ch_ts := None; ch_prevHash := (false, false) |}.

Definition run_chain (bs : list Block) : Chain := default start_chain (handle_all start_chain bs).

(** Deliveries in increasing order are steps. *)
Lemma run_steps bs c dl c' :
  (fix go (c : Chain) (bs : list Block) : Prop :=
     match bs with
     | [] => True
     | b :: bs => is_u64 (b_Number b) ∧
         Forall (λ r, br_block_number r < b_Number b) (t_blocks (st_db (ch_Store c))) ∧
         go (Chain_Handle c b).1 bs
     end) c bs →
  handle_all c bs = Some c' → rtc chain_step (c, dl) (c', dl ++ bs).
Proof.
  revert c dl. induction bs as [|b bs IH]; intros c dl; simpl.
  { intros _ [= ->]. rewrite app_nil_r. done. }
  intros (Hu & Hf & Hgo). destruct (Chain_Handle c b) as [c1 [|]] eqn:E; [done|]. intros Hall.
  eapply rtc_l; [apply chain_deliver; [exact Hu| |exact E]|].
  - by apply Forall_forall.
  - change (b :: bs) with ([b] ++ bs). rewrite app_assoc. by apply IH.
Qed.

Lemma run_reachable : rtc chain_step (start_chain, []) (run_chain run_blocks, run_blocks).
Proof.
  apply (run_steps run_blocks _ []); [|vm_compute; reflexivity].
  vm_compute. repeat constructor; intros; discriminate.
Qed.

(** Three blocks, the first and then the last handled again, then a restart. *)
Lemma chain_linked_witness :
  ∃ c, rtc chain_step (start_chain, []) (c, run_blocks) ∧
    linked (false, false) (t_blocks (st_db (ch_Store c))) ∧ ch_prevHash c = (true, true) ∧
    br_block_number <$> t_blocks (st_db (ch_Store c)) = [1; 2; 4].
Proof.
  set (c1 := run_chain run_blocks).
  set (b1 := hd (fabric_block 0 (false, false) []) run_blocks). set (b4 := List.last run_blocks b1).
  set (c2 := (Chain_Handle c1 b1).1).
  assert (Chain_Handle c1 b1 = (c2, None)) as H1 by (vm_compute; reflexivity).
  assert (Chain_Handle c2 b4 = (c1, None)) as H4 by (vm_compute; reflexivity).
  assert (NewChain (st_db (ch_Store c1)) None = Ok c1) as Hst by (vm_compute; reflexivity).
  assert (rtc chain_step (start_chain, []) (c2, run_blocks)) as Hr2.
  { eapply rtc_r; [exact run_reachable|]. apply (chain_redeliver c1 run_blocks b1 c2); [left|exact H1]. }
  assert (rtc chain_step (start_chain, []) (c1, run_blocks)) as Hr.
  { eapply rtc_r; [eapply rtc_r; [exact Hr2|]|].
    - apply (chain_redeliver c2 run_blocks b4 c1); [right; right; left|exact H4].
    - exact (chain_restart c1 run_blocks None c1 Hst). }
  destruct (chain_linked start_chain None c1 run_blocks eq_refl Hr) as (Hl & _ & _ & _ & Hb & _).
  exists c1. split; [exact Hr|]. split; [exact Hl|].
  split; [rewrite (Hb b4 c1); [vm_compute; reflexivity..]|vm_compute; reflexivity].
Defined.

Lemma Chain_replay_idempotent_witness :
  handle_all (run_chain run_blocks) (drop 1 run_blocks) = Some (run_chain run_blocks) ∧
  length (t_logs (st_db (ch_Store (run_chain run_blocks)))) = 3%nat.
Proof.
  split; [|vm_compute; reflexivity].
  apply (Chain_replay_idempotent start_chain None (run_chain run_blocks) (take 1 run_blocks)
           (drop 1 run_blocks) eq_refl); [|vm_compute; reflexivity..].
  exact run_reachable.
Defined.

(** A block handled again out of order moves the remembered hash back, and the
    next block is then refused: its parent is already another block's. *)
Lemma stale_redelivery_refuses_next :
  let c := run_chain (take 2 run_blocks) in
  let b1 := hd (fabric_block 0 (false, false) []) run_blocks in
  let next := fabric_block 4 (true, true) [] in
  ∃ c', Chain_Handle c b1 = (c', None) ∧ ch_Store c' = ch_Store c ∧
    (Chain_Handle c next).2 = None ∧
    (Chain_Handle c' next).2 = Some (InsertError UniqueFailed).
Proof.
  intros c b1 next. exists (Chain_Handle c b1).1. vm_compute. by repeat split.
Qed.

(** A transaction whose first commit was rejected for a read conflict and whose
    second commit, under another Fabric id, succeeded: the store keeps the
    failed row, and only the logs of the successful commit. *)
Lemma resubmitted_keeps_failed_row :
  let c := run_chain [
    fabric_block 1 (true, false) [evm_tx "a" 0 [1; 0] StatusMVCCConflict 1 [10]];
    fabric_block 2 (false, true) [evm_tx "b" 0 [1; 0] StatusCommitted 1 [10]]] in
  let h := Some (@Hash_Bytes four_types (true, false)) in
  (option_map (λ t, (dt_Status t, dt_BlockNumber t, dt_FabricTxID t))
     (GetTransactionByHash (ch_Store c) h)) = Some (0, 1, "a"%string) ∧
  (dl_BlockNumber <$> GetLogsByTxHash (ch_Store c) h) = [2] ∧
  GetBlockTxCountByNumber (ch_Store c) 2 = 0.
Proof. vm_compute. by repeat split. Qed.
