(* ===== verification/Filters.v ===== *)
(** * Filters: polling filters and newHeads subscriptions

    gateway/api/filters: [FilterAPI] keeps the installed polling filters and
    the newHeads subscribers, is fed every committed block ([Handle]) and
    answers the eth_*Filter calls.  Time is an argument ([now]), as are the
    fresh ids of go-ethereum's [rpc.NewID]; channels are bounded queues that
    can be closed.  [testDeliver], a hook only tests set, is left out. *)

From Stdlib Require Import ZArith Lia.
From stdpp Require Import base numbers list gmap strings.
From S2P Require Import Prelude Blocks Geth Domain Convert.

Local Open Scope Z_scope.

(** ** limits.go *)

Record Limits := {
  MaxFilters : Z;
  MaxSubscriptionsPerConn : Z;
  MaxSubscriptionsGlobal : Z;
  MaxFilterBuffer : Z
}.

Definition DefaultLimits : Limits := {|
  MaxFilters := 1000; MaxSubscriptionsPerConn := 1;
  MaxSubscriptionsGlobal := 1000; MaxFilterBuffer := 1024
|}.

Definition mergePartialLimits (l : Limits) : Limits :=
  if MaxFilterBuffer l <=? 0 then
    {| MaxFilters := MaxFilters l; MaxSubscriptionsPerConn := MaxSubscriptionsPerConn l;
       MaxSubscriptionsGlobal := MaxSubscriptionsGlobal l;
       MaxFilterBuffer := MaxFilterBuffer DefaultLimits |}
  else l.

(** [appendCapped]: the newest [max] entries survive. *)
Definition appendCapped {A} (buf items : list A) (max : Z) : list A :=
  let buf := buf ++ items in
  if (0 <? max) && (max <? Z.of_nat (length buf))
  then drop (length buf - Z.to_nat max) buf
  else buf.

(** The tag value of go-ethereum's [rpc] package. *)
Class RpcTags := { EarliestBlockNumber : Z }.

Section filters.
Context {G : GethTypes} {T : EthTxTypes G} {C : EthCodec G T} {W : Wire} {R : RpcTags}.

(** go-ethereum's [FilterCriteria]; block bounds are arbitrary integers, where
    negative ones are tags. *)
Record FilterCriteria := {
  fc_BlockHash : option Hash;
  fc_FromBlock : option Z;
  fc_ToBlock : option Z;
  fc_Addresses : list Address;
  fc_Topics : list (list Hash)
}.

(** ** match.go *)

(** The topic loop of [filterLogs]: position [i] against [log.Topics[i]]. *)
Fixpoint topics_match (topics : list (list Hash)) (log : list Hash) : bool :=
  match topics, log with
  | [], _ => true
  | sub :: topics, t :: log =>
      (match sub with [] => true | _ => existsb (λ x, bool_decide (x = t)) sub end)
      && topics_match topics log
  | _ :: _, [] => false
  end.

Definition filter_check (fromBlock toBlock : option Z) (addresses : list Address)
    (topics : list (list Hash)) (log : TLog) : bool :=
  negb (match fromBlock with
        | Some n => (0 <=? n) && (tl_BlockNumber log <? u64 n)
        | None => false
        end) &&
  negb (match toBlock with
        | Some n => (0 <=? n) && (u64 n <? tl_BlockNumber log)
        | None => false
        end) &&
  (match addresses with
   | [] => true
   | _ => existsb (λ a, bool_decide (a = tl_Address log)) addresses
   end) &&
  negb (length (tl_Topics log) <? length topics)%nat &&
  topics_match topics (tl_Topics log).

Definition filterLogs (logs : list TLog) (fromBlock toBlock : option Z)
    (addresses : list Address) (topics : list (list Hash)) : list TLog :=
  filter (λ log, filter_check fromBlock toBlock addresses topics log = true) logs.

Definition matchLogs (logs : list TLog) (crit : FilterCriteria) : list TLog :=
  filterLogs logs (fc_FromBlock crit) (fc_ToBlock crit) (fc_Addresses crit) (fc_Topics crit).

(** ** criteria.go *)

Definition resolveFromBlock (n : option Z) (head : Z) : option Z :=
  match n with
  | Some n => if 0 <=? n then Some (u64 n)
              else if n =? EarliestBlockNumber then Some 0 else Some head
  | None => Some head
  end.

Definition resolveToBlock (n : option Z) : option Z :=
  match n with
  | None => None
  | Some n => if n =? EarliestBlockNumber then Some 0
              else if n <? 0 then None else Some (u64 n)
  end.

Definition CriteriaToLogFilter (crit : FilterCriteria) (head : Z) : LogFilter := {|
  lf_BlockHash := option_map Hash_Bytes (fc_BlockHash crit);
  lf_FromBlock := match fc_BlockHash crit with
                  | Some _ => None
                  | None => resolveFromBlock (fc_FromBlock crit) head
                  end;
  lf_ToBlock := match fc_BlockHash crit with
                | Some _ => None
                | None => resolveToBlock (fc_ToBlock crit)
                end;
  lf_Addresses := map Address_Bytes (fc_Addresses crit);
  lf_Topics := map (map Hash_Bytes) (fc_Topics crit)
|}.

(** ** State *)

Inductive filter_type := LogsSubscription | BlocksSubscription.

(** A nil buffer and an empty one answer the same. *)
Record pfilter := {
  f_typ : filter_type;
  f_expiresAt : Z;
  f_hashes : list Hash;
  f_crit : FilterCriteria;
  f_logs : list TLog
}.

(** A buffered channel of heads. *)
Record head_chan := { hc_buf : list DBlock; hc_cap : Z; hc_closed : bool }.

(** A subscriber with the key of its connection, if attributable. *)
Record headSub := { hs_conn : option string }.

(** Subscribers are keyed by id, and so are their channels, which outlive
    them: a reader may still drain a closed channel. *)
Record FilterAPI := {
  fa_timeout : Z;
  fa_limits : Limits;
  fa_filters : gmap string pfilter;
  fa_headSubs : gmap Z headSub;
  fa_connSubs : gmap string Z;
  fa_nextHeadID : Z;
  fa_closed : bool;
  fa_chans : gmap Z head_chan
}.

Definition newFilterAPI (timeout : Z) (limits : Limits) : FilterAPI := {|
  fa_timeout := timeout; fa_limits := mergePartialLimits limits;
  fa_filters := ∅; fa_headSubs := ∅; fa_connSubs := ∅; fa_nextHeadID := 0; fa_closed := false;
  fa_chans := ∅
|}.

Definition set_filters x a := {| fa_timeout := fa_timeout a; fa_limits := fa_limits a;
  fa_filters := x; fa_headSubs := fa_headSubs a; fa_connSubs := fa_connSubs a;
  fa_nextHeadID := fa_nextHeadID a; fa_closed := fa_closed a; fa_chans := fa_chans a |}.
Definition set_heads subs conns chans a := {| fa_timeout := fa_timeout a;
  fa_limits := fa_limits a; fa_filters := fa_filters a; fa_headSubs := subs;
  fa_connSubs := conns; fa_nextHeadID := fa_nextHeadID a; fa_closed := fa_closed a;
  fa_chans := chans |}.

(** ** api.go *)

Inductive filter_error := FilterNotFound | LimitExceeded.

(** The zero criteria of a block filter. *)
Definition no_criteria : FilterCriteria := {|
  fc_BlockHash := None; fc_FromBlock := None; fc_ToBlock := None;
  fc_Addresses := []; fc_Topics := []
|}.

Definition install (a : FilterAPI) (id : string) (now : Z) (typ : filter_type)
    (crit : FilterCriteria) : result filter_error string * FilterAPI :=
  if MaxFilters (fa_limits a) <=? Z.of_nat (size (fa_filters a)) then (Err LimitExceeded, a)
  else
    let f := {| f_typ := typ; f_expiresAt := now + fa_timeout a; f_hashes := [];
                f_crit := match typ with LogsSubscription => crit | BlocksSubscription => no_criteria end;
                f_logs := [] |} in
    (Ok id, set_filters (<[id := f]> (fa_filters a)) a).

Definition NewBlockFilter (a : FilterAPI) (id : string) (now : Z) :=
  install a id now BlocksSubscription no_criteria.
Definition NewFilter (a : FilterAPI) (id : string) (now : Z) (crit : FilterCriteria) :=
  install a id now LogsSubscription crit.

Definition UninstallFilter (a : FilterAPI) (id : string) : bool * FilterAPI :=
  match fa_filters a !! id with
  | None => (false, a)
  | Some _ => (true, set_filters (delete id (fa_filters a)) a)
  end.

(** One tick of [timeoutLoop]. *)
Definition sweep (a : FilterAPI) (now : Z) : FilterAPI :=
  set_filters (filter (λ kf, now < f_expiresAt kf.2) (fa_filters a)) a.

(** [deliverOneLocked] on one filter. *)
Definition deliverOne (capN : Z) (hash : Hash) (blockLogs : list TLog) (f : pfilter) : pfilter :=
  match f_typ f with
  | BlocksSubscription =>
      {| f_typ := f_typ f; f_expiresAt := f_expiresAt f;
         f_hashes := appendCapped (f_hashes f) [hash] capN; f_crit := f_crit f; f_logs := f_logs f |}
  | LogsSubscription =>
      match matchLogs blockLogs (f_crit f) with
      | [] => f
      | matched =>
          {| f_typ := f_typ f; f_expiresAt := f_expiresAt f; f_hashes := f_hashes f;
             f_crit := f_crit f; f_logs := appendCapped (f_logs f) matched capN |}
      end
  end.

(** Logs are extracted only when some filter wants them. *)
Definition needLogs (a : FilterAPI) : bool :=
  existsb (λ kf, match f_typ kf.2 with LogsSubscription => true | BlocksSubscription => false end)
    (map_to_list (fa_filters a)).

Definition deliver (a : FilterAPI) (b : Block) : FilterAPI :=
  let blockLogs := if needLogs a then logsFromBlock b else [] in
  set_filters (deliverOne (MaxFilterBuffer (fa_limits a)) (BytesToHash (b_Hash b)) blockLogs
                 <$> fa_filters a) a.

(** [resetDeadlineLocked]: an expired filter is removed, a live one renewed. *)
Definition resetDeadline (a : FilterAPI) (id : string) (now : Z) (f : pfilter)
    : bool * pfilter * FilterAPI :=
  if f_expiresAt f <=? now then (false, f, set_filters (delete id (fa_filters a)) a)
  else
    let f := {| f_typ := f_typ f; f_expiresAt := now + fa_timeout a; f_hashes := f_hashes f;
                f_crit := f_crit f; f_logs := f_logs f |} in
    (true, f, set_filters (<[id := f]> (fa_filters a)) a).

Inductive changes := Hashes (l : list Hash) | Logs (l : list TLog).

Definition GetFilterChanges (a : FilterAPI) (id : string) (now : Z)
    : result filter_error changes * FilterAPI :=
  match fa_filters a !! id with
  | None => (Err FilterNotFound, a)
  | Some f =>
      match resetDeadline a id now f with
      | (false, _, a) => (Err FilterNotFound, a)
      | (true, f, a) =>
          match f_typ f with
          | BlocksSubscription =>
              (Ok (Hashes (f_hashes f)),
               set_filters (<[id := {| f_typ := f_typ f; f_expiresAt := f_expiresAt f;
                 f_hashes := []; f_crit := f_crit f; f_logs := f_logs f |}]> (fa_filters a)) a)
          | LogsSubscription =>
              (Ok (Logs (f_logs f)),
               set_filters (<[id := {| f_typ := f_typ f; f_expiresAt := f_expiresAt f;
                 f_hashes := f_hashes f; f_crit := f_crit f; f_logs := [] |}]> (fa_filters a)) a)
          end
      end
  end.

(** The historical path: [query] is the store's [GetLogs] at the current head;
    [None] when no log source is configured. *)
Definition GetFilterLogs {E} (a : FilterAPI) (id : string) (now : Z)
    (logs : option (result E Z * (LogFilter → result E (list DLog))))
    : result (filter_error + E) (list TLog) * FilterAPI :=
  match fa_filters a !! id with
  | None => (Err (inl FilterNotFound), a)
  | Some f =>
      match f_typ f with
      | BlocksSubscription => (Err (inl FilterNotFound), a)
      | LogsSubscription =>
          match resetDeadline a id now f with
          | (false, _, a) => (Err (inl FilterNotFound), a)
          | (true, f, a) =>
              match logs with
              | None => (Ok [], a)
              | Some (Err e, _) => (Err (inr e), a)
              | Some (Ok head, query) =>
                  match query (CriteriaToLogFilter (f_crit f) head) with
                  | Err e => (Err (inr e), a)
                  | Ok domainLogs => (Ok (DomainLogToTypes <$> domainLogs), a)
                  end
              end
          end
      end
  end.

(** ** heads.go *)

Definition HeadsBuffer : Z := 16.

Inductive sub_result := SubClosed | SubLimit | Subscribed (id : Z).

(** [api.connSubs[conn]] is 0 for an absent key. *)
Definition conn_count (a : FilterAPI) (conn : string) : Z := default 0 (fa_connSubs a !! conn).

Definition SubscribeHeadsForConn (a : FilterAPI) (conn : option string) (buffer : Z)
    : sub_result * FilterAPI :=
  let buffer := if buffer <? 1 then HeadsBuffer else buffer in
  if fa_closed a then (SubClosed, a)
  else if MaxSubscriptionsGlobal (fa_limits a) <=? Z.of_nat (size (fa_headSubs a)) then (SubLimit, a)
  else if match conn with
          | Some k => MaxSubscriptionsPerConn (fa_limits a) <=? conn_count a k
          | None => false
          end then (SubLimit, a)
  else
    let id := u64 (fa_nextHeadID a + 1) in
    (Subscribed id,
     {| fa_timeout := fa_timeout a; fa_limits := fa_limits a; fa_filters := fa_filters a;
        fa_headSubs := <[id := {| hs_conn := conn |}]> (fa_headSubs a);
        fa_connSubs := match conn with
                       | Some k => <[k := conn_count a k + 1]> (fa_connSubs a)
                       | None => fa_connSubs a
                       end;
        fa_nextHeadID := id; fa_closed := fa_closed a;
        fa_chans := <[id := {| hc_buf := []; hc_cap := buffer; hc_closed := false |}]> (fa_chans a) |}).

(** [close(ch)] panics on a closed channel. *)
Definition close_chan (id : Z) (chans : gmap Z head_chan) : outcome (gmap Z head_chan) :=
  match chans !! id with
  | Some ch => if hc_closed ch then Panic "close of closed channel"
               else Done (<[id := {| hc_buf := hc_buf ch; hc_cap := hc_cap ch; hc_closed := true |}]> chans)
  | None => Panic "close of nil channel"
  end.

Definition unsubscribeHeads (a : FilterAPI) (id : Z) : outcome FilterAPI :=
  match fa_headSubs a !! id with
  | None => Done a
  | Some sub =>
      let conns :=
        match hs_conn sub with
        | None => fa_connSubs a
        | Some k =>
            let n := conn_count a k - 1 in
            if n <=? 0 then delete k (fa_connSubs a) else <[k := n]> (fa_connSubs a)
        end in
      chans ← close_chan id (fa_chans a);
      Done (set_heads (delete id (fa_headSubs a)) conns chans a)
  end.

(** [closeHeadSubsLocked] in the iteration order [ids] of the map. *)
Fixpoint close_all (ids : list Z) (chans : gmap Z head_chan) : outcome (gmap Z head_chan) :=
  match ids with
  | [] => Done chans
  | id :: ids => chans ← close_chan id chans; close_all ids chans
  end.

Definition Close (a : FilterAPI) (ids : list Z) : outcome FilterAPI :=
  if fa_closed a then Done a
  else
    chans ← close_all ids (fa_chans a);
    Done {| fa_timeout := fa_timeout a; fa_limits := fa_limits a; fa_filters := fa_filters a;
            fa_headSubs := ∅; fa_connSubs := ∅; fa_nextHeadID := fa_nextHeadID a;
            fa_closed := true; fa_chans := chans |}.

(** [select { case s.ch <- b: default: }]: a full channel drops the head, a
    closed one panics. *)
Definition send_head (b : DBlock) (id : Z) (chans : gmap Z head_chan) : outcome (gmap Z head_chan) :=
  match chans !! id with
  | None => Done chans
  | Some ch =>
      if hc_closed ch then Panic "send on closed channel"
      else if Z.of_nat (length (hc_buf ch)) <? hc_cap ch
      then Done (<[id := {| hc_buf := hc_buf ch ++ [b]; hc_cap := hc_cap ch; hc_closed := false |}]> chans)
      else Done chans
  end.

Fixpoint fanOutHeads (b : DBlock) (ids : list Z) (chans : gmap Z head_chan)
    : outcome (gmap Z head_chan) :=
  match ids with
  | [] => Done chans
  | id :: ids => chans ← send_head b id chans; fanOutHeads b ids chans
  end.

(** [domainBlockFor]: the stored block, or a header built from the delivery. *)
Definition domainBlockFor (query : option (Z → option DBlock)) (b : Block) : DBlock :=
  match (q ← query; q (b_Number b)) with
  | Some db => db
  | None => {| db_BlockNumber := b_Number b; db_BlockHash := Some (b_Hash b);
               db_ParentHash := Some (b_ParentHash b); db_StateRoot := None;
               db_Timestamp := b_Timestamp b; db_Transactions := [] |}
  end.

(** [Handle]: filters first, then the heads; the lock is released in between,
    so the subscribers fanned out to are those of that later moment. *)
Definition Handle_filters (a : FilterAPI) (b : Block) : FilterAPI :=
  if (size (fa_filters a) =? 0)%nat then a else deliver a b.

Definition Handle_heads (a : FilterAPI) (query : option (Z → option DBlock)) (b : Block)
    (ids : list Z) : outcome FilterAPI :=
  chans ← fanOutHeads (domainBlockFor query b) ids (fa_chans a);
  Done (set_heads (fa_headSubs a) (fa_connSubs a) chans a).

(** A reader takes the next head from its channel. *)
Definition recv_head (id : Z) (a : FilterAPI) : option (DBlock * FilterAPI) :=
  match fa_chans a !! id with
  | Some {| hc_buf := b :: buf; hc_cap := cap; hc_closed := cl |} =>
      Some (b, set_heads (fa_headSubs a) (fa_connSubs a)
                 (<[id := {| hc_buf := buf; hc_cap := cap; hc_closed := cl |}]> (fa_chans a)) a)
  | _ => None
  end.
End filters.
