(* ===== verification/FilterProps.v ===== *)
(** * FilterProps: what the polling filters and newHeads subscriptions deliver

    Polls return exactly the matching logs since the previous poll, the newest
    [MaxFilterBuffer] of them; every cap of [Limits] holds in every reached
    state and no channel is closed twice or written after closing; and the
    historical query of a filter selects the same logs as its live matching. *)

From Stdlib Require Import ZArith Lia.
From stdpp Require Import base numbers list gmap fin_maps sorting strings relations.
From S2P Require Import Prelude Blocks Geth Domain Convert Store StoreProps Filters.

Local Open Scope Z_scope.

(** ** Capped buffers *)

(** The newest [n] elements. *)
Definition newest {A} (n : Z) (l : list A) : list A := drop (length l - Z.to_nat n) l.

Lemma newest_length {A} n (l : list A) : 0 ≤ n → Z.of_nat (length (newest n l)) ≤ n.
Proof. intros Hn. unfold newest. rewrite length_drop. lia. Qed.

Lemma newest_small {A} n (l : list A) : Z.of_nat (length l) ≤ n → newest n l = l.
Proof. intros Hn. unfold newest. replace (length l - Z.to_nat n)%nat with 0%nat by lia. done. Qed.

Lemma appendCapped_newest {A} (buf items : list A) n :
  0 < n → appendCapped buf items n = newest n (buf ++ items).
Proof.
  intros Hn. unfold appendCapped. destruct (Z.ltb_spec 0 n); [|lia]. simpl.
  destruct (Z.ltb_spec n (Z.of_nat (length (buf ++ items)))); [done|].
  by rewrite newest_small.
Qed.

(** Capping early loses nothing a later cap would keep. *)
Lemma newest_app {A} n (a b : list A) : 0 ≤ n → newest n (newest n a ++ b) = newest n (a ++ b).
Proof.
  intros Hn. unfold newest. rewrite !length_app, length_drop.
  rewrite <-(drop_app_le a b) by lia. rewrite drop_drop. f_equal. lia.
Qed.

Section polls.
Context {G : GethTypes} {T : EthTxTypes G} {C : EthCodec G T} {W : Wire} {R : RpcTags}.

(** ** Operations on filters *)

Inductive fop :=
| OpHandle (b : Block)
| OpInstall (id : string) (now : Z) (typ : filter_type) (crit : FilterCriteria)
| OpUninstall (id : string)
| OpPoll (id : string) (now : Z)
| OpSweep (now : Z).

Definition apply_op (a : FilterAPI) (op : fop) : FilterAPI :=
  match op with
  | OpHandle b => Handle_filters a b
  | OpInstall id now typ crit => (install a id now typ crit).2
  | OpUninstall id => (UninstallFilter a id).2
  | OpPoll id now => (GetFilterChanges a id now).2
  | OpSweep now => sweep a now
  end.

Definition run_ops (a : FilterAPI) (ops : list fop) : FilterAPI := foldl apply_op a ops.

(** Operations that leave filter [id] installed until [exp]: those on other
    filters, block deliveries, and expiry sweeps before its deadline. *)
Definition leaves (id : string) (exp : Z) (op : fop) : Prop :=
  match op with
  | OpHandle _ => True
  | OpInstall id' _ _ _ | OpUninstall id' | OpPoll id' _ => id' ≠ id
  | OpSweep now => now < exp
  end.

Definition handled (ops : list fop) : list Block :=
  omap (λ op, match op with OpHandle b => Some b | _ => None end) ops.

(** The buffers of a filter after more blocks. *)
Definition after (cap : Z) (f : pfilter) (bs : list Block) : pfilter := {|
  f_typ := f_typ f; f_expiresAt := f_expiresAt f;
  f_hashes := match f_typ f with
              | BlocksSubscription => newest cap (f_hashes f ++ ((λ b, BytesToHash (b_Hash b)) <$> bs))
              | LogsSubscription => f_hashes f
              end;
  f_crit := f_crit f;
  f_logs := match f_typ f with
            | LogsSubscription =>
                newest cap (f_logs f ++ (b ← bs; matchLogs (logsFromBlock b) (f_crit f)))
            | BlocksSubscription => f_logs f
            end
|}.

(** A filter within its cap. *)
Definition capped (cap : Z) (f : pfilter) : Prop :=
  Z.of_nat (length (f_hashes f)) ≤ cap ∧ Z.of_nat (length (f_logs f)) ≤ cap.

Lemma after_nil cap f : capped cap f → after cap f [] = f.
Proof.
  intros [Hh Hl]. unfold after. destruct f as [[] ? ? ? ?]; simpl in *;
    rewrite app_nil_r, newest_small by done; done.
Qed.

Lemma after_app cap f bs bs' : 0 ≤ cap → after cap (after cap f bs) bs' = after cap f (bs ++ bs').
Proof.
  intros Hc. unfold after. destruct f as [[] ? ? ? ?]; simpl; f_equal.
  - by rewrite newest_app, bind_app, app_assoc.
  - by rewrite newest_app, fmap_app, app_assoc.
Qed.

Lemma after_capped cap f bs : 0 ≤ cap → capped cap f → capped cap (after cap f bs).
Proof.
  intros Hc [Hh Hl]. unfold after, capped. destruct (f_typ f); simpl; split; try done;
    by apply newest_length.
Qed.

Lemma deliverOne_after cap f b :
  0 < cap → capped cap f →
  deliverOne cap (BytesToHash (b_Hash b)) (logsFromBlock b) f = after cap f [b].
Proof.
  intros Hc [Hh Hl]. unfold deliverOne, after. destruct (f_typ f) eqn:Et; simpl.
  - rewrite app_nil_r. destruct (matchLogs (logsFromBlock b) (f_crit f)) as [|l ls] eqn:Em.
    + rewrite app_nil_r, newest_small by done. destruct f; simpl in *; by subst.
    + by rewrite appendCapped_newest.
  - by rewrite appendCapped_newest.
Qed.

(** Block hashes are delivered whether or not the logs were extracted. *)
Lemma deliverOne_blocks cap h ls ls' f :
  f_typ f = BlocksSubscription → deliverOne cap h ls f = deliverOne cap h ls' f.
Proof. unfold deliverOne. by intros ->. Qed.

Lemma needLogs_true a id f :
  fa_filters a !! id = Some f → f_typ f = LogsSubscription → needLogs a = true.
Proof.
  intros Hid Ht. unfold needLogs. apply existsb_true. exists (id, f).
  split; [by apply elem_of_map_to_list|]. simpl. by rewrite Ht.
Qed.

Lemma Handle_filters_lookup a b id f :
  0 < MaxFilterBuffer (fa_limits a) → capped (MaxFilterBuffer (fa_limits a)) f →
  fa_filters a !! id = Some f →
  fa_filters (Handle_filters a b) !! id = Some (after (MaxFilterBuffer (fa_limits a)) f [b]).
Proof.
  intros Hc Hf Hid. unfold Handle_filters.
  destruct (size (fa_filters a) =? 0)%nat eqn:Es.
  { apply Nat.eqb_eq, map_size_empty_iff in Es. by rewrite Es, lookup_empty in Hid. }
  simpl. rewrite lookup_fmap, Hid. simpl. f_equal. rewrite <-deliverOne_after by done.
  destruct (f_typ f) eqn:Et; [|by apply deliverOne_blocks].
  by rewrite (needLogs_true a id f).
Qed.

Lemma apply_op_limits a op : fa_limits (apply_op a op) = fa_limits a ∧ fa_timeout (apply_op a op) = fa_timeout a.
Proof.
  destruct op; simpl.
  - unfold Handle_filters. by case_match.
  - unfold install. by case_match.
  - unfold UninstallFilter. by case_match.
  - unfold GetFilterChanges, resetDeadline. by repeat case_match; simplify_eq.
  - done.
Qed.

(** One operation that leaves the filter alone. *)
Lemma apply_op_lookup a op id f :
  let cap := MaxFilterBuffer (fa_limits a) in
  0 < cap → capped cap f → leaves id (f_expiresAt f) op → fa_filters a !! id = Some f →
  fa_filters (apply_op a op) !! id = Some (after cap f (handled [op])).
Proof.
  intros cap Hc Hf Hl Hid. destruct op as [b|id' now typ crit|id'|id' now|now]; simpl in *.
  - by apply Handle_filters_lookup.
  - rewrite after_nil by done. unfold install. case_match; [done|]. simpl. by rewrite lookup_insert_ne.
  - rewrite after_nil by done. unfold UninstallFilter. case_match; [|done]. simpl.
    by rewrite lookup_delete_ne.
  - rewrite after_nil by done. unfold GetFilterChanges, resetDeadline.
    repeat case_match; simplify_eq/=; rewrite ?lookup_insert_ne, ?lookup_delete_ne by done; done.
  - rewrite after_nil by done. unfold sweep. simpl. by rewrite map_lookup_filter_Some.
Qed.

Lemma run_ops_lookup a ops id f :
  let cap := MaxFilterBuffer (fa_limits a) in
  0 < cap → capped cap f → Forall (leaves id (f_expiresAt f)) ops → fa_filters a !! id = Some f →
  fa_filters (run_ops a ops) !! id = Some (after cap f (handled ops)) ∧
  fa_timeout (run_ops a ops) = fa_timeout a.
Proof.
  intros cap Hc Hf Hops. revert a f cap Hc Hf Hops.
  induction ops as [|op ops IH]; intros a f cap Hc Hf Hops Hid.
  { simpl. by rewrite after_nil. }
  apply Forall_cons in Hops as [Hop Hops]. unfold run_ops. simpl foldl. fold (run_ops (apply_op a op) ops).
  destruct (apply_op_limits a op) as [Hlim Hto].
  pose proof (apply_op_lookup a op id f Hc Hf Hop Hid) as Hstep.
  destruct (IH (apply_op a op) (after cap f (handled [op]))) as [Hr Ht]; rewrite ?Hlim; try done.
  - by apply after_capped; [lia|].
  - rewrite Hr, Ht, Hto, Hlim. split; [|done]. f_equal. fold cap. rewrite after_app by lia.
    f_equal. by destruct op.
Qed.

(** An installed filter whose buffers are empty, as after [install] and after
    every poll. *)
Definition drained (f : pfilter) : Prop := f_hashes f = [] ∧ f_logs f = [].

(** C29: a poll returns exactly what happened since the last one.  Take a filter
    that was just installed or polled; whatever blocks are delivered, whatever
    happens to other filters and whenever expiry sweeps run before its
    deadline, the next poll in time returns, in order, the hashes of the
    delivered blocks (block filter) or the logs of the delivered blocks that
    match the criteria (log filter), the newest [MaxFilterBuffer] of them if
    there are more; it empties the buffers and renews the deadline. *)
Theorem poll_exact a id f ops now
    (Hcap : 0 < MaxFilterBuffer (fa_limits a)) (Hid : fa_filters a !! id = Some f)
    (Hf : drained f) (Hops : Forall (leaves id (f_expiresAt f)) ops)
    (Hnow : now < f_expiresAt f) :
  let '(r, a') := GetFilterChanges (run_ops a ops) id now in
  r = Ok (match f_typ f with
          | BlocksSubscription =>
              Hashes (newest (MaxFilterBuffer (fa_limits a))
                        ((λ b, BytesToHash (b_Hash b)) <$> handled ops))
          | LogsSubscription =>
              Logs (newest (MaxFilterBuffer (fa_limits a))
                      (b ← handled ops; matchLogs (logsFromBlock b) (f_crit f)))
          end) ∧
  ∃ f', fa_filters a' !! id = Some f' ∧ drained f' ∧ f_typ f' = f_typ f ∧
    f_crit f' = f_crit f ∧ f_expiresAt f' = now + fa_timeout a.
Proof.
  destruct Hf as [Hh Hl].
  assert (capped (MaxFilterBuffer (fa_limits a)) f) as Hc
    by (unfold capped; rewrite Hh, Hl; simpl; lia).
  destruct (run_ops_lookup a ops id f Hcap Hc Hops Hid) as [Hr Ht].
  unfold GetFilterChanges, resetDeadline. rewrite Hr. cbn [f_expiresAt after].
  destruct (Z.leb_spec (f_expiresAt f) now); [lia|]. cbn [f_typ after].
  destruct (f_typ f) eqn:Et; simpl; rewrite ?Hh, ?Hl, Et; (split; [done|]);
    rewrite lookup_insert_eq; eexists; (split; [done|]); rewrite Ht; by rewrite ?Hh, ?Hl.
Qed.

(** An expired filter is gone: the poll reports it and removes it. *)
Lemma poll_expired a id f now :
  fa_filters a !! id = Some f → f_expiresAt f ≤ now →
  GetFilterChanges a id now =
    (Err FilterNotFound, set_filters (delete id (fa_filters a)) a).
Proof.
  intros Hid He. unfold GetFilterChanges, resetDeadline. rewrite Hid.
  destruct (Z.leb_spec (f_expiresAt f) now); [done|lia].
Qed.
End polls.

(** ** Caps and channels *)

Section caps.
Context {G : GethTypes} {T : EthTxTypes G} {C : EthCodec G T} {W : Wire} {R : RpcTags}.

(** The subscribers attributed to a connection. *)
Definition subs_of (k : string) (subs : gmap Z headSub) : nat :=
  size (filter (λ kv : Z * headSub, hs_conn kv.2 = Some k) subs).

Record filter_inv (a : FilterAPI) : Prop := {
  fv_buffer : 0 < MaxFilterBuffer (fa_limits a);
  fv_filters : Z.of_nat (size (fa_filters a)) ≤ Z.max 0 (MaxFilters (fa_limits a));
  fv_capped : ∀ id f, fa_filters a !! id = Some f → capped (MaxFilterBuffer (fa_limits a)) f;
  fv_subs : Z.of_nat (size (fa_headSubs a)) ≤ Z.max 0 (MaxSubscriptionsGlobal (fa_limits a));
  fv_conns : ∀ k, conn_count a k = Z.of_nat (subs_of k (fa_headSubs a)) ∧
    (is_Some (fa_connSubs a !! k) → 0 < conn_count a k) ∧
    conn_count a k ≤ Z.max 0 (MaxSubscriptionsPerConn (fa_limits a));
  fv_open : ∀ id, is_Some (fa_headSubs a !! id) →
    ∃ ch, fa_chans a !! id = Some ch ∧ hc_closed ch = false;
  fv_chans : ∀ id ch, fa_chans a !! id = Some ch →
    0 < id ≤ fa_nextHeadID a ∧ 0 < hc_cap ch ∧ Z.of_nat (length (hc_buf ch)) ≤ hc_cap ch;
  fv_next : is_u64 (fa_nextHeadID a)
}.

(** Every operation of the API and its loops.  [ids] is an iteration order of
    the subscriber map; ids of subscriptions stay below 2^64. *)
Inductive filter_step : FilterAPI → FilterAPI → Prop :=
| fs_op a op : filter_step a (apply_op a op)
| fs_logs {E} a id now (logs : option (result E Z * (LogFilter → result E (list DLog)))) :
    filter_step a (GetFilterLogs a id now logs).2
| fs_subscribe a conn buffer :
    fa_nextHeadID a + 1 < 2 ^ 64 → filter_step a (SubscribeHeadsForConn a conn buffer).2
| fs_unsubscribe a id a' : unsubscribeHeads a id = Done a' → filter_step a a'
| fs_heads a query b ids a' :
    ids ≡ₚ (map_to_list (fa_headSubs a)).*1 →
    Handle_heads a query b ids = Done a' → filter_step a a'
| fs_recv a id b a' : recv_head id a = Some (b, a') → filter_step a a'
| fs_close a ids a' :
    ids ≡ₚ (map_to_list (fa_headSubs a)).*1 → Close a ids = Done a' → filter_step a a'.

Lemma inv_set_filters a fs :
  filter_inv a → Z.of_nat (size fs) ≤ Z.max 0 (MaxFilters (fa_limits a)) →
  (∀ id f, fs !! id = Some f → capped (MaxFilterBuffer (fa_limits a)) f) →
  filter_inv (set_filters fs a).
Proof. intros [] Hs Hf. split; done. Qed.

Lemma size_insert_Some {V} (m : gmap string V) i x y : m !! i = Some y → size (<[i := x]> m) = size m.
Proof. intros H. by rewrite map_size_insert_Some. Qed.

Lemma size_delete_le {K V} `{Countable K} (m : gmap K V) i : (size (delete i m) ≤ size m)%nat.
Proof.
  destruct (m !! i) as [x|] eqn:E; [|by rewrite delete_id].
  rewrite (map_size_delete_Some _ _ (mk_is_Some _ _ E)). lia.
Qed.

Lemma delete_inv a id : filter_inv a → filter_inv (set_filters (delete id (fa_filters a)) a).
Proof.
  intros Hi. pose proof (size_delete_le (fa_filters a) id). apply inv_set_filters; [done| |].
  - pose proof (fv_filters a Hi). lia.
  - intros id' f [_ Hf]%lookup_delete_Some. by eapply fv_capped.
Qed.

Lemma replace_inv a id f g :
  filter_inv a → fa_filters a !! id = Some f → capped (MaxFilterBuffer (fa_limits a)) g →
  filter_inv (set_filters (<[id := g]> (fa_filters a)) a).
Proof.
  intros Hi Hf Hg. apply inv_set_filters; [done| |].
  - rewrite (size_insert_Some _ _ _ f) by done. apply Hi.
  - intros id' f' [[<- <-]|[_ Hf']]%lookup_insert_Some; [done|]. by eapply fv_capped.
Qed.

Lemma resetDeadline_inv a id now f ok f' a' :
  filter_inv a → fa_filters a !! id = Some f → resetDeadline a id now f = (ok, f', a') →
  filter_inv a' ∧
  (ok = true → fa_filters a' !! id = Some f' ∧ capped (MaxFilterBuffer (fa_limits a')) f').
Proof.
  intros Hi Hid. unfold resetDeadline. destruct (fv_capped a Hi id f Hid) as [Hh Hl].
  case_match; intros [= <- <- <-].
  - split; [by apply delete_inv|done].
  - split; [by apply (replace_inv _ _ f)|]. intros _. simpl. by rewrite lookup_insert_eq.
Qed.

Lemma apply_op_inv a op : filter_inv a → filter_inv (apply_op a op).
Proof.
  intros Hi. pose proof (fv_buffer a Hi) as Hb. destruct op as [b|id now typ crit|id|id now|now]; simpl.
  - unfold Handle_filters. case_match; [done|]. unfold deliver. apply inv_set_filters; [done| |].
    + rewrite map_size_fmap. apply Hi.
    + intros id f (g & <- & Hg)%lookup_fmap_Some. apply (fv_capped a Hi) in Hg as [Hh Hl].
      unfold deliverOne. repeat case_match; split; simpl; try done;
        rewrite ?appendCapped_newest by done; by apply newest_length; lia.
  - unfold install. case_match eqn:Hm; [done|]. apply Z.leb_gt in Hm. simpl.
    apply inv_set_filters; [done| |].
    + destruct (fa_filters a !! id) eqn:E.
      * rewrite (size_insert_Some _ _ _ p) by done. lia.
      * rewrite map_size_insert_None by done. lia.
    + intros id' f [[<- <-]|[_ Hf]]%lookup_insert_Some; [split; simpl; lia|]. by eapply fv_capped.
  - unfold UninstallFilter. case_match; [by apply delete_inv|done].
  - unfold GetFilterChanges. destruct (fa_filters a !! id) as [f|] eqn:Hid; [|done].
    destruct (resetDeadline a id now f) as [[ok f'] a'] eqn:Hr.
    destruct (resetDeadline_inv _ _ _ _ _ _ _ Hi Hid Hr) as [Hi' Hok]. destruct ok; [|done].
    destruct (Hok eq_refl) as [Hid' [Hh Hl]]. pose proof (fv_buffer a' Hi').
    destruct (f_typ f'); (apply (replace_inv _ _ f'); [done..|]); split; simpl; lia.
  - unfold sweep. apply inv_set_filters; [done| |].
    + pose proof (fv_filters a Hi). pose proof (map_size_filter (λ kf, now < f_expiresAt kf.2) (fa_filters a)). lia.
    + intros id f [Hf _]%map_lookup_filter_Some. by eapply fv_capped.
Qed.

Lemma GetFilterLogs_inv {E} a id now (logs : option (result E Z * (LogFilter → result E (list DLog)))) :
  filter_inv a → filter_inv (GetFilterLogs a id now logs).2.
Proof.
  intros Hi. unfold GetFilterLogs. destruct (fa_filters a !! id) as [f|] eqn:Hid; [|done].
  destruct (f_typ f); [|done].
  destruct (resetDeadline a id now f) as [[ok f'] a'] eqn:Hr.
  destruct (resetDeadline_inv _ _ _ _ _ _ _ Hi Hid Hr) as [Hi' _].
  by repeat case_match.
Qed.

(** *** Subscriptions *)

Lemma subs_of_insert k id sub subs :
  subs !! id = None →
  subs_of k (<[id := sub]> subs) =
  if decide (hs_conn sub = Some k) then S (subs_of k subs) else subs_of k subs.
Proof.
  intros Hid. unfold subs_of. case_decide as Hc.
  - rewrite map_filter_insert_True by done. apply map_size_insert_None.
    apply map_lookup_filter_None. by left.
  - by rewrite map_filter_insert_not' by (simpl; naive_solver).
Qed.

Lemma subs_of_delete k id sub subs :
  subs !! id = Some sub →
  subs_of k subs =
  if decide (hs_conn sub = Some k) then S (subs_of k (delete id subs)) else subs_of k (delete id subs).
Proof.
  intros Hid. rewrite <-(insert_delete_id subs id sub) at 1 by done.
  rewrite subs_of_insert by apply lookup_delete_eq. done.
Qed.

Lemma fresh_head a : filter_inv a → fa_nextHeadID a + 1 < 2 ^ 64 →
  u64 (fa_nextHeadID a + 1) = fa_nextHeadID a + 1 ∧ fa_headSubs a !! (fa_nextHeadID a + 1) = None.
Proof.
  intros Hi Hn. pose proof (fv_next a Hi) as Hu. unfold is_u64 in Hu.
  split; [apply u64_small; unfold is_u64; lia|].
  destruct (fa_headSubs a !! _) as [sub|] eqn:E; [|done].
  destruct (fv_open a Hi _ (mk_is_Some _ _ E)) as (ch & Hch & _).
  destruct (fv_chans a Hi _ _ Hch) as [? _]. lia.
Qed.

Lemma subscribe_inv a conn buffer :
  filter_inv a → fa_nextHeadID a + 1 < 2 ^ 64 → filter_inv (SubscribeHeadsForConn a conn buffer).2.
Proof.
  intros Hi Hn. destruct (fresh_head a Hi Hn) as [Hu Hfresh]. unfold SubscribeHeadsForConn.
  destruct (fa_closed a); [done|]. destruct (Z.leb_spec (MaxSubscriptionsGlobal (fa_limits a))
    (Z.of_nat (size (fa_headSubs a)))) as [|Hg]; [done|].
  destruct (match conn with Some k => _ | None => false end) eqn:Hc; [done|].
  rewrite Hu. pose proof (fv_next a Hi) as Hnx. unfold is_u64 in Hnx.
  split; simpl; try apply Hi.
  - rewrite map_size_insert_None by done. lia.
  - intros k. destruct (fv_conns a Hi k) as (Hk & Hpos & Hmax).
    rewrite subs_of_insert by done. simpl. unfold conn_count in *. simpl.
    destruct conn as [k'|]; simpl.
    + apply Z.leb_gt in Hc. destruct (decide (k' = k)) as [->|Hne].
      * rewrite lookup_insert_eq, decide_True by done. simpl. split_and!; lia.
      * rewrite lookup_insert_ne, decide_False by naive_solver. by split_and!.
    + rewrite ?decide_False by done. by split_and!.
  - intros id [sub Hsub]. destruct (decide (id = fa_nextHeadID a + 1)) as [->|Hne].
    + rewrite lookup_insert_eq. by eexists.
    + rewrite lookup_insert_ne in Hsub by done. rewrite lookup_insert_ne by done.
      by eapply fv_open.
  - intros id ch [[<- <-]|[_ Hch]]%lookup_insert_Some; simpl.
    + destruct (Z.ltb_spec buffer 1); unfold HeadsBuffer; lia.
    + destruct (fv_chans a Hi _ _ Hch) as (? & ? & ?). lia.
  - unfold is_u64. lia.
Qed.

(** Closing the channel of a subscriber succeeds. *)
Lemma close_open id chans ch :
  chans !! id = Some ch → hc_closed ch = false →
  close_chan id chans =
    Done (<[id := {| hc_buf := hc_buf ch; hc_cap := hc_cap ch; hc_closed := true |}]> chans).
Proof. intros Hch Ho. unfold close_chan. by rewrite Hch, Ho. Qed.

Lemma unsubscribe_total a id :
  filter_inv a → ∃ a', unsubscribeHeads a id = Done a' ∧ filter_inv a'.
Proof.
  intros Hi. unfold unsubscribeHeads.
  destruct (fa_headSubs a !! id) as [sub|] eqn:Hsub; [|by exists a].
  destruct (fv_open a Hi id (mk_is_Some _ _ Hsub)) as (ch & Hch & Ho).
  rewrite (close_open _ _ _ Hch Ho). eexists. split; [done|].
  split; simpl; try apply Hi.
  - pose proof (size_delete_le (fa_headSubs a) id). pose proof (fv_subs a Hi). lia.
  - intros k. destruct (fv_conns a Hi k) as (Hk & Hpos & Hmax).
    rewrite (subs_of_delete _ _ _ _ Hsub) in Hk. unfold conn_count in *. simpl.
    destruct (hs_conn sub) as [k'|]; [|rewrite decide_False in Hk by done; by split_and!].
    destruct (decide (k' = k)) as [->|Hne].
    + rewrite decide_True in Hk by done.
      destruct (Z.leb_spec (default 0 (fa_connSubs a !! k) - 1) 0) as [Hz|Hz].
      * rewrite lookup_delete_eq. simpl. split_and!; [lia|by intros []|lia].
      * rewrite lookup_insert_eq. simpl. split_and!; lia.
    + rewrite decide_False in Hk by naive_solver.
      case_match; rewrite ?lookup_delete_ne, ?lookup_insert_ne by done; by split_and!.
  - intros id' [sub' [Hne Hsub']%lookup_delete_Some].
    rewrite lookup_insert_ne by done. by eapply fv_open.
  - intros id' ch' [[<- <-]|[_ Hch']]%lookup_insert_Some; simpl; by eapply fv_chans.
Qed.

(** Sends and closes of distinct open channels. *)
Definition open_in (chans : gmap Z head_chan) (id : Z) : Prop :=
  ∃ ch, chans !! id = Some ch ∧ hc_closed ch = false.

Definition chans_ok (n : Z) (chans : gmap Z head_chan) : Prop :=
  ∀ id ch, chans !! id = Some ch →
    0 < id ≤ n ∧ 0 < hc_cap ch ∧ Z.of_nat (length (hc_buf ch)) ≤ hc_cap ch.

Lemma fanOut_total b n ids chans :
  Forall (open_in chans) ids → chans_ok n chans →
  ∃ chans', fanOutHeads b ids chans = Done chans' ∧ chans_ok n chans' ∧
    ∀ id, open_in chans id → open_in chans' id.
Proof.
  revert chans. induction ids as [|id ids IH]; intros chans Ho Hok; [by exists chans|].
  apply Forall_cons in Ho as [(ch & Hch & Hop) Ho]. simpl. unfold send_head. rewrite Hch, Hop.
  assert (Forall (open_in chans) ids) as Ho' by done.
  destruct (Z.ltb_spec (Z.of_nat (length (hc_buf ch))) (hc_cap ch)) as [Hl|Hl]; [|by apply IH].
  set (c' := {| hc_buf := _; hc_cap := _; hc_closed := _ |}).
  assert (∀ i, open_in chans i → open_in (<[id := c']> chans) i) as Hmono.
  { intros i (x & Hx & Hxo). unfold open_in. destruct (decide (i = id)) as [->|Hne].
    - rewrite lookup_insert_eq. by exists c'.
    - rewrite lookup_insert_ne by done. by exists x. }
  destruct (IH (<[id := c']> chans)) as (chans' & Hf & Hok' & Hm).
  - eapply Forall_impl; [exact Ho'|exact Hmono].
  - intros i x [[<- <-]|[_ Hx]]%lookup_insert_Some; [|by eapply Hok].
    destruct (Hok _ _ Hch) as (? & ? & ?). subst c'. simpl. rewrite length_app. simpl. lia.
  - exists chans'. split_and!; [done..|]. intros i Hi. by apply Hm, Hmono.
Qed.

Lemma close_all_total n ids chans :
  NoDup ids → Forall (open_in chans) ids → chans_ok n chans →
  ∃ chans', close_all ids chans = Done chans' ∧ chans_ok n chans'.
Proof.
  revert chans. induction ids as [|id ids IH]; intros chans Hnd Ho Hok; [by exists chans|].
  apply NoDup_cons in Hnd as [Hni Hnd]. apply Forall_cons in Ho as [(ch & Hch & Hop) Ho].
  simpl. rewrite (close_open _ _ _ Hch Hop). apply IH; [done| |].
  - apply Forall_forall. intros i Hin. eapply Forall_forall in Ho as (x & Hx & Hxo); [|exact Hin].
    exists x. rewrite lookup_insert_ne; [done|]. intros ->. done.
  - intros i x [[<- <-]|[_ Hx]]%lookup_insert_Some; simpl; by eapply Hok.
Qed.

Lemma subs_open a ids :
  filter_inv a → ids ≡ₚ (map_to_list (fa_headSubs a)).*1 →
  Forall (open_in (fa_chans a)) ids ∧ NoDup ids.
Proof.
  intros Hi Hp. split; [|rewrite Hp; apply NoDup_fst_map_to_list].
  apply Forall_forall. intros id Hin. rewrite Hp in Hin.
  apply list_elem_of_fmap in Hin as ([id' sub] & -> & Hin). apply elem_of_map_to_list in Hin.
  by apply (fv_open a Hi).
Qed.

Lemma Handle_heads_total a query b ids :
  filter_inv a → ids ≡ₚ (map_to_list (fa_headSubs a)).*1 →
  ∃ a', Handle_heads a query b ids = Done a' ∧ filter_inv a'.
Proof.
  intros Hi Hp. destruct (subs_open a ids Hi Hp) as [Ho _]. unfold Handle_heads.
  destruct (fanOut_total (domainBlockFor query b) (fa_nextHeadID a) ids (fa_chans a) Ho (fv_chans a Hi))
    as (chans & -> & Hok & Hm).
  eexists. split; [done|]. split; simpl; try apply Hi; [|done].
  intros id Hs. apply Hm. by apply (fv_open a Hi).
Qed.

Lemma Close_total a ids :
  filter_inv a → ids ≡ₚ (map_to_list (fa_headSubs a)).*1 → ∃ a', Close a ids = Done a' ∧ filter_inv a'.
Proof.
  intros Hi Hp. unfold Close. destruct (fa_closed a); [by exists a|].
  destruct (subs_open a ids Hi Hp) as [Ho Hnd].
  destruct (close_all_total (fa_nextHeadID a) ids (fa_chans a) Hnd Ho (fv_chans a Hi)) as (chans & -> & Hok).
  eexists. split; [done|]. split; simpl; try apply Hi; try done.
  - rewrite map_size_empty. lia.
  - intros k. unfold conn_count, subs_of. simpl. rewrite lookup_empty, map_filter_empty, map_size_empty.
    simpl. split_and!; [done|by intros []|lia].
  - intros id [? Hx]. by rewrite lookup_empty in Hx.
Qed.

Lemma recv_inv a id b a' : filter_inv a → recv_head id a = Some (b, a') → filter_inv a'.
Proof.
  intros Hi. unfold recv_head. destruct (fa_chans a !! id) as [[[|x buf] cap cl]|] eqn:Hch; [done| |done].
  intros [= <- <-]. split; simpl; try apply Hi.
  - intros id' Hs. destruct (fv_open a Hi id' Hs) as (ch & Hch' & Ho).
    destruct (decide (id' = id)) as [->|Hne].
    + rewrite lookup_insert_eq. simplify_eq/=. by eexists.
    + rewrite lookup_insert_ne by done. by exists ch.
  - intros id' ch [[<- <-]|[_ Hch']]%lookup_insert_Some; [|by eapply fv_chans].
    destruct (fv_chans a Hi _ _ Hch) as (? & ? & Hlen). simpl in *. lia.
Qed.

Lemma filter_step_inv a a' :
  filter_inv a → filter_step a a' → filter_inv a' ∧ fa_limits a' = fa_limits a.
Proof.
  intros Hi Hstep. split.
  - destruct Hstep as [a op|E a id now logs|a conn buf Hn|a id a' H|a q b ids a' Hp H|a id b a' H|a ids a' Hp H].
    + by apply apply_op_inv.
    + by apply GetFilterLogs_inv.
    + by apply subscribe_inv.
    + destruct (unsubscribe_total a id Hi) as (x & Hx & ?). congruence.
    + destruct (Handle_heads_total a q b ids Hi Hp) as (x & Hx & ?). congruence.
    + by eapply recv_inv.
    + destruct (Close_total a ids Hi Hp) as (x & Hx & ?). congruence.
  - destruct Hstep as [a op|E a id now logs|a conn buf Hn|a id a' H|a q b ids a' Hp H|a id b a' H|a ids a' Hp H].
    + apply apply_op_limits.
    + unfold GetFilterLogs, resetDeadline. by repeat case_match; simplify_eq.
    + unfold SubscribeHeadsForConn. by repeat case_match.
    + unfold unsubscribeHeads, mbind, outcome_bind in H. by repeat case_match; simplify_eq.
    + unfold Handle_heads, mbind, outcome_bind in H. by repeat case_match; simplify_eq.
    + unfold recv_head in H. by repeat case_match; simplify_eq.
    + unfold Close, mbind, outcome_bind in H. by repeat case_match; simplify_eq.
Qed.

Lemma newFilterAPI_inv timeout limits : filter_inv (newFilterAPI timeout limits).
Proof.
  split; simpl; try done.
  - unfold mergePartialLimits. destruct (Z.leb_spec (MaxFilterBuffer limits) 0); simpl; lia.
  - rewrite map_size_empty. lia.
  - rewrite map_size_empty. lia.
  - intros k. unfold conn_count, subs_of. simpl.
    rewrite lookup_empty, map_filter_empty, map_size_empty. simpl. split_and!; [done|by intros []|lia].
  - intros id [? Hx]. by rewrite lookup_empty in Hx.
Qed.

Lemma filter_reachable timeout limits a :
  rtc filter_step (newFilterAPI timeout limits) a →
  filter_inv a ∧ fa_limits a = mergePartialLimits limits.
Proof.
  intros Hr. pattern a. eapply rtc_ind_r; [|intros x y _ Hs [Hi Hl]|exact Hr].
  - split; [apply newFilterAPI_inv|done].
  - destruct (filter_step_inv x y Hi Hs) as [? ->]. done.
Qed.

(** The caps hold and channels are used safely.  However filters are
    installed, polled, uninstalled and swept, however clients subscribe,
    unsubscribe and read, and however blocks arrive: the number of filters, the
    buffer of each filter, the subscribers in all and per connection and the
    backlog of each subscriber never exceed their limits (a limit of zero
    allows none), the per-connection counters equal the live subscriptions of
    the connection, and unsubscribing, fanning out a head and closing the API
    never send on or close a closed channel. *)
Theorem filter_caps timeout limits a
    (Hr : rtc filter_step (newFilterAPI timeout limits) a) :
  Z.of_nat (size (fa_filters a)) ≤ Z.max 0 (MaxFilters limits) ∧
  (∀ id f, fa_filters a !! id = Some f → capped (MaxFilterBuffer (mergePartialLimits limits)) f) ∧
  Z.of_nat (size (fa_headSubs a)) ≤ Z.max 0 (MaxSubscriptionsGlobal limits) ∧
  (∀ k, conn_count a k = Z.of_nat (subs_of k (fa_headSubs a)) ∧
        conn_count a k ≤ Z.max 0 (MaxSubscriptionsPerConn limits)) ∧
  (∀ id ch, fa_chans a !! id = Some ch → Z.of_nat (length (hc_buf ch)) ≤ hc_cap ch) ∧
  (∀ id, ∃ a', unsubscribeHeads a id = Done a') ∧
  (∀ query b ids, ids ≡ₚ (map_to_list (fa_headSubs a)).*1 →
     (∃ a', Handle_heads a query b ids = Done a') ∧ (∃ a', Close a ids = Done a')).
Proof.
  destruct (filter_reachable _ _ _ Hr) as [Hi Hl].
  assert (MaxFilters (fa_limits a) = MaxFilters limits ∧
    MaxSubscriptionsGlobal (fa_limits a) = MaxSubscriptionsGlobal limits ∧
    MaxSubscriptionsPerConn (fa_limits a) = MaxSubscriptionsPerConn limits) as (H1 & H2 & H3).
  { rewrite Hl. unfold mergePartialLimits. by case_match. }
  rewrite <-H1, <-H2, <-H3, <-Hl. split_and!; try apply Hi.
  - intros k. destruct (fv_conns a Hi k) as (? & _ & ?). done.
  - intros id. destruct (unsubscribe_total a id Hi) as (a' & ? & _). by exists a'.
  - intros query b ids Hp. destruct (Handle_heads_total a query b ids Hi Hp) as (x & ? & _).
    destruct (Close_total a ids Hi Hp) as (y & ? & _). eauto.
Qed.
End caps.

(** ** Live matching and the historical query *)

Section history.
Context {G : GethTypes} {GL : GethLaws G} {T : EthTxTypes G} {C : EthCodec G T}
  {CL : EthCodecLaws G T C} {W : Wire} {R : RpcTags} `{Driver}.

(** A row as inserted from a log with an address and at most four topics. *)
Definition row_shape (l : LogRow) (a : Address) (hs : list Hash) : Prop :=
  lr_address l = Some (Address_Bytes a) ∧ (length hs ≤ 4)%nat ∧
  [lr_topic0 l; lr_topic1 l; lr_topic2 l; lr_topic3 l] =
    (Some ∘ Hash_Bytes <$> hs) ++ replicate (4 - length hs) None.

(** Every log row has that shape, and no two share a position. *)
Definition logs_shaped (db : DB) : Prop :=
  Forall (λ l, ∃ a hs, row_shape l a hs) (t_logs db) ∧
  NoDup ((λ l, [lr_block_number l; lr_tx_index l; lr_log_index l]) <$> t_logs db).

(** Criteria whose block range and topics mean the same on both paths: bounds
    that are block numbers (or no upper bound, or the earliest block), no block
    hash, at most four topic positions of which the last one is not a
    wildcard. *)
Definition plain_criteria (crit : FilterCriteria) : Prop :=
  fc_BlockHash crit = None ∧
  (∃ n, fc_FromBlock crit = Some n ∧ 0 ≤ n < 2 ^ 63) ∧
  (fc_ToBlock crit = None ∨ ∃ n, fc_ToBlock crit = Some n ∧ 0 ≤ n < 2 ^ 63 ∧ n ≠ EarliestBlockNumber) ∧
  (length (fc_Topics crit) ≤ 4)%nat ∧ last (fc_Topics crit) ≠ Some [].

#[local] Instance Hash_Bytes_inj : Inj (=) (=) Hash_Bytes.
Proof. intros x y Hxy. by rewrite <-(BytesToHash_Bytes x), Hxy, BytesToHash_Bytes. Qed.

#[local] Instance Address_Bytes_inj : Inj (=) (=) Address_Bytes.
Proof. intros x y Hxy. by rewrite <-(BytesToAddress_Bytes x), Hxy, BytesToAddress_Bytes. Qed.

Lemma existsb_hash alts h :
  existsb (λ t, sql_eq (Some (Hash_Bytes h)) (Some t)) (map Hash_Bytes alts) =
  existsb (λ x, bool_decide (x = h)) alts.
Proof.
  induction alts as [|x alts IH]; [done|]. cbn [map existsb]. rewrite IH. f_equal.
  unfold sql_eq. apply bool_decide_ext. split; [by intros ->%(inj Hash_Bytes)|by intros ->].
Qed.

Lemma existsb_address alts a :
  existsb (λ t, sql_eq (Some (Address_Bytes a)) (Some t)) (map Address_Bytes alts) =
  existsb (λ x, bool_decide (x = a)) alts.
Proof.
  induction alts as [|x alts IH]; [done|]. cbn [map existsb]. rewrite IH. f_equal.
  unfold sql_eq. apply bool_decide_ext. split; [by intros ->%(inj Address_Bytes)|by intros ->].
Qed.

(** Against NULL columns only wildcards match. *)
Lemma topics_where_null topics k :
  (length topics ≤ k)%nat → last topics ≠ Some [] →
  topics_where (map (map Hash_Bytes) topics) (replicate k None) =
  bool_decide (topics = []).
Proof.
  revert k. induction topics as [|alts topics IH]; intros [|k] Hk Hl; simpl in *; try lia; [done..|].
  destruct topics as [|alts' topics].
  - destruct alts as [|x alts]; [done|]. simpl. clear. by induction alts.
  - rewrite IH by (done || lia). by rewrite andb_false_r.
Qed.

Lemma topics_agree topics hs k :
  (length topics ≤ length hs + k)%nat → last topics ≠ Some [] →
  topics_where (map (map Hash_Bytes) topics) ((Some ∘ Hash_Bytes <$> hs) ++ replicate k None) =
  negb (length hs <? length topics)%nat && topics_match topics hs.
Proof.
  revert topics. induction hs as [|h hs IH]; intros topics Hk Hl; simpl in *.
  - rewrite topics_where_null by done. by destruct topics.
  - destruct topics as [|alts topics]; [done|]. simpl in *.
    rewrite IH; [|lia|by destruct topics].
    change (S (length hs) <? S (length topics))%nat with (length hs <? length topics)%nat.
    replace (match map Hash_Bytes alts with [] => true | _ :: _ => _ end) with
      (match alts with [] => true | _ :: _ => existsb (λ x, bool_decide (x = h)) alts end)
      by (destruct alts as [|x alts]; [done|]; symmetry; apply (existsb_hash (x :: alts))).
    destruct (length hs <? length topics)%nat; [by rewrite andb_false_r|done].
Qed.

Lemma collect_topics_shape (hs : list Hash) k :
  collect_topics ((Some ∘ Hash_Bytes <$> hs) ++ replicate k None) = Some ∘ Hash_Bytes <$> hs.
Proof. apply collect_topics_pad, Forall_fmap, Forall_true. intros h. simpl. eauto. Qed.

(** A row through the driver and the conversions. *)
Lemma row_types l a hs ts :
  row_shape l a hs → log_check l = true →
  let t := DomainLogToTypes (with_timestamp ts (toDomainLog (scan_log l))) in
  tl_Address t = a ∧ tl_Topics t = hs ∧ tl_BlockNumber t = u64 (lr_block_number l).
Proof.
  intros (Ha & _ & Ht) Hc. unfold log_check in Hc.
  repeat match type of Hc with _ && _ = true => apply andb_true_iff in Hc as [Hc ?] end.
  simpl. unfold scan_log. simpl.
  rewrite !(scan_blob_len 20 (lr_address l)), (scan_blob_len 32 (lr_topic0 l)),
    (scan_blob_len 32 (lr_topic1 l)), (scan_blob_len 32 (lr_topic2 l)),
    (scan_blob_len 32 (lr_topic3 l)) by (done || lia).
  rewrite Ha. simpl. split_and!; [apply BytesToAddress_Bytes| |done].
  change ((λ t, BytesToHash (slice_bytes t)) <$>
    collect_topics [lr_topic0 l; lr_topic1 l; lr_topic2 l; lr_topic3 l] = hs).
  rewrite Ht, collect_topics_shape, <-list_fmap_compose.
  rewrite <-(list_fmap_id hs) at 2. apply list_fmap_ext. intros i h _. simpl. apply BytesToHash_Bytes.
Qed.

(** The SQL condition of a query and the live check agree on a row. *)
Lemma where_check db crit head l a hs ts :
  plain_criteria crit → row_shape l a hs → log_check l = true → 0 ≤ lr_block_number l < 2 ^ 63 →
  log_where db (CriteriaToLogFilter crit head) l =
  filter_check (fc_FromBlock crit) (fc_ToBlock crit) (fc_Addresses crit) (fc_Topics crit)
    (DomainLogToTypes (with_timestamp ts (toDomainLog (scan_log l)))).
Proof.
  intros (Hh & (from & Hfrom & Hfr) & Hto & Hlen & Hlast) Hs Hc Hn.
  destruct (row_types l a hs ts Hs Hc) as (Ha & Ht & Hb). cbn zeta in Ha, Ht, Hb.
  assert (∀ n, 0 ≤ n < 2 ^ 63 → u64 n = n) as Hu by (intros n ?; apply u64_small; unfold is_u64; lia).
  unfold filter_check. rewrite Ha, Ht, Hb, (Hu _ Hn). destruct Hs as (Hsa & Hsl & Hst).
  unfold log_where, block_where, CriteriaToLogFilter.
  cbn [lf_BlockHash lf_FromBlock lf_ToBlock lf_Addresses lf_Topics].
  rewrite Hst, Hsa, topics_agree by (done || lia). rewrite Hh, Hfrom. cbn [option_map resolveFromBlock].
  destruct (Z.leb_spec 0 from); [|lia]. rewrite (Hu from) by lia. cbn [andb].
  assert (match fc_Addresses crit with [] => true | _ :: _ =>
      existsb (λ a0, bool_decide (a0 = a)) (fc_Addresses crit) end =
    match map Address_Bytes (fc_Addresses crit) with [] => true | addrs =>
      existsb (λ a0, sql_eq (Some (Address_Bytes a)) (Some a0)) addrs end) as ->.
  { rewrite <-existsb_address. by destruct (fc_Addresses crit). }
  rewrite !andb_assoc. do 3 f_equal. f_equal.
  - destruct (Z.leb_spec from (lr_block_number l)), (Z.ltb_spec (lr_block_number l) from); lia || done.
  - destruct Hto as [->|(n & -> & Hnn & Hne)]; [done|]. simpl.
    destruct (Z.eqb_spec n EarliestBlockNumber); [done|]. destruct (Z.ltb_spec n 0); [lia|].
    destruct (Z.leb_spec 0 n); [|lia]. rewrite (Hu n) by lia. simpl.
    destruct (Z.leb_spec (lr_block_number l) n), (Z.ltb_spec n (lr_block_number l)); lia || done.
Qed.

(** ** Filtering sorted rows *)

Lemma lex_le_antisym a b : lex_le a b = true → lex_le b a = true → a = b.
Proof.
  revert b. induction a as [|x a IH]; intros [|y b]; try done. rewrite !lex_le_cons.
  intros [?|[-> ?]] [?|[? ?]]; try lia. f_equal. auto.
Qed.

Lemma order_by_filter {A} (key : A → list Z) (P : A → Prop) `{∀ x, Decision (P x)} l :
  NoDup (key <$> l) → order_by key (filter P l) = filter P (order_by key l).
Proof.
  intros Hnd. apply (StronglySorted_unique_strong (by_key key)).
  - intros x y Hx Hy Hxy Hyx. rewrite elem_of_order_by in Hx.
    apply list_elem_of_filter in Hx as [_ Hx], Hy as [_ Hy]. rewrite elem_of_order_by in Hy.
    eapply (NoDup_key key); [exact Hnd|done..|]. by apply lex_le_antisym.
  - apply order_by_sorted.
  - apply StronglySorted_filter_list, order_by_sorted.
  - rewrite order_by_perm. by rewrite (order_by_perm key l).
Qed.

Definition any_log : LogFilter := {|
  lf_BlockHash := None; lf_FromBlock := None; lf_ToBlock := None; lf_Addresses := []; lf_Topics := []
|}.

Lemma logs_joined_filter db p :
  logs_joined db p = filter (λ r, p r.1 = true) (logs_joined db (λ _, true)).
Proof.
  unfold logs_joined. rewrite (filter_every (λ l : LogRow, true = true)) by done.
  induction (t_logs db) as [|l ls IH]; [done|]. rewrite bind_cons, filter_app, <-IH, filter_cons.
  case_decide as Hp.
  - rewrite bind_cons. f_equal. symmetry. apply filter_every.
    by intros r (b & ->%list_elem_of_singleton & _)%list_elem_of_bind.
  - rewrite (filter_none _ (filter _ _ ≫= _)); [done|].
    by intros r (b & ->%list_elem_of_singleton & _)%list_elem_of_bind.
Qed.

(** Each log row joins with exactly one block. *)
Lemma logs_joined_fst db : db_wf db → (logs_joined db (λ _, true)).*1 = t_logs db.
Proof.
  intros Hwf. unfold logs_joined. rewrite (filter_every (λ l : LogRow, true = true)) by done.
  pose proof (wf_logs_block db Hwf) as Hfk. induction (t_logs db) as [|l ls IH]; [done|].
  rewrite bind_cons, fmap_app, IH by (intros x Hx; by apply Hfk, list_elem_of_further).
  change (l :: ls) with ([l] ++ ls). f_equal.
  destruct (proj1 (has_block_true _ _) (Hfk l (list_elem_of_here _ _))) as (r & Hr & Hn).
  assert (filter (λ b, br_block_number b = lr_block_number l) (t_blocks db) = [r]) as ->; [|done].
  pose proof (wf_blocks_unique db Hwf) as Hu. clear -Hu Hr Hn.
  induction Hu as [|x bs Hs IH Hx]; [by apply not_elem_of_nil in Hr|].
  rewrite Forall_forall in Hx. apply elem_of_cons in Hr as [<-|Hr].
  - rewrite filter_cons_True by done. f_equal. apply filter_none. intros y Hy Hny.
    specialize (Hx y Hy). unfold block_conflict in Hx. rewrite Hn, Hny, Z.eqb_refl in Hx. done.
  - rewrite filter_cons_False; [by apply IH|]. intros Hnx. specialize (Hx r Hr).
    unfold block_conflict in Hx. rewrite Hn, Hnx, Z.eqb_refl in Hx. done.
Qed.

Lemma rows_known s :
  store_wf s → logs_shaped (st_db s) → ∀ r : LogRow * Z, r ∈ logs_joined (st_db s) (λ _, true) →
  (∃ a hs, row_shape r.1 a hs) ∧ log_check r.1 = true ∧ 0 ≤ lr_block_number r.1 < 2 ^ 63.
Proof.
  intros Hs [Hshape _] r Hr. pose proof (tip_range s Hs) as Htip.
  assert (r.1 ∈ t_logs (st_db s)) as Hin.
  { rewrite <-(logs_joined_fst _ (proj1 Hs)). by apply list_elem_of_fmap_2. }
  destruct (rows_below s Hs) as (_ & _ & Hbelow). rewrite Forall_forall in Hshape, Hbelow.
  destruct Hs as [Hwf _]. split; [by apply Hshape|].
  pose proof (wf_logs _ Hwf) as Hc. rewrite Forall_forall in Hc. split; [by apply Hc|].
  specialize (Hbelow _ Hin). simpl in Hbelow.
  destruct (proj1 (has_block_true _ _) (wf_logs_block _ Hwf _ Hin)) as (b & Hb & Hn).
  pose proof (wf_blocks _ Hwf) as Hbc. rewrite Forall_forall in Hbc.
  destruct (block_check_facts _ (Hbc b Hb)) as [? _]. lia.
Qed.

(** C30: the historical and the live path of a log filter agree.  On every store
    that satisfies the schema and whose log rows carry hash-shaped topics at
    distinct positions, the logs [GetLogs] returns for a filter's criteria
    ([eth_getFilterLogs]) are exactly those stored logs, in the same order,
    that the live matcher of [eth_getFilterChanges] accepts; for criteria with
    numeric bounds and no trailing wildcard. *)
Theorem history_matches_live s crit head
    (Hs : store_wf s) (Hshape : logs_shaped (st_db s)) (Hcrit : plain_criteria crit) :
  ∃ all sel, GetLogs s any_log = Ok all ∧
    GetLogs s (CriteriaToLogFilter crit head) = Ok sel ∧
    DomainLogToTypes <$> sel = matchLogs (DomainLogToTypes <$> all) crit.
Proof.
  set (read := λ r : LogRow * Z, with_timestamp r.2 (toDomainLog r.1)).
  set (key := λ r : LogRow * Z, [lr_block_number r.1; lr_tx_index r.1; lr_log_index r.1]).
  set (rows := logs_joined (st_db s) (λ _, true)).
  exists (read <$> scan_logs (order_by key rows)).
  exists (read <$> scan_logs (order_by key
    (logs_joined (st_db s) (log_where (st_db s) (CriteriaToLogFilter crit head))))).
  assert (bind_bounds (CriteriaToLogFilter crit head) = Ok tt) as Hbind.
  { destruct Hcrit as (Hh & (n & Hn & Hr) & Hto & _). unfold bind_bounds, CriteriaToLogFilter, bind_u64.
    simpl. rewrite Hh, Hn. simpl. destruct (Z.leb_spec 0 n); [|lia].
    assert (∀ m, 0 ≤ m < 2 ^ 63 → (u64 m <? 2 ^ 63) = true) as Hb.
    { intros m Hm. rewrite u64_small by (unfold is_u64; lia). apply Z.ltb_lt. lia. }
    rewrite (Hb n Hr). destruct Hto as [->|(m & -> & Hm & Hne)]; [done|]. simpl.
    destruct (Z.eqb_spec m EarliestBlockNumber); [done|]. destruct (Z.ltb_spec m 0); [lia|].
    by rewrite (Hb m Hm). }
  split_and!; [done|unfold GetLogs; by rewrite Hbind|].
  rewrite logs_joined_filter. fold rows. rewrite order_by_filter.
  2:{ destruct Hshape as [_ Hnd]. rewrite <-(logs_joined_fst _ (proj1 Hs)) in Hnd.
      by rewrite <-list_fmap_compose in Hnd. }
  unfold matchLogs, filterLogs, scan_logs. rewrite <-!list_fmap_compose, filter_fmap.
  f_equal. apply filter_ext_in. intros r Hr. rewrite elem_of_order_by in Hr.
  destruct (rows_known s Hs Hshape r Hr) as ((a & hs & Hsh) & Hc & Hn).
  by rewrite (where_check (st_db s) crit head r.1 a hs r.2).
Qed.
End history.

(** ** Concrete instances *)

Definition demo_tags : RpcTags := {| EarliestBlockNumber := -5 |}.

#[local] Existing Instances four_types four_txs demo_codec demo_wire demo_tags nil_driver.

Definition demo_api : FilterAPI :=
  (install (newFilterAPI 100 DefaultLimits) "x" 0 LogsSubscription no_criteria).2.

(** A delivery of three logs, another client's filter, a sweep, then the poll. *)
Lemma poll_exact_witness :
  let ops := [OpHandle demo_block; OpInstall "y" 3 BlocksSubscription no_criteria; OpSweep 50] in
  let r := GetFilterChanges (run_ops demo_api ops) "x" 60 in
  r.1 = Ok (Logs (logsFromBlock demo_block)) ∧ length (logsFromBlock demo_block) = 3%nat.
Proof.
  intros ops r. split; [|reflexivity].
  pose proof (poll_exact demo_api "x" {| f_typ := LogsSubscription; f_expiresAt := 100;
    f_hashes := []; f_crit := no_criteria; f_logs := [] |} ops 60) as H.
  subst r. destruct (GetFilterChanges (run_ops demo_api ops) "x" 60) as [r a'].
  destruct H as [Hr _]; [reflexivity|reflexivity|by split| |reflexivity|].
  - repeat constructor; simpl; done.
  - rewrite Hr. reflexivity.
Defined.

(** Two subscriptions of one connection, of which only one is allowed. *)
Lemma filter_caps_witness :
  let a := (SubscribeHeadsForConn (SubscribeHeadsForConn demo_api (Some "ws1") 0).2 (Some "ws1") 4).2 in
  conn_count a "ws1" = 1 ∧ Z.of_nat (size (fa_headSubs a)) = 1 ∧
  ∃ a', unsubscribeHeads a 1 = Done a'.
Proof.
  intros a. assert (rtc filter_step (newFilterAPI 100 DefaultLimits) a) as Hr.
  { eapply rtc_l; [exact (fs_op (newFilterAPI 100 DefaultLimits)
      (OpInstall "x" 0 LogsSubscription no_criteria))|].
    eapply rtc_l; [exact (fs_subscribe demo_api (Some "ws1") 0 eq_refl)|].
    apply rtc_once.
    exact (fs_subscribe (SubscribeHeadsForConn demo_api (Some "ws1") 0).2 (Some "ws1") 4 eq_refl). }
  destruct (filter_caps 100 DefaultLimits a Hr) as (_ & _ & _ & _ & _ & Hun & _).
  split; [vm_compute; reflexivity|]. split; [vm_compute; reflexivity|]. exact (Hun 1).
Defined.

(** A block with two logs of one address, the first with two topics. *)
Definition shaped_block : DBlock :=
  let h := Some (replicate 32 7) in
  let th := Some (replicate 32 8) in
  let log i topics := {|
    dl_BlockNumber := 7; dl_BlockHash := h; dl_TxHash := th; dl_TxIndex := 0; dl_LogIndex := i;
    dl_Address := Some (@Address_Bytes four_types true); dl_Topics := topics;
    dl_Data := Some [1]; dl_Timestamp := 0 |} in
  let topic x := Some (@Hash_Bytes four_types x) in
  {| db_BlockNumber := 7; db_BlockHash := h; db_ParentHash := Some (replicate 32 6);
     db_StateRoot := Some (replicate 32 1); db_Timestamp := 1007;
     db_Transactions := [ {|
       dt_TxHash := th; dt_BlockHash := h; dt_BlockNumber := 7; dt_TxIndex := 0;
       dt_RawTx := Some [1; 0]; dt_FromAddress := Some (replicate 20 5);
       dt_ToAddress := Some (replicate 20 6); dt_ContractAddress := None; dt_Status := 1;
       dt_FabricTxID := "f"; dt_FabricTxStatus := StatusCommitted; dt_GasUsed := 1;
       dt_CumulativeGasUsed := 1;
       dt_Logs := [log 0 [topic (true, false); topic (true, true)]; log 1 [topic (true, false)]] |} ] |}.

Definition topic_criteria (topics : list (list (bool * bool))) : FilterCriteria :=
  @Build_FilterCriteria four_types None (Some 0) (Some 9) [true] topics.

Lemma shaped_store_wf : store_wf (demo_store [shaped_block]) ∧ logs_shaped (st_db (demo_store [shaped_block])).
Proof.
  split; [|split].
  - apply reachable_wf, (demo_store_reachable [shaped_block]); [|vm_compute; reflexivity].
    repeat constructor; unfold is_u64; simpl; lia.
  - vm_compute t_logs. apply Forall_cons. split; [|apply Forall_singleton].
    + exists true, [(true, false); (true, true)]. split_and!; [reflexivity|simpl; lia|reflexivity].
    + exists true, [(true, false)]. split_and!; [reflexivity|simpl; lia|reflexivity].
  - apply (bool_decide_unpack _). vm_compute. exact I.
Qed.

Lemma history_matches_live_witness :
  ∃ all sel, GetLogs (demo_store [shaped_block]) any_log = Ok all ∧ length all = 2%nat ∧
    GetLogs (demo_store [shaped_block]) (CriteriaToLogFilter (topic_criteria [[]; [(true, true)]]) 0)
      = Ok sel ∧ length sel = 1%nat ∧
    DomainLogToTypes <$> sel =
      matchLogs (DomainLogToTypes <$> all) (topic_criteria [[]; [(true, true)]]).
Proof.
  destruct shaped_store_wf as [Hs Hl].
  destruct (history_matches_live (demo_store [shaped_block]) (topic_criteria [[]; [(true, true)]]) 0 Hs Hl)
    as (all & sel & Hall & Hsel & Heq).
  - split_and!; [reflexivity|exists 0; split; [reflexivity|lia]| |simpl; lia|done].
    right. exists 9. split_and!; [reflexivity|lia|lia|done].
  - assert (option_map length (match GetLogs (demo_store [shaped_block]) any_log with
      Ok l => Some l | Err _ => None end) = Some 2%nat) as H1 by (vm_compute; reflexivity).
    assert (option_map length (match GetLogs (demo_store [shaped_block])
      (CriteriaToLogFilter (topic_criteria [[]; [(true, true)]]) 0) with
      Ok l => Some l | Err _ => None end) = Some 1%nat) as H2 by (vm_compute; reflexivity).
    rewrite Hall in H1. rewrite Hsel in H2. exists all, sel.
    split_and!; [exact Hall|by injection H1|exact Hsel|by injection H2|exact Heq].
Defined.

(** With a trailing wildcard the two paths part: the query returns the log that
    has a single topic, the live matcher requires a second one. *)
Lemma trailing_wildcard_diverges :
  let crit := topic_criteria [[(true, false)]; []] in
  ∃ all sel, GetLogs (demo_store [shaped_block]) any_log = Ok all ∧
    GetLogs (demo_store [shaped_block]) (CriteriaToLogFilter crit 0) = Ok sel ∧
    length sel = 2%nat ∧ length (matchLogs (DomainLogToTypes <$> all) crit) = 1%nat.
Proof.
  intros crit. eexists _, _. split; [vm_compute; reflexivity|]. split; [vm_compute; reflexivity|].
  split; vm_compute; reflexivity.
Qed.
