(* ===== verification/DepGraph.v ===== *)
(** * DepGraph: the queue over the committer's dependency manager

    gateway/core/depgraph_queue.go and gateway/core/depgraph_adapter.go.  The
    queue endorses each transaction for its read-write set, hands the set to the
    committer's dependency manager, serves what the manager reports as free of
    clashes and tells it what has finished.

    Each method that holds the queue's lock is one function on the state; the
    channels are fields, oldest element first.  Time stamps feed metrics only
    and are left out, as is the panic of debug builds after a logged error. *)

From Stdlib Require Import ZArith Lia Ascii.
From stdpp Require Import base numbers list gmap sets strings.
From S2P Require Import Prelude Blocks Codec Geth Domain TxQueues.

Local Open Scope Z_scope.
Local Open Scope go_scope.

(** ** Messages *)

(** [applicationpb.Tx], as far as the queue reads and builds it. *)
Record ReadWrite := { rw_Key : byte_slice; rw_Value : option byte_slice }.

Record TxNamespace := {
  NsId : string;
  ReadsOnly : list byte_slice;        (* the key of each *)
  ReadWrites : list ReadWrite;
  BlindWrites : list byte_slice       (* the key of each *)
}.

Record PbTx := { Namespaces : list TxNamespace }.

#[export] Instance ReadWrite_eq_dec : EqDecision ReadWrite.
Proof. solve_decision. Defined.

#[export] Instance TxNamespace_eq_dec : EqDecision TxNamespace.
Proof. solve_decision. Defined.

#[export] Instance PbTx_eq_dec : EqDecision PbTx.
Proof. solve_decision. Defined.

(** Fabric's [kvrwset.KVRWSet] and [rwset.TxReadWriteSet]. *)
Record KVRWSet := { kv_Reads : list string; kv_Writes : list (string * option byte_slice) }.

Record NsRwset := { nr_Namespace : string; nr_Rwset : byte_slice }.

(** [servicepb.TxWithRef] and [dependencygraph.TransactionBatch]. *)
Record TxWithRef := { tr_TxId : string; tr_Content : PbTx }.

#[export] Instance TxWithRef_eq_dec : EqDecision TxWithRef.
Proof. solve_decision. Defined.

Record TransactionBatch := { tb_ID : Z; tb_Txs : list TxWithRef }.

(** The SDK's endorsement with the payloads of its responses, the manager's
    nodes, and the decoders of protobuf and [protoutil]. *)
Class DepTypes := {
  Endorsement : Type;
  Endorsement_zero : Endorsement;
  Responses : Endorsement → list byte_slice;
  Node : Type;
  Node_eq_dec :: EqDecision Node;
  Node_Tx : Node → TxWithRef;
  Unmarshal_Tx : byte_slice → option PbTx;
  UnmarshalProposalResponsePayload : byte_slice → option byte_slice;   (* its Extension *)
  UnmarshalChaincodeAction : byte_slice → option byte_slice;           (* its Results *)
  Unmarshal_TxReadWriteSet : byte_slice → option (list NsRwset);
  Unmarshal_KVRWSet : byte_slice → option KVRWSet
}.

(** ** depgraph_adapter.go *)

Inductive content_error :=
| ErrNoReadWriteSet
| UnmarshalReadWriteSet
| UnmarshalAction
| UnmarshalTxRws
| UnmarshalKvRws (ns : string).

Section adapter.
Context `{D : DepTypes}.

(** One namespace of a classic Fabric endorsement; one without keys is skipped. *)
Definition classic_namespace (ns : NsRwset) : result content_error (list TxNamespace) :=
  match Unmarshal_KVRWSet (nr_Rwset ns) with
  | None => Err (UnmarshalKvRws (nr_Namespace ns))
  | Some kvRws =>
      let rws :=
        ((λ k, {| rw_Key := str_bytes k; rw_Value := None |}) <$> kv_Reads kvRws) ++
        ((λ w, {| rw_Key := str_bytes w.1; rw_Value := w.2 |}) <$> kv_Writes kvRws) in
      Ok (match rws with
          | [] => []
          | _ => [{| NsId := nr_Namespace ns; ReadsOnly := []; ReadWrites := rws;
                     BlindWrites := [] |}]
          end)
  end.

Fixpoint classic_namespaces (l : list NsRwset) : result content_error (list TxNamespace) :=
  match l with
  | [] => Ok []
  | ns :: l =>
      n ← classic_namespace ns;
      rest ← classic_namespaces l;
      mret (n ++ rest)
  end.

(** The fall-back to the payload of a classic Fabric endorsement. *)
Definition classic_content (payload : byte_slice) : result content_error PbTx :=
  match UnmarshalProposalResponsePayload payload with
  | None => Err UnmarshalReadWriteSet
  | Some extension =>
      match UnmarshalChaincodeAction extension with
      | None => Err UnmarshalAction
      | Some results =>
          match Unmarshal_TxReadWriteSet results with
          | None => Err UnmarshalTxRws
          | Some nsRwset =>
              namespaces ← classic_namespaces nsRwset;
              match namespaces with
              | [] => Err ErrNoReadWriteSet
              | _ => mret {| Namespaces := namespaces |}
              end
          end
      end
  end.

Definition txContent (e : Endorsement) : result content_error PbTx :=
  match Responses e with
  | [] | [] :: _ => Err ErrNoReadWriteSet
  | payload :: _ =>
      match Unmarshal_Tx payload with
      | Some tx =>
          if decide (Namespaces tx = []) then classic_content payload else Ok tx
      | None => classic_content payload
      end
  end.
End adapter.

Definition stateKey (ns : string) (key : byte_slice) : string :=
  ns +:+ String Ascii.zero (bytes_str key).

Definition namespace_keys (acc : list string * list string) (ns : TxNamespace)
    : list string * list string :=
  let rw := (λ r, stateKey (NsId ns) (rw_Key r)) <$> ReadWrites ns in
  (acc.1 ++ (stateKey (NsId ns) <$> ReadsOnly ns) ++ rw,
   acc.2 ++ rw ++ (stateKey (NsId ns) <$> BlindWrites ns)).

Definition readWriteKeys (tx : PbTx) : list string * list string :=
  foldl namespace_keys ([], []) (Namespaces tx).

(** ** Configuration *)

(** [config.DepGraphQueue]. *)
Record DepGraphConfig := {
  cfg_EndorseWorkers : Z;
  cfg_ChanSize : Z;
  cfg_WaitingTxsLimit : Z;
  cfg_BatchThreshold : Z;
  cfg_BatchTimeout : Z
}.

Definition defaultEndorseWorkers : Z := 8.
Definition defaultChanSize : Z := 1024.
Definition defaultWaitingTxsLimit : Z := Z.shiftl 1 16.
Definition defaultBatchThreshold : Z := 64.
Definition defaultBatchTimeout : Z := 10 * 1000000.

Definition positiveOrDefault (override def : Z) : Z :=
  if override <=? 0 then def else override.

(** How many blocks an endorsement can be reused across. *)
Definition reuseWindow : Z := 64.

Section queue.
Context {G : GethTypes} {T : EthTxTypes G} {D : DepTypes}.

(** ** Transaction references *)

Definition txRefID (hash : Hash) : string := Hash_Hex hash.

Definition hashFromTxRefID (id : string) : option Hash :=
  if negb (Nat.eqb (String.length id) (2 + 2 * 32))
     || bool_decide (String.substring 0 2 id ≠ "0x")
  then None
  else BytesToHash <$> hex_DecodeString (String.substring 2 (String.length id - 2) id).

(** ** State *)

Record trackedTx := {
  tt_tx : EthTx;
  tt_node : option Node;
  tt_end : Endorsement;
  tt_endorsed : bool;
  tt_readSeq : Z;
  tt_reads : list string;
  tt_writes : list string
}.

(** [dq_pending] is the batcher's own list; [dq_canceled] is the context.  The
    manager reads [dq_incoming] and [dq_validated] and writes [dq_outgoing]. *)
Record DepGraphQueue := {
  dq_incoming : list TransactionBatch;
  dq_outgoing : list (list Node);
  dq_validated : list (list Node);
  dq_admitted : list EthTx;
  dq_endorsed : list TxWithRef;
  dq_pending : list TxWithRef;
  dq_batchID : Z;
  dq_endorseWorkers : Z;
  dq_batchThreshold : Z;
  dq_batchTimeout : Z;
  dq_waitingTxsLimit : Z;
  dq_chanSize : Z;
  dq_ready : list EthTx;
  dq_tracked : gmap Hash trackedTx;
  dq_done : bool;
  dq_commitSeq : Z;
  dq_lastWrite : gmap string Z;
  dq_recent : list (list string);
  dq_total : Z;
  dq_invalid : Z;
  dq_canceled : bool
}.

Definition NewDepGraphQueue (cfg : option DepGraphConfig) : DepGraphQueue :=
  let c := default {| cfg_EndorseWorkers := 0; cfg_ChanSize := 0; cfg_WaitingTxsLimit := 0;
                      cfg_BatchThreshold := 0; cfg_BatchTimeout := 0 |} cfg in
  {| dq_incoming := []; dq_outgoing := []; dq_validated := []; dq_admitted := [];
     dq_endorsed := []; dq_pending := []; dq_batchID := 0;
     dq_endorseWorkers := positiveOrDefault (cfg_EndorseWorkers c) defaultEndorseWorkers;
     dq_batchThreshold := positiveOrDefault (cfg_BatchThreshold c) defaultBatchThreshold;
     dq_batchTimeout := positiveOrDefault (cfg_BatchTimeout c) defaultBatchTimeout;
     dq_waitingTxsLimit := positiveOrDefault (cfg_WaitingTxsLimit c) defaultWaitingTxsLimit;
     dq_chanSize := positiveOrDefault (cfg_ChanSize c) defaultChanSize;
     dq_ready := []; dq_tracked := ∅; dq_done := false; dq_commitSeq := 0;
     dq_lastWrite := ∅; dq_recent := replicate (Z.to_nat reuseWindow) [];
     dq_total := 0; dq_invalid := 0; dq_canceled := false |}.

(** Field updates. *)
Definition set_channels (i : list TransactionBatch) (o v : list (list Node)) (q : DepGraphQueue) : DepGraphQueue :=
  {| dq_incoming := i; dq_outgoing := o; dq_validated := v; dq_admitted := dq_admitted q;
     dq_endorsed := dq_endorsed q; dq_pending := dq_pending q; dq_batchID := dq_batchID q;
     dq_endorseWorkers := dq_endorseWorkers q; dq_batchThreshold := dq_batchThreshold q;
     dq_batchTimeout := dq_batchTimeout q; dq_waitingTxsLimit := dq_waitingTxsLimit q;
     dq_chanSize := dq_chanSize q; dq_ready := dq_ready q; dq_tracked := dq_tracked q;
     dq_done := dq_done q; dq_commitSeq := dq_commitSeq q; dq_lastWrite := dq_lastWrite q;
     dq_recent := dq_recent q; dq_total := dq_total q; dq_invalid := dq_invalid q;
     dq_canceled := dq_canceled q |}.

Definition set_pipeline (a : list EthTx) (e p : list TxWithRef) (n : Z) (q : DepGraphQueue) : DepGraphQueue :=
  {| dq_incoming := dq_incoming q; dq_outgoing := dq_outgoing q; dq_validated := dq_validated q;
     dq_admitted := a; dq_endorsed := e; dq_pending := p; dq_batchID := n;
     dq_endorseWorkers := dq_endorseWorkers q; dq_batchThreshold := dq_batchThreshold q;
     dq_batchTimeout := dq_batchTimeout q; dq_waitingTxsLimit := dq_waitingTxsLimit q;
     dq_chanSize := dq_chanSize q; dq_ready := dq_ready q; dq_tracked := dq_tracked q;
     dq_done := dq_done q; dq_commitSeq := dq_commitSeq q; dq_lastWrite := dq_lastWrite q;
     dq_recent := dq_recent q; dq_total := dq_total q; dq_invalid := dq_invalid q;
     dq_canceled := dq_canceled q |}.

Definition set_tracked (r : list EthTx) (m : gmap Hash trackedTx) (q : DepGraphQueue) : DepGraphQueue :=
  {| dq_incoming := dq_incoming q; dq_outgoing := dq_outgoing q; dq_validated := dq_validated q;
     dq_admitted := dq_admitted q; dq_endorsed := dq_endorsed q; dq_pending := dq_pending q;
     dq_batchID := dq_batchID q; dq_endorseWorkers := dq_endorseWorkers q;
     dq_batchThreshold := dq_batchThreshold q; dq_batchTimeout := dq_batchTimeout q;
     dq_waitingTxsLimit := dq_waitingTxsLimit q; dq_chanSize := dq_chanSize q; dq_ready := r;
     dq_tracked := m; dq_done := dq_done q; dq_commitSeq := dq_commitSeq q;
     dq_lastWrite := dq_lastWrite q; dq_recent := dq_recent q; dq_total := dq_total q;
     dq_invalid := dq_invalid q; dq_canceled := dq_canceled q |}.

Definition set_commits (seq : Z) (lw : gmap string Z) (rc : list (list string)) (q : DepGraphQueue) : DepGraphQueue :=
  {| dq_incoming := dq_incoming q; dq_outgoing := dq_outgoing q; dq_validated := dq_validated q;
     dq_admitted := dq_admitted q; dq_endorsed := dq_endorsed q; dq_pending := dq_pending q;
     dq_batchID := dq_batchID q; dq_endorseWorkers := dq_endorseWorkers q;
     dq_batchThreshold := dq_batchThreshold q; dq_batchTimeout := dq_batchTimeout q;
     dq_waitingTxsLimit := dq_waitingTxsLimit q; dq_chanSize := dq_chanSize q;
     dq_ready := dq_ready q; dq_tracked := dq_tracked q; dq_done := dq_done q;
     dq_commitSeq := seq; dq_lastWrite := lw; dq_recent := rc; dq_total := dq_total q;
     dq_invalid := dq_invalid q; dq_canceled := dq_canceled q |}.

Definition set_stats (t i : Z) (q : DepGraphQueue) : DepGraphQueue :=
  {| dq_incoming := dq_incoming q; dq_outgoing := dq_outgoing q; dq_validated := dq_validated q;
     dq_admitted := dq_admitted q; dq_endorsed := dq_endorsed q; dq_pending := dq_pending q;
     dq_batchID := dq_batchID q; dq_endorseWorkers := dq_endorseWorkers q;
     dq_batchThreshold := dq_batchThreshold q; dq_batchTimeout := dq_batchTimeout q;
     dq_waitingTxsLimit := dq_waitingTxsLimit q; dq_chanSize := dq_chanSize q;
     dq_ready := dq_ready q; dq_tracked := dq_tracked q; dq_done := dq_done q;
     dq_commitSeq := dq_commitSeq q; dq_lastWrite := dq_lastWrite q; dq_recent := dq_recent q;
     dq_total := t; dq_invalid := i; dq_canceled := dq_canceled q |}.

Definition set_closed (q : DepGraphQueue) : DepGraphQueue :=
  {| dq_incoming := dq_incoming q; dq_outgoing := dq_outgoing q; dq_validated := dq_validated q;
     dq_admitted := dq_admitted q; dq_endorsed := dq_endorsed q; dq_pending := dq_pending q;
     dq_batchID := dq_batchID q; dq_endorseWorkers := dq_endorseWorkers q;
     dq_batchThreshold := dq_batchThreshold q; dq_batchTimeout := dq_batchTimeout q;
     dq_waitingTxsLimit := dq_waitingTxsLimit q; dq_chanSize := dq_chanSize q;
     dq_ready := dq_ready q; dq_tracked := dq_tracked q; dq_done := true;
     dq_commitSeq := dq_commitSeq q; dq_lastWrite := dq_lastWrite q; dq_recent := dq_recent q;
     dq_total := dq_total q; dq_invalid := dq_invalid q; dq_canceled := true |}.

(** ** Admission *)

Inductive depgraph_error := ErrQueueClosed | ErrAlreadyPending | ErrQueueFull.

Definition fresh_tracked (tx : EthTx) : trackedTx := {|
  tt_tx := tx; tt_node := None; tt_end := Endorsement_zero; tt_endorsed := false;
  tt_readSeq := 0; tt_reads := []; tt_writes := [] |}.

Definition dg_Enqueue (tx : EthTx) (q : DepGraphQueue) : option depgraph_error * DepGraphQueue :=
  let hash := Tx_Hash tx in
  if dq_done q then (Some ErrQueueClosed, q)
  else if decide (is_Some (dq_tracked q !! hash)) then (Some ErrAlreadyPending, q)
  else if dq_chanSize q <=? Z.of_nat (length (dq_admitted q)) then (Some ErrQueueFull, q)
  else (None,
        set_tracked (dq_ready q) (<[hash := fresh_tracked tx]> (dq_tracked q))
          (set_pipeline (dq_admitted q ++ [tx]) (dq_endorsed q) (dq_pending q) (dq_batchID q) q)).

(** ** The endorse workers *)

Definition dg_drop (hash : Hash) (q : DepGraphQueue) : DepGraphQueue :=
  set_tracked (dq_ready q) (delete hash (dq_tracked q)) q.

Definition keepEndorsement (hash : Hash) (seq : Z) (e : Endorsement) (content : PbTx)
    (q : DepGraphQueue) : DepGraphQueue :=
  let '(reads, writes) := readWriteKeys content in
  match dq_tracked q !! hash with
  | Some t =>
      set_tracked (dq_ready q)
        (<[hash := {| tt_tx := tt_tx t; tt_node := tt_node t; tt_end := e; tt_endorsed := true;
                      tt_readSeq := seq; tt_reads := reads; tt_writes := writes |}]>
           (dq_tracked q)) q
  | None => q
  end.

(** [submitToManager] once the endorser has answered; [seq] was read before it
    was called.  The transaction to send on, if there is one. *)
Definition submit_answered (tx : EthTx) (seq : Z) (answer : option Endorsement)
    (q : DepGraphQueue) : option TxWithRef * DepGraphQueue :=
  let hash := Tx_Hash tx in
  match answer with
  | None => (None, dg_drop hash q)
  | Some e =>
      match txContent e with
      | Err _ => (None, dg_drop hash q)
      | Ok content =>
          (Some {| tr_TxId := txRefID hash; tr_Content := content |},
           keepEndorsement hash seq e content q)
      end
  end.

(** Its last part: the send, or giving up when the context is done. *)
Definition submit_send (w : TxWithRef) (q : DepGraphQueue) : DepGraphQueue :=
  set_pipeline (dq_admitted q) (dq_endorsed q ++ [w]) (dq_pending q) (dq_batchID q) q.

(** ** The batcher *)

(** The batcher takes a transaction; at the threshold it flushes. *)
Definition batch_take (w : TxWithRef) (rest : list TxWithRef) (q : DepGraphQueue)
    : DepGraphQueue :=
  set_pipeline (dq_admitted q) rest (dq_pending q ++ [w]) (dq_batchID q) q.

(** [sent]: the batch went into the channel, rather than being given up because
    the context is done. *)
Definition flush (sent : bool) (q : DepGraphQueue) : DepGraphQueue :=
  match dq_pending q with
  | [] => q
  | pending =>
      let batchID := u64 (dq_batchID q + 1) in
      let q := set_pipeline (dq_admitted q) (dq_endorsed q) [] batchID q in
      if sent
      then set_channels (dq_incoming q ++ [{| tb_ID := batchID; tb_Txs := pending |}])
             (dq_outgoing q) (dq_validated q) q
      else q
  end.

(** ** Released transactions *)

(** One node of [markReady]: the nodes to hand back and the queue. *)
Definition mark_node (acc : list Node * DepGraphQueue) (node : Node)
    : list Node * DepGraphQueue :=
  let '(orphans, q) := acc in
  match hashFromTxRefID (tr_TxId (Node_Tx node)) with
  | None => (orphans ++ [node], q)
  | Some hash =>
      match dq_tracked q !! hash with
      | None => (orphans ++ [node], q)
      | Some t =>
          (orphans,
           set_tracked (dq_ready q ++ [tt_tx t])
             (<[hash := {| tt_tx := tt_tx t; tt_node := Some node; tt_end := tt_end t;
                           tt_endorsed := tt_endorsed t; tt_readSeq := tt_readSeq t;
                           tt_reads := tt_reads t; tt_writes := tt_writes t |}]>
                (dq_tracked q)) q)
      end
  end.

Definition markReady (nodes : list Node) (q : DepGraphQueue) : list Node * DepGraphQueue :=
  foldl mark_node ([], q) nodes.

Definition dg_Dequeue (q : DepGraphQueue) : dequeued EthTx * DepGraphQueue :=
  match dq_ready q with
  | [] => (if dq_done q then DqClosed else DqBlocked, q)
  | tx :: ready => (DqTx tx, set_tracked ready (dq_tracked q) q)
  end.

Definition dg_IsPending (txHash : Hash) (q : DepGraphQueue) : option EthTx :=
  tt_tx <$> dq_tracked q !! txHash.

Definition dg_InFlight (q : DepGraphQueue) : Z := Z.of_nat (size (dq_tracked q)).

(** ** Finished transactions *)

Definition take_node (acc : list Node * DepGraphQueue) (hash : Hash)
    : list Node * DepGraphQueue :=
  let '(nodes, q) := acc in
  match dq_tracked q !! hash with
  | None => acc
  | Some t =>
      (match tt_node t with Some node => nodes ++ [node] | None => nodes end,
       set_tracked (dq_ready q) (delete hash (dq_tracked q)) q)
  end.

(** The nodes to feed back with [release]. *)
Definition takeNodes (hashes : list Hash) (q : DepGraphQueue) : list Node * DepGraphQueue :=
  foldl take_node ([], q) hashes.

Definition dg_Complete (hash : Hash) (q : DepGraphQueue) : list Node * DepGraphQueue :=
  takeNodes [hash] q.

(** [release], once the channel has room. *)
Definition release (nodes : list Node) (q : DepGraphQueue) : DepGraphQueue :=
  match nodes with
  | [] => q
  | _ => set_channels (dq_incoming q) (dq_outgoing q) (dq_validated q ++ [nodes]) q
  end.

(** The keys of the block that falls out of the window lose their entry, unless a
    later block wrote them. *)
Definition expire_writes (seq : Z) (slot : list string) (lw : gmap string Z) : gmap string Z :=
  foldl (λ lw k, if default 0 (lw !! k) =? u64 (seq - reuseWindow) then delete k lw else lw)
    lw slot.

(** The keys a valid, tracked transaction wrote. *)
Definition committed_writes (tracked : gmap Hash trackedTx) (tx : DTransaction) : list string :=
  if negb (status_Valid (dt_FabricTxStatus tx)) then []
  else match tracked !! BytesToHash (slice_bytes (dt_TxHash tx)) with
       | None => []
       | Some t => tt_writes t
       end.

Definition recordCommitted (txs : list DTransaction) (q : DepGraphQueue) : DepGraphQueue :=
  let seq := u64 (dq_commitSeq q + 1) in
  let i := Z.to_nat (seq mod reuseWindow) in
  let lw := expire_writes seq (default [] (dq_recent q !! i)) (dq_lastWrite q) in
  let '(lw, slot) :=
    foldl (λ acc tx, foldl (λ acc k, (<[k := seq]> acc.1, acc.2 ++ [k])) acc
                       (committed_writes (dq_tracked q) tx)) (lw, []) txs in
  set_commits seq lw (<[i := slot]> (dq_recent q)) q.

Definition dg_Handle (block : DBlock) (q : DepGraphQueue) : list Node * DepGraphQueue :=
  match db_Transactions block with
  | [] => ([], q)
  | txs =>
      let q := foldl (λ q tx, set_stats (dq_total q + 1)
                 (if dt_Status tx =? 0 then dq_invalid q + 1 else dq_invalid q) q) q txs in
      let hashes := (λ tx, BytesToHash (slice_bytes (dt_TxHash tx))) <$> txs in
      takeNodes hashes (recordCommitted txs q)
  end.

(** ** Reuse of an endorsement *)

Definition ReusableEndorsement (hash : Hash) (q : DepGraphQueue)
    : option Endorsement * DepGraphQueue :=
  match dq_tracked q !! hash with
  | None => (None, q)
  | Some t =>
      if negb (tt_endorsed t) then (None, q)
      else
        let q' := set_tracked (dq_ready q)
          (<[hash := {| tt_tx := tt_tx t; tt_node := tt_node t; tt_end := Endorsement_zero;
                        tt_endorsed := false; tt_readSeq := tt_readSeq t;
                        tt_reads := tt_reads t; tt_writes := tt_writes t |}]>
             (dq_tracked q)) q in
        if reuseWindow <=? u64 (dq_commitSeq q - tt_readSeq t) then (None, q')
        else if existsb (λ k, tt_readSeq t <? default 0 (dq_lastWrite q !! k)) (tt_reads t)
        then (None, q')
        else (Some (tt_end t), q')
  end.

(** [shutdown], which [Close] runs once. *)
Definition shutdown (q : DepGraphQueue) : DepGraphQueue := set_closed q.

Definition dg_Stats (q : DepGraphQueue) : Z * Z * Z * Z := (dq_total q, dq_invalid q, 0, 0).
End queue.
