(* ===== verification/DepGraphProps.v ===== *)
(** * DepGraphProps: what the dependency-graph queue guarantees

    The queue runs beside its endorse workers, its batcher and the dependency
    manager; [step] interleaves their moves, with the manager's documented
    behaviour as guards: it takes batches in the order of their ids, releases a
    transaction only while it clashes with none it has released and not got
    back, and never releases a node twice.  The theorems hold of every reachable
    state. *)

From Stdlib Require Import ZArith Lia Ascii.
From stdpp Require Import base numbers list gmap sets strings relations.
From S2P Require Import Prelude Blocks Codec Geth Domain TxQueues DepGraph.

Local Open Scope Z_scope.

(** A hash prints as "0x" and the hexadecimal digits of its bytes. *)
Class HexLaws (G : GethTypes) := {
  Hash_Hex_spec h : Hash_Hex h = "0x" +:+ hex_EncodeToString (Hash_Bytes h);
  Hash_Bytes_range h : Forall (λ b, 0 ≤ b < 256) (Hash_Bytes h)
}.

Section system.
Context {G : GethTypes} {T : EthTxTypes G} {D : DepTypes}.

(** ** The system *)

(** A worker in [submitToManager]: before it reads [commitSeq], while the
    endorser runs, and while it sends. *)
Inductive task :=
| Received (tx : EthTx)
| Endorsing (tx : EthTx) (seq : Z)
| Sending (hash : Hash) (w : TxWithRef).

(** [s_releasing]: nodes on their way back to the manager.  [m_next], [m_waiting]
    and [m_out]: the manager's last batch, the transactions it holds back, and
    the nodes it has released and not got back.  [g_hist]: for each counted
    block, the keys its valid tracked transactions wrote. *)
Record sys := {
  s_q : DepGraphQueue;
  s_tasks : list task;
  s_releasing : list (list Node);
  m_next : Z;
  m_waiting : list TxWithRef;
  m_out : list Node;
  g_hist : list (list string)
}.

Definition with_q (q : DepGraphQueue) (s : sys) : sys := {|
  s_q := q; s_tasks := s_tasks s; s_releasing := s_releasing s; m_next := m_next s;
  m_waiting := m_waiting s; m_out := m_out s; g_hist := g_hist s |}.

Definition with_tasks (q : DepGraphQueue) (l : list task) (s : sys) : sys := {|
  s_q := q; s_tasks := l; s_releasing := s_releasing s; m_next := m_next s;
  m_waiting := m_waiting s; m_out := m_out s; g_hist := g_hist s |}.

Definition with_releasing (q : DepGraphQueue) (l : list (list Node)) (s : sys) : sys := {|
  s_q := q; s_tasks := s_tasks s; s_releasing := l; m_next := m_next s;
  m_waiting := m_waiting s; m_out := m_out s; g_hist := g_hist s |}.

Definition with_manager (q : DepGraphQueue) (n : Z) (w : list TxWithRef) (o : list Node)
    (s : sys) : sys := {|
  s_q := q; s_tasks := s_tasks s; s_releasing := s_releasing s; m_next := n;
  m_waiting := w; m_out := o; g_hist := g_hist s |}.

Definition with_hist (q : DepGraphQueue) (l : list (list Node)) (h : list (list string))
    (s : sys) : sys := {|
  s_q := q; s_tasks := s_tasks s; s_releasing := l; m_next := m_next s;
  m_waiting := m_waiting s; m_out := m_out s; g_hist := h |}.

(** Two transactions clash when one writes a key the other reads or writes. *)
Definition clash (c d : PbTx) : Prop :=
  ∃ k, (k ∈ (readWriteKeys c).2 ∧ (k ∈ (readWriteKeys d).1 ∨ k ∈ (readWriteKeys d).2)) ∨
       (k ∈ (readWriteKeys d).2 ∧ k ∈ (readWriteKeys c).1).

Definition node_clash (n m : Node) : Prop :=
  clash (tr_Content (Node_Tx n)) (tr_Content (Node_Tx m)).

Definition clash_free (l : list Node) : Prop :=
  NoDup l ∧ ∀ n m, n ∈ l → m ∈ l → n ≠ m → ¬ node_clash n m.

Definition has_room {A} (q : DepGraphQueue) (l : list A) : Prop :=
  Z.of_nat (length l) < dq_chanSize q.

(** What one counted block wrote. *)
Definition block_keys (q : DepGraphQueue) (txs : list DTransaction) : list string :=
  concat (committed_writes (dq_tracked q) <$> txs).

Definition add_hist (q : DepGraphQueue) (txs : list DTransaction) (h : list (list string))
    : list (list string) :=
  match txs with [] => h | _ => h ++ [block_keys q txs] end.

(** ** Transactions on their way to the ready list

    The hashes of the transactions between [Enqueue] and [markReady]. *)

Definition ref_hash (w : TxWithRef) : option Hash := hashFromTxRefID (tr_TxId w).

Definition node_hash (n : Node) : option Hash := ref_hash (Node_Tx n).

Definition task_hash (t : task) : option Hash :=
  match t with
  | Received tx | Endorsing tx _ => Some (Tx_Hash tx)
  | Sending _ w => ref_hash w
  end.

Definition on_the_way (s : sys) : list Hash :=
  (Tx_Hash <$> dq_admitted (s_q s)) ++ omap task_hash (s_tasks s) ++
  omap ref_hash (dq_endorsed (s_q s)) ++ omap ref_hash (dq_pending (s_q s)) ++
  omap ref_hash (concat (tb_Txs <$> dq_incoming (s_q s))) ++ omap ref_hash (m_waiting s) ++
  omap node_hash (concat (dq_outgoing (s_q s))).

(** Whether a transaction may be submitted while an earlier copy of it is still
    on its way. *)
Context (resubmit : bool).

(** Who moves: a caller of the queue's methods, or the queue's goroutines and the
    manager. *)
Inductive actor := Caller | Worker.

#[global] Instance actor_eq_dec : EqDecision actor.
Proof. solve_decision. Defined.

Inductive step : actor → sys → sys → Prop :=
| st_enqueue s tx :
    (resubmit = false → Tx_Hash tx ∉ on_the_way s) →
    step Caller s (with_q (dg_Enqueue tx (s_q s)).2 s)
| st_receive s tx rest :
    dq_admitted (s_q s) = tx :: rest →
    Z.of_nat (length (s_tasks s)) < dq_endorseWorkers (s_q s) →
    step Worker s (with_tasks
      (set_pipeline rest (dq_endorsed (s_q s)) (dq_pending (s_q s)) (dq_batchID (s_q s)) (s_q s))
      (s_tasks s ++ [Received tx]) s)
| st_load s tx l1 l2 :
    s_tasks s = l1 ++ Received tx :: l2 →
    step Worker s (with_tasks (s_q s) (l1 ++ Endorsing tx (dq_commitSeq (s_q s)) :: l2) s)
| st_answer s tx seq l1 l2 answer w q :
    s_tasks s = l1 ++ Endorsing tx seq :: l2 →
    submit_answered tx seq answer (s_q s) = (w, q) →
    step Worker s (with_tasks q
      (l1 ++ match w with Some w => [Sending (Tx_Hash tx) w] | None => [] end ++ l2) s)
| st_send s h w l1 l2 :
    s_tasks s = l1 ++ Sending h w :: l2 → has_room (s_q s) (dq_endorsed (s_q s)) →
    step Worker s (with_tasks (submit_send w (s_q s)) (l1 ++ l2) s)
| st_send_canceled s h w l1 l2 :
    s_tasks s = l1 ++ Sending h w :: l2 → dq_canceled (s_q s) = true →
    step Worker s (with_tasks (dg_drop h (s_q s)) (l1 ++ l2) s)
| st_batch_take s w rest :
    dq_endorsed (s_q s) = w :: rest →
    Z.of_nat (length (dq_pending (s_q s))) < dq_batchThreshold (s_q s) →
    step Worker s (with_q (batch_take w rest (s_q s)) s)
| st_flush s :
    has_room (s_q s) (dq_incoming (s_q s)) → step Worker s (with_q (flush true (s_q s)) s)
| st_flush_canceled s :
    dq_canceled (s_q s) = true → step Worker s (with_q (flush false (s_q s)) s)
| st_mark s nodes rest orphans q :
    dq_outgoing (s_q s) = nodes :: rest →
    markReady nodes (set_channels (dq_incoming (s_q s)) rest (dq_validated (s_q s)) (s_q s)) =
      (orphans, q) →
    step Worker s (with_releasing q (s_releasing s ++ [orphans]) s)
| st_dequeue s : step Caller s (with_q (dg_Dequeue (s_q s)).2 s)
| st_complete s h nodes q :
    dg_Complete h (s_q s) = (nodes, q) →
    step Caller s (with_releasing q (s_releasing s ++ [nodes]) s)
| st_handle s block nodes q :
    dg_Handle block (s_q s) = (nodes, q) →
    step Caller s (with_hist q (s_releasing s ++ [nodes])
      (add_hist (s_q s) (db_Transactions block) (g_hist s)) s)
| st_release s nodes l1 l2 :
    s_releasing s = l1 ++ nodes :: l2 → has_room (s_q s) (dq_validated (s_q s)) →
    step Worker s (with_releasing (release nodes (s_q s)) (l1 ++ l2) s)
| st_release_canceled s nodes l1 l2 :
    s_releasing s = l1 ++ nodes :: l2 → dq_canceled (s_q s) = true →
    step Worker s (with_releasing (s_q s) (l1 ++ l2) s)
| st_reuse s h : step Caller s (with_q (ReusableEndorsement h (s_q s)).2 s)
| st_close s : step Caller s (with_q (shutdown (s_q s)) s)
| st_mgr_take s b rest :
    dq_incoming (s_q s) = b :: rest → tb_ID b = u64 (m_next s + 1) →
    step Worker s (with_manager
      (set_channels rest (dq_outgoing (s_q s)) (dq_validated (s_q s)) (s_q s))
      (tb_ID b) (m_waiting s ++ tb_Txs b) (m_out s) s)
| st_mgr_release s nodes rest :
    m_waiting s ≡ₚ (Node_Tx <$> nodes) ++ rest → clash_free (nodes ++ m_out s) →
    has_room (s_q s) (dq_outgoing (s_q s)) →
    step Worker s (with_manager
      (set_channels (dq_incoming (s_q s)) (dq_outgoing (s_q s) ++ [nodes])
         (dq_validated (s_q s)) (s_q s))
      (m_next s) rest (nodes ++ m_out s) s)
| st_mgr_done s nodes rest :
    dq_validated (s_q s) = nodes :: rest →
    step Worker s (with_manager
      (set_channels (dq_incoming (s_q s)) (dq_outgoing (s_q s)) rest (s_q s))
      (m_next s) (m_waiting s) (filter (.∉ nodes) (m_out s)) s).

Definition any_step (s s' : sys) : Prop := ∃ a, step a s s'.

Definition start (cfg : option DepGraphConfig) : sys := {|
  s_q := NewDepGraphQueue cfg; s_tasks := []; s_releasing := []; m_next := 0;
  m_waiting := []; m_out := []; g_hist := [] |}.

Definition reachable (cfg : option DepGraphConfig) (s : sys) : Prop := rtc any_step (start cfg) s.
End system.

(** ** References name their transaction *)

Section refs.
Context {G : GethTypes} {L : GethLaws G} {H : HexLaws G}.

Lemma substring_all s : String.substring 0 (String.length s) s = s.
Proof. induction s as [|c s IH]; simpl; [done|]. by rewrite IH. Qed.

Lemma hashFromTxRefID_txRefID h : hashFromTxRefID (txRefID h) = Some h.
Proof.
  assert (String.length (hex_EncodeToString (Hash_Bytes h)) = 64%nat) as Hl
    by (rewrite hex_Encode_length, Hash_Bytes_length; done).
  assert (String.length (Hash_Hex h) = 66%nat) as Hl2
    by (rewrite Hash_Hex_spec; exact (f_equal (λ n, S (S n)) Hl)).
  unfold hashFromTxRefID, txRefID. rewrite Hl2, Hash_Hex_spec.
  change ("0x" +:+ hex_EncodeToString (Hash_Bytes h)) with
    (String "0" (String "x" (hex_EncodeToString (Hash_Bytes h)))).
  rewrite bool_decide_eq_false_2
    by (intros Hne; apply Hne; simpl; by destruct (hex_EncodeToString _)).
  change (66 - 2)%nat with 64%nat. cbn [Nat.eqb Nat.add Nat.mul negb orb String.substring].
  rewrite <-Hl, substring_all, hex_decode_encode by apply Hash_Bytes_range.
  simpl. by rewrite BytesToHash_Bytes.
Qed.
End refs.

(** ** Where the nodes are *)

Section nodes.
Context {G : GethTypes} {T : EthTxTypes G} {D : DepTypes}.

Definition holds (m : gmap Hash trackedTx) (h : Hash) (n : Node) : Prop :=
  ∃ t, m !! h = Some t ∧ tt_node t = Some n.

(** Every outstanding node is held by the transaction it names, or travels once
    in [tl]; a transaction in [tk] is still on its way and holds none. *)
Record node_inv (tk : list Hash) (tl : list Node) (m : gmap Hash trackedTx) (out : list Node)
    : Prop := {
  ni_free : clash_free out;
  ni_nodup : NoDup tl;
  ni_out n : n ∈ out ↔ n ∈ tl ∨ ∃ h, holds m h n;
  ni_held h n : holds m h n → node_hash n = Some h ∧ n ∉ tl ∧ h ∉ tk;
  ni_way : NoDup tk
}.

Lemma node_inv_perm tk tk' tl tl' m out :
  tk ≡ₚ tk' → tl ≡ₚ tl' → node_inv tk tl m out → node_inv tk' tl' m out.
Proof.
  intros Hk Hp [Hf Hn Ho Hh Hw]. split; [done| | | |].
  - by rewrite <-Hp.
  - intros n. by rewrite <-Hp.
  - intros h n. rewrite <-Hp, <-Hk. apply Hh.
  - by rewrite <-Hk.
Qed.

Lemma node_inv_same tk tl m m' out :
  (∀ h n, holds m h n ↔ holds m' h n) → node_inv tk tl m out → node_inv tk tl m' out.
Proof.
  intros He [Hf Hn Ho Hh Hw]. split; [done|done| | |done].
  - intros n. rewrite Ho. by setoid_rewrite He.
  - intros h n Hn'. apply Hh. by apply He.
Qed.

Lemma holds_insert m h t h' n :
  holds (<[h := t]> m) h' n ↔ (h = h' ∧ tt_node t = Some n) ∨ (h ≠ h' ∧ holds m h' n).
Proof.
  unfold holds. rewrite lookup_insert. case_decide as He.
  - split; [intros (t' & [= <-] & ?); by left|]. intros [[_ ?]|[? _]]; [by exists t|done].
  - split; [by right|]. by intros [[? _]|[_ ?]].
Qed.

Lemma holds_delete m h h' n : holds (delete h m) h' n ↔ h ≠ h' ∧ holds m h' n.
Proof.
  unfold holds. destruct (decide (h = h')) as [->|Hne].
  - rewrite lookup_delete_eq. split; [by intros (? & ? & _)|by intros [? _]].
  - rewrite lookup_delete_ne by done. by split; [|intros [_ ?]].
Qed.

(** Replacing an entry by one with the same node. *)
Lemma holds_update m h t t' h' n :
  m !! h = Some t → tt_node t' = tt_node t → (holds m h' n ↔ holds (<[h := t']> m) h' n).
Proof.
  intros Hm Ht. rewrite holds_insert, Ht. destruct (decide (h = h')) as [->|Hne].
  - unfold holds. rewrite Hm. split; [intros (? & [= <-] & ?); by left|].
    intros [[_ ?]|[? _]]; [by exists t|done].
  - split; [by right|by intros [[? _]|[_ ?]]].
Qed.

(** A transaction that is no longer on its way. *)
Lemma node_inv_way h tk tl m out : node_inv (h :: tk) tl m out → node_inv tk tl m out.
Proof.
  intros [Hf Hn Ho Hh Hw]. split; [done|done|done| |by apply NoDup_cons in Hw as [_ ?]].
  intros h' n Hn'. destruct (Hh _ _ Hn') as (? & ? & Hk).
  by apply not_elem_of_cons in Hk as [_ ?].
Qed.

Lemma node_inv_mark tk tl m out h t' n :
  node_hash n = Some h → tt_node t' = Some n →
  node_inv (h :: tk) (n :: tl) m out → node_inv tk tl (<[h := t']> m) out.
Proof.
  intros Hn Ht [Hf Hd Ho Hh Hw]. apply NoDup_cons in Hd as [Hnt Hd].
  apply NoDup_cons in Hw as [Hhk Hw].
  assert (∀ n', ¬ holds m h n') as Hnone
    by (intros n' Hn'; destruct (Hh _ _ Hn') as (_ & _ & Hk); apply Hk; left).
  split; [done|done| | |done].
  - intros n'. rewrite Ho, elem_of_cons. setoid_rewrite holds_insert. split.
    + intros [[->|?]|[h' Hh']]; [right; exists h; by left|by left|].
      right. exists h'. right. split; [intros ->; by eapply Hnone|done].
    + intros [?|[h' [[<- Hn']|[_ Hn']]]]; [by left; right| |right; by exists h'].
      left; left. congruence.
  - intros h' n' [[<- Hn']|[Hne Hn']]%holds_insert.
    + rewrite Ht in Hn'. injection Hn' as <-. done.
    + destruct (Hh _ _ Hn') as (? & Hni & Hki). apply not_elem_of_cons in Hni as [_ ?].
      apply not_elem_of_cons in Hki as [_ ?]. done.
Qed.

Lemma node_inv_take tk tl m out h n :
  holds m h n → node_inv tk tl m out → node_inv tk (n :: tl) (delete h m) out.
Proof.
  intros Hn [Hf Hd Ho Hh Hw]. destruct (Hh _ _ Hn) as (Hnh & Hni & _). split; [done| | | |done].
  - by apply NoDup_cons.
  - intros n'. rewrite Ho, elem_of_cons. setoid_rewrite holds_delete. split.
    + intros [?|[h' Hh']]; [by left; right|]. destruct (decide (h = h')) as [<-|Hne].
      * left; left. unfold holds in *. naive_solver.
      * right. by exists h'.
    + intros [[->|?]|(h' & _ & ?)]; [right; by exists h|by left|right; by exists h'].
  - intros h' n' [Hne Hn']%holds_delete. destruct (Hh _ _ Hn') as (Hnh' & ? & ?).
    split; [done|]. split; [|done].
    apply not_elem_of_cons. split; [intros ->; congruence|done].
Qed.

Lemma node_inv_drop tk tl m out h :
  (∀ n, ¬ holds m h n) → node_inv tk tl m out → node_inv tk tl (delete h m) out.
Proof.
  intros Hn. apply node_inv_same. intros h' n. rewrite holds_delete.
  split; [|by intros [_ ?]]. intros Hh. split; [intros ->; by eapply Hn|done].
Qed.

Lemma node_inv_enter tk tl m out h tx :
  m !! h = None → h ∉ tk → node_inv tk tl m out →
  node_inv (h :: tk) tl (<[h := fresh_tracked tx]> m) out.
Proof.
  intros Hm Hk Hi. apply (node_inv_same _ _ m).
  { intros h' n. rewrite holds_insert. split; [|by intros [[_ [=]]|[_ ?]]].
    intros Hh. right. split; [intros ->; destruct Hh as (? & ? & _); congruence|done]. }
  destruct Hi as [Hf Hd Ho Hh Hw]. split; [done|done|done| |by apply NoDup_cons].
  intros h' n Hn. destruct (Hh _ _ Hn) as (? & ? & ?). split; [done|]. split; [done|].
  apply not_elem_of_cons. split; [|done]. intros ->. destruct Hn as (? & ? & _). congruence.
Qed.

Lemma node_inv_issue nodes tk tl m out :
  clash_free (nodes ++ out) → node_inv tk tl m out → node_inv tk (nodes ++ tl) m (nodes ++ out).
Proof.
  intros Hcf [Hf Hd Ho Hh Hw]. destruct (proj1 (NoDup_app _ _) (proj1 Hcf)) as (Hnn & Hdisj & _).
  assert (∀ n, n ∈ nodes → n ∉ tl ∧ ∀ h, ¬ holds m h n) as Hnew.
  { intros n Hn. specialize (Hdisj n Hn). rewrite Ho in Hdisj. naive_solver. }
  split; [done| | | |done].
  - apply NoDup_app. split; [done|]. split; [|done]. intros n Hn. by apply Hnew.
  - intros n. rewrite !elem_of_app, Ho. tauto.
  - intros h n Hn. destruct (Hh _ _ Hn) as (? & ? & ?). split; [done|]. split; [|done].
    rewrite elem_of_app. intros [Hn'|?]; [|done]. by destruct (proj2 (Hnew n Hn') h).
Qed.

Lemma node_inv_done nodes tk tl m out :
  node_inv tk (nodes ++ tl) m out → node_inv tk tl m (filter (.∉ nodes) out).
Proof.
  intros [[Hd1 Hf] Hd Ho Hh Hw]. apply NoDup_app in Hd as (Hnn & Hdisj & Hd). split.
  - split; [by apply NoDup_filter|]. intros n n' Hn Hn'.
    apply list_elem_of_filter in Hn as [_ ?], Hn' as [_ ?]. by apply Hf.
  - done.
  - intros n. rewrite list_elem_of_filter, Ho, elem_of_app. split.
    + intros [? [[?|?]|?]]; [done|by left|by right].
    + intros [?|[h Hn]]; [split; [|tauto]; intros ?; by eapply Hdisj|].
      destruct (Hh _ _ Hn) as (_ & Hni & _). rewrite elem_of_app in Hni.
      split; [tauto|]. right. by exists h.
  - intros h n Hn. destruct (Hh _ _ Hn) as (? & Hni & ?). rewrite elem_of_app in Hni. tauto.
  - done.
Qed.

(** ** The loops over nodes *)

Lemma mark_nodes_inv nodes : ∀ orphans q orphans' q' tk tl out,
  node_inv (omap node_hash nodes ++ tk) (orphans ++ nodes ++ tl) (dq_tracked q) out →
  foldl mark_node (orphans, q) nodes = (orphans', q') →
  node_inv tk (orphans' ++ tl) (dq_tracked q') out.
Proof.
  induction nodes as [|n nodes IH]; intros orphans q orphans' q' tk tl out Hi; simpl.
  { by intros [= <- <-]. }
  simpl in Hi.
  fold (ref_hash (Node_Tx n)). fold (node_hash n). destruct (node_hash n) as [h|] eqn:Hn.
  2:{ apply IH. eapply node_inv_perm; [done| |exact Hi]. solve_Permutation. }
  simpl in Hi. destruct (dq_tracked q !! h) as [t|] eqn:Ht.
  - intros He. eapply IH; [|exact He]. eapply (node_inv_mark _ _ _ _ h); [exact Hn|done|].
    eapply node_inv_perm; [done| |exact Hi]. solve_Permutation.
  - apply IH. eapply node_inv_perm; [done| |eapply node_inv_way, Hi]. solve_Permutation.
Qed.

Lemma take_nodes_inv hashes : ∀ nodes q nodes' q' tk tl out,
  node_inv tk (nodes ++ tl) (dq_tracked q) out →
  foldl take_node (nodes, q) hashes = (nodes', q') →
  node_inv tk (nodes' ++ tl) (dq_tracked q') out.
Proof.
  induction hashes as [|h hashes IH]; intros nodes q nodes' q' tk tl out Hi; simpl.
  { by intros [= <- <-]. }
  destruct (dq_tracked q !! h) as [t|] eqn:Ht; [|by apply IH].
  apply IH. simpl. destruct (tt_node t) as [n|] eqn:Hn.
  - eapply node_inv_perm; [done| |eapply node_inv_take; [|exact Hi]].
    + solve_Permutation.
    + by exists t.
  - apply node_inv_drop; [|done]. intros n (t' & Ht' & Hn'). congruence.
Qed.

(** Nodes on the way between the manager and the queue. *)
Definition transit (s : sys) : list Node :=
  concat (dq_outgoing (s_q s)) ++ concat (s_releasing s) ++ concat (dq_validated (s_q s)).
End nodes.

(** The permutations of the two lists that a move causes. *)
Ltac moved :=
  unfold on_the_way, transit; simpl;
  rewrite ?omap_app, ?fmap_app, ?concat_app, ?omap_app; simpl;
  repeat case_match; rewrite ?app_nil_r; solve_Permutation.

(** ** The node invariant *)

Section node_steps.
Context {G : GethTypes} {T : EthTxTypes G} {D : DepTypes}.

Definition inv_nodes (s : sys) : Prop :=
  node_inv (on_the_way s) (transit s) (dq_tracked (s_q s)) (m_out s).

Lemma set_tracked_twice r m r' m' q :
  set_tracked r m (set_tracked r' m' q) = set_tracked r m q.
Proof. done. Qed.

Lemma set_tracked_id q : set_tracked (dq_ready q) (dq_tracked q) q = q.
Proof. by destruct q. Qed.

(** The loops over nodes change the ready list and the tracked transactions. *)
Lemma mark_nodes_frame nodes : ∀ orphans q orphans' q',
  foldl mark_node (orphans, q) nodes = (orphans', q') → ∃ r m, q' = set_tracked r m q.
Proof.
  induction nodes as [|n nodes IH]; intros orphans q orphans' q' He; simpl in He.
  { injection He as <- <-. by exists (dq_ready q), (dq_tracked q); rewrite set_tracked_id. }
  repeat case_match; try (by eapply IH).
  destruct (IH _ _ _ _ He) as (r & m & ->). by exists r, m; rewrite set_tracked_twice.
Qed.

Lemma take_nodes_frame hashes : ∀ nodes q nodes' q',
  foldl take_node (nodes, q) hashes = (nodes', q') → ∃ r m, q' = set_tracked r m q.
Proof.
  induction hashes as [|h hashes IH]; intros nodes q nodes' q' He; simpl in He.
  { injection He as <- <-. by exists (dq_ready q), (dq_tracked q); rewrite set_tracked_id. }
  destruct (dq_tracked q !! h); [|by eapply IH].
  destruct (IH _ _ _ _ He) as (r & m & ->). by exists r, m; rewrite set_tracked_twice.
Qed.

Lemma stats_frame (txs : list DTransaction) : ∀ q,
  ∃ t i, foldl (λ q tx, set_stats (dq_total q + 1)
    (if dt_Status tx =? 0 then dq_invalid q + 1 else dq_invalid q) q) q txs = set_stats t i q.
Proof.
  induction txs as [|tx txs IH]; intros q; simpl.
  - exists (dq_total q), (dq_invalid q). by destruct q.
  - destruct (IH (set_stats (dq_total q + 1)
      (if dt_Status tx =? 0 then dq_invalid q + 1 else dq_invalid q) q)) as (t & i & ->).
    by exists t, i.
Qed.

Lemma record_frame txs q : ∃ seq lw rc, recordCommitted txs q = set_commits seq lw rc q.
Proof. unfold recordCommitted. destruct (foldl _ _ _). by do 3 eexists. Qed.

Lemma Handle_frame block q nodes q' :
  dg_Handle block q = (nodes, q') →
  ∃ t i seq lw rc r m, q' = set_tracked r m (set_commits seq lw rc (set_stats t i q)).
Proof.
  unfold dg_Handle. destruct (db_Transactions block) as [|tx txs].
  - intros [= _ <-]. exists (dq_total q), (dq_invalid q), (dq_commitSeq q), (dq_lastWrite q),
      (dq_recent q), (dq_ready q), (dq_tracked q). by destruct q.
  - destruct (stats_frame (tx :: txs) q) as (t & i & ->).
    destruct (record_frame (tx :: txs) (set_stats t i q)) as (seq & lw & rc & ->).
    intros (r & m & ->)%take_nodes_frame. by exists t, i, seq, lw, rc, r, m.
Qed.

Lemma Handle_nodes block q nodes q' tk tl out :
  dg_Handle block q = (nodes, q') → node_inv tk tl (dq_tracked q) out →
  node_inv tk (nodes ++ tl) (dq_tracked q') out.
Proof.
  unfold dg_Handle. intros He Hi. destruct (db_Transactions block) as [|tx txs].
  - by injection He as <- <-.
  - eapply take_nodes_inv; [|exact He].
    destruct (stats_frame (tx :: txs) q) as (t & i & ->).
    by destruct (record_frame (tx :: txs) (set_stats t i q)) as (seq & lw & rc & ->).
Qed.

Lemma step_canceled b a s s' :
  step b a s s' → dq_canceled (s_q s') = false → dq_canceled (s_q s) = false.
Proof.
  intros Hs Hc. destruct (dq_canceled (s_q s)) eqn:E; [|done]. rewrite <-Hc. clear Hc.
  destruct Hs; simpl; try done.
  - unfold dg_Enqueue. by repeat case_match.
  - unfold submit_answered, keepEndorsement in *. repeat case_match; by simplify_eq/=.
  - unfold flush. by case_match.
  - unfold flush. by case_match.
  - destruct (mark_nodes_frame _ _ _ _ _ H0) as (r & m & ->). done.
  - unfold dg_Dequeue. by case_match.
  - destruct (take_nodes_frame _ _ _ _ _ H) as (r & m & ->). done.
  - destruct (Handle_frame _ _ _ _ H) as (? & ? & ? & ? & ? & ? & ? & ->). done.
  - unfold release. by case_match.
  - unfold ReusableEndorsement. by repeat case_match.
Qed.

Lemma Enqueue_nodes s tx :
  Tx_Hash tx ∉ on_the_way s → inv_nodes s → inv_nodes (with_q (dg_Enqueue tx (s_q s)).2 s).
Proof.
  unfold dg_Enqueue. intros Hw Hi. destruct (dq_done (s_q s)); [done|].
  case_decide as Hd; [done|]. case_match; [done|].
  eapply node_inv_perm; [| |eapply node_inv_enter; [|exact Hw|exact Hi]].
  - moved.
  - moved.
  - by apply eq_None_not_Some.
Qed.

(** A worker's transaction leaves the way when its endorsement fails. *)
Lemma answer_nodes tx seq answer w q q' tk tl out :
  submit_answered tx seq answer q = (w, q') →
  node_inv (Tx_Hash tx :: tk) tl (dq_tracked q) out →
  node_inv (match w with Some _ => [Tx_Hash tx] | None => [] end ++ tk) tl (dq_tracked q') out.
Proof.
  unfold submit_answered. intros He Hi.
  assert (node_inv tk tl (delete (Tx_Hash tx) (dq_tracked q)) out) as Hdrop.
  { eapply node_inv_drop, node_inv_way, Hi. intros n Hn.
    destruct (ni_held _ _ _ _ Hi _ _ Hn) as (_ & _ & Hk). apply Hk. left. }
  destruct answer as [e|]; [|by injection He as <- <-].
  destruct (txContent e) as [c|]; [|by injection He as <- <-].
  injection He as <- <-. unfold keepEndorsement. destruct (readWriteKeys c) as [reads writes].
  destruct (dq_tracked q !! Tx_Hash tx) as [t|] eqn:Ht; [|done].
  eapply node_inv_same; [|exact Hi]. intros h n. by apply (holds_update _ _ t).
Qed.

Lemma Reusable_holds h q h' n :
  holds (dq_tracked q) h' n ↔ holds (dq_tracked (ReusableEndorsement h q).2) h' n.
Proof.
  unfold ReusableEndorsement. destruct (dq_tracked q !! h) as [t|] eqn:Ht; [|done].
  repeat case_match; try done; by apply (holds_update _ _ t).
Qed.

Context {L : GethLaws G} {H : HexLaws G}.

Lemma ref_hash_txRefID h c : ref_hash {| tr_TxId := txRefID h; tr_Content := c |} = Some h.
Proof. apply hashFromTxRefID_txRefID. Qed.

Lemma answered_hash tx seq answer q w q' :
  submit_answered tx seq answer q = (Some w, q') → ref_hash w = Some (Tx_Hash tx).
Proof.
  unfold submit_answered. intros He. repeat case_match; simplify_eq/=. apply ref_hash_txRefID.
Qed.

Lemma answer_frame tx seq answer q w q' :
  submit_answered tx seq answer q = (w, q') → ∃ r m, q' = set_tracked r m q.
Proof.
  unfold submit_answered, keepEndorsement, dg_drop. intros He.
  repeat case_match; simplify_eq/=; try (by do 2 eexists).
  do 2 eexists. symmetry. apply set_tracked_id.
Qed.

(** The way without the worker's transaction. *)
Lemma answer_way s tx seq l1 l2 answer w q' :
  s_tasks s = l1 ++ Endorsing tx seq :: l2 → submit_answered tx seq answer (s_q s) = (w, q') →
  ∃ tk, on_the_way s ≡ₚ Tx_Hash tx :: tk ∧
    on_the_way (with_tasks q'
      (l1 ++ match w with Some w => [Sending (Tx_Hash tx) w] | None => [] end ++ l2) s) ≡ₚ
    match w with Some _ => [Tx_Hash tx] | None => [] end ++ tk.
Proof.
  intros He Ha. exists (on_the_way (with_tasks (s_q s) (l1 ++ l2) s)).
  destruct (answer_frame _ _ _ _ _ _ Ha) as (r & m & ->). unfold on_the_way. rewrite He. split.
  - moved.
  - destruct w as [w|]; [|done]. simpl. rewrite !omap_app. simpl.
    rewrite (answered_hash _ _ _ _ _ _ Ha). solve_Permutation.
Qed.

Lemma omap_fmap_comp {A B C} (f : B → option C) (g : A → B) (l : list A) :
  omap f (g <$> l) = omap (f ∘ g) l.
Proof. induction l as [|x l IH]; [done|]. simpl. destruct (f (g x)); [f_equal|]; exact IH. Qed.

Lemma step_nodes a s s' :
  step false a s s' → dq_canceled (s_q s') = false → inv_nodes s → inv_nodes s'.
Proof.
  intros Hs Hc Hi. pose proof (step_canceled _ _ _ _ Hs Hc) as Hc0. unfold inv_nodes in *.
  destruct Hs as [s tx Hw|s tx rest He _|s tx l1 l2 He|s tx seq l1 l2 answer w q He Ha
    |s h w l1 l2 He _|s h w l1 l2 He Hcc|s w rest He _|s _|s Hcc|s nodes rest orphans q He Hm
    |s|s h nodes q He|s block nodes q He|s nodes l1 l2 He _|s nodes l1 l2 He Hcc|s h|s
    |s b rest He _|s nodes rest He Hcf _|s nodes rest He]; try congruence.
  - apply Enqueue_nodes; auto.
  - eapply node_inv_perm; [| |exact Hi]; unfold on_the_way, transit; rewrite ?He; moved.
  - eapply node_inv_perm; [| |exact Hi]; unfold on_the_way, transit; rewrite ?He; moved.
  - destruct (answer_way s tx seq l1 l2 answer w q He Ha) as (tk & Hk & Hk').
    eapply node_inv_perm; [symmetry; exact Hk'| |eapply (answer_nodes _ _ _ _ _ _ _ _ _ Ha),
      node_inv_perm; [exact Hk|reflexivity|exact Hi]].
    destruct (answer_frame _ _ _ _ _ _ Ha) as (r & m & ->). done.
  - eapply node_inv_perm; [| |exact Hi]; unfold on_the_way, transit; rewrite ?He; moved.
  - eapply node_inv_perm; [| |exact Hi]; unfold on_the_way, transit; rewrite ?He; moved.
  - unfold flush. destruct (dq_pending (s_q s)) as [|w ws] eqn:Hp; [done|].
    eapply node_inv_perm; [| |exact Hi]; unfold on_the_way, transit; rewrite ?Hp; moved.
  - destruct (mark_nodes_frame _ _ _ _ _ Hm) as (r & m & Hq).
    eapply node_inv_perm; [| |eapply mark_nodes_inv; [|exact Hm]].
    3:{ eapply node_inv_perm; [| |exact Hi]; unfold on_the_way, transit; rewrite He; simpl;
        rewrite ?omap_app.
        - match goal with |- ?a ++ ?b ++ ?c ++ ?d ++ ?e ++ ?f ++ ?g ++ ?h ≡ₚ _ =>
            transitivity (g ++ (a ++ b ++ c ++ d ++ e ++ f ++ h)); [solve_Permutation|done] end.
        - rewrite <-app_assoc. reflexivity. }
    + rewrite Hq. done.
    + rewrite Hq. moved.
  - unfold dg_Dequeue. destruct (dq_ready (s_q s)); [done|]. exact Hi.
  - destruct (take_nodes_frame _ _ _ _ _ He) as (r & m & Hq).
    eapply node_inv_perm; [| |eapply (take_nodes_inv [h] []); [exact Hi|exact He]].
    + by rewrite Hq.
    + rewrite Hq. moved.
  - destruct (Handle_frame _ _ _ _ He) as (? & ? & ? & ? & ? & ? & ? & Hq).
    eapply node_inv_perm; [| |eapply Handle_nodes; [exact He|exact Hi]].
    + by rewrite Hq.
    + rewrite Hq. moved.
  - unfold release. destruct nodes as [|n nodes];
      (eapply node_inv_perm; [| |exact Hi]; unfold on_the_way, transit; rewrite ?He; moved).
  - eapply node_inv_same; [apply Reusable_holds|].
    unfold ReusableEndorsement. repeat case_match; exact Hi.
  - eapply node_inv_perm; [| |exact Hi]; unfold on_the_way, transit; rewrite ?He; moved.
  - eapply node_inv_perm; [| |exact Hi]; unfold on_the_way, transit; rewrite ?He; moved.
  - eapply node_inv_perm; [| |eapply node_inv_issue; [exact Hcf|exact Hi]].
    + unfold on_the_way. simpl. rewrite He, omap_app.
      rewrite omap_fmap_comp, concat_app, omap_app. simpl. rewrite app_nil_r.
      change (ref_hash ∘ Node_Tx) with node_hash. solve_Permutation.
    + moved.
  - apply (node_inv_done nodes). eapply node_inv_perm; [| |exact Hi];
      unfold on_the_way, transit; rewrite ?He; moved.
Qed.
End node_steps.

(** ** No accepted transaction is lost *)

Section loss.
Context {G : GethTypes} {T : EthTxTypes G} {D : DepTypes} {L : GethLaws G} {H : HexLaws G}.

(** A tracked transaction the manager has not released yet. *)
Definition waits (m : gmap Hash trackedTx) (h : Hash) : Prop :=
  ∃ t, m !! h = Some t ∧ tt_node t = None.

Definition inv_way (s : sys) : Prop := ∀ h, waits (dq_tracked (s_q s)) h → h ∈ on_the_way s.

Lemma waits_insert m h t h' :
  waits (<[h := t]> m) h' → (h = h' ∧ tt_node t = None) ∨ (h ≠ h' ∧ waits m h').
Proof.
  intros (t' & Ht & Hn). rewrite lookup_insert in Ht. case_decide as He.
  - injection Ht as <-. by left.
  - right. split; [done|]. by exists t'.
Qed.

Lemma waits_delete m h h' : waits (delete h m) h' → h ≠ h' ∧ waits m h'.
Proof.
  intros (t' & Ht & Hn). destruct (decide (h = h')) as [->|Hne].
  - by rewrite lookup_delete_eq in Ht.
  - rewrite lookup_delete_ne in Ht by done. split; [done|]. by exists t'.
Qed.

Lemma waits_update m h t t' h' :
  m !! h = Some t → tt_node t' = tt_node t → waits (<[h := t']> m) h' → waits m h'.
Proof. intros Hm Ht [[<- Hn]|[_ ?]]%waits_insert; [|done]. exists t. by rewrite <-Ht. Qed.

Lemma mark_nodes_waits nodes : ∀ orphans q orphans' q' h,
  foldl mark_node (orphans, q) nodes = (orphans', q') → waits (dq_tracked q') h →
  waits (dq_tracked q) h ∧ h ∉ omap node_hash nodes.
Proof.
  induction nodes as [|n nodes IH]; intros orphans q orphans' q' h He Hh; simpl in *.
  { injection He as <- <-. split; [done|]. apply not_elem_of_nil. }
  fold (ref_hash (Node_Tx n)) in He. fold (node_hash n) in He.
  destruct (node_hash n) as [h0|]; [|by eapply IH].
  destruct (dq_tracked q !! h0) as [t|] eqn:Ht; destruct (IH _ _ _ _ _ He Hh) as [Hw Hn].
  - apply waits_insert in Hw as [[_ [=]]|[Hne Hw]].
    split; [done|]. by apply not_elem_of_cons.
  - split; [done|]. apply not_elem_of_cons. split; [|done].
    intros ->. destruct Hw as (t & ? & _). congruence.
Qed.

Lemma take_nodes_waits hashes : ∀ nodes q nodes' q' h,
  foldl take_node (nodes, q) hashes = (nodes', q') → waits (dq_tracked q') h →
  waits (dq_tracked q) h.
Proof.
  induction hashes as [|h0 hashes IH]; intros nodes q nodes' q' h He Hh; simpl in *.
  { by injection He as <- <-. }
  destruct (dq_tracked q !! h0); [|by eapply IH].
  by apply (IH _ _ _ _ _ He), waits_delete in Hh as [_ ?].
Qed.

Lemma Handle_waits block q nodes q' h :
  dg_Handle block q = (nodes, q') → waits (dq_tracked q') h → waits (dq_tracked q) h.
Proof.
  unfold dg_Handle. intros He Hw. destruct (db_Transactions block) as [|tx txs].
  - by injection He as <- <-.
  - apply (take_nodes_waits _ _ _ _ _ _ He) in Hw.
    destruct (stats_frame (tx :: txs) q) as (t & i & Hs). rewrite Hs in Hw.
    by destruct (record_frame (tx :: txs) (set_stats t i q)) as (seq & lw & rc & Hr); rewrite Hr in Hw.
Qed.

Lemma answer_waits tx seq answer w q q' h :
  submit_answered tx seq answer q = (w, q') → waits (dq_tracked q') h →
  waits (dq_tracked q) h ∧ (w = None → Tx_Hash tx ≠ h).
Proof.
  unfold submit_answered. intros He Hw.
  destruct answer as [e|]; [|injection He as <- <-; by apply waits_delete in Hw as [? ?]].
  destruct (txContent e) as [c|]; [|injection He as <- <-; by apply waits_delete in Hw as [? ?]].
  injection He as <- <-. split; [|done]. unfold keepEndorsement in Hw.
  destruct (readWriteKeys c). destruct (dq_tracked q !! Tx_Hash tx) as [t|] eqn:Ht; [|done].
  by eapply waits_update in Hw.
Qed.

(** A move that only carries transactions along the way. *)
Lemma inv_way_keep s s' :
  inv_way s → on_the_way s ≡ₚ on_the_way s' →
  (∀ h, waits (dq_tracked (s_q s')) h → waits (dq_tracked (s_q s)) h) → inv_way s'.
Proof. intros Hi Hs Hw h Hh. rewrite <-Hs. by apply Hi, Hw. Qed.

Lemma Enqueue_way s tx : inv_way s → inv_way (with_q (dg_Enqueue tx (s_q s)).2 s).
Proof.
  unfold dg_Enqueue. intros Hi. destruct (dq_done (s_q s)); [done|].
  case_decide as Hd; [done|]. case_match; [done|].
  intros h. unfold on_the_way. simpl. rewrite fmap_app, !elem_of_app. simpl.
  intros [[<- _]|[_ Hw%Hi]]%waits_insert; [left; right; left|].
  unfold on_the_way in Hw. rewrite !elem_of_app in Hw. tauto.
Qed.

Lemma mark_way s nodes rest orphans q :
  dq_outgoing (s_q s) = nodes :: rest →
  markReady nodes (set_channels (dq_incoming (s_q s)) rest (dq_validated (s_q s)) (s_q s)) =
    (orphans, q) →
  inv_way s → inv_way (with_releasing q (s_releasing s ++ [orphans]) s).
Proof.
  intros He Hm Hi h Hw. destruct (mark_nodes_waits _ _ _ _ _ _ Hm Hw) as [Hw0 Hn].
  apply Hi in Hw0. destruct (mark_nodes_frame _ _ _ _ _ Hm) as (r & m & ->).
  unfold on_the_way in *. rewrite He in Hw0. simpl in *. rewrite omap_app in Hw0.
  rewrite !elem_of_app in *. tauto.
Qed.

Lemma step_way b a s s' :
  step b a s s' → dq_canceled (s_q s') = false → inv_way s → inv_way s'.
Proof.
  intros Hs Hc Hi. pose proof (step_canceled _ _ _ _ Hs Hc) as Hc0.
  destruct Hs as [s tx Hw|s tx rest He _|s tx l1 l2 He|s tx seq l1 l2 answer w q He Ha
    |s h w l1 l2 He _|s h w l1 l2 He Hcc|s w rest He _|s _|s Hcc|s nodes rest orphans q He Hm
    |s|s h nodes q He|s block nodes q He|s nodes l1 l2 He _|s nodes l1 l2 He Hcc|s h|s
    |s b0 rest He _|s nodes rest He Hcf _|s nodes rest He]; try congruence.
  - by apply Enqueue_way.
  - eapply inv_way_keep; [done| |done]. unfold on_the_way. rewrite ?He. moved.
  - eapply inv_way_keep; [done| |done]. unfold on_the_way. rewrite ?He. moved.
  - destruct (answer_way s tx seq l1 l2 answer w q He Ha) as (tk & Hk & Hk').
    intros h Hw. destruct (answer_waits _ _ _ _ _ _ _ Ha Hw) as [Hw0%Hi Hne].
    rewrite Hk'. rewrite Hk in Hw0. apply elem_of_cons in Hw0 as [->|?]; [|apply elem_of_app; by right].
    destruct w; [left|]. by destruct Hne.
  - eapply inv_way_keep; [done| |done]. unfold on_the_way. rewrite ?He. moved.
  - eapply inv_way_keep; [done| |done]. unfold on_the_way. rewrite ?He. moved.
  - unfold flush. destruct (dq_pending (s_q s)) as [|w ws] eqn:Hp; [done|].
    eapply inv_way_keep; [done| |done]. unfold on_the_way. rewrite ?Hp. moved.
  - by eapply mark_way.
  - unfold dg_Dequeue. destruct (dq_ready (s_q s)); exact Hi.
  - eapply inv_way_keep; [done| |intros h'; by apply (take_nodes_waits _ _ _ _ _ _ He)].
    destruct (take_nodes_frame _ _ _ _ _ He) as (r & m & ->). done.
  - eapply inv_way_keep; [done| |intros h'; by apply (Handle_waits _ _ _ _ _ He)].
    destruct (Handle_frame _ _ _ _ He) as (? & ? & ? & ? & ? & ? & ? & ->). done.
  - unfold release. destruct nodes; exact Hi.
  - unfold ReusableEndorsement. repeat case_match; try done;
      (eapply inv_way_keep; [done|done|intros h'; by eapply waits_update]).
  - done.
  - eapply inv_way_keep; [done| |done]. unfold on_the_way. rewrite ?He. moved.
  - eapply inv_way_keep; [done| |done]. unfold on_the_way. simpl. rewrite He, omap_app.
    rewrite omap_fmap_comp, concat_app, omap_app. simpl. rewrite app_nil_r.
    change (ref_hash ∘ Node_Tx) with node_hash. solve_Permutation.
  - done.
Qed.
End loss.

(** ** Batches reach the manager in order *)

Section batches.
Context {G : GethTypes} {T : EthTxTypes G} {D : DepTypes}.

Record inv_batch (s : sys) : Prop := {
  ib_last : dq_batchID (s_q s) = u64 (m_next s + Z.of_nat (length (dq_incoming (s_q s))));
  ib_ids i b : dq_incoming (s_q s) !! i = Some b → tb_ID b = u64 (m_next s + 1 + Z.of_nat i)
}.

(** A move that touches neither the batcher nor the channel. *)
Lemma inv_batch_keep s s' :
  inv_batch s → dq_batchID (s_q s') = dq_batchID (s_q s) →
  dq_incoming (s_q s') = dq_incoming (s_q s) → m_next s' = m_next s → inv_batch s'.
Proof. intros [Hl Hi] Hb Hq Hm. split; rewrite ?Hb, ?Hq, Hm; [done|exact Hi]. Qed.

Lemma flush_batch s : inv_batch s → inv_batch (with_q (flush true (s_q s)) s).
Proof.
  intros Hi. unfold flush. destruct (dq_pending (s_q s)) as [|w ws]; [by apply (inv_batch_keep s)|].
  destruct Hi as [Hl Hi]. split; simpl.
  - rewrite length_app, Hl, u64_add_l. simpl. f_equal. lia.
  - intros i b. rewrite lookup_app_Some. intros [?|[Hge Hb]]; [by apply Hi|].
    rewrite list_lookup_singleton_Some in Hb. destruct Hb as [Hz <-]. simpl.
    rewrite Hl, u64_add_l. f_equal. lia.
Qed.

Lemma mgr_take_batch s b rest :
  dq_incoming (s_q s) = b :: rest → inv_batch s →
  inv_batch (with_manager (set_channels rest (dq_outgoing (s_q s)) (dq_validated (s_q s)) (s_q s))
      (tb_ID b) (m_waiting s ++ tb_Txs b) (m_out s) s).
Proof.
  intros He [Hl Hi]. rewrite He in *. pose proof (Hi 0%nat b eq_refl) as Hb. split; simpl in *.
  - rewrite Hl, Hb. rewrite u64_add_l. f_equal. lia.
  - intros i b' Hb'. rewrite (Hi (S i) b' Hb'), Hb.
    replace (u64 (m_next s + 1 + Z.of_nat 0) + 1 + Z.of_nat i)
      with (u64 (m_next s + 1 + Z.of_nat 0) + (1 + Z.of_nat i)) by lia.
    rewrite u64_add_l. f_equal. lia.
Qed.

Lemma step_batch b a s s' :
  step b a s s' → dq_canceled (s_q s') = false → inv_batch s → inv_batch s'.
Proof.
  intros Hs Hc Hi. pose proof (step_canceled _ _ _ _ Hs Hc) as Hc0.
  destruct Hs; try congruence; try (by apply (inv_batch_keep s)).
  - unfold dg_Enqueue. repeat case_match; by apply (inv_batch_keep s).
  - destruct (answer_frame _ _ _ _ _ _ H0) as (r & m & ->). by apply (inv_batch_keep s).
  - by apply flush_batch.
  - destruct (mark_nodes_frame _ _ _ _ _ H0) as (r & m & ->). by apply (inv_batch_keep s).
  - unfold dg_Dequeue. case_match; by apply (inv_batch_keep s).
  - destruct (take_nodes_frame _ _ _ _ _ H) as (r & m & ->). by apply (inv_batch_keep s).
  - destruct (Handle_frame _ _ _ _ H) as (? & ? & ? & ? & ? & ? & ? & ->). by apply (inv_batch_keep s).
  - unfold release. case_match; by apply (inv_batch_keep s).
  - unfold ReusableEndorsement. repeat case_match; by apply (inv_batch_keep s).
  - by apply mgr_take_batch.
Qed.
End batches.

(** ** The window of recorded writes *)

(** The keys of block [b], counted from 1. *)
Definition blk (hist : list (list string)) (b : Z) : list string :=
  if b <=? 0 then [] else default [] (hist !! Z.to_nat (b - 1)).

Lemma blk_app hist ks b : b ≤ Z.of_nat (length hist) → blk (hist ++ [ks]) b = blk hist b.
Proof.
  intros Hb. unfold blk. destruct (b <=? 0) eqn:E; [done|]. apply Z.leb_gt in E.
  by rewrite lookup_app_l by lia.
Qed.

Lemma blk_last hist ks : blk (hist ++ [ks]) (Z.of_nat (length hist) + 1) = ks.
Proof.
  unfold blk. rewrite (proj2 (Z.leb_gt _ _)) by lia.
  rewrite lookup_app_r by lia. by replace (_ - _)%nat with 0%nat by lia.
Qed.

Lemma blk_pos hist b k : k ∈ blk hist b → 0 < b.
Proof.
  unfold blk. destruct (b <=? 0) eqn:E; [by intros ?%not_elem_of_nil|].
  by apply Z.leb_gt in E.
Qed.

(** [lastWrite] knows the last write of each key in the window, [recent] the
    window's blocks. *)
Record rec_inv (hist : list (list string)) (seq : Z) (lw : gmap string Z)
    (recent : list (list string)) : Prop := {
  rc_seq : seq = Z.of_nat (length hist);
  rc_size : length recent = Z.to_nat reuseWindow;
  rc_slots b : seq - reuseWindow < b ≤ seq →
    recent !! Z.to_nat (b mod reuseWindow) = Some (blk hist b);
  rc_some k b : lw !! k = Some b →
    seq - reuseWindow < b ≤ seq ∧ k ∈ blk hist b ∧ ∀ b', b < b' ≤ seq → k ∉ blk hist b';
  rc_none k : lw !! k = None → ∀ b, seq - reuseWindow < b ≤ seq → k ∉ blk hist b
}.

Lemma expire_lookup seq slot k : ∀ lw,
  expire_writes seq slot lw !! k =
    if decide (k ∈ slot ∧ default 0 (lw !! k) = u64 (seq - reuseWindow)) then None else lw !! k.
Proof.
  unfold expire_writes. induction slot as [|k0 slot IH]; intros lw; cbn [foldl].
  { rewrite decide_False; [done|]. by intros [?%not_elem_of_nil _]. }
  rewrite IH. destruct (_ =? _) eqn:E.
  - destruct (decide (k0 = k)) as [->|Hne].
    + apply Z.eqb_eq in E. rewrite (decide_True (P := k ∈ k :: slot ∧ _)) by (split; [left|done]).
      rewrite lookup_delete_eq. by destruct (decide _).
    + rewrite lookup_delete_ne by done. apply decide_ext. rewrite elem_of_cons. naive_solver.
  - apply decide_ext. rewrite elem_of_cons. apply Z.eqb_neq in E. naive_solver.
Qed.

Lemma record_lookup seq (ks : list string) : ∀ (lw : gmap string Z) (slot : list string),
  ∃ lw', foldl (λ acc k, (<[k := seq]> acc.1, acc.2 ++ [k])) (lw, slot) ks = (lw', slot ++ ks) ∧
    ∀ k, lw' !! k = if decide (k ∈ ks) then Some seq else lw !! k.
Proof.
  induction ks as [|k0 ks IH]; intros lw slot; cbn [foldl fst snd].
  - exists lw. rewrite app_nil_r. split; [done|]. intros k.
    rewrite decide_False by apply not_elem_of_nil. done.
  - destruct (IH (<[k0 := seq]> lw) (slot ++ [k0])) as (lw' & He & Hl). exists lw'.
    rewrite He, <-app_assoc. split; [done|]. intros k. rewrite Hl, lookup_insert.
    destruct (decide (k ∈ ks)) as [Hk|Hk].
    + rewrite decide_True by by right. done.
    + destruct (decide (k0 = k)) as [->|Hne]; [by rewrite decide_True by left|].
      rewrite decide_False; [done|]. rewrite elem_of_cons. naive_solver.
Qed.

Lemma foldl_concat {A B C} (g : A → B → A) (f : C → list B) (l : list C) : ∀ a,
  foldl (λ a c, foldl g a (f c)) a l = foldl g a (concat (f <$> l)).
Proof. induction l as [|c l IH]; intros a; simpl; [done|]. by rewrite IH, foldl_app. Qed.

(** Recording one more block moves the window by one. *)
Lemma rec_inv_step hist seq lw recent keys lw' :
  Z.of_nat (length hist) + 1 < 2 ^ 64 → rec_inv hist seq lw recent →
  (∀ k, lw' !! k = if decide (k ∈ keys) then Some (seq + 1)
                   else expire_writes (seq + 1) (blk hist (seq + 1 - reuseWindow)) lw !! k) →
  rec_inv (hist ++ [keys]) (seq + 1) lw'
    (<[Z.to_nat ((seq + 1) mod reuseWindow) := keys]> recent).
Proof.
  assert (reuseWindow = 64) as HW by done.
  intros Hlen [-> Hsz Hsl Hs Hn] Hl. rewrite HW in *. set (len := Z.of_nat (length hist)) in *.
  assert (∀ b, b ≤ len → blk (hist ++ [keys]) b = blk hist b) as Hold by (intros; by apply blk_app).
  assert (blk (hist ++ [keys]) (len + 1) = keys) as Hnew by apply blk_last.
  assert (∀ b, len + 1 - 64 < b ≤ len + 1 → b ≠ len + 1 → b mod 64 ≠ (len + 1) mod 64) as Hmod.
  { intros b Hb Hne Heq. pose proof (Z.div_mod b 64). pose proof (Z.div_mod (len + 1) 64). lia. }
  split; rewrite ?HW.
  - rewrite length_app. simpl. unfold len. lia.
  - by rewrite length_insert.
  - intros b Hb. destruct (decide (b = len + 1)) as [->|Hne].
    + rewrite Hnew. apply list_lookup_insert_eq. rewrite Hsz.
      pose proof (Z.mod_pos_bound (len + 1) 64). lia.
    + rewrite list_lookup_insert_ne.
      * rewrite Hsl, Hold by lia. done.
      * pose proof (Hmod b Hb Hne). pose proof (Z.mod_pos_bound b 64).
        pose proof (Z.mod_pos_bound (len + 1) 64). lia.
  - intros k b Hk. rewrite Hl in Hk. case_decide as Hin.
    { injection Hk as <-. rewrite Hnew. split; [lia|]. split; [done|]. intros; lia. }
    rewrite expire_lookup in Hk. case_decide as Hex; [done|].
    destruct (Hs k b Hk) as (Hb & Hkb & Hlater).
    assert (b ≠ len + 1 - 64) as Hne.
    { intros ->. apply Hex. rewrite Hk. split; [done|]. simpl. symmetry. apply u64_small.
      apply blk_pos in Hkb. split; lia. }
    rewrite Hold by lia. split; [lia|]. split; [done|]. intros b' Hb'.
    destruct (decide (b' = len + 1)) as [->|]; [by rewrite Hnew|].
    rewrite Hold by lia. apply Hlater. lia.
  - intros k Hk b Hb. rewrite Hl in Hk. case_decide as Hin; [done|].
    destruct (decide (b = len + 1)) as [->|Hne]; [by rewrite Hnew|]. rewrite Hold by lia.
    rewrite expire_lookup in Hk. case_decide as Hex; [|apply (Hn k Hk); lia].
    destruct Hex as [Hkb Hd]. destruct (lw !! k) as [b0|] eqn:Hb0; [|apply (Hn k Hb0); lia].
    destruct (Hs k b0 Hb0) as (Hb0' & _ & Hlater). apply Hlater. simpl in Hd.
    rewrite u64_small in Hd; [lia|].
    apply blk_pos in Hkb. split; lia.
Qed.

(** ** Kept endorsements *)

Section reuse.
Context {G : GethTypes} {T : EthTxTypes G} {D : DepTypes}.

(** A kept endorsement carries the keys of its own read-write set and was begun
    after at most [len] blocks. *)
Definition kept_ok (len : Z) (t : trackedTx) : Prop :=
  tt_endorsed t = true →
  0 ≤ tt_readSeq t ≤ len ∧
  ∃ c, txContent (tt_end t) = Ok c ∧ readWriteKeys c = (tt_reads t, tt_writes t).

Lemma kept_ok_mono len len' t : len ≤ len' → kept_ok len t → kept_ok len' t.
Proof. intros Hl Hk He. destruct (Hk He) as [? ?]. split; [lia|done]. Qed.

Record inv_rec (s : sys) : Prop := {
  ir_rec : rec_inv (g_hist s) (dq_commitSeq (s_q s)) (dq_lastWrite (s_q s)) (dq_recent (s_q s));
  ir_kept : map_Forall (λ _, kept_ok (Z.of_nat (length (g_hist s)))) (dq_tracked (s_q s));
  ir_tasks tx seq : Endorsing tx seq ∈ s_tasks s → 0 ≤ seq ≤ Z.of_nat (length (g_hist s))
}.

Lemma mark_nodes_kept len nodes : ∀ orphans q orphans' q',
  map_Forall (λ _, kept_ok len) (dq_tracked q) →
  foldl mark_node (orphans, q) nodes = (orphans', q') →
  map_Forall (λ _, kept_ok len) (dq_tracked q').
Proof.
  induction nodes as [|n nodes IH]; intros orphans q orphans' q' Hk He; simpl in He.
  { by injection He as <- <-. }
  destruct (hashFromTxRefID _) as [h|]; [|by eapply IH].
  destruct (dq_tracked q !! h) as [t|] eqn:Ht; [|by eapply IH].
  eapply IH; [|exact He]. apply map_Forall_insert_2; [|done]. exact (Hk _ _ Ht).
Qed.

Lemma take_nodes_kept len hashes : ∀ nodes q nodes' q',
  map_Forall (λ _, kept_ok len) (dq_tracked q) →
  foldl take_node (nodes, q) hashes = (nodes', q') →
  map_Forall (λ _, kept_ok len) (dq_tracked q').
Proof.
  induction hashes as [|h hashes IH]; intros nodes q nodes' q' Hk He; simpl in He.
  { by injection He as <- <-. }
  destruct (dq_tracked q !! h) as [t|]; [|by eapply IH].
  eapply IH; [|exact He]. by apply map_Forall_delete.
Qed.

Lemma answer_kept len tx seq answer q w q' :
  0 ≤ seq ≤ len → submit_answered tx seq answer q = (w, q') →
  map_Forall (λ _, kept_ok len) (dq_tracked q) → map_Forall (λ _, kept_ok len) (dq_tracked q').
Proof.
  unfold submit_answered. intros Hs He Hk.
  destruct answer as [e|]; [|injection He as <- <-; by apply map_Forall_delete].
  destruct (txContent e) as [c|] eqn:Hc; [|injection He as <- <-; by apply map_Forall_delete].
  injection He as <- <-. unfold keepEndorsement. destruct (readWriteKeys c) as [r w] eqn:Hrw.
  destruct (dq_tracked q !! Tx_Hash tx); [|done]. apply map_Forall_insert_2; [|done].
  intros _. split; [done|]. by exists c.
Qed.

(** What [Handle] records of a block that is not empty. *)
Lemma record_spec txs q :
  0 ≤ dq_commitSeq q → dq_commitSeq q + 1 < 2 ^ 64 →
  ∃ lw', recordCommitted txs q =
      set_commits (dq_commitSeq q + 1) lw'
        (<[Z.to_nat ((dq_commitSeq q + 1) mod reuseWindow) := block_keys q txs]> (dq_recent q)) q ∧
    ∀ k, lw' !! k = if decide (k ∈ block_keys q txs) then Some (dq_commitSeq q + 1)
      else expire_writes (dq_commitSeq q + 1)
             (default [] (dq_recent q !! Z.to_nat ((dq_commitSeq q + 1) mod reuseWindow)))
             (dq_lastWrite q) !! k.
Proof.
  intros H0 H1. unfold recordCommitted. rewrite u64_small by (split; lia).
  rewrite (foldl_concat (λ acc k, (<[k := dq_commitSeq q + 1]> acc.1, acc.2 ++ [k]))).
  edestruct record_lookup as (lw' & He & Hl). rewrite He. exists lw'. by split.
Qed.

Lemma Handle_rec s block nodes q :
  dg_Handle block (s_q s) = (nodes, q) →
  Z.of_nat (length (add_hist (s_q s) (db_Transactions block) (g_hist s))) < 2 ^ 64 →
  inv_rec s →
  inv_rec (with_hist q (s_releasing s ++ [nodes])
    (add_hist (s_q s) (db_Transactions block) (g_hist s)) s).
Proof.
  unfold dg_Handle, add_hist. intros He Hlen [Hr Hk Ht].
  destruct (db_Transactions block) as [|tx txs]; [injection He as <- <-; by split|].
  rewrite length_app in Hlen. simpl in Hlen.
  destruct (stats_frame (tx :: txs) (s_q s)) as (t & i & Hs). rewrite Hs in He.
  pose proof (rc_seq _ _ _ _ Hr) as Hq.
  destruct (record_spec (tx :: txs) (set_stats t i (s_q s))) as (lw & Hrec & Hl);
    [simpl; lia..|]. rewrite Hrec in He. simpl in Hl.
  change (block_keys (set_stats t i (s_q s)) (tx :: txs)) with
    (block_keys (s_q s) (tx :: txs)) in *.
  set (keys := block_keys (s_q s) (tx :: txs)) in *.
  assert (Hslot : dq_recent (s_q s) !! Z.to_nat ((dq_commitSeq (s_q s) + 1) mod reuseWindow) =
    Some (blk (g_hist s) (dq_commitSeq (s_q s) + 1 - reuseWindow))).
  { rewrite <-(rc_slots _ _ _ _ Hr) by (unfold reuseWindow; lia). do 2 f_equal.
    unfold reuseWindow. rewrite <-(Z_mod_plus_full _ (-1)). done. }
  rewrite Hslot in Hl. simpl in Hl.
  assert (∀ len', Z.of_nat (length (g_hist s)) ≤ len' →
    map_Forall (λ _, kept_ok len') (dq_tracked (s_q s))) as Hmono.
  { intros len' Hle h t0 Ht0. eapply kept_ok_mono; [exact Hle|]. exact (Hk _ _ Ht0). }
  destruct (take_nodes_frame _ _ _ _ _ He) as (r & m & Hqe). split; simpl.
  - rewrite Hqe. simpl. apply (rec_inv_step (g_hist s) _ (dq_lastWrite (s_q s))); [lia|done|done].
  - eapply take_nodes_kept; [|exact He]. simpl. apply Hmono. rewrite length_app. lia.
  - intros tx' seq' Hin. rewrite length_app. specialize (Ht _ _ Hin). lia.
Qed.

(** A move that records nothing. *)
Lemma inv_rec_keep s s' :
  inv_rec s → g_hist s' = g_hist s → dq_commitSeq (s_q s') = dq_commitSeq (s_q s) →
  dq_lastWrite (s_q s') = dq_lastWrite (s_q s) → dq_recent (s_q s') = dq_recent (s_q s) →
  (map_Forall (λ _, kept_ok (Z.of_nat (length (g_hist s)))) (dq_tracked (s_q s)) →
   map_Forall (λ _, kept_ok (Z.of_nat (length (g_hist s)))) (dq_tracked (s_q s'))) →
  (∀ tx seq, Endorsing tx seq ∈ s_tasks s' →
     Endorsing tx seq ∈ s_tasks s ∨ seq = dq_commitSeq (s_q s)) → inv_rec s'.
Proof.
  intros [Hr Hk Ht] Hh Hc Hl Hrc Hm Hts. split.
  - by rewrite Hh, Hc, Hl, Hrc.
  - rewrite Hh. by apply Hm.
  - intros tx seq Hin. rewrite Hh. pose proof (rc_seq _ _ _ _ Hr).
    destruct (Hts _ _ Hin) as [Hin'| ->]; [by eapply Ht|lia].
Qed.

Lemma Enqueue_kept len tx q :
  map_Forall (λ _, kept_ok len) (dq_tracked q) →
  map_Forall (λ _, kept_ok len) (dq_tracked (dg_Enqueue tx q).2).
Proof.
  unfold dg_Enqueue. intros Hk. repeat case_match; try done. by apply map_Forall_insert_2.
Qed.

Lemma Reusable_kept len h q :
  map_Forall (λ _, kept_ok len) (dq_tracked q) →
  map_Forall (λ _, kept_ok len) (dq_tracked (ReusableEndorsement h q).2).
Proof.
  unfold ReusableEndorsement. intros Hk. repeat case_match; try done; by apply map_Forall_insert_2.
Qed.

Lemma step_rec b a s s' :
  step b a s s' → Z.of_nat (length (g_hist s')) < 2 ^ 64 → inv_rec s → inv_rec s'.
Proof.
  intros Hs Hlen Hi.
  destruct Hs as [s tx Hw|s tx rest He _|s tx l1 l2 He|s tx seq l1 l2 answer w q He Ha
    |s h w l1 l2 He _|s h w l1 l2 He Hcc|s w rest He _|s _|s Hcc|s nodes rest orphans q He Hm
    |s|s h nodes q He|s block nodes q He|s nodes l1 l2 He _|s nodes l1 l2 He Hcc|s h|s
    |s b0 rest He _|s nodes rest He Hcf _|s nodes rest He]; try (by apply Handle_rec).
  all: try (apply (inv_rec_keep s); simpl; by auto).
  - apply (inv_rec_keep s); simpl; try (unfold dg_Enqueue; repeat case_match; by auto).
    apply Enqueue_kept.
  - apply (inv_rec_keep s); simpl; auto. intros tx' seq'.
    rewrite elem_of_app, list_elem_of_singleton. intros [?|?]; [by left|done].
  - apply (inv_rec_keep s); simpl; auto. rewrite He. intros tx' seq'.
    rewrite !elem_of_app, !elem_of_cons. naive_solver.
  - assert (0 ≤ seq ≤ Z.of_nat (length (g_hist s))) as Hseq
      by (apply (ir_tasks _ Hi tx); rewrite He; set_solver).
    pose proof (answer_kept _ _ _ _ _ _ _ Hseq Ha) as Hk.
    destruct (answer_frame _ _ _ _ _ _ Ha) as (r & m & ->).
    apply (inv_rec_keep s); simpl; auto. rewrite He. intros tx' seq'.
    destruct w; rewrite !elem_of_app, !elem_of_cons, ?elem_of_nil; naive_solver.
  - apply (inv_rec_keep s); simpl; auto. rewrite He. set_solver.
  - apply (inv_rec_keep s); simpl; auto; [apply map_Forall_delete|]. rewrite He. set_solver.
  - apply (inv_rec_keep s); simpl; auto; unfold flush; by case_match.
  - apply (inv_rec_keep s); simpl; auto; unfold flush; by case_match.
  - pose proof (λ Hk, mark_nodes_kept (Z.of_nat (length (g_hist s))) _ _ _ _ _ Hk Hm) as Hk.
    destruct (mark_nodes_frame _ _ _ _ _ Hm) as (r & m & ->).
    apply (inv_rec_keep s); simpl; auto.
  - apply (inv_rec_keep s); simpl; auto; unfold dg_Dequeue; by case_match.
  - pose proof (λ Hk, take_nodes_kept (Z.of_nat (length (g_hist s))) _ _ _ _ _ Hk He) as Hk.
    destruct (take_nodes_frame _ _ _ _ _ He) as (r & m & ->).
    apply (inv_rec_keep s); simpl; auto.
  - apply (inv_rec_keep s); simpl; auto; unfold release; by case_match.
  - apply (inv_rec_keep s); simpl; try (unfold ReusableEndorsement; repeat case_match; by auto).
    apply Reusable_kept.
Qed.
End reuse.

(** ** The theorems *)

Section theorems.
Context {G : GethTypes} {T : EthTxTypes G} {D : DepTypes}.

Lemma reachable_open b cfg s (P : sys → Prop) :
  P (start cfg) →
  (∀ a s s', step b a s s' → dq_canceled (s_q s') = false → P s → P s') →
  reachable b cfg s → dq_canceled (s_q s) = false → P s.
Proof.
  intros H0 Hs Hr. revert s Hr. refine (rtc_ind_r _ _ _ _); [done|]. intros s s' Hr [a Hst] IH.
  intros Hc. eapply Hs; [exact Hst|done|]. apply IH. by eapply step_canceled.
Qed.

Lemma start_nodes cfg : inv_nodes (start cfg).
Proof.
  split; simpl.
  - split; [constructor|]. by intros n m ?%not_elem_of_nil.
  - constructor.
  - intros n. split; [by intros ?%not_elem_of_nil|].
    intros [?%not_elem_of_nil|(h & t & Ht & _)]; [done|]. by apply lookup_empty_Some in Ht.
  - intros h n (t & Ht & _). by apply lookup_empty_Some in Ht.
  - constructor.
Qed.

Lemma start_way cfg : inv_way (start cfg).
Proof. intros h (t & Ht & _). simpl in Ht. by apply lookup_empty_Some in Ht. Qed.

Lemma start_batch cfg : inv_batch (start cfg).
Proof. by split. Qed.

Lemma start_rec cfg : inv_rec (start cfg).
Proof.
  split; simpl.
  - split; try done.
    + intros b Hb. unfold blk. rewrite (proj2 (Z.leb_le _ _)) by lia.
      apply (lookup_replicate (Z.to_nat reuseWindow)). split; [done|]. pose proof (Z.mod_pos_bound b 64). unfold reuseWindow. lia.
    + intros k Hk b Hb. unfold blk. rewrite (proj2 (Z.leb_le _ _)) by lia. apply not_elem_of_nil.
  - apply map_Forall_empty.
  - by intros tx seq ?%not_elem_of_nil.
Qed.

Lemma reachable_rec b cfg s :
  reachable b cfg s → Z.of_nat (length (g_hist s)) < 2 ^ 64 → inv_rec s.
Proof.
  intros Hr. revert s Hr. refine (rtc_ind_r _ _ _ _); [intros _; apply start_rec|].
  intros s s' Hr [a Hst] IH Hl. eapply step_rec; [exact Hst|done|]. apply IH.
  enough (length (g_hist s) ≤ length (g_hist s'))%nat by lia.
  destruct Hst; simpl; try done. unfold add_hist. case_match; [done|]. rewrite length_app. lia.
Qed.

(** The last write the window knows decides whether any block since wrote a key. *)
Lemma window_spec hist seq lw recent k rs :
  rec_inv hist seq lw recent → 0 ≤ rs ≤ seq → seq - rs < reuseWindow →
  (rs <? default 0 (lw !! k)) = false ↔ ∀ ks, ks ∈ drop (Z.to_nat rs) hist → k ∉ ks.
Proof.
  intros [-> _ _ Hs Hn] Hrs Hw.
  assert (∀ b, rs < b ≤ Z.of_nat (length hist) → blk hist b ∈ drop (Z.to_nat rs) hist) as Hin.
  { intros b Hb. unfold blk. rewrite (proj2 (Z.leb_gt _ _)) by lia.
    destruct (lookup_lt_is_Some_2 hist (Z.to_nat (b - 1))) as [ks Hks]; [lia|]. rewrite Hks. simpl.
    apply list_elem_of_lookup. exists (Z.to_nat (b - 1) - Z.to_nat rs)%nat.
    rewrite lookup_drop. by replace (_ + (_ - _))%nat with (Z.to_nat (b - 1)) by lia. }
  assert (∀ ks, ks ∈ drop (Z.to_nat rs) hist →
    ∃ b, rs < b ≤ Z.of_nat (length hist) ∧ blk hist b = ks) as Hout.
  { intros ks (i & Hi)%list_elem_of_lookup. rewrite lookup_drop in Hi.
    pose proof (lookup_lt_Some _ _ _ Hi). exists (rs + Z.of_nat i + 1). split; [lia|].
    unfold blk. rewrite (proj2 (Z.leb_gt _ _)) by lia.
    replace (Z.to_nat (rs + Z.of_nat i + 1 - 1)) with (Z.to_nat rs + i)%nat by lia. by rewrite Hi. }
  rewrite Z.ltb_ge. destruct (lw !! k) as [b|] eqn:Hk; simpl.
  - destruct (Hs k b Hk) as (Hb & Hkb & Hlater). split.
    + intros Hle ks Hks. destruct (Hout ks Hks) as (b' & Hb' & <-). apply Hlater. lia.
    + intros Hall. apply Z.nlt_ge. intros Hlt. apply (Hall (blk hist b)); [apply Hin; lia|done].
  - split; [|lia]. intros _ ks Hks. destruct (Hout ks Hks) as (b' & Hb' & <-).
    apply (Hn k Hk). lia.
Qed.


(** No accepted transaction is lost: while the queue is open, a tracked
    transaction the manager has not released is in a channel of the queue, with
    a worker, with the batcher or inside the manager; and the batch at the head
    of the manager's channel is always the one it waits for. *)
Theorem depgraph_no_loss {L : GethLaws G} {H : HexLaws G} b cfg s
    (Hr : reachable b cfg s) (Hopen : dq_canceled (s_q s) = false) :
  (∀ h t, dq_tracked (s_q s) !! h = Some t → tt_node t = None → h ∈ on_the_way s) ∧
  (∀ bt rest, dq_incoming (s_q s) = bt :: rest → tb_ID bt = u64 (m_next s + 1)).
Proof.
  split.
  - intros h t Ht Hn.
    assert (inv_way s) as Hi
      by (eapply reachable_open; [apply start_way|apply step_way|exact Hr|done]).
    apply Hi. by exists t.
  - intros bt rest He.
    assert (inv_batch s) as [_ Hi]
      by (eapply reachable_open; [apply start_batch|apply step_batch|exact Hr|done]).
    rewrite (Hi 0%nat bt) by (by rewrite He). f_equal. lia.
Qed.

End theorems.

(** ** Executable moves *)

Section moves.
Context {G : GethTypes} {T : EthTxTypes G} {D : DepTypes}.

(** Moves of the first worker and of the oldest nodes to feed back. *)
Inductive move :=
| MEnqueue (tx : EthTx)
| MReceive
| MLoad
| MAnswer (answer : option Endorsement)
| MSend
| MTake
| MFlush
| MMark
| MDequeue
| MHandle (block : DBlock)
| MRelease
| MMgrTake
| MMgrRelease (n : Node)
| MMgrDone.

Definition mover (m : move) : actor :=
  match m with MEnqueue _ | MDequeue | MHandle _ => Caller | _ => Worker end.

#[global] Instance clash_dec c d : Decision (clash c d).
Proof.
  destruct (decide (Exists (λ k, k ∈ (readWriteKeys d).1 ∨ k ∈ (readWriteKeys d).2) (readWriteKeys c).2))
    as [Hy|Hn]; [left|destruct (decide (Exists (λ k, k ∈ (readWriteKeys c).1) (readWriteKeys d).2))
    as [Hy|Hn']; [left|right]].
  - apply Exists_exists in Hy as (k & ? & ?). exists k. by left.
  - apply Exists_exists in Hy as (k & ? & ?). exists k. by right.
  - intros (k & [[? ?]|[? ?]]); [apply Hn|apply Hn']; apply Exists_exists; by exists k.
Defined.

#[global] Instance node_clash_dec n m : Decision (node_clash n m).
Proof. unfold node_clash. apply _. Defined.

Lemma clash_free_Forall l :
  NoDup l ∧ Forall (λ n, Forall (λ m, n ≠ m → ¬ node_clash n m) l) l ↔ clash_free l.
Proof.
  unfold clash_free. f_equiv. rewrite Forall_forall. setoid_rewrite Forall_forall. naive_solver.
Qed.

#[global] Instance clash_free_dec l : Decision (clash_free l).
Proof.
  refine (cast_if (decide (NoDup l ∧ Forall (λ n, Forall (λ m, n ≠ m → ¬ node_clash n m) l) l)));
    by rewrite <-clash_free_Forall.
Defined.

Definition exec (b : bool) (m : move) (s : sys) : option sys :=
  let q := s_q s in
  match m with
  | MEnqueue tx =>
      if b || bool_decide (Tx_Hash tx ∉ on_the_way s) then Some (with_q (dg_Enqueue tx q).2 s)
      else None
  | MReceive =>
      match dq_admitted q with
      | tx :: rest =>
          if Z.of_nat (length (s_tasks s)) <? dq_endorseWorkers q
          then Some (with_tasks (set_pipeline rest (dq_endorsed q) (dq_pending q) (dq_batchID q) q)
                       (s_tasks s ++ [Received tx]) s)
          else None
      | [] => None
      end
  | MLoad =>
      match s_tasks s with
      | Received tx :: l => Some (with_tasks q (Endorsing tx (dq_commitSeq q) :: l) s)
      | _ => None
      end
  | MAnswer answer =>
      match s_tasks s with
      | Endorsing tx seq :: l =>
          let '(w, q') := submit_answered tx seq answer q in
          Some (with_tasks q'
            (match w with Some w => [Sending (Tx_Hash tx) w] | None => [] end ++ l) s)
      | _ => None
      end
  | MSend =>
      match s_tasks s with
      | Sending h w :: l =>
          if Z.of_nat (length (dq_endorsed q)) <? dq_chanSize q
          then Some (with_tasks (submit_send w q) l s) else None
      | _ => None
      end
  | MTake =>
      match dq_endorsed q with
      | w :: rest =>
          if Z.of_nat (length (dq_pending q)) <? dq_batchThreshold q
          then Some (with_q (batch_take w rest q) s) else None
      | [] => None
      end
  | MFlush =>
      if Z.of_nat (length (dq_incoming q)) <? dq_chanSize q
      then Some (with_q (flush true q) s) else None
  | MMark =>
      match dq_outgoing q with
      | nodes :: rest =>
          let '(orphans, q') := markReady nodes (set_channels (dq_incoming q) rest (dq_validated q) q) in
          Some (with_releasing q' (s_releasing s ++ [orphans]) s)
      | [] => None
      end
  | MDequeue => Some (with_q (dg_Dequeue q).2 s)
  | MHandle block =>
      let '(nodes, q') := dg_Handle block q in
      Some (with_hist q' (s_releasing s ++ [nodes])
              (add_hist q (db_Transactions block) (g_hist s)) s)
  | MRelease =>
      match s_releasing s with
      | nodes :: l =>
          if Z.of_nat (length (dq_validated q)) <? dq_chanSize q
          then Some (with_releasing (release nodes q) l s) else None
      | [] => None
      end
  | MMgrTake =>
      match dq_incoming q with
      | bt :: rest =>
          if tb_ID bt =? u64 (m_next s + 1)
          then Some (with_manager (set_channels rest (dq_outgoing q) (dq_validated q) q)
                       (tb_ID bt) (m_waiting s ++ tb_Txs bt) (m_out s) s)
          else None
      | [] => None
      end
  | MMgrRelease n =>
      match m_waiting s with
      | w :: rest =>
          if bool_decide (w = Node_Tx n) && (Z.of_nat (length (dq_outgoing q)) <? dq_chanSize q) &&
             bool_decide (clash_free (n :: m_out s))
          then Some (with_manager
                 (set_channels (dq_incoming q) (dq_outgoing q ++ [[n]]) (dq_validated q) q)
                 (m_next s) rest (n :: m_out s) s)
          else None
      | [] => None
      end
  | MMgrDone =>
      match dq_validated q with
      | nodes :: rest =>
          Some (with_manager (set_channels (dq_incoming q) (dq_outgoing q) rest q)
                  (m_next s) (m_waiting s) (filter (.∉ nodes) (m_out s)) s)
      | [] => None
      end
  end.

Fixpoint exec_moves (b : bool) (ms : list move) (s : sys) : option sys :=
  match ms with
  | [] => Some s
  | m :: ms => s' ← exec b m s; exec_moves b ms s'
  end.

Lemma exec_step b m s s' : exec b m s = Some s' → step b (mover m) s s'.
Proof.
  destruct m; simpl; intros He; repeat case_match; simplify_eq/=;
    rewrite ?andb_true_iff, ?orb_true_iff, ?Z.ltb_lt, ?bool_decide_eq_true in *.
  - constructor. intros ->. naive_solver.
  - by eapply st_receive.
  - by apply (st_load b s tx []).
  - by apply (st_answer b s tx seq [] l answer (Some t0) d).
  - by apply (st_answer b s tx seq [] l answer None d).
  - by eapply (st_send b s hash w []).
  - by apply st_batch_take.
  - by apply st_flush.
  - by eapply st_mark.
  - apply st_dequeue.
  - by apply st_handle.
  - by apply (st_release b s _ []).
  - apply st_mgr_take; [done|by apply Z.eqb_eq].
  - match goal with Hd : (_ ∧ _) ∧ _ |- _ => destruct Hd as [[-> ?] ?] end.
    apply (st_mgr_release b s [n] l); [|done|done].
    match goal with Hw : m_waiting s = _ |- _ => by rewrite Hw end.
  - by apply st_mgr_done.
Qed.

Lemma exec_moves_reachable b ms : ∀ s s', exec_moves b ms s = Some s' → rtc (any_step b) s s'.
Proof.
  induction ms as [|m ms IH]; intros s s' He; simpl in He; [injection He as <-; apply rtc_refl|].
  apply bind_Some in He as (s1 & H1 & H2). eapply rtc_l; [eexists; by eapply exec_step|by apply IH].
Qed.
End moves.

(** ** A concrete run *)

Definition hex_types : GethTypes := {|
  Address := bool;
  Hash := bool * bool;
  Hash_zero := (false, false);
  Address_Hex := λ a, pad_string 40 (if a then "a" else "0");
  Hash_Hex := λ h, "0x" +:+ hex_EncodeToString
    ((if h.1 then 1 else 0) :: replicate 31 (if h.2 then 1 else 0));
  Address_Bytes := λ a, replicate 20 (if a then 10 else 0);
  Hash_Bytes := λ h, (if h.1 then 1 else 0) :: replicate 31 (if h.2 then 1 else 0);
  BytesToHash := λ b, (bool_decide (head b = Some 1), bool_decide (last b = Some 1));
  Keccak256Hash := λ b, (bool_decide (b ≠ []), true)
|}.

#[local] Instance hex_geth_laws : GethLaws hex_types.
Proof.
  constructor; simpl.
  - by intros [].
  - by intros [] [].
  - by intros [[] []].
  - by intros [[] []] [[] []].
  - by intros [[] []].
  - by intros [[] []].
Qed.

#[local] Instance hex_laws : HexLaws hex_types.
Proof. constructor; [done|]. intros [[] []]; simpl; repeat constructor; lia. Qed.

Definition hex_txs : EthTxTypes hex_types :=
  @Build_EthTxTypes hex_types (bool * bool) _
    (λ t, if t.2 then 5 else 4) (λ t, t) (λ t, Some t.1) (λ _, Some false) (λ _, 21000).

(** An endorsement whose payload [[k]] reads and writes the key [k]. *)
Definition demo_deps : DepTypes :=
  @Build_DepTypes (list byte_slice) [] (λ e, e) (Z * TxWithRef) _ snd
    (λ b, match b with
          | [k] => Some {| Namespaces := [{| NsId := "evm"; ReadsOnly := [];
                             ReadWrites := [{| rw_Key := [k]; rw_Value := None |}];
                             BlindWrites := [] |}] |}
          | _ => None
          end) (λ _, None) (λ _, None) (λ _, None) (λ _, None).

#[local] Existing Instances hex_types hex_txs demo_deps.

Definition txA : EthTx := (false, false).
Definition txB : EthTx := (true, false).
Definition txC : EthTx := (true, true).

Definition demo_endorse (tx : EthTx) (k : Z) : list move :=
  [MEnqueue tx; MReceive; MLoad; MAnswer (Some [[k]]); MSend; MTake; MFlush; MMgrTake].

Definition demo_node (i : Z) (tx : EthTx) (k : Z) : Node :=
  (i, {| tr_TxId := txRefID (Tx_Hash tx);
         tr_Content := default {| Namespaces := [] |} (Unmarshal_Tx [k]) |}).

Definition demo_commit (tx : EthTx) (st : Status) : DBlock := {|
  db_BlockNumber := 1; db_BlockHash := None; db_ParentHash := None; db_StateRoot := None;
  db_Timestamp := 0;
  db_Transactions := [{|
    dt_TxHash := Some (Hash_Bytes (Tx_Hash tx)); dt_BlockHash := None; dt_BlockNumber := 1;
    dt_TxIndex := 0; dt_RawTx := None; dt_FromAddress := None; dt_ToAddress := None;
    dt_ContractAddress := None; dt_Status := 1; dt_FabricTxID := "f"; dt_FabricTxStatus := st;
    dt_GasUsed := 0; dt_CumulativeGasUsed := 0; dt_Logs := [] |}] |}.

Definition run (b : bool) (ms : list move) : sys := default (start None) (exec_moves b ms (start None)).

Definition runs (b : bool) (ms : list move) : bool :=
  match exec_moves b ms (start None) with Some _ => true | None => false end.

Lemma runs_reachable b ms : runs b ms = true → reachable b None (run b ms).
Proof.
  unfold runs, run. intros Hs. destruct (exec_moves b ms (start None)) as [s|] eqn:He; [|done].
  by eapply exec_moves_reachable.
Qed.

(** A is served while C waits with the batcher. *)
Definition served : list move :=
  demo_endorse txA 1 ++ [MMgrRelease (demo_node 0 txA 1); MMark; MDequeue] ++
  [MEnqueue txC; MReceive; MLoad; MAnswer (Some [[2]]); MSend].


Lemma depgraph_no_loss_witness : Tx_Hash txC ∈ on_the_way (run false served).
Proof.
  assert (runs false served = true) as Hs by (vm_compute; reflexivity).
  assert (dq_canceled (s_q (run false served)) = false) as Hc by (vm_compute; reflexivity).
  assert ((tt_node <$> dq_tracked (s_q (run false served)) !! Tx_Hash txC) = Some None) as Hn
    by (vm_compute; reflexivity).
  apply fmap_Some in Hn as (t & Ht & Hn).
  exact (proj1 (depgraph_no_loss false None _ (runs_reachable _ _ Hs) Hc) _ t Ht (eq_sym Hn)).
Defined.

(** B read the key A then wrote; C did not. *)
Definition raced : list move :=
  demo_endorse txA 1 ++ [MMgrRelease (demo_node 0 txA 1); MMark; MDequeue] ++
  demo_endorse txB 1 ++ demo_endorse txC 2 ++ [MHandle (demo_commit txA StatusCommitted)].


(** ** A node can be lost

    [drop] forgets a tracked transaction without looking at its node.  A is in
    the manager when a block carries a rejected copy of it; it is submitted
    again, gets the node of its first copy, and the endorsement of the second
    copy fails: the node is never fed back, and the manager holds back every
    transaction that clashes with it. *)
Definition lost : list move :=
  demo_endorse txA 1 ++ [MHandle (demo_commit txA StatusMVCCConflict); MRelease] ++
  [MEnqueue txA; MReceive; MLoad; MMgrRelease (demo_node 0 txA 1); MMark; MAnswer None].

Lemma drop_loses_node :
  reachable true None (run true lost) ∧ dq_canceled (s_q (run true lost)) = false ∧
  m_out (run true lost) = [demo_node 0 txA 1] ∧
  transit (run true lost) = [] ∧ dq_tracked (s_q (run true lost)) = ∅ ∧
  on_the_way (run true lost) = [].
Proof.
  split; [apply runs_reachable; vm_compute; reflexivity|].
  repeat split; vm_compute; reflexivity.
Qed.
