(* ===== verification/Hybrid.v ===== *)
(** * Hybrid: one block stream out of two services

    synchronizer/synchronizer.go and synchronizer/hybridx: the handler chain with
    its namespace filter, the conversion of notification batches to blocks, and
    the two-phase start-up.  Block delivery and notification run at the same
    time; each takes a block by moving [claimed] from its predecessor with a
    compare-and-swap, and notification waits for [dispatched] before it takes
    over.  The second half interleaves the two goroutines one atomic operation at
    a time. *)

From Stdlib Require Import ZArith Lia.
From stdpp Require Import base numbers list list_numbers sorting strings relations.
From S2P Require Import Prelude Blocks KVSpec Codec Geth Domain.

Local Open Scope Z_scope.

(** ** The handler chain *)

Section handlers.
Context {S E : Type}.

(** [blocks.BlockHandler]: a handler changes the state it owns or fails. *)
Definition BlockHandler : Type := Block → S → S * option E.

(** [dispatch] stops at the first handler that fails. *)
Fixpoint dispatch (handlers : list BlockHandler) (b : Block) (s : S) : S * option E :=
  match handlers with
  | [] => (s, None)
  | bh :: rest =>
      match bh b s with
      | (s, Some err) => (s, Some err)
      | (s, None) => dispatch rest b s
      end
  end.

(** The first read-write set of the namespace. *)
Fixpoint ns_rws (namespace : string) (l : list NsReadWriteSet) : option NsReadWriteSet :=
  match l with
  | [] => None
  | rws :: l => if String.eqb (ns_Namespace rws) namespace then Some rws else ns_rws namespace l
  end.

Definition ns_tx (namespace : string) (tx : Transaction) : option Transaction :=
  rws ← ns_rws namespace (tx_NsRWS tx);
  Some {| tx_ID := tx_ID tx; tx_Number := tx_Number tx; tx_Status := tx_Status tx;
          tx_NsRWS := [rws]; tx_EventName := tx_EventName tx; tx_Event := tx_Event tx;
          tx_InputArgs := tx_InputArgs tx; tx_Payload := tx_Payload tx |}.

Definition ns_block (namespace : string) (b : Block) : Block := {|
  b_Number := b_Number b; b_Hash := b_Hash b; b_ParentHash := b_ParentHash b;
  b_Timestamp := b_Timestamp b; b_Transactions := omap (ns_tx namespace) (b_Transactions b) |}.

(** [nsFilter.Handle]: empty blocks are forwarded too. *)
Definition nsFilter (namespace : string) (handlers : list BlockHandler) : BlockHandler :=
  λ b, dispatch handlers (ns_block namespace b).

(** ** Notification batches *)

(** [notification.AllTxBatch]; an event carries the transaction. *)
Record AllTxBatch := { ab_BlockNumber : Z; ab_Events : list Transaction }.

Definition blockNumberHash (n : Z) : byte_slice := replicate 24 0 ++ be_fixed 8 n.

Definition evm_events (events : list Transaction) : list Transaction :=
  filter (λ tx, is_Some (EVMTx tx)) events.

Definition batch_block (now : Z) (batch : AllTxBatch) : Block := {|
  b_Number := ab_BlockNumber batch;
  b_Hash := blockNumberHash (ab_BlockNumber batch);
  b_ParentHash := blockNumberHash (if 0 <? ab_BlockNumber batch then ab_BlockNumber batch - 1 else 0);
  b_Timestamp := now;
  b_Transactions := evm_events (ab_Events batch) |}.

(** [AllTxBatchDispatcher.HandleBatch]; a handler's failure is fatal unless the
    context is done. *)
Definition HandleBatch (ctx_done : bool) (handlers : list BlockHandler) (now : Z)
    (batch : AllTxBatch) (s : S) : outcome (S * option E) :=
  match evm_events (ab_Events batch) with
  | [] => Done (s, None)
  | _ =>
      match dispatch handlers (batch_block now batch) s with
      | (s, None) => Done (s, None)
      | (s, Some err) => if ctx_done then Done (s, Some err) else Panic "handler failed"
      end
  end.
End handlers.

(** ** The protocol *)

Definition MinInt64 : Z := - 2 ^ 63.

(** [CompareAndSwap] on an [atomic.Int64]: whether it swapped, and the value. *)
Definition CompareAndSwap (v old new : Z) : bool * Z :=
  if v =? old then (true, new) else (false, v).

(** Where the delivery goroutine is in [deliveryShim.Handle]: before the seeding
    compare-and-swap, before the store of [dispatched], before the claim, in the
    handler chain, before publishing; or ended by a failure at shutdown. *)
Inductive dphase :=
| DIdle
| DSeed (n : Z)
| DSeeded (n : Z)
| DClaim (n : Z)
| DRun (n : Z)
| DRan (n : Z)
| DEnded.

(** Where the notification goroutine is in [notifGate.HandleBatch]: before the
    claim, in [waitForDelivery], before [stopDelivery], in the handler chain. *)
Inductive nphase :=
| NIdle
| NClaim (b : AllTxBatch)
| NWait (b : AllTxBatch)
| NStop (b : AllTxBatch)
| NRun (b : AllTxBatch)
| NEnded.

(** The panics of the code. *)
Inductive crash := CrashSeed | CrashOvershoot | CrashHandler.

(** [h_stopped]: the delivery context is cancelled; [h_shutdown]: the process's
    is.  Ghost state: the first block delivered and the next one, the last batch,
    the block notification took over at, the batches it has taken, and the blocks
    that reached the handler chain so far on either path. *)
Record hybrid := {
  h_claimed : Z;
  h_dispatched : Z;
  h_off : bool;
  h_seeded : bool;
  h_switched : bool;
  h_stopped : bool;
  h_shutdown : bool;
  h_d : dphase;
  h_n : nphase;
  h_crash : option crash;
  g_first : Z;
  g_next : option Z;
  g_batch : option Z;
  g_sw : Z;
  g_taken : list AllTxBatch;
  g_dlog : list Z;
  g_nlog : list Z
}.

(** [Start]. *)
Definition h_start : hybrid := {|
  h_claimed := MinInt64; h_dispatched := MinInt64; h_off := false; h_seeded := false;
  h_switched := false; h_stopped := false; h_shutdown := false; h_d := DIdle; h_n := NIdle;
  h_crash := None; g_first := 0; g_next := None; g_batch := None; g_sw := 0; g_taken := [];
  g_dlog := []; g_nlog := [] |}.

(** Field updates. *)
Definition set_d (c x : Z) (o : bool) (p : dphase) (s : hybrid) : hybrid :=
  {| h_claimed := c; h_dispatched := x; h_off := o; h_seeded := h_seeded s;
     h_switched := h_switched s; h_stopped := h_stopped s; h_shutdown := h_shutdown s; h_d := p;
     h_n := h_n s; h_crash := h_crash s; g_first := g_first s; g_next := g_next s;
     g_batch := g_batch s; g_sw := g_sw s; g_taken := g_taken s; g_dlog := g_dlog s; g_nlog := g_nlog s |}.

Definition set_n (c : Z) (p : nphase) (s : hybrid) : hybrid :=
  {| h_claimed := c; h_dispatched := h_dispatched s; h_off := h_off s; h_seeded := h_seeded s;
     h_switched := h_switched s; h_stopped := h_stopped s; h_shutdown := h_shutdown s;
     h_d := h_d s; h_n := p; h_crash := h_crash s; g_first := g_first s; g_next := g_next s;
     g_batch := g_batch s; g_sw := g_sw s; g_taken := g_taken s; g_dlog := g_dlog s; g_nlog := g_nlog s |}.

Definition set_crash (c : crash) (s : hybrid) : hybrid :=
  {| h_claimed := h_claimed s; h_dispatched := h_dispatched s; h_off := h_off s;
     h_seeded := h_seeded s; h_switched := h_switched s; h_stopped := h_stopped s;
     h_shutdown := h_shutdown s; h_d := h_d s; h_n := h_n s; h_crash := Some c;
     g_first := g_first s; g_next := g_next s; g_batch := g_batch s; g_sw := g_sw s; g_taken := g_taken s;
     g_dlog := g_dlog s; g_nlog := g_nlog s |}.

Definition set_deliver (sd : bool) (p : dphase) (f x : Z) (s : hybrid) : hybrid :=
  {| h_claimed := h_claimed s; h_dispatched := h_dispatched s; h_off := h_off s; h_seeded := sd;
     h_switched := h_switched s; h_stopped := h_stopped s; h_shutdown := h_shutdown s; h_d := p;
     h_n := h_n s; h_crash := h_crash s; g_first := f; g_next := Some x; g_batch := g_batch s;
     g_sw := g_sw s; g_taken := g_taken s; g_dlog := g_dlog s; g_nlog := g_nlog s |}.

Definition set_batch (p : nphase) (x : Z) (s : hybrid) : hybrid :=
  {| h_claimed := h_claimed s; h_dispatched := h_dispatched s; h_off := h_off s;
     h_seeded := h_seeded s; h_switched := h_switched s; h_stopped := h_stopped s;
     h_shutdown := h_shutdown s; h_d := h_d s; h_n := p; h_crash := h_crash s;
     g_first := g_first s; g_next := g_next s; g_batch := Some x; g_sw := g_sw s; g_taken := g_taken s;
     g_dlog := g_dlog s; g_nlog := g_nlog s |}.

Definition set_switch (x : Z) (s : hybrid) : hybrid :=
  {| h_claimed := h_claimed s; h_dispatched := h_dispatched s; h_off := h_off s;
     h_seeded := h_seeded s; h_switched := true; h_stopped := true; h_shutdown := h_shutdown s;
     h_d := h_d s; h_n := h_n s; h_crash := h_crash s; g_first := g_first s;
     g_next := g_next s; g_batch := g_batch s; g_sw := x; g_taken := g_taken s; g_dlog := g_dlog s;
     g_nlog := g_nlog s |}.

Definition set_logs (tk : list AllTxBatch) (dl nl : list Z) (s : hybrid) : hybrid :=
  {| h_claimed := h_claimed s; h_dispatched := h_dispatched s; h_off := h_off s;
     h_seeded := h_seeded s; h_switched := h_switched s; h_stopped := h_stopped s;
     h_shutdown := h_shutdown s; h_d := h_d s; h_n := h_n s; h_crash := h_crash s;
     g_first := g_first s; g_next := g_next s; g_batch := g_batch s; g_sw := g_sw s; g_taken := tk;
     g_dlog := dl; g_nlog := nl |}.

Definition set_shutdown (s : hybrid) : hybrid :=
  {| h_claimed := h_claimed s; h_dispatched := h_dispatched s; h_off := h_off s;
     h_seeded := h_seeded s; h_switched := h_switched s; h_stopped := h_stopped s;
     h_shutdown := true; h_d := h_d s; h_n := h_n s; h_crash := h_crash s; g_first := g_first s;
     g_next := g_next s; g_batch := g_batch s; g_sw := g_sw s; g_taken := g_taken s; g_dlog := g_dlog s;
     g_nlog := g_nlog s |}.

(** *** deliveryShim.Handle *)

(** The call with block [n]: dropped once delivery is off; the first one seeds. *)
Definition d_call (n : Z) (s : hybrid) : hybrid :=
  if h_off s then set_deliver (h_seeded s) DIdle (g_first s) (n + 1) s
  else if negb (h_seeded s) then set_deliver true (DSeed n) n (n + 1) s
  else set_deliver true (DClaim n) (g_first s) (n + 1) s.

Definition d_seed (n : Z) (s : hybrid) : hybrid :=
  match CompareAndSwap (h_claimed s) MinInt64 (n - 1) with
  | (true, c) => set_d c (h_dispatched s) (h_off s) (DSeeded n) s
  | (false, _) => set_crash CrashSeed s
  end.

Definition d_seeded (n : Z) (s : hybrid) : hybrid :=
  set_d (h_claimed s) (n - 1) (h_off s) (DClaim n) s.

Definition d_claim (n : Z) (s : hybrid) : hybrid :=
  match CompareAndSwap (h_claimed s) (n - 1) n with
  | (true, c) =>
      set_logs (g_taken s) (g_dlog s ++ [n]) (g_nlog s)
        (set_d c (h_dispatched s) (h_off s) (DRun n) s)
  | (false, c) => set_d c (h_dispatched s) true DIdle s
  end.

(** The handler chain returned; its failure is fatal unless the context is done. *)
Definition d_ran (n : Z) (ok : bool) (s : hybrid) : hybrid :=
  if ok then set_d (h_claimed s) (h_dispatched s) (h_off s) (DRan n) s
  else if h_shutdown s || h_stopped s
  then set_d (h_claimed s) (h_dispatched s) (h_off s) DEnded s
  else set_crash CrashHandler s.

Definition d_publish (n : Z) (s : hybrid) : hybrid := set_d (h_claimed s) n (h_off s) DIdle s.

(** *** notifGate.HandleBatch *)

(** [dispatchBatch] and the part of [AllTxBatchDispatcher.HandleBatch] that comes
    before the handlers: a batch without EVM transactions is over at once. *)
Definition dispatchBatch (b : AllTxBatch) (s : hybrid) : hybrid :=
  match evm_events (ab_Events b) with
  | [] => set_logs (g_taken s ++ [b]) (g_dlog s) (g_nlog s) (set_n (h_claimed s) NIdle s)
  | _ =>
      set_logs (g_taken s ++ [b]) (g_dlog s) (g_nlog s ++ [ab_BlockNumber b])
        (set_n (h_claimed s) (NRun b) s)
  end.

(** The call with a batch. *)
Definition n_call (b : AllTxBatch) (s : hybrid) : hybrid :=
  if h_switched s then dispatchBatch b (set_batch (h_n s) (ab_BlockNumber b) s)
  else set_batch (NClaim b) (ab_BlockNumber b) s.

Definition n_claim (b : AllTxBatch) (s : hybrid) : hybrid :=
  let n := ab_BlockNumber b in
  match CompareAndSwap (h_claimed s) (n - 1) n with
  | (true, c) => set_n c (NWait b) s
  | (false, c) => set_n c NIdle s
  end.

(** One look of [waitForDelivery] at [dispatched] ([deliveryReached]). *)
Definition n_wait (b : AllTxBatch) (s : hybrid) : hybrid :=
  let n := ab_BlockNumber b in
  if n - 1 <? h_dispatched s then set_crash CrashOvershoot s
  else if h_dispatched s =? n - 1 then set_n (h_claimed s) (NStop b) s
  else s.

(** [stopDelivery], the switch, and the dispatch of the batch. *)
Definition n_stop (b : AllTxBatch) (s : hybrid) : hybrid :=
  dispatchBatch b (set_switch (ab_BlockNumber b) s).

Definition n_ran (ok : bool) (s : hybrid) : hybrid :=
  if ok then set_n (h_claimed s) NIdle s
  else if h_shutdown s then set_n (h_claimed s) NEnded s
  else set_crash CrashHandler s.

(** Delivery hands over consecutive blocks; batches come in the order of their
    blocks, and in a lossless stream without gaps. *)
Section steps.
Context (lossless : bool).

Definition is_block (n : Z) : Prop := 0 ≤ n < 2 ^ 63.

Inductive hstep : hybrid → hybrid → Prop :=
| hs_deliver s n :
    h_crash s = None → h_d s = DIdle → is_block n →
    (g_next s = None ∨ g_next s = Some n) → hstep s (d_call n s)
| hs_seed s n : h_crash s = None → h_d s = DSeed n → hstep s (d_seed n s)
| hs_seeded s n : h_crash s = None → h_d s = DSeeded n → hstep s (d_seeded n s)
| hs_claim s n : h_crash s = None → h_d s = DClaim n → hstep s (d_claim n s)
| hs_ran s n ok : h_crash s = None → h_d s = DRun n → hstep s (d_ran n ok s)
| hs_publish s n : h_crash s = None → h_d s = DRan n → hstep s (d_publish n s)
| hs_batch s b :
    h_crash s = None → h_n s = NIdle → is_block (ab_BlockNumber b) →
    (∀ m, g_batch s = Some m → m < ab_BlockNumber b) →
    (lossless = true → ∀ m, g_batch s = Some m → ab_BlockNumber b = m + 1) →
    hstep s (n_call b s)
| hs_nclaim s b : h_crash s = None → h_n s = NClaim b → hstep s (n_claim b s)
| hs_nwait s b : h_crash s = None → h_n s = NWait b → hstep s (n_wait b s)
| hs_nwait_done s b :
    h_crash s = None → h_n s = NWait b → h_shutdown s = true →
    hstep s (set_n (h_claimed s) NEnded s)
| hs_nstop s b : h_crash s = None → h_n s = NStop b → hstep s (n_stop b s)
| hs_nran s b ok : h_crash s = None → h_n s = NRun b → hstep s (n_ran ok s)
| hs_shutdown s : h_crash s = None → hstep s (set_shutdown s).

Definition h_reachable (s : hybrid) : Prop := rtc hstep h_start s.
End steps.
