(* ===== verification/HybridProps.v ===== *)
(** * HybridProps: the two block services never collide

    The invariant of the start-up protocol of hybridx and what follows from it,
    and the agreement of the two paths on what reaches the handlers. *)

From Stdlib Require Import ZArith Lia.
From stdpp Require Import base numbers list list_numbers sorting strings relations.
From S2P Require Import Prelude Blocks KVSpec KVHistory LightKVS Codec Geth Domain Hybrid.

Local Open Scope Z_scope.

(** ** The invariant *)

(** Before delivery has installed the seed. *)
Record pre_inv (s : hybrid) : Prop := {
  pi_claimed : h_claimed s = MinInt64;
  pi_dispatched : h_dispatched s = MinInt64;
  pi_flags : h_off s = false ∧ h_switched s = false ∧ h_stopped s = false;
  pi_logs : g_dlog s = [] ∧ g_taken s = [] ∧ g_nlog s = [];
  pi_d : (h_d s = DIdle ∧ h_seeded s = false) ∨
         (∃ n, h_d s = DSeed n ∧ h_seeded s = true ∧ g_first s = n ∧ g_next s = Some (n + 1) ∧
               is_block n);
  pi_n : h_n s = NIdle ∨
         ∃ b, h_n s = NClaim b ∧ is_block (ab_BlockNumber b) ∧ g_batch s = Some (ab_BlockNumber b)
}.

(** What the delivery goroutine relies on; [t] is the last block that belongs to
    delivery. *)
Definition d_ok (t : Z) (tk : bool) (s : hybrid) : Prop :=
  match h_d s with
  | DIdle => h_dispatched s = t ∧ if h_off s then tk = true else g_next s = Some (t + 1)
  | DSeed _ => False
  | DSeeded n => t = n - 1 ∧ h_dispatched s = MinInt64 ∧ g_first s = n ∧
                 g_next s = Some (n + 1) ∧ h_off s = false
  | DClaim n => t = n - 1 ∧ h_dispatched s = t ∧ g_next s = Some (n + 1) ∧ h_off s = false
  | DRun n | DRan n => t = n ∧ h_dispatched s = n - 1 ∧ g_next s = Some (n + 1) ∧ h_off s = false
  | DEnded => h_dispatched s = t - 1
  end.

Definition n_ok (t : Z) (tk : bool) (s : hybrid) : Prop :=
  match h_n s with
  | NIdle => h_switched s = false → tk = false
  | NClaim b => h_switched s = false ∧ tk = false ∧ g_batch s = Some (ab_BlockNumber b)
  | NWait b => h_switched s = false ∧ tk = true ∧ ab_BlockNumber b = t + 1 ∧
               g_batch s = Some (ab_BlockNumber b)
  | NStop b => h_switched s = false ∧ tk = true ∧ ab_BlockNumber b = t + 1 ∧
               h_dispatched s = t ∧ g_batch s = Some (ab_BlockNumber b)
  | NRun _ => h_switched s = true
  | NEnded => True
  end.

(** The blocks notification has taken, and those of them that have something for
    the handlers. *)
Definition taken (s : hybrid) : list Z := ab_BlockNumber <$> g_taken s.

Definition has_evm (b : AllTxBatch) : Prop := evm_events (ab_Events b) ≠ [].

Definition taken_evm (s : hybrid) : list Z := ab_BlockNumber <$> filter has_evm (g_taken s).

Definition nlog_ok (lossless : bool) (t : Z) (s : hybrid) : Prop :=
  if h_switched s
  then ∃ rest, taken s = t + 1 :: rest ∧ StronglySorted Z.lt (taken s) ∧
       (∃ m, g_batch s = Some m ∧ last (taken s) = Some m) ∧
       (lossless = true → taken s = seqZ (t + 1) (Z.of_nat (length (taken s)))) ∧
       h_dispatched s = t
  else g_taken s = [] ∧ h_stopped s = false.

(** Afterwards: [tk] says that notification has claimed block [t + 1]. *)
Record post_inv (lossless : bool) (t : Z) (tk : bool) (s : hybrid) : Prop := {
  po_seeded : h_seeded s = true;
  po_claimed : h_claimed s = if tk then t + 1 else t;
  po_range : 0 ≤ g_first s ≤ t + 1;
  po_d : d_ok t tk s;
  po_n : n_ok t tk s;
  po_dlog : g_dlog s = seqZ (g_first s) (t - g_first s + 1);
  po_nlog : nlog_ok lossless t s;
  po_tk : h_switched s = true → tk = true;
  po_handled : g_nlog s = taken_evm s
}.

Definition hinv (lossless : bool) (s : hybrid) : Prop :=
  (h_crash s = None ∨ h_crash s = Some CrashHandler) ∧
  (pre_inv s ∨ ∃ t tk, post_inv lossless t tk s).

Lemma seqZ_snoc m k : 0 ≤ k → seqZ m (k + 1) = seqZ m k ++ [m + k].
Proof. intros Hk. rewrite seqZ_app, (seqZ_cons (m + k) 1) by lia. done. Qed.

Lemma StronglySorted_seqZ m k : StronglySorted Z.lt (seqZ m k).
Proof.
  destruct (Z.le_gt_cases k 0); [rewrite seqZ_nil by done; constructor|].
  revert m. rewrite <-(Z2Nat.id k) by lia. induction (Z.to_nat k) as [|n IH]; intros m.
  - constructor.
  - rewrite Nat2Z.inj_succ, seqZ_cons by lia. rewrite Z.pred_succ. constructor; [apply IH|].
    apply Forall_forall. intros x Hx%elem_of_seqZ. lia.
Qed.

Section steps.
Context (lossless : bool).

Lemma pre_deliver s n :
  h_d s = DIdle → is_block n → pre_inv s → pre_inv (d_call n s).
Proof.
  intros Hd Hn [Hc Hx (Ho & Hs & Hp) Hl Hdd Hnn]. unfold d_call. rewrite Ho.
  destruct Hdd as [[_ Hsd]|(m & Hm & _)]; [|congruence]. rewrite Hsd. simpl.
  split; simpl; auto. right. by exists n.
Qed.

Lemma pre_seed s n :
  h_crash s = None → h_d s = DSeed n → pre_inv s → hinv lossless (d_seed n s).
Proof.
  intros Hcr Hd [Hc Hx (Ho & Hs & Hp) (Hl & Ht & Hl') Hdd Hnn].
  destruct Hdd as [[? _]|(m & Hm & Hsd & Hf & Hnx & Hb)]; [congruence|].
  rewrite Hd in Hm. injection Hm as <-. unfold d_seed, CompareAndSwap. rewrite Hc. simpl.
  split; [by left|]. right. exists (n - 1), false. unfold is_block in *. split; simpl; auto.
  - rewrite Hf. lia.
  - unfold d_ok. simpl. auto 6.
  - unfold n_ok. simpl. destruct Hnn as [->|(m & -> & _ & Hm)]; auto.
  - rewrite Hf, Hl. replace (n - 1 - n + 1) with 0 by lia. done.
  - unfold nlog_ok. simpl. by rewrite Hs.
  - by rewrite Hs.
  - unfold taken_evm. simpl. by rewrite Ht.
Qed.

Lemma pre_nclaim s b : h_n s = NClaim b → pre_inv s → pre_inv (n_claim b s).
Proof.
  intros Hnn [Hc Hx (Ho & Hs & Hp) Hl Hdd Hn'].
  destruct Hn' as [?|(m & Hm & Hb & _)]; [congruence|]. rewrite Hnn in Hm. injection Hm as <-.
  unfold n_claim, CompareAndSwap. rewrite Hc.
  rewrite (proj2 (Z.eqb_neq _ _)) by (unfold is_block, MinInt64 in *; lia).
  split; simpl; auto.
Qed.

Lemma pre_step s s' : hstep lossless s s' → pre_inv s → hinv lossless s'.
Proof.
  intros Hs Hi. destruct Hs as [s n Hc Hd Hn _|s n Hc Hd|s n Hc Hd|s n Hc Hd|s n ok Hc Hd|s n Hc Hd
    |s n Hc Hd Hn _ _|s n Hc Hd|s n Hc Hd|s n Hc Hd _|s n Hc Hd|s n ok Hc Hd|s Hc].
  2:{ by apply pre_seed. }
  all: try (exfalso; destruct Hi as [_ _ _ _ [[? _]|(? & ? & _)] [?|(? & ? & _)]]; congruence).
  - split; [left|left; by apply pre_deliver]. unfold d_call. by repeat case_match.
  - assert (h_switched s = false) as Hsw by apply Hi. unfold n_call. rewrite Hsw.
    split; [by left|]. left. destruct Hi. split; simpl; auto. right. by exists n.
  - split; [left|left; by apply pre_nclaim]. unfold n_claim. by destruct (CompareAndSwap _ _ _) as [[] ?].
  - split; [by left|]. left. destruct Hi. by split.
Qed.

(** Delivery's moves once it is seeded. *)
Lemma post_deliver t tk s n :
  h_d s = DIdle → (g_next s = None ∨ g_next s = Some n) →
  post_inv lossless t tk s → post_inv lossless t tk (d_call n s).
Proof.
  intros Hd Hnx [Hsd Hc Hr Hdo Hno Hl Hnl Htk Hh]. unfold d_ok in Hdo. rewrite Hd in Hdo.
  destruct Hdo as [Hx Hoff]. unfold d_call. rewrite Hsd. destruct (h_off s) eqn:Ho; simpl.
  - split; simpl; auto. unfold d_ok. simpl. by rewrite Ho.
  - rewrite Hoff in Hnx. destruct Hnx as [?|[= <-]]; [done|].
    split; simpl; auto. unfold d_ok. simpl. rewrite Ho. repeat split; auto; lia.
Qed.

Lemma post_seeded t tk s n :
  h_d s = DSeeded n → post_inv lossless t tk s → post_inv lossless t tk (d_seeded n s).
Proof.
  intros Hd [Hsd Hc Hr Hdo Hno Hl Hnl Htk Hh]. unfold d_ok in Hdo. rewrite Hd in Hdo.
  destruct Hdo as (Ht & Hx & Hf & Hnx & Ho).
  assert (h_dispatched s ≠ t) as Hne by (unfold MinInt64 in *; lia).
  split; simpl; auto.
  - unfold d_ok. simpl. auto.
  - unfold n_ok in *. simpl. destruct (h_n s); try done. naive_solver.
  - unfold nlog_ok in *. simpl. destruct (h_switched s); [|done]. naive_solver.
Qed.

Lemma post_claim t tk s n :
  h_d s = DClaim n → post_inv lossless t tk s → ∃ t', post_inv lossless t' tk (d_claim n s).
Proof.
  intros Hd [Hsd Hc Hr Hdo Hno Hl Hnl Htk Hh]. unfold d_ok in Hdo. rewrite Hd in Hdo.
  destruct Hdo as (Ht & Hx & Hnx & Ho). unfold d_claim, CompareAndSwap. rewrite Hc.
  destruct tk.
  - rewrite (proj2 (Z.eqb_neq _ _)) by lia. exists t. split; simpl; auto. unfold d_ok. simpl. auto.
  - rewrite (proj2 (Z.eqb_eq _ _)) by lia. exists n.
    destruct (h_switched s) eqn:Hsw; [by specialize (Htk eq_refl)|].
    split; simpl; auto; [lia| | | | |congruence].
    + unfold d_ok. simpl. repeat split; auto; lia.
    + unfold n_ok in *. simpl. rewrite Hsw in *. destruct (h_n s); naive_solver.
    + rewrite Hl. replace (n - g_first s + 1) with ((t - g_first s + 1) + 1) by lia.
      rewrite (seqZ_snoc _ (t - g_first s + 1)) by lia. do 2 f_equal. lia.
    + unfold nlog_ok in *. simpl. by rewrite Hsw in *.
Qed.

Lemma post_ran t tk s n ok :
  h_crash s = None → h_d s = DRun n → post_inv lossless t tk s →
  hinv lossless (d_ran n ok s).
Proof.
  intros Hcr Hd Hi. unfold d_ran. destruct ok; [|destruct (h_shutdown s || h_stopped s)];
    (split; [simpl; by auto|]); right; exists t, tk.
  all: destruct Hi as [Hsd Hc Hr Hdo Hno Hl Hnl Htk Hh]; split; simpl; auto.
  - unfold d_ok in *. simpl. by rewrite Hd in Hdo.
  - unfold d_ok in *. simpl. rewrite Hd in Hdo. lia.
Qed.

Lemma post_publish t tk s n :
  h_d s = DRan n → post_inv lossless t tk s → post_inv lossless t tk (d_publish n s).
Proof.
  intros Hd [Hsd Hc Hr Hdo Hno Hl Hnl Htk Hh]. unfold d_ok in Hdo. rewrite Hd in Hdo.
  destruct Hdo as (-> & Hx & Hnx & Ho). split; simpl; auto.
  - unfold d_ok. simpl. by rewrite Ho.
  - unfold n_ok in *. simpl. destruct (h_n s); try done. naive_solver.
  - unfold nlog_ok in *. simpl. destruct (h_switched s); [|done]. naive_solver.
Qed.

(** Notification's moves. *)
Lemma sorted_snoc l m n :
  StronglySorted Z.lt l → last l = Some m → m < n → StronglySorted Z.lt (l ++ [n]).
Proof.
  intros Hs Hl Hn. apply StronglySorted_app_2; [|done|repeat constructor].
  intros x y Hx ->%list_elem_of_singleton.
  apply last_Some in Hl as [l' ->]. apply elem_of_app in Hx as [Hx|Hx].
  - enough (x < m) by lia. apply (StronglySorted_app_1_elem_of Z.lt l' [m] x m Hs Hx). left.
  - apply list_elem_of_singleton in Hx. lia.
Qed.

(** The dispatch of a batch that continues what notification has taken. *)
Lemma post_dispatch t s b :
  h_seeded s = true → h_claimed s = t + 1 → 0 ≤ g_first s ≤ t + 1 → d_ok t true s →
  g_dlog s = seqZ (g_first s) (t - g_first s + 1) → h_switched s = true → g_nlog s = taken_evm s →
  (∃ rest, taken s ++ [ab_BlockNumber b] = t + 1 :: rest) →
  StronglySorted Z.lt (taken s ++ [ab_BlockNumber b]) → g_batch s = Some (ab_BlockNumber b) →
  (lossless = true → ab_BlockNumber b = t + 1 + Z.of_nat (length (taken s)) ∧
                     taken s = seqZ (t + 1) (Z.of_nat (length (taken s)))) →
  h_dispatched s = t → post_inv lossless t true (dispatchBatch b s).
Proof.
  intros Hsd Hc Hr Hdo Hl Hsw Hh [rest He] Hs Hb Hls Hx.
  assert (∀ s', g_taken s' = g_taken s ++ [b] → taken s' = taken s ++ [ab_BlockNumber b]) as Htk.
  { intros s' Hs'. unfold taken. by rewrite Hs', fmap_app. }
  assert (∀ s', h_switched s' = true → g_taken s' = g_taken s ++ [b] → g_batch s' = g_batch s →
            h_dispatched s' = t → nlog_ok lossless t s') as Hnl.
  { intros s' Hsw' Hs' Hb' Hx'. unfold nlog_ok. rewrite Hsw', (Htk s' Hs').
    exists rest. split; [done|]. split; [done|].
    split; [exists (ab_BlockNumber b); rewrite Hb', last_snoc; done|]. split; [|done].
    intros Hll. destruct (Hls Hll) as [Hn Hq].
    rewrite length_app. simpl. rewrite Nat2Z.inj_add, (seqZ_snoc _ (Z.of_nat _)) by lia.
    rewrite <-Hq. by rewrite Hn. }
  unfold dispatchBatch. destruct (evm_events (ab_Events b)) as [|tx txs] eqn:Hev.
  all: split; simpl; auto; try (unfold n_ok; simpl; congruence); unfold taken_evm; simpl;
    rewrite filter_app, fmap_app, Hh.
  - rewrite filter_cons_False, filter_nil by (unfold has_evm; rewrite Hev; auto).
    simpl. by rewrite app_nil_r.
  - by rewrite filter_cons_True by (unfold has_evm; rewrite Hev; done).
Qed.

Lemma post_batch t tk s b :
  h_n s = NIdle → (∀ m, g_batch s = Some m → m < ab_BlockNumber b) →
  (lossless = true → ∀ m, g_batch s = Some m → ab_BlockNumber b = m + 1) →
  post_inv lossless t tk s → post_inv lossless t tk (n_call b s).
Proof.
  intros Hn Hlt Hls [Hsd Hc Hr Hdo Hno Hl Hnl Htk Hh]. unfold n_ok in Hno. rewrite Hn in Hno.
  unfold n_call. destruct (h_switched s) eqn:Hsw.
  - rewrite (Htk eq_refl) in *. unfold nlog_ok in Hnl. rewrite Hsw in Hnl.
    destruct Hnl as (rest & Hr' & Hs & (m & Hm & Hlast) & Hcons & Hx).
    apply post_dispatch; try done; unfold taken in *; simpl.
    + exists (rest ++ [ab_BlockNumber b]). by rewrite Hr'.
    + eapply sorted_snoc; eauto.
    + intros Hll. specialize (Hcons Hll). split; [|done]. rewrite (Hls Hll m Hm).
      rewrite Hcons in Hlast. rewrite last_lookup, length_seqZ in Hlast.
      apply lookup_seqZ in Hlast as [Hlast _]. rewrite Hr' in *. simpl in *. lia.
  - split; simpl; auto; [| |congruence].
    + unfold n_ok. simpl. auto.
    + unfold nlog_ok in *. simpl. by rewrite Hsw in *.
Qed.

Lemma post_nclaim t tk s b :
  h_n s = NClaim b → post_inv lossless t tk s → ∃ tk', post_inv lossless t tk' (n_claim b s).
Proof.
  intros Hn [Hsd Hc Hr Hdo Hno Hl Hnl Htk Hh]. unfold n_ok in Hno. rewrite Hn in Hno.
  destruct Hno as (Hsw & -> & Hb). unfold n_claim, CompareAndSwap. rewrite Hc.
  destruct (Z.eqb_spec t (ab_BlockNumber b - 1)) as [He|He].
  - exists true. split; simpl; auto; [lia| |].
    + unfold d_ok in *. simpl. destruct (h_d s); try done. destruct (h_off s); [by destruct Hdo|done].
    + unfold n_ok. simpl. repeat split; auto; lia.
  - exists false. split; simpl; auto. unfold n_ok. simpl. auto.
Qed.

Lemma post_nwait t tk s b :
  h_crash s = None → h_n s = NWait b → post_inv lossless t tk s → hinv lossless (n_wait b s).
Proof.
  intros Hcr Hn Hi. pose proof Hi as [Hsd Hc Hr Hdo Hno Hl Hnl Htk Hh].
  unfold n_ok in Hno. rewrite Hn in Hno. destruct Hno as (Hsw & -> & Hbn & Hb).
  assert (h_dispatched s ≤ t) as Hle.
  { unfold d_ok, MinInt64 in Hdo. destruct (h_d s); lia. }
  unfold n_wait. rewrite Hbn, (proj2 (Z.ltb_ge _ _)) by lia.
  destruct (Z.eqb_spec (h_dispatched s) (t + 1 - 1)) as [He|He].
  - split; [by left|]. right. exists t, true. split; simpl; auto. unfold n_ok. simpl.
    repeat split; auto; lia.
  - split; [by left|]. right. by exists t, true.
Qed.

Lemma post_nstop t tk s b :
  h_n s = NStop b → post_inv lossless t tk s → post_inv lossless t tk (n_stop b s).
Proof.
  intros Hn [Hsd Hc Hr Hdo Hno Hl Hnl Htk Hh]. unfold n_ok in Hno. rewrite Hn in Hno.
  destruct Hno as (Hsw & -> & Hbn & Hx & Hb). unfold nlog_ok in Hnl. rewrite Hsw in Hnl.
  destruct Hnl as [Hnl _].
  assert (taken (set_switch (ab_BlockNumber b) s) = []) as Ht by (unfold taken; simpl; by rewrite Hnl).
  apply post_dispatch; try done; rewrite ?Ht; simpl.
  - exists []. by rewrite Hbn.
  - repeat constructor.
  - intros _. split; [lia|done].
Qed.

Lemma post_nran t tk s b ok :
  h_crash s = None → h_n s = NRun b → post_inv lossless t tk s → hinv lossless (n_ran ok s).
Proof.
  intros Hcr Hn Hi. unfold n_ran. destruct ok; [|destruct (h_shutdown s)];
    (split; [simpl; by auto|]); right; exists t, tk.
  all: destruct Hi as [Hsd Hc Hr Hdo Hno Hl Hnl Htk Hh]; split; simpl; auto.
  all: unfold n_ok in *; simpl; rewrite Hn in Hno; congruence || done.
Qed.

Lemma hinv_step s s' : hstep lossless s s' → hinv lossless s → hinv lossless s'.
Proof.
  intros Hs [Hcr [Hi|(t & tk & Hi)]]; [by eapply pre_step|].
  destruct Hs as [s n Hc Hd Hn Hx|s n Hc Hd|s n Hc Hd|s n Hc Hd|s n ok Hc Hd|s n Hc Hd
    |s n Hc Hd Hn Hlt Hls|s n Hc Hd|s n Hc Hd|s n Hc Hd _|s n Hc Hd|s n ok Hc Hd|s Hc].
  - split; [left; unfold d_call; by repeat case_match|]. right. exists t, tk. by apply post_deliver.
  - destruct Hi as [_ _ _ Hdo _ _ _ _ _]. unfold d_ok in Hdo. by rewrite Hd in Hdo.
  - split; [by left|]. right. exists t, tk. by apply post_seeded.
  - split; [left; unfold d_claim; by destruct (CompareAndSwap _ _ _) as [[] ?]|]. right.
    destruct (post_claim _ _ _ _ Hd Hi) as [t' Hi']. by exists t', tk.
  - by eapply post_ran.
  - split; [by left|]. right. exists t, tk. by apply post_publish.
  - split; [left; unfold n_call, dispatchBatch; by repeat case_match|]. right. exists t, tk. by apply post_batch.
  - split; [left; unfold n_claim; by destruct (CompareAndSwap _ _ _) as [[] ?]|]. right.
    destruct (post_nclaim _ _ _ _ Hd Hi) as [tk' Hi']. by exists t, tk'.
  - by eapply post_nwait.
  - split; [by left|]. right. exists t, tk. destruct Hi. by split.
  - split; [left; unfold n_stop, dispatchBatch; by case_match|]. right. exists t, tk. by apply post_nstop.
  - by eapply post_nran.
  - split; [by left|]. right. exists t, tk. destruct Hi. by split.
Qed.

Lemma hinv_start : hinv lossless h_start.
Proof. split; [by left|]. left. split; simpl; auto. Qed.

Lemma reachable_hinv s : h_reachable lossless s → hinv lossless s.
Proof. intros Hr. pattern s. eapply rtc_ind_r; [apply hinv_start| |exact Hr]. eauto using hinv_step. Qed.
End steps.

(** Delivered and taken blocks rise. *)
Lemma delivered_sorted lossless t s :
  g_dlog s = seqZ (g_first s) (t - g_first s + 1) → nlog_ok lossless t s →
  StronglySorted Z.lt (g_dlog s ++ taken s).
Proof.
  intros Hdl Hnl. assert (StronglySorted Z.lt (g_dlog s)) as Hsd by (rewrite Hdl; apply StronglySorted_seqZ).
  unfold nlog_ok in Hnl. destruct (h_switched s).
  - destruct Hnl as (rest & He & Hss & _). apply StronglySorted_app_2; [|done|done]. intros x y Hx Hy.
    rewrite Hdl in Hx. apply elem_of_seqZ in Hx. rewrite He in Hy, Hss.
    apply elem_of_cons in Hy as [->|Hy]; [lia|].
    apply StronglySorted_inv in Hss as [_ Hss]. rewrite Forall_forall in Hss.
    specialize (Hss y Hy). lia.
  - unfold taken. destruct Hnl as [-> _]. simpl. by rewrite app_nil_r.
Qed.

Lemma sorted_sublist (l l' : list Z) :
  sublist l l' → StronglySorted Z.lt l' → StronglySorted Z.lt l.
Proof.
  induction 1 as [|x l l' Hl IH|x l l' Hl IH]; intros Hs; [done| |].
  - apply StronglySorted_inv in Hs as [Hs Hx]. constructor; [by apply IH|].
    rewrite Forall_forall in *. intros y Hy. apply Hx. by eapply elem_of_sublist.
  - apply StronglySorted_inv in Hs as [Hs _]. by apply IH.
Qed.

(** C14: whatever the interleaving of the two goroutines: the handler chain is
    never run by both paths at once; when notification cancels delivery's
    context, delivery is not inside the chain, and it never is again; and the
    two checks the code panics on, a seed that is not first and a delivery that
    passed the block notification owns, never fail. *)
Theorem hybrid_exclusive lossless s (Hr : h_reachable lossless s) :
  (∀ n m, h_d s = DRun n → h_n s ≠ NRun m) ∧
  (h_stopped s = true → ∀ n, h_d s ≠ DRun n ∧ h_d s ≠ DRan n) ∧
  (∀ m, h_n s = NStop m → ∀ n, h_d s ≠ DRun n) ∧
  h_crash s ≠ Some CrashSeed ∧ h_crash s ≠ Some CrashOvershoot.
Proof.
  destruct (reachable_hinv _ _ Hr) as [Hcr Hi].
  split; [|split; [|split; [|split; destruct Hcr as [-> | ->]; done]]].
  all: destruct Hi as [[_ _ (Ho & Hs & Hp) _ Hd Hn]|(t & tk & [_ _ _ Hdo Hno _ Hnl _ _])].
  - intros n m Hd'. destruct Hd as [[? _]|(? & ? & _)]; congruence.
  - intros n m Hd' Hn'. unfold d_ok in Hdo. rewrite Hd' in Hdo. unfold n_ok in Hno.
    rewrite Hn' in Hno. unfold nlog_ok in Hnl. rewrite Hno in Hnl.
    destruct Hnl as (? & _ & _ & _ & _ & ?). lia.
  - intros. congruence.
  - intros Hst n. unfold nlog_ok in Hnl. destruct (h_switched s);
      [|by destruct Hnl as [_ ?]; congruence].
    destruct Hnl as (? & _ & _ & _ & _ & ?).
    unfold d_ok in Hdo. split; intros Hd'; rewrite Hd' in Hdo; lia.
  - intros m Hm. destruct Hn as [?|(? & ? & _)]; congruence.
  - intros m Hm n Hd'. unfold d_ok in Hdo. rewrite Hd' in Hdo. unfold n_ok in Hno.
    rewrite Hm in Hno. lia.
Qed.

(** C35: the blocks that went through the handler chain, in order: delivery's are
    consecutive; the first block notification takes is the one that follows them;
    of the blocks it takes, those whose batch has an EVM transaction reach the
    handlers and no others; block numbers only ever rise, so no block is handled
    twice.  If the notification stream loses nothing, the blocks delivered and
    taken are consecutive, so the only blocks the handlers do not see are those
    whose batch has no EVM transaction. *)
Theorem hybrid_ordered lossless s (Hr : h_reachable lossless s) :
  (g_dlog s = seqZ (g_first s) (Z.of_nat (length (g_dlog s)))) ∧
  (∀ b rest, g_taken s = b :: rest →
   ab_BlockNumber b = g_first s + Z.of_nat (length (g_dlog s))) ∧
  g_nlog s = ab_BlockNumber <$> filter has_evm (g_taken s) ∧
  StronglySorted Z.lt (g_dlog s ++ (ab_BlockNumber <$> g_taken s)) ∧
  StronglySorted Z.lt (g_dlog s ++ g_nlog s) ∧
  (lossless = true →
   g_dlog s ++ (ab_BlockNumber <$> g_taken s) =
     seqZ (g_first s) (Z.of_nat (length (g_dlog s ++ (ab_BlockNumber <$> g_taken s))))).
Proof.
  destruct (reachable_hinv _ _ Hr) as
    [_ [[_ _ _ (Hdl & Htn & Hnl) _ _]|(t & tk & [_ _ Hrg _ _ Hdl Hnl _ Hh])]].
  { rewrite Hdl, Htn, Hnl. split; [done|]. split; [done|]. split; [done|].
    split; [constructor|]. split; [constructor|done]. }
  assert (Z.of_nat (length (g_dlog s)) = t - g_first s + 1) as Hlen
    by (rewrite Hdl, length_seqZ; lia).
  assert (g_dlog s = seqZ (g_first s) (Z.of_nat (length (g_dlog s)))) as Hcon by by rewrite Hlen.
  assert (StronglySorted Z.lt (g_dlog s ++ taken s)) as Hsort by by eapply delivered_sorted.
  split; [done|]. split; [|split; [exact Hh|]; split; [exact Hsort|]; split].
  - intros b rest Hb. unfold nlog_ok, taken in Hnl. rewrite Hb in Hnl. destruct (h_switched s).
    + destruct Hnl as (r & He & _). simpl in He. injection He as ->. lia.
    + by destruct Hnl.
  - rewrite Hh. eapply sorted_sublist; [|exact Hsort].
    apply sublist_app; [done|]. apply fmap_sublist, sublist_filter.
  - intros Hl. change (ab_BlockNumber <$> g_taken s) with (taken s).
    unfold nlog_ok in Hnl. destruct (h_switched s).
    + destruct Hnl as (rest & He & _ & _ & Hll & _). specialize (Hll Hl).
      rewrite length_app, Nat2Z.inj_add, seqZ_app by lia.
      rewrite Hcon at 1. f_equal. rewrite Hll at 1. f_equal. lia.
    + unfold taken. destruct Hnl as [-> _]. simpl. by rewrite app_nil_r.
Qed.

(** ** The two paths agree *)

Section paths.
Context {S E : Type}.

(** A handler that reads only the number and the transactions of a block. *)
Definition header_blind (h : @BlockHandler S E) : Prop := ∀ b b' s,
  b_Number b = b_Number b' → b_Transactions b = b_Transactions b' → h b s = h b' s.

Lemma dispatch_blind (hs : list (@BlockHandler S E)) : Forall header_blind hs →
  header_blind (dispatch hs).
Proof.
  induction 1 as [|h hs Hh _ IH]; intros b b' s Hn Ht; simpl; [done|].
  rewrite (Hh b b' s Hn Ht). destruct (h b' s) as [s' [e|]]; [done|]. by apply IH.
Qed.

Lemma omap_filter_evm ns l :
  Forall (λ tx, is_Some (ns_tx ns tx) → is_Some (EVMTx tx)) l →
  omap (ns_tx ns) (evm_events l) = omap (ns_tx ns) l.
Proof.
  unfold evm_events. induction 1 as [|tx l Htx _ IH]; [done|].
  rewrite filter_cons. case_decide as Hd; simpl.
  - destruct (ns_tx ns tx); [f_equal|]; exact IH.
  - destruct (ns_tx ns tx) eqn:Hns; [|exact IH]. exfalso. apply Hd, Htx. by eexists.
Qed.

(** It does not matter which service hands a block over.  If every
    transaction of the namespace is an EVM transaction and the handlers behind
    the filter look only at a block's number and transactions, then a batch with
    the events of a block has the same effect as the delivered block, except
    that a batch without EVM transactions is not handed on at all, where
    delivery hands on an empty block. *)
Theorem paths_agree ns (hs : list (@BlockHandler S E)) ctx_done now b batch s
    (Hblind : Forall header_blind hs)
    (Hev : ab_Events batch = b_Transactions b) (Hn : ab_BlockNumber batch = b_Number b)
    (Hevm : Forall (λ tx, is_Some (ns_tx ns tx) → is_Some (EVMTx tx)) (b_Transactions b)) :
  (evm_events (ab_Events batch) ≠ [] →
   HandleBatch ctx_done [nsFilter ns hs] now batch s =
     match nsFilter ns hs b s with
     | (s', None) => Done (s', None)
     | (s', Some e) => if ctx_done then Done (s', Some e) else Panic "handler failed"
     end) ∧
  (evm_events (ab_Events batch) = [] →
   HandleBatch ctx_done [nsFilter ns hs] now batch s = Done (s, None) ∧
   b_Transactions (ns_block ns b) = []).
Proof.
  unfold HandleBatch. split; intros Hl.
  - destruct (evm_events (ab_Events batch)) as [|tx txs] eqn:He; [done|]. simpl.
    assert (nsFilter ns hs (batch_block now batch) s = nsFilter ns hs b s) as ->.
    { apply dispatch_blind; [done|exact Hn|]. simpl. rewrite Hev. by apply omap_filter_evm. }
    by destruct (nsFilter ns hs b s) as [s' [e|]].
  - rewrite Hl. split; [done|]. simpl. rewrite <-(omap_filter_evm _ _ Hevm), <-Hev, Hl. done.
Qed.
End paths.

(** ** Concrete runs *)

Definition evm_demo_tx (name : string) : Transaction := {|
  tx_ID := "t"; tx_Number := 0; tx_Status := StatusCommitted;
  tx_NsRWS := [{| ns_Namespace := "evm"; ns_RWS := {| rws_Reads := [];
    rws_Writes := [{| kw_Key := "k"; kw_IsDelete := false; kw_Value := Some [7] |}] |} |}];
  tx_EventName := name; tx_Event := []; tx_InputArgs := [[1]]; tx_Payload := [] |}.

(** A batch with an EVM transaction, and one without. *)
Definition evm_batch (n : Z) : AllTxBatch := {|
  ab_BlockNumber := n; ab_Events := [evm_demo_tx "evm_tx"] |}.

Definition quiet_batch (n : Z) : AllTxBatch := {|
  ab_BlockNumber := n; ab_Events := [evm_demo_tx "other"] |}.

(** A block for delivery, a batch for notification, and one atomic operation of
    either goroutine. *)
Inductive hmove := MvDeliver (n : Z) | MvD (ok : bool) | MvBatch (b : AllTxBatch) | MvN (ok : bool).

Definition hexec (m : hmove) (s : hybrid) : option hybrid :=
  match h_crash s, m with
  | None, MvDeliver n =>
      match h_d s with
      | DIdle => if bool_decide (is_block n ∧ (g_next s = None ∨ g_next s = Some n))
                 then Some (d_call n s) else None
      | _ => None
      end
  | None, MvD ok =>
      match h_d s with
      | DSeed n => Some (d_seed n s)
      | DSeeded n => Some (d_seeded n s)
      | DClaim n => Some (d_claim n s)
      | DRun n => Some (d_ran n ok s)
      | DRan n => Some (d_publish n s)
      | _ => None
      end
  | None, MvBatch b =>
      let n := ab_BlockNumber b in
      match h_n s with
      | NIdle => if bool_decide (is_block n ∧ (g_batch s = None ∨ g_batch s = Some (n - 1)))
                 then Some (n_call b s) else None
      | _ => None
      end
  | None, MvN ok =>
      match h_n s with
      | NClaim b => Some (n_claim b s)
      | NWait b => Some (n_wait b s)
      | NStop b => Some (n_stop b s)
      | NRun _ => Some (n_ran ok s)
      | _ => None
      end
  | _, _ => None
  end.

Lemma hexec_step lossless m s s' : hexec m s = Some s' → hstep lossless s s'.
Proof.
  unfold hexec. intros He. destruct (h_crash s) eqn:Hc; [done|].
  destruct m as [n|ok|b|ok].
  - destruct (h_d s) eqn:Hd; try done. case_bool_decide as Hb; [|done].
    injection He as <-. destruct Hb. by apply hs_deliver.
  - destruct (h_d s) eqn:Hd; try done; injection He as <-.
    + by apply hs_seed.
    + by apply hs_seeded.
    + by apply hs_claim.
    + by apply hs_ran.
    + by apply hs_publish.
  - destruct (h_n s) eqn:Hn; try done. case_bool_decide as Hb; [|done]. injection He as <-.
    destruct Hb as [? [Hg|Hg]]; apply hs_batch; try done; rewrite Hg; naive_solver lia.
  - destruct (h_n s) eqn:Hn; try done; injection He as <-.
    + by apply hs_nclaim.
    + by apply hs_nwait.
    + by apply hs_nstop.
    + by eapply hs_nran.
Qed.

Fixpoint hexec_all (ms : list hmove) (s : hybrid) : option hybrid :=
  match ms with [] => Some s | m :: ms => s' ← hexec m s; hexec_all ms s' end.

Lemma hexec_reachable lossless ms : ∀ s s', hexec_all ms s = Some s' → rtc (hstep lossless) s s'.
Proof.
  induction ms as [|m ms IH]; intros s s' He; simpl in He; [injection He as <-; apply rtc_refl|].
  apply bind_Some in He as (s1 & H1 & H2). eapply rtc_l; [by eapply hexec_step|by apply IH].
Qed.

(** Delivery seeds at block 5 and runs it; notification drops the batch of block
    5, claims block 6 while delivery is inside block 5, waits, takes over and
    handles 6 and 7; delivery then loses its claim on 6. *)
Definition handover : list hmove :=
  [MvDeliver 5; MvD true; MvD true; MvD true; MvBatch (evm_batch 5); MvN true;
   MvBatch (evm_batch 6); MvN true; MvN true; MvD true; MvD true; MvN true; MvDeliver 6; MvN true;
   MvD true; MvN true; MvBatch (evm_batch 7)].

Definition hrun (ms : list hmove) : hybrid := default h_start (hexec_all ms h_start).

Lemma hrun_reachable lossless ms :
  match hexec_all ms h_start with Some _ => true | None => false end = true →
  h_reachable lossless (hrun ms).
Proof.
  unfold hrun. intros Hs. destruct (hexec_all ms h_start) as [s|] eqn:He; [|done].
  by eapply hexec_reachable.
Qed.

Lemma hybrid_exclusive_witness :
  h_n (hrun handover) = NRun (evm_batch 7) ∧ h_off (hrun handover) = true ∧
  h_crash (hrun handover) ≠ Some CrashOvershoot.
Proof.
  split; [vm_compute; reflexivity|]. split; [vm_compute; reflexivity|].
  apply (hybrid_exclusive true). apply hrun_reachable. vm_compute. reflexivity.
Defined.

(** The same with a quiet block 7 and an EVM transaction in block 8. *)
Definition quiet_run : list hmove :=
  take 16 handover ++ [MvBatch (quiet_batch 7); MvBatch (evm_batch 8)].

Lemma hybrid_ordered_witness :
  g_nlog (hrun quiet_run) = [6; 8] ∧ (ab_BlockNumber <$> g_taken (hrun quiet_run)) = [6; 7; 8] ∧
  StronglySorted Z.lt (g_dlog (hrun quiet_run) ++ g_nlog (hrun quiet_run)).
Proof.
  split; [vm_compute; reflexivity|]. split; [vm_compute; reflexivity|].
  apply (hybrid_ordered true). apply hrun_reachable. vm_compute. reflexivity.
Defined.

(** Nothing is lost, and block 7 still reaches no handler: the blocks they see are
    not consecutive after the hand-over. *)
Lemma quiet_block_unseen :
  h_reachable true (hrun quiet_run) ∧ h_crash (hrun quiet_run) = None ∧
  g_dlog (hrun quiet_run) ++ g_nlog (hrun quiet_run) = [5; 6; 8].
Proof. split; [apply hrun_reachable|split]; vm_compute; reflexivity. Qed.

(** After the hand-over a stream that is restarted may skip blocks; delivery is
    off for good, so the skipped block reaches no handler. *)
Lemma restart_leaves_hole :
  ∃ s, h_reachable false s ∧ h_stopped s = true ∧ h_off s = true ∧
       h_crash s = None ∧ g_dlog s ++ g_nlog s = [5; 6; 7; 9].
Proof.
  exists (n_call (evm_batch 9) (n_ran true (hrun handover))). split.
  - assert (h_reachable false (hrun handover)) as Hr
      by (apply hrun_reachable; vm_compute; reflexivity).
    eapply rtc_r; [eapply rtc_r; [exact Hr|eapply (hs_nran _ _ (evm_batch 7)); vm_compute; reflexivity]|].
    apply hs_batch; try (vm_compute; reflexivity); [split; vm_compute; done| |done].
    intros m Hm. vm_compute in Hm. injection Hm as <-. simpl. lia.
  - repeat split; vm_compute; reflexivity.
Qed.

(** LightKVS behind the filter. *)
Definition kvs_handler : @BlockHandler LightKVS replay_error := λ b kvs,
  match Handle b kvs with Done (e, kvs') => (kvs', e) | Panic _ => (kvs, None) end.

Lemma kvs_handler_blind : header_blind kvs_handler.
Proof.
  intros b b' s Hn Ht. unfold kvs_handler, Handle, blockUpdates. by rewrite Hn, Ht.
Qed.

Definition demo_chain_block (name : string) : Block := {|
  b_Number := 3; b_Hash := [9]; b_ParentHash := [8]; b_Timestamp := 100;
  b_Transactions := [evm_demo_tx name] |}.

Definition demo_batch (name : string) : AllTxBatch := {|
  ab_BlockNumber := 3; ab_Events := [evm_demo_tx name] |}.

Definition fresh4 : LightKVS :=
  {| Current := placeholder; History := replicate 4 None; NextIndex := 0 |}.

Lemma paths_agree_witness :
  HandleBatch false [nsFilter "evm" [kvs_handler]] 555 (demo_batch "evm_tx") fresh4 =
  (match nsFilter "evm" [kvs_handler] (demo_chain_block "evm_tx") fresh4 with
   | (s', None) => Done (s', None)
   | (s', Some e) => Panic "handler failed"
   end).
Proof.
  apply (paths_agree "evm" [kvs_handler] false 555 (demo_chain_block "evm_tx")
           (demo_batch "evm_tx") fresh4).
  - repeat constructor. apply kvs_handler_blind.
  - reflexivity.
  - reflexivity.
  - repeat constructor. intros _. vm_compute. by eexists.
  - vm_compute. discriminate.
Defined.

(** A transaction of the namespace that is not an EVM transaction is applied by
    the delivery path and dropped by the notification path. *)
Lemma non_evm_write_dropped :
  b_Transactions (ns_block "evm" (demo_chain_block "other")) = [evm_demo_tx "other"] ∧
  HandleBatch false [nsFilter "evm" [kvs_handler]] 555 (demo_batch "other") fresh4 =
    Done (fresh4, None).
Proof. split; vm_compute; reflexivity. Qed.
