(* ===== verification/Executor.v ===== *)
(** * Executor: running an Ethereum transaction for an endorsement

    endorser/execution/executor.go: [PrepareMessage], [ApplyMessage], [execute],
    [Send] and [Call] of the per-transaction executor, and the engine around it
    with its state queries.  The EVM itself is go-ethereum's: the interface
    [GethEVM] has its entry point as a program over the [StateDB] operations
    (finite, since gas bounds every run), the sender recovery and the message
    conversion. *)

From Stdlib Require Import ZArith Lia.
From stdpp Require Import base numbers list strings.
From S2P Require Import Prelude Blocks Codec Geth StateDB StateDBProps Domain.

Local Open Scope Z_scope.

(** ** Errors *)

(** Go error values as the code inspects them: an error from elsewhere with its
    text and whether it wraps [vm.ErrExecutionReverted], the two tags of the
    package, and [fmt.Errorf] with a wrapped error. *)
Inductive go_error :=
| ErrorLeaf (msg : string) (reverted : bool)
| TxRejected (err : go_error)
| ExecFailure (err : go_error)
| Wrapf (prefix : string) (err : go_error).

Fixpoint Error (e : go_error) : string :=
  match e with
  | ErrorLeaf msg _ => msg
  | TxRejected e | ExecFailure e => Error e
  | Wrapf prefix e => prefix +:+ ": " +:+ Error e
  end.

(** [errors.Is(e, vm.ErrExecutionReverted)]. *)
Fixpoint Is_reverted (e : go_error) : bool :=
  match e with
  | ErrorLeaf _ reverted => reverted
  | TxRejected e | ExecFailure e | Wrapf _ e => Is_reverted e
  end.

(** [errors.AsType] for the two tags. *)
Fixpoint As_ExecFailure (e : go_error) : bool :=
  match e with
  | ErrorLeaf _ _ => false
  | ExecFailure _ => true
  | TxRejected e | Wrapf _ e => As_ExecFailure e
  end.

Fixpoint As_TxRejected (e : go_error) : bool :=
  match e with
  | ErrorLeaf _ _ => false
  | TxRejected _ => true
  | ExecFailure e | Wrapf _ e => As_TxRejected e
  end.

(** An error with none of the three marks. *)
Definition untagged (e : go_error) : Prop :=
  Is_reverted e = false ∧ As_ExecFailure e = false ∧ As_TxRejected e = false.

Definition errors_New (msg : string) : go_error := ErrorLeaf msg false.

Definition ErrNonceTooLow : go_error := errors_New "nonce too low".
Definition ErrNonceTooHigh : go_error := errors_New "nonce too high".

(** An error of go-ethereum: its text and whether it wraps
    [vm.ErrExecutionReverted].  It never carries a tag of this package. *)
Record geth_error := { ge_msg : string; ge_reverted : bool }.

Definition of_geth (g : geth_error) : go_error := ErrorLeaf (ge_msg g) (ge_reverted g).

(** [fmt.Errorf("%w: %v", vm.ErrExecutionReverted, reason)]. *)
Definition reverted_with (reason : string) : go_error :=
  ErrorLeaf ("execution reverted: " +:+ reason) true.

(** ** Messages *)

Section messages.
Context {G : GethTypes}.

(** [core.Message]; a set-code authorization is kept as its encoding. *)
Record Message := {
  m_From : Address;
  m_To : option Address;
  m_Nonce : Z;
  m_Value : Z;
  m_GasLimit : Z;
  m_GasPrice : Z;
  m_GasFeeCap : Z;
  m_GasTipCap : Z;
  m_Data : byte_slice;
  m_AccessList : list (Address * list Hash);
  m_BlobGasFeeCap : Z;
  m_BlobHashes : list Hash;
  m_SetCodeAuthorizations : list byte_slice;
  m_SkipNonceCheck : bool;
  m_SkipEOACheck : bool;
  m_SkipGasLimitCapCheck : bool
}.

(** [ethereum.CallMsg]; the big integers may be nil. *)
Record CallMsg := {
  cm_From : Address;
  cm_To : option Address;
  cm_Gas : Z;
  cm_GasPrice : option Z;
  cm_GasFeeCap : option Z;
  cm_GasTipCap : option Z;
  cm_Value : option Z;
  cm_Data : byte_slice;
  cm_AccessList : list (Address * list Hash);
  cm_BlobGasFeeCap : option Z;
  cm_BlobHashes : list Hash;
  cm_AuthorizationList : list byte_slice
}.

(** [vm.BlockContext]; the transfer functions are go-ethereum's own. *)
Record BlockContext := {
  bc_GetHash : Z → Hash;
  bc_Coinbase : Address;
  bc_BlockNumber : Z;
  bc_Time : Z;
  bc_Difficulty : Z;
  bc_Random : option Hash;
  bc_GasLimit : Z;
  bc_BaseFee : Z;
  bc_BlobBaseFee : option Z
}.

(** [core.ExecutionResult]. *)
Record ExecResult := {
  x_Err : option geth_error;
  x_UsedGas : Z;
  x_MaxUsedGas : Z;
  x_ReturnData : option byte_slice
}.
End messages.

(** What the executor calls of go-ethereum. *)
Class GethEVM (G : GethTypes) (T : EthTxTypes G) := {
  ChainConfig : Type;
  IsCancun : ChainConfig → Z → Z → bool;
  CalcBlobFee : ChainConfig → Z → Z;
  MustFromBig : Z → outcome Z;
  signer_Sender : ChainConfig → Z → Z → EthTx → result geth_error Address;
  TransactionToMessage : ChainConfig → Z → Z → EthTx → Z → result geth_error Message;
  core_ApplyMessage :
    ChainConfig → BlockContext → Message → Z → prog (result geth_error ExecResult);
  UnpackRevert : option byte_slice → option string
}.

(** An error [core.ApplyMessage] returns is a rejection before the EVM runs, so
    never a revert; the sender recovery and the message conversion run no EVM
    code either. *)
Class GethEVMLaws (G : GethTypes) (T : EthTxTypes G) (V : GethEVM G T) := {
  ApplyMessage_reject cfg bctx msg gp c s e s' :
    run c (core_ApplyMessage cfg bctx msg gp) s = Done (Err e, s') →
    ge_reverted e = false;
  Sender_reject cfg n t tx e :
    signer_Sender cfg n t tx = Err e → ge_reverted e = false;
  Message_reject cfg n t tx fee e :
    TransactionToMessage cfg n t tx fee = Err e → ge_reverted e = false;
  Message_gas cfg n t tx fee msg :
    TransactionToMessage cfg n t tx fee = Ok msg → is_u64 (m_GasLimit msg);
  ApplyMessage_gas cfg bctx msg gp c s x s' :
    run c (core_ApplyMessage cfg bctx msg gp) s = Done (Ok x, s') →
    0 ≤ x_UsedGas x ∧ x_UsedGas x ≤ x_MaxUsedGas x ∧ x_MaxUsedGas x ≤ m_GasLimit msg
}.

Section executor.
Context {G : GethTypes} {T : EthTxTypes G} {C : EthCodec G T} {V : GethEVM G T}.

Abbreviation sdb := (st StateDB).

(** ** The executor *)

Record EVMConfig := {
  ec_ChainConfig : option ChainConfig;
  ec_MaxTxGas : Z
}.

(** The [StateDB] is threaded as state; its fixed part is the [config]. *)
Record Executor := {
  ex_config : config;
  ex_ChainCfg : ChainConfig;
  ex_BlockCtx : BlockContext;
  ex_maxTxGas : Z
}.

Definition defaultGasLimit : Z := 300_000_000.

Definition NewExecutor (c : config) (blockNumber : option Z) (blockTime : Z)
    (evmConfig : EVMConfig) : result go_error Executor :=
  match ec_ChainConfig evmConfig with
  | None => Err (errors_New "evmConfig.ChainConfig must be set")
  | Some cfg =>
      if blockTime =? 0 then Err (errors_New "blockTime is required")
      else
        let blockNumber := default 0 blockNumber in
        Ok {| ex_config := c;
              ex_ChainCfg := cfg;
              ex_BlockCtx := {|
                bc_GetHash := λ _, Hash_zero;
                bc_Coinbase := BytesToAddress [0];
                bc_BlockNumber := blockNumber;
                bc_Time := blockTime;
                bc_Difficulty := 0;
                bc_Random := Some Hash_zero;
                bc_GasLimit := defaultGasLimit;
                bc_BaseFee := 0;
                bc_BlobBaseFee :=
                  if IsCancun cfg blockNumber blockTime then Some (CalcBlobFee cfg 0) else None
              |};
              ex_maxTxGas := ec_MaxTxGas evmConfig |}
  end.

(** The three gas prices of a call: [baseFee] [None] is nil. *)
Definition call_prices (msg : CallMsg) (baseFee : option Z) : Z * Z * Z :=
  match baseFee, cm_GasPrice msg with
  | None, p => (default 0 p, default 0 p, default 0 p)
  | Some _, Some p => (p, p, p)
  | Some fee, None =>
      let gasFeeCap := default 0 (cm_GasFeeCap msg) in
      let gasTipCap := default 0 (cm_GasTipCap msg) in
      let gasPrice :=
        if negb (gasFeeCap =? 0) || negb (gasTipCap =? 0)
        then (if gasFeeCap <? gasTipCap + fee then gasFeeCap else gasTipCap + fee)
        else 0 in
      (gasPrice, gasFeeCap, gasTipCap)
  end.

Definition callMsgToMessage (msg : CallMsg) (baseFee : option Z)
    (skipNonceCheck skipTxCheck : bool) : outcome Message :=
  let '(gasPrice, gasFeeCap, gasTipCap) := call_prices msg baseFee in
  match MustFromBig (default 0 (cm_Value msg)), MustFromBig gasPrice, MustFromBig gasFeeCap,
        MustFromBig gasTipCap, MustFromBig (default 0 (cm_BlobGasFeeCap msg)) with
  | Done value, Done gasPrice, Done gasFeeCap, Done gasTipCap, Done blobGasFeeCap =>
      Done {| m_From := cm_From msg; m_To := cm_To msg; m_Nonce := 0; m_Value := value;
              m_GasLimit := cm_Gas msg; m_GasPrice := gasPrice; m_GasFeeCap := gasFeeCap;
              m_GasTipCap := gasTipCap; m_Data := cm_Data msg;
              m_AccessList := cm_AccessList msg; m_BlobGasFeeCap := blobGasFeeCap;
              m_BlobHashes := cm_BlobHashes msg;
              m_SetCodeAuthorizations := cm_AuthorizationList msg;
              m_SkipNonceCheck := skipNonceCheck; m_SkipEOACheck := skipTxCheck;
              m_SkipGasLimitCapCheck := skipTxCheck |}
  | _, _, _, _, _ => Panic "overflow"
  end.

(** The results [(ret, usedGas, maxUsedGas, err)]. *)
Record exec_ret := {
  r_ret : option byte_slice;
  r_usedGas : Z;
  r_maxUsedGas : Z;
  r_err : option go_error
}.

Definition rejected (e : go_error) : exec_ret := {|
  r_ret := None; r_usedGas := 0; r_maxUsedGas := 0; r_err := Some (TxRejected e) |}.

(** The error a finished EVM run is reported with. *)
Definition result_error (x : ExecResult) : option go_error :=
  match x_Err x with
  | None => None
  | Some err =>
      if ge_reverted err
      then match UnpackRevert (x_ReturnData x) with
           | Some reason => Some (reverted_with reason)
           | None => Some (of_geth err)
           end
      else Some (ExecFailure (of_geth err))
  end.

Definition ApplyMessage (h : Executor) (msg : Message) : sdb exec_ret :=
  snapshot ← TakeSnapshot;
  result ← run (ex_config h)
             (core_ApplyMessage (ex_ChainCfg h) (ex_BlockCtx h) msg (bc_GasLimit (ex_BlockCtx h)));
  match result with
  | Err err => RevertToSnapshot snapshot;; mret (rejected (of_geth err))
  | Ok x =>
      mret {| r_ret := x_ReturnData x; r_usedGas := x_UsedGas x; r_maxUsedGas := x_MaxUsedGas x;
              r_err := result_error x |}
  end.

(** The production defaults [execute] applies to a message. *)
Definition with_defaults (maxTxGas : Z) (msg : Message) : Message :=
  let gasLimit := if m_GasLimit msg =? 0 then 5_000_000 else m_GasLimit msg in
  {| m_From := m_From msg; m_To := m_To msg; m_Nonce := m_Nonce msg; m_Value := m_Value msg;
     m_GasLimit := if (0 <? maxTxGas) && (maxTxGas <? gasLimit) then maxTxGas else gasLimit;
     m_GasPrice := 0; m_GasFeeCap := 0; m_GasTipCap := 0; m_Data := m_Data msg;
     m_AccessList := m_AccessList msg; m_BlobGasFeeCap := m_BlobGasFeeCap msg;
     m_BlobHashes := m_BlobHashes msg; m_SetCodeAuthorizations := m_SetCodeAuthorizations msg;
     m_SkipNonceCheck := m_SkipNonceCheck msg; m_SkipEOACheck := m_SkipEOACheck msg;
     m_SkipGasLimitCapCheck := m_SkipGasLimitCapCheck msg |}.

Definition execute (h : Executor) (msg : Message) : sdb exec_ret :=
  ApplyMessage h (with_defaults (ex_maxTxGas h) msg).

(** [PrepareMessage]: signature, then nonce, then conversion. *)
Definition PrepareMessage (h : Executor) (tx : EthTx) : sdb (result go_error Message) :=
  let number := bc_BlockNumber (ex_BlockCtx h) in
  let time := bc_Time (ex_BlockCtx h) in
  match signer_Sender (ex_ChainCfg h) number time tx with
  | Err err => mret (Err (of_geth err))
  | Ok from =>
      ledgerNonce ← GetNonce (ex_config h) from;
      mret (if Tx_Nonce tx <? ledgerNonce then Err ErrNonceTooLow
            else if ledgerNonce <? Tx_Nonce tx then Err ErrNonceTooHigh
            else match TransactionToMessage (ex_ChainCfg h) number time tx
                         (bc_BaseFee (ex_BlockCtx h)) with
                 | Err err => Err (of_geth err)
                 | Ok msg => Ok msg
                 end)
  end.

Definition Send (h : Executor) (tx : EthTx) : sdb exec_ret :=
  msg ← PrepareMessage h tx;
  match msg with
  | Err err => mret (rejected err)
  | Ok msg => execute h msg
  end.

Definition Executor_Call (h : Executor) (msg : CallMsg) : sdb exec_ret :=
  m ← lift (callMsgToMessage msg (Some (bc_BaseFee (ex_BlockCtx h))) true true);
  execute h m.
End executor.
