(* ===== verification/Engine.v ===== *)
(** * Engine: from a transaction to an endorsement

    The EVM engine of endorser/execution/executor.go (snapshot, execution,
    result, state queries), common/proposal.go and common/callerror.go, and the
    endorser of endorser/core/endorser.go with its time-stamp window and status
    codes.  The SDK's result and response builders and the encoders are the
    interface [EndorsementSDK]. *)

From Stdlib Require Import ZArith Lia.
From stdpp Require Import base numbers list strings.
From S2P Require Import Prelude Blocks Codec Geth StateDB StateDBProps Domain Executor.

Local Open Scope Z_scope.

(** ** common/proposal.go, common/callerror.go *)

Definition StatusOK : Z := 200.
Definition StatusEVMRevert : Z := 201.
Definition StatusExecFailure : Z := 202.
Definition StatusTxRejected : Z := 400.
Definition StatusServerError : Z := 500.

Record CallError := {
  ce_Status : Z;
  ce_Message : string;
  ce_Data : option byte_slice
}.

Definition ce_Reverted (e : CallError) : bool := ce_Status e =? StatusEVMRevert.

(** ** The SDK *)

(** [endorsement.ExecutionResult]. *)
Record ExecutionResult := {
  e_Status : Z;
  e_Message : string;
  e_RWS : ReadWriteSet;
  e_EventName : string;
  e_Event : byte_slice;
  e_Payload : byte_slice
}.

(** [peer.ProposalResponse]: the response, and the result its signed payload
    carries, none in the unsigned responses of the endorser. *)
Record ProposalResponse := {
  pr_Version : Z;
  pr_Status : Z;
  pr_Message : string;
  pr_Payload : option byte_slice;
  pr_Signed : option ExecutionResult
}.

Class EndorsementSDK (W : Wire) := {
  Invocation : Type;
  Success : ReadWriteSet → string → byte_slice → byte_slice → ExecutionResult;
  Endorse : Invocation → ExecutionResult → result string ProposalResponse;
  proto_Marshal : ExecutionMetadata → result string byte_slice;
  json_Marshal : list Log → result string byte_slice
}.

(** A decoded log has the bytes of the encoded one. *)
Definition raw_matches (l : Log) (r : RawLog) : Prop :=
  slice_bytes (rl_Address r) = log_Address l ∧
  slice_bytes <$> rl_Topics r = log_Topics l ∧
  slice_bytes (rl_Data r) = log_Data l.

(** [Success] has status 200 and its arguments; [Endorse] signs the result and
    repeats its status; what is encoded decodes again. *)
Class SDKLaws (W : Wire) (K : EndorsementSDK W) := {
  Success_spec rws name event payload :
    let res := Success rws name event payload in
    e_Status res = StatusOK ∧ e_RWS res = rws ∧ e_EventName res = name ∧
    e_Event res = event ∧ e_Payload res = payload;
  Endorse_spec inv res resp :
    Endorse inv res = Ok resp → pr_Status resp = e_Status res ∧ pr_Signed resp = Some res;
  proto_roundtrip md b :
    is_u64 (md_GasUsed md) → proto_Marshal md = Ok b → proto_Unmarshal b = Some md;
  json_roundtrip ls b :
    json_Marshal ls = Ok b →
    b ≠ [] ∧ ∃ raws, json_Unmarshal b = Some raws ∧ Forall2 raw_matches ls raws
}.

Section engine.
Context {G : GethTypes} {T : EthTxTypes G} {C : EthCodec G T} {V : GethEVM G T}.
Context {W : Wire} {K : EndorsementSDK W}.

(** ** The EVM engine *)

(** [NewSnapshot] is the port to the world state. *)
Record EVMEngine := {
  eng_namespace : string;
  eng_monotonicVersions : bool;
  eng_NewSnapshot : option Z → result string ReadStore;
  eng_evmConfig : EVMConfig
}.

(** [Uint64] of a [big.Int] keeps the low 64 bits. *)
Definition resolveStateBlockRef (blockNumber : option Z) : option Z :=
  match blockNumber with
  | None => None
  | Some n => if n <? 0 then None else Some (u64 n)
  end.

Definition engine_config (e : EVMEngine) (reader : ReadStore) : config := {|
  cfg_namespace := eng_namespace e; cfg_store := reader;
  cfg_monotonicVersions := eng_monotonicVersions e |}.

Definition newExecutor (e : EVMEngine) (blockNumber : option Z) (blockTime : Z)
    : result go_error Executor :=
  match eng_NewSnapshot e (resolveStateBlockRef blockNumber) with
  | Err err => Err (errors_New err)
  | Ok reader => NewExecutor (engine_config e reader) blockNumber blockTime (eng_evmConfig e)
  end.

(** [NewResult]: only a non-empty list of logs makes an event. *)
Definition NewResult (rws : ReadWriteSet) (logs : list Log) (md : ExecutionMetadata)
    (message : string) : result go_error ExecutionResult :=
  match (match logs with [] => Ok [] | _ => json_Marshal logs end) with
  | Err err => Err (Wrapf "marshal logs" (errors_New err))
  | Ok event =>
      match proto_Marshal md with
      | Err err => Err (Wrapf "marshal execution metadata" (errors_New err))
      | Ok payload =>
          let res := Success rws ProposalTypeEVMTx event payload in
          let with_status status := {|
            e_Status := status; e_Message := message; e_RWS := e_RWS res;
            e_EventName := e_EventName res; e_Event := e_Event res; e_Payload := e_Payload res |} in
          Ok (if md_Status md =? EXECUTION_STATUS_REVERTED then with_status StatusEVMRevert
              else if md_Status md =? EXECUTION_STATUS_EXEC_FAILED then with_status StatusExecFailure
              else res)
      end
  end.

(** [EVMEngine.Execute]; the state may panic. *)
Definition EVMEngine_Execute (e : EVMEngine) (tx : EthTx) (blockTime : Z)
    : outcome (result go_error ExecutionResult) :=
  match newExecutor e None blockTime with
  | Err err => Done (Err err)
  | Ok ex =>
      match Send ex tx NewStateDB with
      | Panic msg => Panic msg
      | Done (r, s) =>
          let metadata status reason := {|
            md_Status := status; md_Reason := reason; md_GasUsed := r_usedGas r;
            md_Timestamp := blockTime |} in
          Done
            match r_err r with
            | Some err =>
                if Is_reverted err
                then NewResult (Result s) []
                       (metadata EXECUTION_STATUS_REVERTED (slice_bytes (r_ret r))) (Error err)
                else if As_ExecFailure err
                then NewResult (Result s) []
                       (metadata EXECUTION_STATUS_EXEC_FAILED []) (Error err)
                else Err err
            | None => NewResult (Result s) (logs s) (metadata EXECUTION_STATUS_SUCCESS []) ""
            end
      end
  end.

(** [EVMEngine.Call]: the results [(ret, maxUsedGas, err)]. *)
Definition EVMEngine_Call (now : Z) (e : EVMEngine) (msg : CallMsg) (blockNumber : option Z)
    : outcome (option byte_slice * Z * option go_error) :=
  match newExecutor e blockNumber (u64 now) with
  | Err err => Done (None, 0, Some err)
  | Ok ex =>
      match Executor_Call ex msg NewStateDB with
      | Panic msg => Panic msg
      | Done (r, _) => Done (r_ret r, r_maxUsedGas r, r_err r)
      end
  end.

(** The state queries: a fresh [StateDB] over the snapshot. *)
Definition at_snapshot {A} (e : EVMEngine) (blockNumber : option Z) (query : config → st StateDB A)
    : outcome (result go_error A) :=
  match eng_NewSnapshot e (resolveStateBlockRef blockNumber) with
  | Err err => Done (Err (errors_New err))
  | Ok reader =>
      match query (engine_config e reader) NewStateDB with
      | Panic msg => Panic msg
      | Done (a, _) => Done (Ok a)
      end
  end.

Definition EVMEngine_BalanceAt (e : EVMEngine) (account : Address) (blockNumber : option Z) :=
  at_snapshot e blockNumber (λ c, GetBalance c account).

Definition EVMEngine_StorageAt (e : EVMEngine) (account : Address) (key : Hash)
    (blockNumber : option Z) :=
  at_snapshot e blockNumber (λ c, h ← GetState c account key; mret (Hash_Bytes h)).

Definition EVMEngine_CodeAt (e : EVMEngine) (account : Address) (blockNumber : option Z) :=
  at_snapshot e blockNumber (λ c, GetCode c account).

Definition EVMEngine_NonceAt (e : EVMEngine) (account : Address) (blockNumber : option Z) :=
  at_snapshot e blockNumber (λ c, GetNonce c account).

(** ** The endorser *)

(** Times and durations are in nanoseconds, times since the Unix epoch. *)
Definition nanos : Z := 10 ^ 9.
Definition time_Unix (t : Z) : Z := t / nanos.
Definition time_zero : Z := - 62135596800 * nanos.

Definition DefaultTimestampFutureSkew : Z := 10 * nanos.
Definition DefaultTimestampPastSkew : Z := 60 * nanos.

Definition TimestampFutureSkew (MaxTimestampFuture : Z) : Z :=
  if MaxTimestampFuture <=? 0 then DefaultTimestampFutureSkew else MaxTimestampFuture.
Definition TimestampPastSkew (MaxTimestampPast : Z) : Z :=
  if MaxTimestampPast <=? 0 then DefaultTimestampPastSkew else MaxTimestampPast.

Record Endorser := {
  en_Engine : EVMEngine;
  en_maxFuture : Z;
  en_maxPast : Z
}.

Definition Endorser_New (engine : EVMEngine) (MaxTimestampFuture MaxTimestampPast : Z)
    : Endorser := {|
  en_Engine := engine;
  en_maxFuture := TimestampFutureSkew MaxTimestampFuture;
  en_maxPast := TimestampPastSkew MaxTimestampPast |}.

(** The texts leave out the times. *)
Definition validateRequestTimestamp (ts now maxFuture maxPast : Z) : option go_error :=
  if ts =? time_zero then Some (errors_New "request timestamp is required")
  else if time_Unix ts <? 0
  then Some (errors_New "request timestamp must be on or after the Unix epoch")
  else if now + maxFuture <? ts then Some (errors_New "request timestamp is in the future")
  else if ts <? now - maxPast then Some (errors_New "request timestamp is in the past")
  else None.

Definition classify (err : go_error) : Z :=
  if Is_reverted err then StatusEVMRevert
  else if As_ExecFailure err then StatusExecFailure
  else if As_TxRejected err then StatusTxRejected
  else StatusServerError.

Definition response (res : option byte_slice) (err : option go_error) : ProposalResponse :=
  match err with
  | Some err => {| pr_Version := 1; pr_Status := classify err; pr_Message := Error err;
                   pr_Payload := res; pr_Signed := None |}
  | None => {| pr_Version := 1; pr_Status := StatusOK; pr_Message := "OK";
               pr_Payload := res; pr_Signed := None |}
  end.

Definition Endorser_Execute (now : Z) (f : Endorser) (inv : Invocation) (ethTx : EthTx)
    (timestamp : Z) : outcome ProposalResponse :=
  match validateRequestTimestamp timestamp now (en_maxFuture f) (en_maxPast f) with
  | Some err => Done (response None (Some (TxRejected err)))
  | None =>
      match EVMEngine_Execute (en_Engine f) ethTx (u64 (time_Unix timestamp)) with
      | Panic msg => Panic msg
      | Done (Err err) => Done (response None (Some err))
      | Done (Ok res) =>
          Done match Endorse inv res with
               | Err err => response None (Some (Wrapf "endorse" (errors_New err)))
               | Ok resp => resp
               end
      end
  end.

(** [Endorser.Call]: the results [(ret, maxUsedGas, err)]. *)
Definition Endorser_Call (now : Z) (f : Endorser) (msg : CallMsg) (blockNumber : option Z)
    : outcome (option byte_slice * Z * option CallError) :=
  match EVMEngine_Call (time_Unix now) (en_Engine f) msg blockNumber with
  | Panic msg => Panic msg
  | Done (res, gas, Some err) =>
      Done (res, gas, Some {| ce_Status := classify err; ce_Message := Error err; ce_Data := res |})
  | Done (res, gas, None) => Done (res, gas, None)
  end.
End engine.
