(* ===== verification/EngineProps.v ===== *)
(** * EngineProps: what an endorsement says about the execution

    Properties of the executor, the engine and the endorser: the read set of an
    endorsement pins the sender's nonce, a committed endorsement gives the
    receipt of the run, and the status of a response tells rejected, failed and
    endorsed transactions apart. *)

From Stdlib Require Import ZArith Lia.
From stdpp Require Import base numbers list countable gmap strings.
From S2P Require Import Prelude Blocks Codec Geth StateDB StateDBProps Domain Convert Executor Engine.

Local Open Scope Z_scope.

(** ** The journal below every snapshot *)

Section prefix.
Context `{L : GethLaws}.

(** No revert reaches below [k]. *)
Definition pinned (k : nat) (s : StateDB) : Prop :=
  (k ≤ length (journal s))%nat ∧ Forall (λ r, (k ≤ rev_journalIndex r)%nat) (validRevisions s).

Lemma grows_pinned Q k s s' :
  grows Q s s' → pinned k s → pinned k s' ∧ take k (journal s') = take k (journal s).
Proof.
  intros (Hv & _ & es & ls & [Hj _ _ _]) [Hk Hr]. unfold pinned. rewrite Hv, Hj, length_app.
  split; [split; [lia|done]|]. by rewrite take_app_le.
Qed.

Lemma exec_pinned c o k s x s' :
  wf s → exec c o s = Done (x, s') → pinned k s →
  pinned k s' ∧ take k (journal s') = take k (journal s).
Proof.
  intros Hwf H Hp. destruct (is_structural o) eqn:Ho.
  2: { destruct (quiet_exec c o Ho s x s' Hwf H) as (_ & Hg & _). by eapply grows_pinned. }
  destruct o; try discriminate Ho; unfold exec in H; apply st_bind_done in H as (y & s1 & H & [= _ <-]).
  - apply SelfDestruct_grows in H as [_ Hg]; [|done]. by eapply grows_pinned.
  - apply Prepare_grows in H as [_ Hg]; [|done]. by eapply grows_pinned.
  - injection H as _ <-. split; [|done]. destruct Hp as [Hk Hr]. split; [done|].
    simpl. apply Forall_app. split; [done|]. by repeat constructor.
  - apply RevertToSnapshot_Done in H as [[_ ->]|(i & r & Hi & _ & ->)]; [done|].
    destruct Hp as [Hk Hr]. assert (k ≤ rev_journalIndex r)%nat as Hle
      by (rewrite Forall_forall in Hr; by eapply Hr, list_elem_of_lookup_2).
    unfold pinned. simpl. rewrite length_take. split; [split; [lia|by apply Forall_take]|].
    rewrite take_take. f_equal. lia.
Qed.

Lemma run_pinned {R} c (p : prog R) : ∀ k s x s',
  wf s → revs_ok s → run c p s = Done (x, s') → pinned k s →
  take k (journal s') = take k (journal s).
Proof.
  induction p as [ret|o p IH]; intros k s x s' Hwf Hr H Hp; simpl in H; [by injection H as _ <-|].
  apply st_bind_done in H as (y & s1 & H1 & H2).
  destruct (exec_wf c o s y s1 Hwf Hr H1) as (Hwf1 & Hr1 & _).
  destruct (exec_pinned c o k s y s1 Hwf H1 Hp) as [Hp1 Ht].
  rewrite <-Ht. by eapply IH.
Qed.
End prefix.

(** ** One execution *)

Section props.
Context {G : GethTypes} {L : GethLaws G} {T : EthTxTypes G} {C : EthCodec G T}.
Context {V : GethEVM G T} {VL : GethEVMLaws G T V}.

(** A successful [Send] as one program: the nonce, the snapshot, the EVM. *)
Definition send_prog (h : Executor) (from : Address) (msg : Message)
    : prog (result geth_error ExecResult) :=
  PStep (OpGetNonce from) (λ _, PStep OpSnapshot (λ _,
    core_ApplyMessage (ex_ChainCfg h) (ex_BlockCtx h) (with_defaults (ex_maxTxGas h) msg)
      (bc_GasLimit (ex_BlockCtx h)))).

Definition sender_of (h : Executor) (tx : EthTx) : result geth_error Address :=
  signer_Sender (ex_ChainCfg h) (bc_BlockNumber (ex_BlockCtx h)) (bc_Time (ex_BlockCtx h)) tx.

(** The first read of a fresh state. *)
Lemma first_nonce c from n s1 :
  GetNonce c from NewStateDB = Done (n, s1) →
  ∃ rec, cfg_store c (cfg_namespace c) (accKey from "nonce") = Ok rec ∧
    bytesToUint64 (slice_bytes (readValue rec)) = Done n ∧
    journal s1 = [readEntry {| kr_Key := accKey from "nonce";
                               kr_Version := readVersion (cfg_monotonicVersions c) rec |}] ∧
    validRevisions s1 = [].
Proof.
  unfold GetNonce. intros H. apply st_bind_done in H as (r & s2 & Hr & H).
  unfold getState in Hr. apply st_bind_done in Hr as (found & s3 & Hj & Hr).
  cbv [getStateFromJournal NewStateDB writeIdx journal index_journal imap foldl] in Hj.
  rewrite lookup_empty in Hj. injection Hj as <- <-.
  unfold getStateFromStore in Hr.
  destruct (cfg_store c (cfg_namespace c) (accKey from "nonce")) as [rec|err]; injection Hr as <- <-.
  2: { apply st_bind_done in H as (? & ? & H & _). discriminate H. }
  apply st_bind_done in H as (val & s4 & [= <- <-] & H). exists rec. split; [done|].
  unfold lift in H. destruct (bytesToUint64 _); [|done]. by injection H as -> <-.
Qed.

Lemma result_error_cases x err :
  result_error x = Some err → Is_reverted err = true ∨ (Is_reverted err = false ∧ As_ExecFailure err = true).
Proof.
  unfold result_error. destruct (x_Err x) as [e|]; [|done].
  destruct (ge_reverted e) eqn:E; [|intros [= <-]; by right].
  destruct (UnpackRevert _); intros [= <-]; by left.
Qed.

Lemma with_defaults_gas cap msg :
  is_u64 (m_GasLimit msg) → is_u64 (m_GasLimit (with_defaults cap msg)).
Proof. unfold is_u64, with_defaults. simpl. intros. repeat case_match; lia. Qed.

Lemma reject_leaf g : ge_reverted g = false → ∃ msg, rejected (of_geth g) = rejected (errors_New msg).
Proof. destruct g as [msg b]. simpl. intros ->. by exists msg. Qed.

(** [Send] rejects the transaction, or runs it. *)
Lemma Send_cases h tx r s :
  Send h tx NewStateDB = Done (r, s) →
  (∃ msg, r = rejected (errors_New msg)) ∨
  ∃ from msg x s1,
    sender_of h tx = Ok from ∧
    GetNonce (ex_config h) from NewStateDB = Done (Tx_Nonce tx, s1) ∧
    run (ex_config h) (send_prog h from msg) NewStateDB = Done (Ok x, s) ∧
    r = {| r_ret := x_ReturnData x; r_usedGas := x_UsedGas x; r_maxUsedGas := x_MaxUsedGas x;
           r_err := result_error x |} ∧ is_u64 (x_UsedGas x).
Proof.
  unfold Send. intros H. apply st_bind_done in H as (m & s1 & Hm & H).
  unfold PrepareMessage in Hm. fold (sender_of h tx) in Hm.
  destruct (sender_of h tx) as [from|err] eqn:Hs.
  2: { injection Hm as <- <-. injection H as <- <-. left. eapply reject_leaf, Sender_reject, Hs. }
  apply st_bind_done in Hm as (n & s2 & Hn & Hm). injection Hm as <- <-.
  destruct (Z.ltb_spec (Tx_Nonce tx) n); [injection H as <- <-; left; by eexists|].
  destruct (Z.ltb_spec n (Tx_Nonce tx)); [injection H as <- <-; left; by eexists|].
  assert (n = Tx_Nonce tx) as -> by lia.
  destruct (TransactionToMessage _ _ _ _ _) as [msg|err] eqn:Hmsg.
  2: { injection H as <- <-. left. eapply reject_leaf, Message_reject, Hmsg. }
  unfold execute, ApplyMessage in H.
  apply st_bind_done in H as (id & s3 & Hsn & H). apply st_bind_done in H as (res & s4 & Hrun & H).
  destruct res as [x|err].
  - injection H as <- <-. right. exists from, msg, x, s2. split; [done|]. split; [done|]. split.
    + unfold send_prog. simpl. unfold mbind, st_bind in *. rewrite Hn. simpl.
      cbv [TakeSnapshot] in Hsn. injection Hsn as <- <-. exact Hrun.
    + split; [done|]. apply ApplyMessage_gas in Hrun. apply Message_gas in Hmsg.
      pose proof (with_defaults_gas (ex_maxTxGas h) msg Hmsg). unfold is_u64 in *. lia.
  - apply st_bind_done in H as ([] & s5 & _ & H). injection H as <- <-. left.
    eapply reject_leaf, ApplyMessage_reject, Hrun.
Qed.
Context {W : Wire} {K : EndorsementSDK W} {KL : SDKLaws W K}.

Lemma NewResult_Ok rws ls md message res :
  is_u64 (md_GasUsed md) → NewResult rws ls md message = Ok res →
  e_RWS res = rws ∧ e_EventName res = ProposalTypeEVMTx ∧
  proto_Unmarshal (e_Payload res) = Some md ∧
  (∃ raws, UnmarshalLogs (e_Event res) = Ok raws ∧ Forall2 raw_matches ls raws) ∧
  e_Status res = (if md_Status md =? EXECUTION_STATUS_REVERTED then StatusEVMRevert
                  else if md_Status md =? EXECUTION_STATUS_EXEC_FAILED then StatusExecFailure
                  else StatusOK).
Proof.
  intros Hg. unfold NewResult.
  destruct (match ls with [] => Ok [] | _ => json_Marshal ls end) as [event|] eqn:Hj; [|done].
  destruct (proto_Marshal md) as [payload|] eqn:Hp; [|done]. intros [= <-].
  pose proof (Success_spec rws ProposalTypeEVMTx event payload) as (Hst & Hrws & Hn & He & Hpl).
  pose proof (proto_roundtrip md payload Hg Hp) as Hrt.
  assert (∃ raws, UnmarshalLogs event = Ok raws ∧ Forall2 raw_matches ls raws) as Hlogs.
  { destruct ls as [|l ls]; [injection Hj as <-; exists []; split; [done|constructor]|].
    apply json_roundtrip in Hj as (Hne & raws & Hu & Hm). exists raws. split; [|done].
    unfold UnmarshalLogs. destruct event; [done|]. by rewrite Hu. }
  repeat case_match; simpl; rewrite ?Hrws, ?Hn, ?Hpl, ?He; done.
Qed.

Lemma NewResult_Err rws ls md message err : NewResult rws ls md message = Err err → untagged err.
Proof.
  unfold NewResult. repeat case_match; try done; by intros [= <-].
Qed.

Lemma newExecutor_Ok e n t ex :
  newExecutor e n t = Ok ex →
  ∃ reader, eng_NewSnapshot e (resolveStateBlockRef n) = Ok reader ∧
    ex_config ex = engine_config e reader ∧ bc_Time (ex_BlockCtx ex) = t ∧ t ≠ 0.
Proof.
  unfold newExecutor, NewExecutor. destruct (eng_NewSnapshot e _) as [reader|]; [|done].
  destruct (ec_ChainConfig _); [|done]. destruct (Z.eqb_spec t 0); [done|]. intros [= <-]. by eexists.
Qed.

(** The metadata of a finished run. *)
Definition metadata_of (blockTime : Z) (r : exec_ret) : ExecutionMetadata :=
  match r_err r with
  | None => {| md_Status := EXECUTION_STATUS_SUCCESS; md_Reason := [];
               md_GasUsed := r_usedGas r; md_Timestamp := blockTime |}
  | Some err =>
      if Is_reverted err
      then {| md_Status := EXECUTION_STATUS_REVERTED; md_Reason := slice_bytes (r_ret r);
              md_GasUsed := r_usedGas r; md_Timestamp := blockTime |}
      else {| md_Status := EXECUTION_STATUS_EXEC_FAILED; md_Reason := [];
              md_GasUsed := r_usedGas r; md_Timestamp := blockTime |}
  end.

Definition receipt_logs (r : exec_ret) (s : StateDB) : list Log :=
  match r_err r with None => logs s | Some _ => [] end.

Definition run_status (r : exec_ret) : Z :=
  match r_err r with
  | None => StatusOK
  | Some err => if Is_reverted err then StatusEVMRevert else StatusExecFailure
  end.

(** What an endorsed execution was. *)
Lemma Execute_Ok e tx t res :
  EVMEngine_Execute e tx t = Done (Ok res) →
  ∃ ex from msg x s s1 r,
    newExecutor e None t = Ok ex ∧ Send ex tx NewStateDB = Done (r, s) ∧
    sender_of ex tx = Ok from ∧
    GetNonce (ex_config ex) from NewStateDB = Done (Tx_Nonce tx, s1) ∧
    run (ex_config ex) (send_prog ex from msg) NewStateDB = Done (Ok x, s) ∧
    is_u64 (r_usedGas r) ∧
    NewResult (Result s) (receipt_logs r s) (metadata_of t r)
      (match r_err r with Some err => Error err | None => "" end) = Ok res.
Proof.
  unfold EVMEngine_Execute. destruct (newExecutor e None t) as [ex|] eqn:Hex; [|done].
  destruct (Send ex tx NewStateDB) as [[r s]|] eqn:Hs; [|done]. intros [= Hres].
  destruct (Send_cases _ _ _ _ Hs) as [(? & ->)|(from & msg & x & s1 & Hfr & Hn & Hrun & Hx & Hg)];
    [discriminate Hres|].
  exists ex, from, msg, x, s, s1, r. split_and!; try done; [by rewrite Hx|].
  unfold receipt_logs, metadata_of. destruct (r_err r) as [err|] eqn:He; [|done].
  rewrite Hx in He. simpl in He. apply result_error_cases in He as [Hi|[Hi Hf]]; rewrite Hi in Hres |- *; [done|].
  by rewrite Hf in Hres.
Qed.

(** C17: the receipt of a committed endorsement.  The engine endorses exactly a
    run of the transaction on the latest state; once Fabric has committed the
    result, the recorded outcome is that of the run: success if and only if the
    EVM reported no error, its gas, its logs (none after a failure), its read-write
    set, and on a revert the returned data; the status is 200, 201 or 202
    accordingly. *)
Theorem endorsed_receipt e tx blockTime res ftx
    (Hex : EVMEngine_Execute e tx blockTime = Done (Ok res))
    (Hname : tx_EventName ftx = e_EventName res) (Hevent : tx_Event ftx = e_Event res)
    (Hpayload : tx_Payload ftx = e_Payload res) (Hvalid : tx_Valid ftx = true) :
  ∃ ex r s, newExecutor e None blockTime = Ok ex ∧ Send ex tx NewStateDB = Done (r, s) ∧
    ExecutionOutcome ftx = (bool_decide (r_err r = None), r_usedGas r) ∧
    (∃ raws, UnmarshalLogs (tx_Event ftx) = Ok raws ∧ Forall2 raw_matches (receipt_logs r s) raws) ∧
    UnmarshalExecutionMetadata (tx_Payload ftx) = Ok (metadata_of blockTime r) ∧
    e_RWS res = Result s ∧ e_Status res = run_status r ∧
    (length (tx_InputArgs ftx) = 1%nat → is_Some (EVMTx ftx)).
Proof.
  apply Execute_Ok in Hex as (ex & from & msg & x & s & s1 & r & Hnew & Hs & _ & _ & _ & Hg & Hres).
  apply NewResult_Ok in Hres as (Hrws & Hn & Hmd & Hlogs & Hst).
  2: { unfold metadata_of. by repeat case_match. }
  exists ex, r, s. split; [done|]. split; [done|].
  unfold ExecutionOutcome, UnmarshalExecutionMetadata. rewrite Hvalid, Hpayload, Hmd, Hevent.
  simpl. split_and!; try done.
  - unfold metadata_of. destruct (r_err r) as [err|]; [destruct (Is_reverted err)|]; done.
  - rewrite Hst. unfold metadata_of, run_status. by repeat case_match.
  - unfold EVMTx. rewrite Hname, Hn, bool_decide_false by (by intros []). intros Hl.
    rewrite Hl. simpl. apply lookup_lt_is_Some. lia.
Qed.

(** The nonce a fresh state reads from a store. *)
Lemma NonceAt_store e account store rec n :
  eng_NewSnapshot e None = Ok store →
  store (eng_namespace e) (accKey account "nonce") = Ok rec →
  bytesToUint64 (slice_bytes (readValue rec)) = Done n →
  EVMEngine_NonceAt e account None = Done (Ok n).
Proof.
  intros Hs Hrec Hn. unfold EVMEngine_NonceAt, at_snapshot. simpl. rewrite Hs.
  unfold GetNonce, getState, getStateFromStore, mbind, st_bind.
  cbv [getStateFromJournal NewStateDB writeIdx journal index_journal imap foldl].
  rewrite lookup_empty. simpl. rewrite Hrec. simpl. unfold lift. by rewrite Hn.
Qed.

(** A journalled read is in the result, since all reads of a key agree. *)
Lemma truthful_read_kept c s rd :
  Forall (truthful c) (journal s) → readEntry rd ∈ journal s → rd ∈ rws_Reads (Result s).
Proof.
  intros Ht Hin. apply Result_reads. destruct (result_reads_complete (journal s) rd Hin) as [rd' Hrd'].
  rewrite Hrd'. f_equal. apply result_reads_Some in Hrd' as [Hin' Hk].
  rewrite Forall_forall in Ht. destruct (Ht _ Hin') as (rec' & E1 & V1).
  destruct (Ht _ Hin) as (rec & E2 & V2). rewrite Hk in E1.
  assert (rec' = rec) as -> by congruence. destruct rd, rd'. simpl in *. congruence.
Qed.

(** The read of the nonce stays in the read set, whatever the EVM does. *)
Lemma nonce_read e tx t res reader :
  EVMEngine_Execute e tx t = Done (Ok res) → eng_NewSnapshot e None = Ok reader →
  (∀ key, ∃ rec, reader (eng_namespace e) key = Ok rec) →
  ∃ ex from rec,
    newExecutor e None t = Ok ex ∧ sender_of ex tx = Ok from ∧
    reader (eng_namespace e) (accKey from "nonce") = Ok rec ∧
    bytesToUint64 (slice_bytes (readValue rec)) = Done (Tx_Nonce tx) ∧
    {| kr_Key := accKey from "nonce";
       kr_Version := readVersion (eng_monotonicVersions e) rec |} ∈ rws_Reads (e_RWS res).
Proof.
  intros Hex Hsnap Hok.
  apply Execute_Ok in Hex as (ex & from & msg & x & s & s1 & r & Hnew & _ & Hfr & Hn & Hrun & Hg & Hres).
  destruct (newExecutor_Ok _ _ _ _ Hnew) as (reader' & Hsnap' & Hcfg & _).
  simpl in Hsnap'. rewrite Hsnap in Hsnap'. injection Hsnap' as <-.
  rewrite Hcfg in Hn, Hrun. destruct (first_nonce _ _ _ _ Hn) as (rec & Hrec & Hnn & Hj & Hv).
  exists ex, from, rec. split_and!; try done.
  apply NewResult_Ok in Hres as (-> & _); [|unfold metadata_of; by repeat case_match].
  destruct NewStateDB_wf as [Hwf Hr].
  pose proof (run_truthful (engine_config e reader) _ _ _ _ Hok Hwf Hr (Forall_nil_2 _) Hrun) as Ht.
  unfold send_prog in Hrun. simpl in Hrun. apply st_bind_done in Hrun as (o & s1' & Ho & Hrun).
  apply st_bind_done in Ho as (n' & s2 & Ho & [= _ <-]). rewrite Hn in Ho. injection Ho as <- <-.
  destruct (exec_wf (engine_config e reader) (OpGetNonce from) NewStateDB (OZ (Tx_Nonce tx)) s1 Hwf Hr) as (Hwf1 & Hr1 & _).
  { simpl. unfold mbind, st_bind. by rewrite Hn. }
  set (rd := {| kr_Key := _; kr_Version := _ |}) in *.
  assert (readEntry rd ∈ journal s) as Hin.
  { assert (take 1 (journal s) = take 1 (journal s1)) as Htk.
    { refine (run_pinned (engine_config e reader) (PStep OpSnapshot (λ _, _)) 1 s1 _ s Hwf1 Hr1 Hrun _).
      split; [rewrite Hj; simpl; lia|by rewrite Hv]. }
    rewrite Hj in Htk. destruct (journal s) as [|e0 j]; [discriminate Htk|].
    injection Htk as ->. apply list_elem_of_here. }
  by apply (truthful_read_kept (engine_config e reader)).
Qed.

(** C4: an endorsement is bound to the sender's nonce.  Whatever the EVM run
    does, reverts included, its read set keeps the version of the nonce it was
    checked against: if at commit time every version of the read set still holds
    (so that Fabric accepts the transaction), the sender's nonce on the ledger is
    the transaction's.  The ledger law used is that equal versions of a key mean
    equal values. *)
Theorem endorsed_nonce_at_commit e tx t res reader e' store
    (Hex : EVMEngine_Execute e tx t = Done (Ok res))
    (Hsnap : eng_NewSnapshot e None = Ok reader)
    (Hok : ∀ key, ∃ rec, reader (eng_namespace e) key = Ok rec)
    (Hns : eng_namespace e' = eng_namespace e)
    (Hsnap' : eng_NewSnapshot e' None = Ok store)
    (Hver : ∀ key rec1 rec2,
      reader (eng_namespace e) key = Ok rec1 → store (eng_namespace e) key = Ok rec2 →
      readVersion (eng_monotonicVersions e) rec1 = readVersion (eng_monotonicVersions e) rec2 →
      readValue rec1 = readValue rec2)
    (Hmvcc : ∀ r, r ∈ rws_Reads (e_RWS res) → ∃ rec, store (eng_namespace e) (kr_Key r) = Ok rec ∧
      kr_Version r = readVersion (eng_monotonicVersions e) rec) :
  ∃ ex from, newExecutor e None t = Ok ex ∧ sender_of ex tx = Ok from ∧
    EVMEngine_NonceAt e' from None = Done (Ok (Tx_Nonce tx)).
Proof.
  destruct (nonce_read _ _ _ _ _ Hex Hsnap Hok) as (ex & from & rec & Hnew & Hfr & Hrec & Hn & Hin).
  exists ex, from. split; [done|]. split; [done|].
  destruct (Hmvcc _ Hin) as (rec' & Hrec' & Hv). simpl in Hrec', Hv.
  eapply (NonceAt_store e' from store rec'); [done|by rewrite Hns|].
  by rewrite <-(Hver _ _ _ Hrec Hrec' Hv).
Qed.

Lemma validate_leaf ts now maxFuture maxPast err :
  validateRequestTimestamp ts now maxFuture maxPast = Some err → ∃ msg, err = errors_New msg.
Proof. unfold validateRequestTimestamp. repeat case_match; intros [= <-]; by eexists. Qed.

Lemma validate_window ts now maxFuture maxPast :
  validateRequestTimestamp ts now maxFuture maxPast = None →
  0 ≤ time_Unix ts ∧ now - maxPast ≤ ts ∧ ts ≤ now + maxFuture.
Proof. unfold validateRequestTimestamp. repeat case_match; intros; try done. lia. Qed.

(** The status of an endorsed execution. *)
Lemma Execute_status e tx t res :
  EVMEngine_Execute e tx t = Done (Ok res) →
  e_Status res ∈ [StatusOK; StatusEVMRevert; StatusExecFailure] ∧ t ≠ 0 ∧
  ~ (∃ ex r s, newExecutor e None t = Ok ex ∧ Send ex tx NewStateDB = Done (r, s) ∧
       ∃ err, r = rejected err).
Proof.
  intros Hex. pose proof Hex as Hex'.
  apply Execute_Ok in Hex as (ex & from & msg & x & s & s1 & r & Hnew & Hs & _ & _ & _ & Hg & Hres).
  apply NewResult_Ok in Hres as (_ & _ & _ & _ & ->); [|unfold metadata_of; by repeat case_match].
  split; [repeat case_match; set_solver|].
  split; [by destruct (newExecutor_Ok _ _ _ _ Hnew) as (? & _ & _ & _ & ?)|].
  intros (ex' & r' & s' & Hnew' & Hs' & err & ->). unfold EVMEngine_Execute in Hex'.
  rewrite Hnew', Hs' in Hex'.
  destruct (Send_cases _ _ _ _ Hs') as [(m & Hm)|(? & ? & x' & ? & _ & _ & _ & Hx & _)].
  - injection Hm as ->. discriminate Hex'.
  - injection Hx as _ _ _ Hx. symmetry in Hx. unfold result_error in Hx. by repeat case_match.
Qed.

(** The engine's errors. *)
Lemma Execute_Err e tx t err :
  EVMEngine_Execute e tx t = Done (Err err) →
  Is_reverted err = false ∧ As_ExecFailure err = false ∧
  (As_TxRejected err = true ↔
   ∃ ex r s, newExecutor e None t = Ok ex ∧ Send ex tx NewStateDB = Done (r, s) ∧
     ∃ err, r = rejected err).
Proof.
  unfold EVMEngine_Execute. destruct (newExecutor e None t) as [ex|err'] eqn:Hnew.
  2: { intros [= <-]. assert (untagged err') as (? & ? & Hr).
       { unfold newExecutor, NewExecutor in Hnew.
         repeat case_match; try done; by injection Hnew as <-. }
       rewrite Hr. split_and!; try done. split; [done|]. by intros (? & ? & ? & ? & _). }
  destruct (Send ex tx NewStateDB) as [[r s]|] eqn:Hs; [|done]. intros [= Hres].
  destruct (Send_cases _ _ _ _ Hs) as [(msg & ->)|(from & msg & x & s1 & _ & _ & _ & -> & _)].
  - injection Hres as <-. simpl. split_and!; try done. split; [|done]. intros _.
    eexists ex, _, s. eauto.
  - assert (untagged err) as (? & ? & Hr).
    { simpl in Hres. destruct (result_error x) as [e'|] eqn:He; [|by eapply NewResult_Err].
      apply result_error_cases in He as [Hi|[Hi Hf]]; rewrite ?Hi, ?Hf in Hres;
        by eapply NewResult_Err. }
    rewrite Hr. split_and!; try done. split; [done|].
    intros (? & ? & ? & [= <-] & Hs' & ? & ->). rewrite Hs in Hs'. injection Hs' as _ _ _ Hx _.
    unfold result_error in Hx. by repeat case_match.
Qed.

(** C22: the status tells the outcome.  A response that carries a signed result
    has status 200, 201 or 202, and the result is the engine's at a time stamp
    inside the window around the endorser's clock; any other response has status
    400 exactly when the time stamp is refused or the executor rejected the
    transaction, and 500 for a fault of the endorser; nothing of it can be
    submitted. *)
Theorem Endorser_statuses now f inv tx timestamp resp
    (Hrange : is_i64 (time_Unix timestamp))
    (Hex : Endorser_Execute now f inv tx timestamp = Done resp) :
  match pr_Signed resp with
  | Some res =>
      EVMEngine_Execute (en_Engine f) tx (time_Unix timestamp) = Done (Ok res) ∧
      now - en_maxPast f ≤ timestamp ≤ now + en_maxFuture f ∧ 0 < time_Unix timestamp ∧
      pr_Status resp ∈ [StatusOK; StatusEVMRevert; StatusExecFailure]
  | None =>
      pr_Status resp ∈ [StatusTxRejected; StatusServerError] ∧
      (pr_Status resp = StatusTxRejected ↔
       validateRequestTimestamp timestamp now (en_maxFuture f) (en_maxPast f) ≠ None ∨
       ∃ ex r s, newExecutor (en_Engine f) None (u64 (time_Unix timestamp)) = Ok ex ∧
         Send ex tx NewStateDB = Done (r, s) ∧ ∃ err, r = rejected err)
  end.
Proof.
  unfold Endorser_Execute in Hex.
  destruct (validateRequestTimestamp _ _ _ _) as [terr|] eqn:Hts.
  { injection Hex as <-. simpl. apply validate_leaf in Hts as [msg ->].
    split; [apply list_elem_of_here|]. split; [intros _; by left|done]. }
  apply validate_window in Hts as (H0 & Hpast & Hfut).
  destruct (EVMEngine_Execute (en_Engine f) tx _) as [[res|err]|] eqn:He; [| |done].
  - destruct (Execute_status _ _ _ _ He) as (Hs & Ht & Hnr).
    rewrite u64_small in He, Ht, Hnr by (unfold is_u64, is_i64 in *; lia).
    destruct (Endorse inv res) as [r|err] eqn:Hen; injection Hex as <-.
    + apply Endorse_spec in Hen as [-> ->]. split_and!; try done; lia.
    + simpl. split; [right; apply list_elem_of_here|]. split; [done|]. intros [?|?]; [done|].
      by rewrite u64_small in * by (unfold is_u64, is_i64 in *; lia).
  - destruct (Execute_Err _ _ _ _ He) as (Hr & Hf & Hiff). injection Hex as <-. simpl.
    unfold classify. rewrite Hr, Hf. destruct (As_TxRejected err).
    + split; [apply list_elem_of_here|]. split; [|done]. intros _. right. by apply Hiff.
    + split; [right; apply list_elem_of_here|]. split; [done|]. intros [?|?]; [done|].
      by apply Hiff in H.
Qed.

(** The comment of [Endorser.Execute] calls a failed execution a non-2xx status
    that is not submitted; the engine endorses it with status 202. *)
Lemma exec_failure_is_endorsed e tx t res ex r s err :
  EVMEngine_Execute e tx t = Done (Ok res) → newExecutor e None t = Ok ex →
  Send ex tx NewStateDB = Done (r, s) → r_err r = Some (ExecFailure err) →
  Is_reverted err = false → e_Status res = StatusExecFailure ∧ e_RWS res = Result s.
Proof.
  intros H Hnew Hs He Hr.
  apply Execute_Ok in H as (? & ? & ? & ? & ? & ? & ? & Hnew' & Hs' & _ & _ & _ & Hg & Hres).
  rewrite Hnew in Hnew'. injection Hnew' as <-. rewrite Hs in Hs'. injection Hs' as <- <-.
  apply NewResult_Ok in Hres as (-> & _ & _ & _ & ->); [|unfold metadata_of; by repeat case_match].
  unfold metadata_of. rewrite He. simpl. by rewrite Hr.
Qed.
End props.

(** ** An example *)

#[local] Existing Instances four_types four_txs demo_codec.

(** A small EVM: it takes the sender's nonce, marks a slot and logs; at nonce 5
    it undoes the slot and reverts. *)
Definition demo_run (msg : Message) : prog (result geth_error ExecResult) :=
  if m_GasLimit msg <? 21000
  then PRet (Err {| ge_msg := "intrinsic gas too low"; ge_reverted := false |})
  else
    PStep (OpSetNonce (m_From msg) (m_Nonce msg + 1)) (λ _,
    PStep OpSnapshot (λ id,
    PStep (OpSetState (m_From msg) (true, false) (true, true)) (λ _,
    if m_Nonce msg =? 5
    then PStep (OpRevert (match id with OZ z => z | _ => 0 end)) (λ _,
         PRet (Ok {| x_Err := Some {| ge_msg := "execution reverted"; ge_reverted := true |};
                     x_UsedGas := 21000; x_MaxUsedGas := 21000; x_ReturnData := Some [8; 8] |}))
    else PStep (OpAddLog (m_From msg) [(true, true)] [7]) (λ _,
         PRet (Ok {| x_Err := None; x_UsedGas := 20000; x_MaxUsedGas := 21000;
                     x_ReturnData := None |}))))).

Definition demo_evm : GethEVM four_types four_txs :=
  @Build_GethEVM four_types four_txs unit (λ _ _ _, true) (λ _ _, 1)
    (λ z, if (0 <=? z) && (z <? 2 ^ 256) then Done z else Panic "overflow")
    (λ _ _ _ tx, Ok tx.1)
    (λ _ _ _ tx _, Ok {| m_From := tx.1; m_To := Some false;
       m_Nonce := if tx.2 then 5 else 4; m_Value := 0; m_GasLimit := 50000;
       m_GasPrice := 1; m_GasFeeCap := 1; m_GasTipCap := 1; m_Data := []; m_AccessList := [];
       m_BlobGasFeeCap := 0; m_BlobHashes := []; m_SetCodeAuthorizations := [];
       m_SkipNonceCheck := false; m_SkipEOACheck := false; m_SkipGasLimitCapCheck := false |})
    (λ _ _ msg _, demo_run msg) (λ _, None).

#[local] Existing Instance demo_evm.

#[export] Instance demo_evm_laws : GethEVMLaws four_types four_txs demo_evm.
Proof.
  constructor; simpl; try done.
  - intros _ _ msg _ c s e s'. unfold demo_run. destruct (Z.ltb_spec (m_GasLimit msg) 21000).
    { intros [= <- _]. done. }
    intros H'. exfalso. simpl in H'.
    repeat (apply st_bind_done in H' as (? & ? & _ & H')). destruct (m_Nonce msg =? 5); simpl in H';
      apply st_bind_done in H' as (? & ? & _ & H'); discriminate H'.
  - intros _ _ _ tx _ msg [= <-]. unfold is_u64. simpl. lia.
  - intros _ _ msg _ c s x s'. unfold demo_run. destruct (Z.ltb_spec (m_GasLimit msg) 21000); [done|].
    intros H'. simpl in H'.
    repeat (apply st_bind_done in H' as (? & ? & _ & H')). destruct (m_Nonce msg =? 5); simpl in H';
      apply st_bind_done in H' as (? & ? & _ & H'); injection H' as <- _; simpl; lia.
Qed.

(** Encoders by enumeration. *)
Definition enc_wire : Wire := {|
  proto_Unmarshal := λ b,
    match b with
    | [Zpos p] =>
        '(st, reason, gas, ts) ← decode p;
        if (0 <=? gas) && (gas <? 2 ^ 64)
        then Some {| md_Status := st; md_Reason := reason; md_GasUsed := gas; md_Timestamp := ts |}
        else None
    | _ => None
    end;
  json_Unmarshal := λ b,
    match b with
    | [Zpos p] =>
        ls ← decode p;
        Some ((λ '(a, ts, d), {| rl_Address := Some a; rl_Topics := Some <$> ts; rl_Data := Some d |})
              <$> (ls : list (byte_slice * list byte_slice * byte_slice)))
    | _ => None
    end;
  Status_code := Status_code (Wire := demo_wire);
  Status_of := Status_of (Wire := demo_wire)
|}.

#[local] Existing Instance enc_wire.

Definition enc_sdk : EndorsementSDK enc_wire :=
  @Build_EndorsementSDK enc_wire unit
    (λ rws name event payload, {| e_Status := 200; e_Message := "OK"; e_RWS := rws;
       e_EventName := name; e_Event := event; e_Payload := payload |})
    (λ _ res, Ok {| pr_Version := 1; pr_Status := e_Status res; pr_Message := e_Message res;
       pr_Payload := None; pr_Signed := Some res |})
    (λ md, Ok [Zpos (encode (md_Status md, md_Reason md, md_GasUsed md, md_Timestamp md))])
    (λ ls, Ok [Zpos (encode ((λ l, (log_Address l, log_Topics l, log_Data l)) <$> ls))]).

#[local] Existing Instance enc_sdk.

#[export] Instance enc_sdk_laws : SDKLaws enc_wire enc_sdk.
Proof.
  constructor; simpl; try done.
  - by intros _ res resp [= <-].
  - intros md b Hg [= <-]. rewrite decode_encode. simpl. unfold is_u64 in Hg.
    destruct md as [st re g ts]. simpl in *. destruct (Z.leb_spec 0 g), (Z.ltb_spec g (2 ^ 64));
      simpl; try lia. done.
  - intros ls b [= <-]. split; [done|]. rewrite decode_encode. eexists. split; [reflexivity|].
    induction ls as [|l ls IH]; simpl; constructor; [|done].
    split_and!; simpl; try done. rewrite <-list_fmap_compose. by rewrite list_fmap_id.
Qed.

(** The sender's nonce is [n], at block 3. *)
Definition nonce_store (n : Z) : ReadStore := λ ns key,
  if String.eqb key (accKey true "nonce")
  then Ok (Some {| wr_Namespace := ns; wr_Key := key; wr_BlockNum := 3; wr_TxNum := 0;
                   wr_Value := Some (uint64ToBytes n); wr_IsDelete := false;
                   wr_TxID := "t"; wr_Version := 1 |})
  else Ok None.

Definition demo_engine (n : Z) : EVMEngine := {|
  eng_namespace := "evm"; eng_monotonicVersions := true;
  eng_NewSnapshot := λ _, Ok (nonce_store n);
  eng_evmConfig := {| ec_ChainConfig := Some tt; ec_MaxTxGas := 40000 |} |}.

Definition demo_res (n : Z) (tx : bool * bool) : ExecutionResult :=
  match EVMEngine_Execute (demo_engine n) tx 1000 with
  | Done (Ok res) => res
  | _ => Success {| rws_Reads := []; rws_Writes := [] |} "" [] []
  end.

(** The committed transaction with a result. *)
Definition demo_ftx (res : ExecutionResult) : Transaction := {|
  tx_ID := "f"; tx_Number := 0; tx_Status := StatusCommitted;
  tx_NsRWS := [{| ns_Namespace := "evm"; ns_RWS := e_RWS res |}]; tx_EventName := e_EventName res;
  tx_Event := e_Event res; tx_InputArgs := [[1; 0]]; tx_Payload := e_Payload res |}.

(** A run that reverts after taking the nonce, and one that succeeds. *)
Lemma endorsed_receipt_witness :
  e_Status (demo_res 5 (true, true)) = 201 ∧
  ExecutionOutcome (demo_ftx (demo_res 5 (true, true))) = (false, 21000) ∧
  ExecutionOutcome (demo_ftx (demo_res 4 (true, false))) = (true, 20000) ∧
  ∃ ex r s, newExecutor (demo_engine 5) None 1000 = Ok ex ∧
    Send ex (true, true) NewStateDB = Done (r, s) ∧ e_RWS (demo_res 5 (true, true)) = Result s.
Proof.
  split; [vm_compute; reflexivity|]. split; [vm_compute; reflexivity|].
  split; [vm_compute; reflexivity|].
  destruct (endorsed_receipt (demo_engine 5) (true, true) 1000 (demo_res 5 (true, true))
    (demo_ftx (demo_res 5 (true, true)))) as (ex & r & s & Hnew & Hs & _ & _ & _ & Hr & _);
    [vm_compute; reflexivity|reflexivity..|].
  by exists ex, r, s.
Defined.

(** The ledger has moved on but the nonce is untouched. *)
Definition later_store : ReadStore := λ ns key,
  if String.eqb key (accKey false "bal")
  then Ok (Some {| wr_Namespace := ns; wr_Key := key; wr_BlockNum := 4; wr_TxNum := 0; wr_Version := 0;
                   wr_Value := Some [5]; wr_IsDelete := false; wr_TxID := "u" |})
  else nonce_store 4 ns key.

Definition later_engine : EVMEngine := {|
  eng_namespace := "evm"; eng_monotonicVersions := true; eng_NewSnapshot := λ _, Ok later_store;
  eng_evmConfig := eng_evmConfig (demo_engine 4) |}.

#[export] Instance Version_eq_dec : EqDecision Version.
Proof. solve_decision. Defined.

Definition read_holds (store : ReadStore) (r : KVRead) : bool :=
  match store "evm" (kr_Key r) with
  | Ok rec => bool_decide (kr_Version r = readVersion true rec)
  | Err _ => false
  end.

Lemma endorsed_nonce_at_commit_witness :
  length (rws_Reads (e_RWS (demo_res 4 (true, false)))) = 1%nat ∧
  EVMEngine_NonceAt later_engine true None = Done (Ok 4).
Proof.
  split; [vm_compute; reflexivity|].
  destruct (endorsed_nonce_at_commit (demo_engine 4) (true, false) 1000 (demo_res 4 (true, false))
    (nonce_store 4) later_engine later_store) as (ex & from & Hnew & Hfr & Hn).
  - vm_compute. reflexivity.
  - reflexivity.
  - intros key. unfold nonce_store. case_match; eauto.
  - reflexivity.
  - reflexivity.
  - intros key rec1 rec2. unfold later_store, nonce_store.
    repeat case_match; by intros [= <-] [= <-].
  - assert (forallb (read_holds later_store) (rws_Reads (e_RWS (demo_res 4 (true, false)))) = true)
      as Hall by (vm_compute; reflexivity).
    rewrite forallb_forall in Hall. intros r Hr%list_elem_of_In%Hall. unfold read_holds in Hr.
    simpl in *. destruct (later_store "evm" (kr_Key r)) as [rec|]; [|discriminate Hr].
    exists rec. split; [reflexivity|]. by apply bool_decide_eq_true in Hr.
  - injection Hfr as <-. exact Hn.
Defined.

Definition demo_endorser (n : Z) : Endorser := Endorser_New (demo_engine n) 0 0.

Definition demo_response (n now timestamp : Z) (tx : bool * bool) : ProposalResponse :=
  match Endorser_Execute now (demo_endorser n) tt tx timestamp with
  | Done r => r
  | Panic _ => response None None
  end.

(** A gateway clock eleven seconds ahead, a stale nonce, and an endorsement. *)
Lemma Endorser_statuses_witness :
  pr_Status (demo_response 4 (1000 * nanos) (1011 * nanos) (true, false)) = 400 ∧
  pr_Status (demo_response 5 (1000 * nanos) (1001 * nanos) (true, false)) = 400 ∧
  pr_Status (demo_response 5 (1000 * nanos) (1001 * nanos) (true, true)) = 201 ∧
  match pr_Signed (demo_response 4 (1000 * nanos) (1001 * nanos) (true, false)) with
  | Some res => EVMEngine_Execute (demo_engine 4) (true, false) 1001 = Done (Ok res)
  | None => False
  end.
Proof.
  split; [vm_compute; reflexivity|]. split; [vm_compute; reflexivity|].
  split; [vm_compute; reflexivity|].
  pose proof (Endorser_statuses (1000 * nanos) (demo_endorser 4) tt (true, false) (1001 * nanos)
    (demo_response 4 (1000 * nanos) (1001 * nanos) (true, false))) as H.
  destruct (pr_Signed (demo_response 4 (1000 * nanos) (1001 * nanos) (true, false))) as [res|] eqn:E.
  - apply H; [split; vm_compute; done|vm_compute; reflexivity].
  - vm_compute in E. discriminate E.
Defined.
