(* ===== verification/Endorse.v ===== *)
(** * Endorse: the gateway's endorsement client

    gateway/core/endorse.go: the fan-out of a transaction to the endorsers with
    its early cancellation ([ExecuteTransaction]), the read-only call and its
    errors ([call]), and the gas estimate ([EstimateGas]).  The goroutines of the
    fan-out are interleaved endorser by endorser; [NsVersionUint64] is
    common/config.go's. *)

From Stdlib Require Import ZArith QArith Qround Lia.
From stdpp Require Import base numbers list strings relations.
From S2P Require Import Prelude Blocks Codec Geth StateDB StateDBProps Domain Executor Engine.

Local Open Scope Z_scope.

(** ** Namespace versions *)

Definition digit_value (c : Ascii.ascii) : option Z :=
  let n := Z.of_nat (Ascii.nat_of_ascii c) - 48 in
  if (0 <=? n) && (n <? 10) then Some n else None.

(** The digits of a number, the first one read so far into [acc]. *)
Fixpoint parse_digits (acc : Z) (s : string) : option Z :=
  match s with
  | EmptyString => Some acc
  | String c s => d ← digit_value c; parse_digits (acc * 10 + d) s
  end.

(** [strconv.ParseUint(s, 10, 64)]. *)
Definition ParseUint (s : string) : option Z :=
  match s with
  | EmptyString => None
  | _ => n ← parse_digits 0 s; if n <? 2 ^ 64 then Some n else None
  end.

(** [ParseFloat] gives the rational a decimal literal denotes. *)
Definition NsVersionUint64 (ParseFloat : string → option Q) (NsVersion : string)
    : result string Z :=
  if String.eqb NsVersion "" then Ok 0
  else match ParseUint NsVersion with
       | Some v => Ok v
       | None =>
           match ParseFloat NsVersion with
           | None => Err "not a valid Fabric-X namespace version"
           | Some f =>
               if negb (Qle_bool (0 # 1) f) || negb (Qeq_bool f (inject_Z (Qfloor f)))
               then Err "not a valid Fabric-X namespace version"
               else Ok (u64 (Qfloor f))
           end
       end.

(** [createInvocation]; [NewInvocation] is the SDK's builder. *)
Definition createInvocation {Inv : Type} (ParseFloat : string → option Q)
    (NewInvocation : string → string → string → Z → list byte_slice → result string Inv)
    (channel namespace nsVersion : string) (args : list byte_slice) : result string Inv :=
  match NsVersionUint64 ParseFloat nsVersion with
  | Err err => Err err
  | Ok nsVersionX => NewInvocation channel namespace nsVersion nsVersionX args
  end.

(** ** The fan-out *)

(** An error of an endorser call: its text and the two forms of cancellation,
    which survive wrapping. *)
Record rpc_error := {
  re_msg : string;
  re_ctxCanceled : bool;     (* errors.Is(err, context.Canceled) *)
  re_grpcCanceled : bool     (* status.Code(err) == codes.Canceled *)
}.

Definition isCancellation (err : rpc_error) : bool := re_ctxCanceled err || re_grpcCanceled err.

(** [fmt.Errorf("call endorser: %w", err)] and
    [fmt.Errorf("process EVM transaction: %s", msg)]. *)
Definition call_error (err : rpc_error) : rpc_error := {|
  re_msg := "call endorser: " +:+ re_msg err; re_ctxCanceled := re_ctxCanceled err;
  re_grpcCanceled := re_grpcCanceled err |}.
Definition process_error (msg : string) : rpc_error := {|
  re_msg := "process EVM transaction: " +:+ msg; re_ctxCanceled := false;
  re_grpcCanceled := false |}.

Abbreviation answer := (result rpc_error ProposalResponse).

Definition accepted_status (status : Z) : bool :=
  (status =? StatusOK) || (status =? StatusEVMRevert) || (status =? StatusExecFailure).

(** [processEndorsement] on the answer of one endorser: its slot of [res] or
    [errs]. *)
Definition processEndorsement (a : answer) : result rpc_error ProposalResponse :=
  match a with
  | Err err => Err (call_error err)
  | Ok pResp =>
      if accepted_status (pr_Status pResp) then Ok pResp
      else Err (process_error (pr_Message pResp))
  end.

(** The fan-out under way: the slots filled so far, the derived context and the
    caller's. *)
Record fanout := {
  fo_slots : list (option (result rpc_error ProposalResponse));
  fo_cancelled : bool;
  fo_caller : bool
}.

Definition fan_start (n : nat) : fanout := {|
  fo_slots := replicate n None; fo_cancelled := false; fo_caller := false |}.

(** Endorser [i] has answered; an error cancels the others. *)
Definition answered (i : nat) (a : answer) (s : fanout) : fanout :=
  let slot := processEndorsement a in
  {| fo_slots := <[i := Some slot]> (fo_slots s);
     fo_cancelled := fo_cancelled s || match slot with Err _ => true | Ok _ => false end;
     fo_caller := fo_caller s |}.

(** [genuine i] is what endorser [i] answers if nothing interrupts it; under a
    cancelled context it may return a cancellation instead. *)
Inductive fan_step (genuine : nat → answer) : fanout → fanout → Prop :=
| fan_answer s i :
    fo_slots s !! i = Some None → fan_step genuine s (answered i (genuine i) s)
| fan_abort s i err :
    fo_slots s !! i = Some None → fo_cancelled s = true → isCancellation err = true →
    fan_step genuine s (answered i (Err err) s)
| fan_caller_cancels s :
    fan_step genuine s {| fo_slots := fo_slots s; fo_cancelled := true; fo_caller := true |}.

(** The first error of the slots that [p] holds of. *)
Fixpoint first_error (p : rpc_error → bool)
    (slots : list (option (result rpc_error ProposalResponse))) : option rpc_error :=
  match slots with
  | Some (Err err) :: rest => if p err then Some err else first_error p rest
  | _ :: rest => first_error p rest
  | [] => None
  end.

Definition responses (slots : list (option (result rpc_error ProposalResponse)))
    : list ProposalResponse :=
  omap (λ o, match o with Some (Ok r) => Some r | _ => None end) slots.

(** The two passes over [errs] after [wg.Wait()]. *)
Definition fan_result (s : fanout) : result rpc_error (list ProposalResponse) :=
  match first_error (λ err, negb (isCancellation err)) (fo_slots s) with
  | Some err => Err err
  | None =>
      match first_error (λ _, true) (fo_slots s) with
      | Some err => Err err
      | None => Ok (responses (fo_slots s))
      end
  end.

Definition fan_done (s : fanout) : bool :=
  forallb (λ o, match o with Some _ => true | None => false end) (fo_slots s).

(** ** Calls *)

(** The errors of a call: [*common.CallError], or a transport failure. *)
Inductive call_err :=
| CallErr (e : CallError)
| Transport (msg : string).

(** The errors [call] and [EstimateGas] return. *)
Inductive query_error :=
| RevertError (Reason : string) (Data : option byte_slice)
| ExecutionError (Message : string)
| QueryFailed (msg : string)
| GasExceedsAllowance (gas : Z).

Section calls.
Context {G : GethTypes}.

(** [local.Call]: the results [(ret, maxUsedGas, err)].  The state it reads may
    change between calls, so the number of the call is an argument. *)
Context (local_Call : nat → CallMsg → option byte_slice * Z * option call_err).

Definition call (args : CallMsg) : option byte_slice * Z * option query_error :=
  match local_Call 0 args with
  | (payload, gas, None) => (payload, gas, None)
  | (_, gas, Some (Transport msg)) => (None, gas, Some (QueryFailed ("process call: " +:+ msg)))
  | (_, gas, Some (CallErr e)) =>
      if ce_Reverted e then
        if (slice_len (ce_Data e) =? 0)%nat then (None, gas, None)
        else (None, gas, Some (RevertError (ce_Message e) (ce_Data e)))
      else if (ce_Status e =? StatusExecFailure) || (ce_Status e =? StatusTxRejected)
      then (None, gas, Some (ExecutionError (ce_Message e)))
      else (None, gas, Some (QueryFailed "query response was not successful"))
  end.

Definition CallContract (args : CallMsg) : option byte_slice * option query_error :=
  let '(payload, _, err) := call args in (payload, err).

Definition estimateGasCeiling : Z := 10_000_000.
Definition sstoreSentryBuffer : Z := 2301.

Definition with_gas_limit (args : CallMsg) (gas : Z) : CallMsg := {|
  cm_From := cm_From args; cm_To := cm_To args; cm_Gas := gas; cm_GasPrice := cm_GasPrice args;
  cm_GasFeeCap := cm_GasFeeCap args; cm_GasTipCap := cm_GasTipCap args;
  cm_Value := cm_Value args; cm_Data := cm_Data args; cm_AccessList := cm_AccessList args;
  cm_BlobGasFeeCap := cm_BlobGasFeeCap args; cm_BlobHashes := cm_BlobHashes args;
  cm_AuthorizationList := cm_AuthorizationList args |}.

(** [probeGas]: the results [(maxUsedGas, ok)] or an error. *)
Definition probeGas (i : nat) (args : CallMsg) (gas : Z) : result query_error (Z * bool) :=
  match local_Call i (with_gas_limit args gas) with
  | (_, maxUsedGas, None) => Ok (maxUsedGas, true)
  | (_, _, Some (Transport msg)) => Err (QueryFailed ("process call: " +:+ msg))
  | (_, maxUsedGas, Some (CallErr e)) =>
      if ce_Reverted e && (0 <? slice_len (ce_Data e))%nat
      then Err (RevertError (ce_Message e) (ce_Data e))
      else Ok (maxUsedGas, false)
  end.

(** The loop; [None] when the fuel runs out. *)
Fixpoint estimate_loop (fuel i : nat) (args : CallMsg) (guess : Z)
    : option (result query_error Z) :=
  match fuel with
  | O => None
  | S fuel =>
      if guess <? estimateGasCeiling then
        match probeGas i args guess with
        | Err err => Some (Err err)
        | Ok (_, true) => Some (Ok guess)
        | Ok (_, false) => estimate_loop fuel (S i) args (u64 (guess * 2))
        end
      else Some (Ok estimateGasCeiling)
  end.

Definition EstimateGas (fuel : nat) (args : CallMsg) : option (result query_error Z) :=
  match probeGas 0 args estimateGasCeiling with
  | Err err => Some (Err err)
  | Ok (_, false) => Some (Err (GasExceedsAllowance estimateGasCeiling))
  | Ok (maxUsedGas, true) => estimate_loop fuel 1 args (u64 (maxUsedGas + sstoreSentryBuffer))
  end.
End calls.
