(* ===== verification/EndorseProps.v ===== *)
(** * EndorseProps: what the gateway hands back from the endorsers

    The fan-out returns either every endorser's accepted response in order or
    the error of an endorser, not a cancellation it caused itself; the gas
    estimate terminates, is bounded and was seen to suffice. *)

From Stdlib Require Import ZArith QArith Lia.
From stdpp Require Import base numbers list strings relations.
From S2P Require Import Prelude Blocks Codec Geth StateDB StateDBProps Domain.
From S2P Require Import Convert Executor Engine EngineProps Endorse.

Local Open Scope Z_scope.

(** ** The fan-out *)

Section fanout.
Context (genuine : nat → answer) (n : nat).

(** A slot is empty, genuine, or an aborted call. *)
Definition slot_ok (s : fanout) (i : nat) (o : option (result rpc_error ProposalResponse)) : Prop :=
  o = None ∨ o = Some (processEndorsement (genuine i)) ∨
  (∃ err, o = Some (Err err) ∧ isCancellation err = true ∧ fo_cancelled s = true).

Definition fan_inv (s : fanout) : Prop :=
  length (fo_slots s) = n ∧
  (∀ i o, fo_slots s !! i = Some o → slot_ok s i o) ∧
  (fo_cancelled s = true → fo_caller s = true ∨
    ∃ i err, fo_slots s !! i = Some (Some (Err err)) ∧ processEndorsement (genuine i) = Err err).

Lemma isCancellation_call err : isCancellation (call_error err) = isCancellation err.
Proof. done. Qed.

Lemma answered_inv s i a :
  fan_inv s → fo_slots s !! i = Some None →
  (a = genuine i ∨ ∃ err, a = Err err ∧ isCancellation err = true ∧ fo_cancelled s = true) →
  fan_inv (answered i a s).
Proof.
  intros (Hl & Hs & Hc) Hi Ha. pose proof (lookup_lt_Some _ _ _ Hi) as Hlt.
  split; [by unfold answered; simpl; rewrite length_insert|]. split.
  - intros j o. simpl. rewrite list_lookup_insert. case_decide as Hj.
    + destruct Hj as [<- _]. intros [= <-]. destruct Ha as [->|(err & -> & He & Hcan)].
      * right. by left.
      * right. right. exists (call_error err). simpl. rewrite Hcan. by rewrite isCancellation_call.
    + intros [->|[->|(err & -> & He & Hcan)]]%Hs; [by left|by right; left|].
      right. right. exists err. simpl. by rewrite Hcan.
  - simpl. intros [Hcan|Hnew]%orb_true_iff.
    + destruct (Hc Hcan) as [?|(j & err & Hj & Hp)]; [by left|]. right. exists j, err.
      rewrite list_lookup_insert_ne by congruence. done.
    + destruct Ha as [->|(err & -> & He & Hcan)].
      * destruct (processEndorsement (genuine i)) as [|err] eqn:E; [done|]. right. exists i, err.
        rewrite list_lookup_insert_eq by lia. done.
      * destruct (Hc Hcan) as [?|(j & e' & Hj & Hp)]; [by left|]. right. exists j, e'.
        rewrite list_lookup_insert_ne by congruence. done.
Qed.

Lemma fan_reachable_inv s : rtc (fan_step genuine) (fan_start n) s → fan_inv s.
Proof.
  intros Hr. pattern s. eapply rtc_ind_r; [| |exact Hr].
  - split; [by simpl; rewrite length_replicate|]. split; [|done].
    intros i o Hi. apply lookup_replicate in Hi as [-> _]. by left.
  - clear Hr s. intros s s' _ Hstep Hi. destruct Hstep as [s i H1|s i err H1 H2 H3|s].
    + apply answered_inv; auto.
    + apply answered_inv; [done..|]. right. eauto.
    + destruct Hi as (Hl & Hs & _). split; [done|]. split; [|by left].
      intros i o [->|[->|(err & -> & He & _)]]%Hs; [by left|by right; left|]. right. right. by exists err.
Qed.

Lemma first_error_Some p l err :
  first_error p l = Some err →
  ∃ i, l !! i = Some (Some (Err err)) ∧ p err = true ∧
    ∀ j err', (j < i)%nat → l !! j = Some (Some (Err err')) → p err' = false.
Proof.
  induction l as [|[[r|e]|] l IH]; simpl; [done| | |].
  2: destruct (p e) eqn:E; [intros [= <-]; exists 0%nat; split_and!; [done..|lia]|].
  all: intros (i & Hi & Hp & Hlt)%IH; exists (S i); split_and!; try done; intros [|j] err' Hj Hl;
    try (simpl in Hl; naive_solver); (apply (Hlt j); [lia|done]).
Qed.

Lemma first_error_None p l i err :
  first_error p l = None → l !! i = Some (Some (Err err)) → p err = false.
Proof.
  revert i. induction l as [|[[r|e]|] l IH]; intros i; simpl; [done| | |].
  2: destruct (p e) eqn:E; [done|].
  all: intros H; destruct i as [|i]; simpl; intros Hi; [congruence|by apply (IH i)].
Qed.

Lemma responses_all l :
  (∀ i o, l !! i = Some o → ∃ r, o = Some (Ok r)) →
  length (responses l) = length l ∧ ∀ i r, l !! i = Some (Some (Ok r)) → responses l !! i = Some r.
Proof.
  induction l as [|o l IH]; intros Hall; [done|].
  destruct (Hall 0%nat o) as [r ->]; [done|].
  destruct IH as [IHl IHi]; [intros i; apply (Hall (S i))|].
  split; [simpl; by f_equal|]. intros [|i] r'; simpl; [by intros [= <-]|apply IHi].
Qed.

Lemma fan_result_Ok s rs :
  fan_inv s → fan_done s = true → fan_result s = Ok rs →
  length rs = n ∧ ∀ i r, rs !! i = Some r →
    genuine i = Ok r ∧ accepted_status (pr_Status r) = true.
Proof.
  intros (Hl & Hs & _) Hdone. unfold fan_result. destruct (first_error _ (fo_slots s)); [done|].
  destruct (first_error (λ _, true) (fo_slots s)) eqn:E2; [done|]. intros [= <-].
  assert (∀ i o, fo_slots s !! i = Some o → ∃ r, o = Some (Ok r)) as Hall.
  { intros i o Hi. unfold fan_done in Hdone. rewrite forallb_forall in Hdone.
    pose proof Hi as Hf. apply list_elem_of_lookup_2, list_elem_of_In, Hdone in Hf.
    destruct o as [[r|e]|]; [eauto| |done]. by pose proof (first_error_None _ _ _ _ E2 Hi). }
  destruct (responses_all _ Hall) as [Hrl Hri]. split; [by rewrite Hrl|]. intros i r Hi.
  destruct (lookup_lt_is_Some_2 (fo_slots s) i) as [o Ho].
  { rewrite <-Hrl. by eapply lookup_lt_Some. }
  destruct (Hall _ _ Ho) as [r' ->]. rewrite (Hri _ _ Ho) in Hi. injection Hi as ->.
  destruct (Hs _ _ Ho) as [?|[[= Hp]|(? & ? & _)]]; [done| |done].
  unfold processEndorsement in Hp. destruct (genuine i) as [r'|]; [|done].
  destruct (accepted_status _) eqn:E; [|done]. injection Hp as ->. done.
Qed.

(** An error is an endorser's own, or a cancellation, which without the caller's
    doing goes back to an endorser's cancellation. *)
Lemma fan_result_Err s err :
  fan_inv s → fan_result s = Err err →
  (isCancellation err = false ∧
   ∃ i, (i < n)%nat ∧ processEndorsement (genuine i) = Err err ∧
     ∀ j err', (j < i)%nat → fo_slots s !! j = Some (Some (Err err')) →
       isCancellation err' = true) ∨
  (isCancellation err = true ∧
   (fo_caller s = false → ∃ j e', (j < n)%nat ∧ processEndorsement (genuine j) = Err e' ∧
      isCancellation e' = true)).
Proof.
  intros (Hl & Hs & Hc). unfold fan_result.
  assert (∀ i o, fo_slots s !! i = Some o → (i < n)%nat) as Hlt
    by (intros i o Hi; rewrite <-Hl; by eapply lookup_lt_Some).
  destruct (first_error (λ err, negb _) (fo_slots s)) as [e|] eqn:E1.
  - intros [= <-]. left. apply first_error_Some in E1 as (i & Hi & Hp%negb_true_iff & Hb).
    split; [done|]. exists i. split; [by eapply Hlt|]. split.
    + destruct (Hs _ _ Hi) as [?|[[= ->]|(e' & [= <-] & Hcan & _)]]; [done..|congruence].
    + intros j e' Hj He'. by eapply negb_false_iff, Hb.
  - destruct (first_error (λ _, true) (fo_slots s)) as [e|] eqn:E2; [|done].
    intros [= <-]. right. apply first_error_Some in E2 as (i & Hi & _ & _).
    assert (∀ j e', fo_slots s !! j = Some (Some (Err e')) → isCancellation e' = true) as Hcn
      by (intros j e' Hj; by apply negb_false_iff, (first_error_None _ _ _ _ E1 Hj)).
    split; [by eapply Hcn|]. intros Hcal.
    destruct (Hs _ _ Hi) as [?|[[= Hge]|(e' & _ & _ & Hcan)]]; [done| |].
    + exists i, e. eauto.
    + destruct (Hc Hcan) as [?|(j & e2 & Hj & Hp)]; [congruence|]. exists j, e2. eauto.
Qed.
End fanout.

(** C21: the fan-out.  However the endorsers' answers interleave: the transaction
    is endorsed only with one accepted response per endorser, in the order of the
    endorsers.  Otherwise, if the caller has not cancelled and no endorser fails
    with a cancellation of its own, the error is what some endorser answered,
    never one of the cancellations the early stop provoked, and no endorser before
    it in order has an error of its own recorded; if every endorser accepts, the
    transaction is endorsed. *)
Theorem fanout_result genuine n s
    (Hr : rtc (fan_step genuine) (fan_start n) s) (Hdone : fan_done s = true) :
  (∀ rs, fan_result s = Ok rs →
     length rs = n ∧ ∀ i r, rs !! i = Some r →
       genuine i = Ok r ∧ accepted_status (pr_Status r) = true) ∧
  (fo_caller s = false →
   (∀ i err, processEndorsement (genuine i) = Err err → isCancellation err = false) →
   ∀ err, fan_result s = Err err →
     isCancellation err = false ∧
     ∃ i, (i < n)%nat ∧ processEndorsement (genuine i) = Err err ∧
       ∀ j err', (j < i)%nat → fo_slots s !! j = Some (Some (Err err')) →
         isCancellation err' = true) ∧
  (fo_caller s = false → (∀ i, (i < n)%nat → ∃ r, processEndorsement (genuine i) = Ok r) →
   ∃ rs, fan_result s = Ok rs).
Proof.
  pose proof (fan_reachable_inv _ _ _ Hr) as Hi. split_and!.
  - intros rs. by apply fan_result_Ok.
  - intros Hcal Hgc err Herr. destruct (fan_result_Err _ _ _ _ Hi Herr) as [Hown|[Hcan Hj]]; [done|].
    destruct (Hj Hcal) as (j & e' & _ & Hj' & He'). by rewrite (Hgc _ _ Hj') in He'.
  - intros Hcal Hok. destruct (fan_result s) as [rs|err] eqn:Herr; [by exists rs|].
    destruct (fan_result_Err _ _ _ _ Hi Herr) as [(_ & j & Hj & Hg & _)|[_ Hj]].
    + destruct (Hok _ Hj). congruence.
    + destruct (Hj Hcal) as (j & e' & Hlt & Hg & _). destruct (Hok _ Hlt). congruence.
Qed.

(** ** Gas estimates *)

Section estimate.
Context {G : GethTypes}.
Context (local_Call : nat → CallMsg → option byte_slice * Z * option call_err).

(** A call with this gas limit went through. *)
Definition verified (args : CallMsg) (gas : Z) : Prop :=
  ∃ i ret used, local_Call i (with_gas_limit args gas) = (ret, used, None).

(** Why an estimate fails: a transport failure or a revert with data. *)
Definition refused (args : CallMsg) (err : query_error) : Prop :=
  ∃ i gas ret used e, local_Call i (with_gas_limit args gas) = (ret, used, Some e) ∧
    match e with
    | Transport msg => err = QueryFailed ("process call: " +:+ msg)
    | CallErr e => ce_Reverted e = true ∧ (0 < slice_len (ce_Data e))%nat ∧
        err = RevertError (ce_Message e) (ce_Data e)
    end.

Lemma refused_not_allowance args gas : ~ refused args (GasExceedsAllowance gas).
Proof. intros (? & ? & ? & ? & [e|msg] & _ & H); [by destruct H as (_ & _ & H)|done]. Qed.

Lemma probeGas_cases i args gas :
  match probeGas local_Call i args gas with
  | Ok (used, true) => ∃ ret, local_Call i (with_gas_limit args gas) = (ret, used, None)
  | Ok (used, false) => ∃ ret e, local_Call i (with_gas_limit args gas) = (ret, used, Some (CallErr e))
  | Err err => refused args err
  end.
Proof.
  unfold probeGas. destruct (local_Call i (with_gas_limit args gas)) as [[ret used] [[e|msg]|]] eqn:E;
    [|by eexists i, gas, ret, used, _|by eexists].
  destruct (ce_Reverted e) eqn:Hr; simpl; [destruct (Nat.ltb_spec 0 (slice_len (ce_Data e)))|];
    try by eexists _, _.
  by eexists i, gas, ret, used, _.
Qed.

(** The loop ends when the doubled guess has reached the ceiling. *)
Lemma estimate_loop_spec fuel : ∀ i args guess,
  verified args estimateGasCeiling → 0 < guess →
  estimateGasCeiling ≤ guess * 2 ^ Z.of_nat fuel →
  ∃ r, estimate_loop local_Call (S fuel) i args guess = Some r ∧
    match r with
    | Ok g => verified args g ∧ g ≤ estimateGasCeiling ∧
        (g < estimateGasCeiling → ∃ k : nat, g = guess * 2 ^ Z.of_nat k)
    | Err err => refused args err
    end.
Proof.
  induction fuel as [|fuel IH]; intros i args guess Hv H0 Hc.
  { simpl. destruct (Z.ltb_spec guess estimateGasCeiling); [simpl in Hc; lia|].
    eexists. split; [reflexivity|]. split_and!; [done|lia|intros; exfalso; lia]. }
  cbn [estimate_loop]. destruct (Z.ltb_spec guess estimateGasCeiling) as [Hlt|Hge].
  2: { eexists. split; [reflexivity|]. split_and!; [done|lia|intros; exfalso; lia]. }
  pose proof (probeGas_cases i args guess) as Hp.
  destruct (probeGas local_Call i args guess) as [[used []]|err].
  - eexists. split; [reflexivity|]. destruct Hp as [ret Hp]. split_and!; [by eexists _, _, _|lia|].
    intros _. exists 0%nat. simpl. lia.
  - rewrite u64_small by (unfold is_u64, estimateGasCeiling in *; lia).
    destruct (IH (S i) args (guess * 2)) as (r & Hr & Hspec); [done|lia| |].
    { rewrite Nat2Z.inj_succ, Z.pow_succ_r in Hc by lia. lia. }
    exists r. split; [exact Hr|]. destruct r as [g|]; [|done]. destruct Hspec as (? & ? & Hk).
    split_and!; try done. intros Hg. destruct (Hk Hg) as [k ->]. exists (S k).
    rewrite Nat2Z.inj_succ, Z.pow_succ_r by lia. lia.
  - by eexists.
Qed.

Lemma EstimateGas_spec args :
  (∀ i msg ret gas,
     0 < cm_Gas msg → local_Call i msg = (ret, gas, None) → 0 ≤ gas ≤ cm_Gas msg) →
  ∃ r, EstimateGas local_Call 14 args = Some r ∧
    match r with
    | Ok g => verified args g ∧ sstoreSentryBuffer ≤ g ≤ estimateGasCeiling ∧
        (g < estimateGasCeiling →
         ∃ ret used (k : nat), local_Call 0 (with_gas_limit args estimateGasCeiling) = (ret, used, None) ∧
           g = (used + sstoreSentryBuffer) * 2 ^ Z.of_nat k)
    | Err (GasExceedsAllowance _) =>
        ∃ ret used e, local_Call 0 (with_gas_limit args estimateGasCeiling) = (ret, used, Some (CallErr e))
    | Err err => refused args err
    end.
Proof.
  intros Hgas. unfold EstimateGas. pose proof (probeGas_cases 0 args estimateGasCeiling) as Hp.
  destruct (probeGas local_Call 0 args estimateGasCeiling) as [[used []]|err].
  - destruct Hp as [ret Hp]. assert (0 ≤ used ≤ estimateGasCeiling) as Hu by (by eapply Hgas in Hp).
    rewrite u64_small by (unfold is_u64, estimateGasCeiling, sstoreSentryBuffer in *; lia).
    destruct (estimate_loop_spec 13 1 args (used + sstoreSentryBuffer)) as (r & Hr & Hspec).
    + by eexists _, _, _.
    + unfold sstoreSentryBuffer. lia.
    + unfold estimateGasCeiling, sstoreSentryBuffer in *. lia.
    + exists r. split; [exact Hr|]. destruct r as [g|err].
      * destruct Hspec as (? & ? & Hk). split_and!; [done| |done|].
        { destruct (decide (g < estimateGasCeiling)) as [Hg|Hg];
            [|unfold estimateGasCeiling, sstoreSentryBuffer in *; lia].
          destruct (Hk Hg) as [k ->]. pose proof (Z.pow_pos_nonneg 2 (Z.of_nat k)).
          unfold sstoreSentryBuffer in *. nia. }
        intros Hg. destruct (Hk Hg) as [k ->]. by eexists _, _, _.
      * destruct err; [done..|]. by apply refused_not_allowance in Hspec.
  - eexists. split; [reflexivity|]. destruct Hp as (ret & e & Hp). by eexists _, _, _.
  - eexists. split; [reflexivity|]. destruct err; [done..|].
    by apply refused_not_allowance in Hp.
Qed.
End estimate.

(** ** The estimate over the local endorser *)

Section local.
Context {G : GethTypes} {L : GethLaws G} {T : EthTxTypes G} {C : EthCodec G T}.
Context {V : GethEVM G T} {VL : GethEVMLaws G T V}.

(** The endorser called in the process; its state and clock move on between
    calls.  A panic is what the caller of the client sees as a failure. *)
Definition local_endorser (fs : nat → Z * Endorser) (blockNumber : option Z) (i : nat)
    (msg : CallMsg) : option byte_slice * Z * option call_err :=
  match Endorser_Call (fs i).1 (fs i).2 msg blockNumber with
  | Done (ret, gas, None) => (ret, gas, None)
  | Done (ret, gas, Some e) => (ret, gas, Some (CallErr e))
  | Panic msg => (None, 0, Some (Transport msg))
  end.

Lemma execute_gas h msg s r s' :
  0 < m_GasLimit msg → execute h msg s = Done (r, s') → r_err r = None →
  0 ≤ r_maxUsedGas r ≤ m_GasLimit msg.
Proof.
  unfold execute, ApplyMessage. intros H0 H He. apply st_bind_done in H as (id & s1 & _ & H).
  apply st_bind_done in H as (res & s2 & Hrun & H). destruct res as [x|err].
  - injection H as <- <-. simpl. apply ApplyMessage_gas in Hrun.
    unfold with_defaults in Hrun. simpl in Hrun.
    destruct (Z.eqb_spec (m_GasLimit msg) 0); [lia|].
    destruct ((0 <? ex_maxTxGas h) && (ex_maxTxGas h <? m_GasLimit msg)) eqn:E; [|lia].
    apply andb_true_iff in E as [_ E%Z.ltb_lt]. lia.
  - apply st_bind_done in H as ([] & s3 & _ & H). injection H as <- <-. discriminate He.
Qed.

Lemma callMsgToMessage_gas msg fee b1 b2 m :
  callMsgToMessage msg fee b1 b2 = Done m → m_GasLimit m = cm_Gas msg.
Proof.
  unfold callMsgToMessage. destruct (call_prices msg fee) as [[p1 p2] p3].
  repeat case_match; try done. by intros [= <-].
Qed.

Lemma local_endorser_gas fs bn i msg ret gas :
  0 < cm_Gas msg → local_endorser fs bn i msg = (ret, gas, None) → 0 ≤ gas ≤ cm_Gas msg.
Proof.
  unfold local_endorser, Endorser_Call, EVMEngine_Call. intros H0.
  destruct (newExecutor _ bn _) as [ex|]; [|done].
  destruct (Executor_Call ex msg NewStateDB) as [[r s]|] eqn:Hc; [|done].
  destruct (r_err r) eqn:He; [done|]. intros [= _ <-]. unfold Executor_Call in Hc.
  apply st_bind_done in Hc as (m & s1 & Hm & Hc). unfold lift in Hm.
  destruct (callMsgToMessage _ _ _ _) as [m'|] eqn:Hmsg; [|done]. injection Hm as <- <-.
  apply callMsgToMessage_gas in Hmsg. rewrite <-Hmsg in *. by eapply execute_gas.
Qed.

(** C34: gas estimates.  Over the local endorser, whatever its state does between
    the calls, [EstimateGas] ends after at most fourteen rounds.  An estimate lies
    between 2301 and the ceiling, a call with exactly that limit went through,
    and below the ceiling it is the gas the first call needed plus the reserve,
    doubled some number of times; otherwise the call at the ceiling failed, or
    some call reverted with data or could not be made. *)
Theorem EstimateGas_verified fs blockNumber args :
  ∃ r, EstimateGas (local_endorser fs blockNumber) 14 args = Some r ∧
    match r with
    | Ok g =>
        verified (local_endorser fs blockNumber) args g ∧
        sstoreSentryBuffer ≤ g ≤ estimateGasCeiling ∧
        (g < estimateGasCeiling → ∃ ret used (k : nat),
           local_endorser fs blockNumber 0 (with_gas_limit args estimateGasCeiling)
             = (ret, used, None) ∧
           g = (used + sstoreSentryBuffer) * 2 ^ Z.of_nat k)
    | Err (GasExceedsAllowance _) => ∃ ret used e,
        local_endorser fs blockNumber 0 (with_gas_limit args estimateGasCeiling)
          = (ret, used, Some (CallErr e))
    | Err err => refused (local_endorser fs blockNumber) args err
    end.
Proof. apply EstimateGas_spec. intros. by eapply local_endorser_gas. Qed.
End local.

(** ** Examples *)

#[local] Existing Instances four_types four_txs demo_codec demo_evm.

Definition status_response (status : Z) (msg : string) : ProposalResponse := {|
  pr_Version := 1; pr_Status := status; pr_Message := msg; pr_Payload := None; pr_Signed := None |}.

(** Three endorsers; the second rejects the transaction. *)
Definition demo_answers (i : nat) : answer :=
  Ok (if Nat.eqb i 1 then status_response 400 "nonce too low" else status_response 200 "OK").

Definition grpc_canceled : rpc_error := {|
  re_msg := "rpc error: code = Canceled"; re_ctxCanceled := false; re_grpcCanceled := true |}.

(** The second answers first; the first is aborted, the third is not. *)
Definition demo_fanout : fanout :=
  answered 2 (demo_answers 2) (answered 0 (Err grpc_canceled)
    (answered 1 (demo_answers 1) (fan_start 3))).

Lemma demo_fanout_reachable : rtc (fan_step demo_answers) (fan_start 3) demo_fanout.
Proof.
  eapply rtc_l; [apply (fan_answer _ _ 1); reflexivity|].
  eapply rtc_l; [apply (fan_abort _ _ 0 grpc_canceled); reflexivity|].
  eapply rtc_l; [apply (fan_answer _ _ 2); reflexivity|]. apply rtc_refl.
Qed.

Lemma fanout_result_witness :
  fan_result demo_fanout = Err (process_error "nonce too low") ∧
  isCancellation (process_error "nonce too low") = false ∧
  ∃ i, (i < 3)%nat ∧ processEndorsement (demo_answers i) = Err (process_error "nonce too low").
Proof.
  split; [reflexivity|].
  destruct (fanout_result demo_answers 3 demo_fanout demo_fanout_reachable) as (_ & H & _);
    [reflexivity|].
  destruct (H eq_refl) with (err := process_error "nonce too low") as (Hc & i & Hi & Hp & _).
  - intros i err. unfold demo_answers. destruct (Nat.eqb i 1); simpl; [by intros [= <-]|done].
  - reflexivity.
  - split; [exact Hc|]. exists i. split; [exact Hi|exact Hp].
Defined.

Definition demo_call : CallMsg := {|
  cm_From := true; cm_To := Some false; cm_Gas := 0; cm_GasPrice := None; cm_GasFeeCap := None;
  cm_GasTipCap := None; cm_Value := None; cm_Data := []; cm_AccessList := [];
  cm_BlobGasFeeCap := None; cm_BlobHashes := []; cm_AuthorizationList := [] |}.

Definition demo_local (i : nat) : Z * Endorser := (1000 * nanos, demo_endorser 4).

Lemma EstimateGas_verified_witness :
  EstimateGas (local_endorser demo_local None) 14 demo_call = Some (Ok 23301) ∧
  verified (local_endorser demo_local None) demo_call 23301.
Proof.
  assert (EstimateGas (local_endorser demo_local None) 14 demo_call = Some (Ok 23301)) as He
    by (vm_compute; reflexivity).
  split; [exact He|].
  destruct (EstimateGas_verified demo_local None demo_call) as (r & Hr & Hspec).
  rewrite He in Hr. injection Hr as <-. apply Hspec.
Defined.

(** An endorser that cannot open a snapshot answers with a server error;
    [probeGas] takes it for a lack of gas, and the caller is told that the call
    needs too much of it. *)
Definition broken_local (i : nat) : Z * Endorser :=
  (1000 * nanos, Endorser_New {|
     eng_namespace := "evm"; eng_monotonicVersions := true;
     eng_NewSnapshot := λ _, Err "snapshot unavailable";
     eng_evmConfig := eng_evmConfig (demo_engine 4) |} 0 0).

Lemma server_fault_reported_as_gas :
  local_endorser broken_local None 0 demo_call =
    (None, 0, Some (CallErr {| ce_Status := StatusServerError;
                               ce_Message := "snapshot unavailable"; ce_Data := None |})) ∧
  EstimateGas (local_endorser broken_local None) 14 demo_call =
    Some (Err (GasExceedsAllowance estimateGasCeiling)).
Proof. split; vm_compute; reflexivity. Qed.

(** Every invocation parses the namespace version as a number, also on the
    classic Fabric path, where any label is allowed. *)
Lemma label_refused {Inv : Type} ParseFloat
    (NewInvocation : string → string → string → Z → list byte_slice → result string Inv)
    channel namespace args :
  ParseFloat "v1" = None →
  createInvocation ParseFloat NewInvocation channel namespace "v1" args =
    Err "not a valid Fabric-X namespace version".
Proof. intros H. unfold createInvocation, NsVersionUint64. simpl. by rewrite H. Qed.
