(* ===== verification/Commit.v ===== *)
(** * Commit: what was executed is what is read after the commit

    The endorser's engine on top of the in-memory store: an endorsement computed
    on a snapshot, the block that carries its write set, and the state queries
    at that block's height ([LightKVS], [Executor], [Engine] together). *)

From Stdlib Require Import ZArith Lia.
From stdpp Require Import base numbers list gmap strings.
From S2P Require Import Prelude Blocks KVSpec LightKVS Codec Geth StateDB.
From S2P Require Import StateDBProps Domain Convert Executor Engine EngineProps.

Local Open Scope Z_scope.

(** ** The store as the engine's snapshotter *)

(** A reader of the store as the executor's read store. *)
Definition light_reads (r : Reader) : ReadStore := λ ns key,
  match Reader_Get r ns key with
  | Ok rec => Ok rec
  | Err _ => Err "reader closed"
  end.

Definition light_NewSnapshot (kvs : LightKVS) (blockNumber : option Z) : result string ReadStore :=
  match NewSnapshot kvs blockNumber with
  | Ok r => Ok (light_reads r)
  | Err _ => Err "no snapshot"
  end.

(** ** The value of a key at the end of a run *)

Section run_end.
Context `{L : GethLaws}.

Lemma getState_tip c s key rec :
  idx_ok s → cfg_store c (cfg_namespace c) key = Ok rec →
  ∃ s', getState c key s = Done (Ok (shown c s key), s').
Proof.
  intros Hi Hrec. unfold getState, shown, mbind, st_bind. rewrite getStateFromJournal_spec by done.
  destruct (journal_value key (journal s)) as [v|]; [by eexists|].
  unfold getStateFromStore. rewrite Hrec. by eexists.
Qed.

(** The answer of a query, without the state it leaves. *)
Definition answer_of {A} (o : outcome (A * StateDB)) : outcome (result go_error A) :=
  match o with Done (a, _) => Done (Ok a) | Panic msg => Panic msg end.

Lemma query_shown {A} c1 c2 key (f : result string (option byte_slice) → st StateDB A) s1 s2 rec1 rec2 :
  idx_ok s1 → idx_ok s2 →
  cfg_store c1 (cfg_namespace c1) key = Ok rec1 → cfg_store c2 (cfg_namespace c2) key = Ok rec2 →
  shown c1 s1 key = shown c2 s2 key →
  (∀ r s s', answer_of (f r s) = answer_of (f r s')) →
  answer_of ((getState c1 key ≫= f) s1) = answer_of ((getState c2 key ≫= f) s2).
Proof.
  intros H1 H2 E1 E2 Hv Hf. destruct (getState_tip c1 s1 key rec1 H1 E1) as [s1' Hg1].
  destruct (getState_tip c2 s2 key rec2 H2 E2) as [s2' Hg2].
  unfold mbind, st_bind. rewrite Hg1, Hg2, Hv. apply Hf.
Qed.

(** ** The write set in a block *)

(** [tx] writes the key. *)
Definition writes_key (ns key : string) (tx : Transaction) : Prop :=
  ∃ n w, n ∈ tx_NsRWS tx ∧ w ∈ rws_Writes (ns_RWS n) ∧
    fullKey (ns_Namespace n) (kw_Key w) = fullKey ns key.

(** No other valid transaction of the block writes the key. *)
Definition sole_writer (b : Block) (ftx : Transaction) (ns key : string) : Prop :=
  ∀ tx, tx ∈ b_Transactions b → tx_Valid tx = true → writes_key ns key tx → tx = ftx.

Lemma fullKey_inj ns k1 k2 : fullKey ns k1 = fullKey ns k2 → k1 = k2.
Proof.
  unfold fullKey. intros [_ H]%string_app_inj; [|done]. by apply string_app_inj in H as [_ H].
Qed.

Lemma update_elem b u :
  u ∈ blockUpdates b ↔
  ∃ tx n w, tx ∈ b_Transactions b ∧ tx_Valid tx = true ∧ n ∈ tx_NsRWS tx ∧
    w ∈ rws_Writes (ns_RWS n) ∧ u = update_of (b_Number b) (u64 (tx_Number tx)) (tx_ID tx) n w.
Proof.
  rewrite blockUpdates_flat, list_elem_of_bind. split.
  - intros (tx & Hu & Htx). unfold tx_updates in Hu. destruct (tx_Valid tx) eqn:Hv; [|by apply elem_of_nil in Hu].
    apply list_elem_of_bind in Hu as (n & Hu & Hn). apply list_elem_of_bind in Hu as (w & Hu & Hw).
    apply list_elem_of_singleton in Hu. by exists tx, n, w.
  - intros (tx & n & w & Htx & Hv & Hn & Hw & ->). exists tx. split; [|done].
    unfold tx_updates. rewrite Hv. apply list_elem_of_bind. exists n. split; [|done].
    apply list_elem_of_bind. exists w. split; [apply list_elem_of_here|done].
Qed.

(** After the block the key holds the run's last write, or what it held. *)
Lemma commit_lookup ns d s b ftx key :
  Forall (λ e, match e with writeEntry w => kw_IsDelete w = true → kw_Value w = None | _ => True end)
    (journal s) →
  ftx ∈ b_Transactions b → tx_Valid ftx = true →
  tx_NsRWS ftx = [{| ns_Namespace := ns; ns_RWS := Result s |}] → sole_writer b ftx ns key →
  readValue (toWriteRecord ns key <$> writes d (blockUpdates b) !! fullKey ns key) =
  match journal_value key (journal s) with
  | Some v => v
  | None => readValue (toWriteRecord ns key <$> d !! fullKey ns key)
  end.
Proof.
  intros Hdel Hin Hv Hrws Hsole.
  assert (∀ u, u ∈ blockUpdates b → kvv_Key u = fullKey ns key →
    ∃ w, find_last (is_write_of key) (journal s) = Some (writeEntry w) ∧ kvv_Value u = kw_Value w) as Hu.
  { intros u (tx & n & w & Htx & Hvt & Hn & Hw & ->)%update_elem Hk. simpl in Hk.
    assert (tx = ftx) as -> by (apply Hsole; [done..|by exists n, w]).
    rewrite Hrws in Hn. apply list_elem_of_singleton in Hn as ->. simpl in *.
    apply fullKey_inj in Hk as <-. exists w. split; [by apply Result_writes|done]. }
  unfold journal_value. destruct (find_last (is_write_of key) (journal s)) as [e|] eqn:Hf; simpl.
  - destruct (find_last_Some _ _ _ Hf) as [Hj Hp]. destruct e as [|w| | | | | | ]; try done.
    simpl in Hp. apply String.eqb_eq in Hp.
    assert (update_of (b_Number b) (u64 (tx_Number ftx)) (tx_ID ftx)
      {| ns_Namespace := ns; ns_RWS := Result s |} w ∈ writes_to (fullKey ns key) (blockUpdates b)) as Hin'.
    { apply list_elem_of_filter. split; [simpl; by rewrite Hp|]. apply update_elem.
      exists ftx, {| ns_Namespace := ns; ns_RWS := Result s |}, w. split_and!; try done.
      - rewrite Hrws. apply list_elem_of_here.
      - apply Result_writes. by rewrite Hp. }
    rewrite writes_lookup. destruct (last (writes_to _ _)) as [u|] eqn:Hl.
    2: { apply last_None in Hl. rewrite Hl in Hin'. by apply elem_of_nil in Hin'. }
    apply last_Some_elem_of, list_elem_of_filter in Hl as [Hk Hub].
    destruct (Hu _ Hub Hk) as (w' & [= <-] & Hval). simpl. rewrite Hval.
    rewrite Forall_forall in Hdel. specialize (Hdel _ Hj). simpl in Hdel.
    destruct (kw_IsDelete w); [by apply Hdel|done].
  - rewrite writes_lookup_notin; [done|]. apply Forall_forall. intros u Hub Hk.
    by destruct (Hu _ Hub Hk) as (? & ? & _).
Qed.

(** The latest state of a store, as a run reads it. *)
Definition tip_config (ns : string) (mono : bool) (kvs : LightKVS) : config := {|
  cfg_namespace := ns; cfg_store := light_reads {| r_Snapshot := Some (Current kvs) |};
  cfg_monotonicVersions := mono |}.

Lemma tip_store ns mono kvs key :
  ∃ rec, cfg_store (tip_config ns mono kvs) (cfg_namespace (tip_config ns mono kvs)) key = Ok rec.
Proof. by eexists. Qed.

(** The commit of a run on the latest state: every key reads afterwards as the
    run itself would have read it at its end. *)
Lemma commit_shown ns mono kvs kvs' s b ftx key :
  sn_Data (Current kvs') = writes (sn_Data (Current kvs)) (blockUpdates b) →
  Forall (truthful (tip_config ns mono kvs)) (journal s) →
  ftx ∈ b_Transactions b → tx_Valid ftx = true →
  tx_NsRWS ftx = [{| ns_Namespace := ns; ns_RWS := Result s |}] → sole_writer b ftx ns key →
  shown (tip_config ns mono kvs') NewStateDB key = shown (tip_config ns mono kvs) s key.
Proof.
  intros Hd Ht Hin Hv Hrws Hsole. unfold shown at 1. cbn. rewrite Hd.
  rewrite (commit_lookup ns (sn_Data (Current kvs)) s b ftx key); try done.
  eapply Forall_impl; [exact Ht|by intros []].
Qed.

End run_end.

Section queries.
Context {G : GethTypes} {L : GethLaws G} {T : EthTxTypes G} {V : GethEVM G T}.

(** A state query at a height that resolves to the latest state. *)
Lemma query_tip {A} (e : EVMEngine) kvs n key (f : result string (option byte_slice) → st StateDB A)
    (q : config → st StateDB A) c s rec :
  (∀ c s, q c s = (getState c key ≫= f) s) → (∀ r s s', answer_of (f r s) = answer_of (f r s')) →
  eng_NewSnapshot e (resolveStateBlockRef n) = Ok (light_reads {| r_Snapshot := Some (Current kvs) |}) →
  idx_ok s → cfg_store c (cfg_namespace c) key = Ok rec →
  shown (tip_config (eng_namespace e) (eng_monotonicVersions e) kvs) NewStateDB key = shown c s key →
  at_snapshot e n q = answer_of (q c s).
Proof.
  intros Hq Hf Hn Hi Hrec Hv. unfold at_snapshot. rewrite Hn, !Hq.
  match goal with |- match ?o with _ => _ end = _ =>
    transitivity (answer_of o); [by destruct o as [[]|]|] end.
  eapply query_shown; done.
Qed.

(** The four queries of the engine at the latest state, against a run [s] whose
    keys read the same. *)
Lemma queries_tip (e : EVMEngine) kvs n c s account slot :
  eng_NewSnapshot e (resolveStateBlockRef n) = Ok (light_reads {| r_Snapshot := Some (Current kvs) |}) →
  idx_ok s → (∀ key, ∃ rec, cfg_store c (cfg_namespace c) key = Ok rec) →
  let same key := shown (tip_config (eng_namespace e) (eng_monotonicVersions e) kvs) NewStateDB key = shown c s key in
  (same (accKey account "bal") → EVMEngine_BalanceAt e account n = answer_of (GetBalance c account s)) ∧
  (same (accKey account "nonce") → EVMEngine_NonceAt e account n = answer_of (GetNonce c account s)) ∧
  (same (accKey account "code") → EVMEngine_CodeAt e account n = answer_of (GetCode c account s)) ∧
  (same (storeKey account slot) →
   EVMEngine_StorageAt e account slot n = answer_of ((v ← GetState c account slot; mret (Hash_Bytes v)) s)).
Proof.
  intros Hn Hi Hst same.
  assert (∀ A key f (q : config → st StateDB A), (∀ c s, q c s = (getState c key ≫= f) s) →
    (∀ r s s', answer_of (f r s) = answer_of (f r s')) → same key → at_snapshot e n q = answer_of (q c s)) as Hq.
  { intros A key f q Hqf Hf Hk. destruct (Hst key) as [rec Hrec]. by eapply query_tip. }
  split_and!.
  - apply (Hq _ _ (λ r, val ← must r; mret (bytesToUint256 (slice_bytes val)))); [done|].
    by intros [] ? ?.
  - apply (Hq _ _ (λ r, val ← must r; lift (bytesToUint64 (slice_bytes val)))); [done|].
    intros [v|] ? ?; [|done]. unfold mbind, st_bind, lift. simpl. by destruct (bytesToUint64 _).
  - apply (Hq _ _ must); [done|]. by intros [] ? ?.
  - apply (Hq _ _ (λ r, val ← must r; mret (Hash_Bytes (toHash val)))); [|by intros [] ? ?].
    intros c' s'. unfold GetState, mbind, st_bind. destruct (getState c' _ s') as [[[v|] s'']|]; done.
Qed.
End queries.

(** ** End to end *)

Section commit.
Context {G : GethTypes} {L : GethLaws G} {T : EthTxTypes G} {C : EthCodec G T}.
Context {V : GethEVM G T} {VL : GethEVMLaws G T V}.
Context {W : Wire} {K : EndorsementSDK W} {KL : SDKLaws W K}.
Context (ns : string) (mono : bool) (cfg : EVMConfig).

Definition light_engine (kvs : LightKVS) : EVMEngine := {|
  eng_namespace := ns; eng_monotonicVersions := mono;
  eng_NewSnapshot := light_NewSnapshot kvs; eng_evmConfig := cfg |}.

(** A store that has applied the blocks [bs]. *)
Definition delivered (h : Z) (bs : list Block) (kvs : LightKVS) : Prop :=
  ∃ kvs0, NewLightKVS h = Done kvs0 ∧ HandleAll bs kvs0 = Done (None, kvs).

Lemma delivered_rep h bs kvs :
  0 < h < 2 ^ 32 → increasing (ledger_of bs) → delivered h bs kvs →
  light_rep h (reverse (ledger_of bs)) kvs.
Proof.
  intros Hh Hinc (kvs0 & H0 & H1).
  destruct (NewLightKVS_HandleAll h bs Hh Hinc) as (kvs0' & kvs' & H0' & H1' & Hrep).
  rewrite H0 in H0'. injection H0' as <-. rewrite H1 in H1'. by injection H1' as <-.
Qed.

Lemma tip_snapshot h n us rl kvs :
  light_rep h ((n, us) :: rl) kvs →
  light_NewSnapshot kvs (Some n) = Ok (light_reads {| r_Snapshot := Some (Current kvs) |}).
Proof.
  intros [Hc _ _ _]. unfold light_NewSnapshot, NewSnapshot. rewrite Hc. simpl. by rewrite Z.leb_refl.
Qed.

Lemma resolve_height n : 0 < n < 2 ^ 64 → resolveStateBlockRef (Some n) = Some n.
Proof.
  intros Hn. simpl. destruct (Z.ltb_spec n 0); [lia|]. f_equal. apply u64_small. unfold is_u64. lia.
Qed.

(** C3: committed state is executed state.  Run a transaction on the latest
    state of the in-memory store; put its write set, in a valid transaction, into
    a block above the tip and deliver it.  Then balances, nonces, code and storage
    queried at that block are what the run itself would have read at its end,
    deletions and reverted writes included, for every key no other valid
    transaction of the block writes. *)
Theorem commit_matches_execution h bs kvs tx t res b ftx
    (Hh : 0 < h < 2 ^ 32) (Hinc : increasing (ledger_of bs)) (Hkvs : delivered h bs kvs)
    (Hex : EVMEngine_Execute (light_engine kvs) tx t = Done (Ok res))
    (Hnum : Forall (λ b', b_Number b' < b_Number b) bs) (Hrange : 0 < b_Number b < 2 ^ 64)
    (Hin : ftx ∈ b_Transactions b) (Hvalid : tx_Valid ftx = true)
    (Hrws : tx_NsRWS ftx = [{| ns_Namespace := ns; ns_RWS := e_RWS res |}]) :
  ∃ kvs' ex r s,
    Handle b kvs = Done (None, kvs') ∧ newExecutor (light_engine kvs) None t = Ok ex ∧
    Send ex tx NewStateDB = Done (r, s) ∧
    ∀ account slot,
    (sole_writer b ftx ns (accKey account "bal") →
     EVMEngine_BalanceAt (light_engine kvs') account (Some (b_Number b)) =
       answer_of (GetBalance (ex_config ex) account s)) ∧
    (sole_writer b ftx ns (accKey account "nonce") →
     EVMEngine_NonceAt (light_engine kvs') account (Some (b_Number b)) =
       answer_of (GetNonce (ex_config ex) account s)) ∧
    (sole_writer b ftx ns (accKey account "code") →
     EVMEngine_CodeAt (light_engine kvs') account (Some (b_Number b)) =
       answer_of (GetCode (ex_config ex) account s)) ∧
    (sole_writer b ftx ns (storeKey account slot) →
     EVMEngine_StorageAt (light_engine kvs') account slot (Some (b_Number b)) =
       answer_of ((v ← GetState (ex_config ex) account slot; mret (Hash_Bytes v)) s)).
Proof.
  pose proof (delivered_rep h bs kvs Hh Hinc Hkvs) as Hrep. set (rl := reverse (ledger_of bs)) in *.
  destruct (Handle_rep h rl kvs b Hh Hrep) as (kvs' & Hb & Hrep').
  { unfold rl. rewrite Forall_reverse. unfold ledger_of. by rewrite Forall_fmap. }
  apply Execute_Ok in Hex as (ex & from & msg & x & s & s1 & r & Hnew & Hs & _ & _ & Hrun & Hg & Hres).
  exists kvs', ex, r, s. split; [done|]. split; [done|]. split; [done|].
  destruct (newExecutor_Ok _ _ _ _ Hnew) as (reader & [= <-] & Hcfg & _).
  apply NewResult_Ok in Hres as (Hrw & _); [|unfold metadata_of; by repeat case_match].
  rewrite Hrw in Hrws. destruct NewStateDB_wf as [Hwf Hr]. rewrite Hcfg in Hrun |- *.
  change (engine_config _ _) with (tip_config ns mono kvs) in *.
  pose proof (run_truthful _ _ _ _ _ (tip_store ns mono kvs) Hwf Hr (Forall_nil_2 _) Hrun) as Ht.
  destruct (run_wf _ _ _ _ _ Hwf Hr Hrun) as [[Hidx _] _].
  intros account slot.
  destruct (queries_tip (light_engine kvs') kvs' (Some (b_Number b)) (tip_config ns mono kvs) s account slot)
    as (Hbal & Hnon & Hcode & Hsto); [|done|apply tip_store|].
  { rewrite resolve_height by done. by eapply tip_snapshot. }
  assert (∀ key, sole_writer b ftx ns key →
    shown (tip_config ns mono kvs') NewStateDB key = shown (tip_config ns mono kvs) s key) as Hkey.
  { intros key. eapply commit_shown; try done. rewrite (lr_current _ _ _ Hrep), (lr_current _ _ _ Hrep').
    by rewrite !snap_of_data, reverse_cons, ledger_state_snoc. }
  split_and!; auto.
Qed.
End commit.

(** ** An example *)

#[local] Existing Instances four_types four_txs demo_codec demo_evm enc_wire enc_sdk.

Definition demo_config : EVMConfig := {| ec_ChainConfig := Some tt; ec_MaxTxGas := 40000 |}.

(** Block 1 sets the sender's nonce to 4. *)
Definition demo_blocks : list Block := [put_block 1 "evm" (accKey true "nonce") (uint64ToBytes 4)].

Definition handled (bs : list Block) : LightKVS :=
  match NewLightKVS 4 with
  | Done kvs0 =>
      match HandleAll bs kvs0 with
      | Done (_, kvs) => kvs
      | Panic _ => kvs0
      end
  | Panic _ => {| Current := placeholder; History := []; NextIndex := 0 |}
  end.

Definition light_res : ExecutionResult :=
  match EVMEngine_Execute (light_engine "evm" true demo_config (handled demo_blocks)) (true, false) 1000 with
  | Done (Ok res) => res
  | _ => Success {| rws_Reads := []; rws_Writes := [] |} "" [] []
  end.

Definition commit_block : Block := {|
  b_Number := 2; b_Hash := [2]; b_ParentHash := [1]; b_Timestamp := 1002;
  b_Transactions := [demo_ftx light_res] |}.

Lemma delivered_demo : delivered 4 demo_blocks (handled demo_blocks).
Proof. eexists. split; [reflexivity|vm_compute; reflexivity]. Qed.

Lemma commit_matches_execution_witness :
  EVMEngine_NonceAt (light_engine "evm" true demo_config (handled (demo_blocks ++ [commit_block])))
    true (Some 2) = Done (Ok 5) ∧
  ∃ kvs' ex r s,
    Handle commit_block (handled demo_blocks) = Done (None, kvs') ∧
    Send ex (true, false) NewStateDB = Done (r, s) ∧
    EVMEngine_StorageAt (light_engine "evm" true demo_config kvs') true (true, false) (Some 2) =
      answer_of ((v ← GetState (ex_config ex) true (true, false); mret (Hash_Bytes v)) s).
Proof.
  split; [vm_compute; reflexivity|].
  destruct (commit_matches_execution "evm" true demo_config 4 demo_blocks (handled demo_blocks)
    (true, false) 1000 light_res commit_block (demo_ftx light_res))
    as (kvs' & ex & r & s & Hb & Hnew & Hs & Hq).
  - lia.
  - repeat constructor.
  - exact delivered_demo.
  - vm_compute. reflexivity.
  - repeat constructor; simpl; lia.
  - simpl. lia.
  - apply list_elem_of_here.
  - reflexivity.
  - reflexivity.
  - exists kvs', ex, r, s. split; [exact Hb|]. split; [exact Hs|].
    apply (Hq true (true, false)). intros tx Htx _ _. by apply list_elem_of_singleton in Htx.
Defined.
