(* ===== verification/Remote.v ===== *)
(** * Remote: the endorser service over gRPC

    endorser/api/service.go is the contract between a gateway and an endorser;
    endorser/client/client.go and endorser/server/handlers.go carry it over gRPC.
    [Service] is the contract as a record of operations, [endorser_service] the
    endorser called in the process, [remote_service] any service behind a client
    and a server.  The generated messages are records; on the wire an empty byte
    string and an absent one are the same. *)

From Stdlib Require Import ZArith Lia.
From stdpp Require Import base numbers list strings.
From S2P Require Import Prelude Blocks Codec Geth StateDB StateDBProps Domain Executor Engine Endorse.

Local Open Scope Z_scope.

(** The parts of an invocation the messages carry, and how the server puts an
    invocation together from them. *)
Class WireInvocation (W : Wire) (K : EndorsementSDK W) := {
  inv_TxID : Invocation → string;
  inv_Args : Invocation → list byte_slice;
  inv_Namespace : Invocation → string;
  inv_ChaincodeVersion : Invocation → string;
  inv_ProposalHash : Invocation → byte_slice;
  make_Invocation : string → list byte_slice → string → string → byte_slice → Invocation
}.

(** [types.Transaction.MarshalBinary]. *)
Class TxMarshal (G : GethTypes) (T : EthTxTypes G) (C : EthCodec G T) := {
  MarshalBinary : EthTx → result string byte_slice;
  Unmarshal_Marshal tx raw : MarshalBinary tx = Ok raw → UnmarshalBinary raw = Some tx
}.

Section remote.
Context {G : GethTypes} {T : EthTxTypes G} {C : EthCodec G T} {V : GethEVM G T}.
Context {W : Wire} {K : EndorsementSDK W} {I : WireInvocation W K} {M : TxMarshal G T C}.

(** ** The contract *)

(** A failed method has the text of its error, over gRPC the description of the
    status.  A panic of the endorser ends the method without an answer, which
    its caller cannot tell from a failure. *)
Record Service := {
  svc_Execute : Invocation → EthTx → Z → result string ProposalResponse;
  svc_Call : CallMsg → option Z → option byte_slice * Z * option call_err;
  svc_BalanceAt : Address → option Z → result string Z;
  svc_StorageAt : Address → Hash → option Z → result string byte_slice;
  svc_CodeAt : Address → option Z → result string byte_slice;
  svc_NonceAt : Address → option Z → result string Z
}.

Definition query_result {A} (o : outcome (result go_error A)) : result string A :=
  match o with
  | Done (Ok a) => Ok a
  | Done (Err err) => Err (Error err)
  | Panic msg => Err msg
  end.

(** [core.Endorser] as the service. *)
Definition endorser_service (now : Z) (f : Endorser) : Service := {|
  svc_Execute inv tx ts :=
    match Endorser_Execute now f inv tx ts with Done r => Ok r | Panic msg => Err msg end;
  svc_Call msg bn :=
    match Endorser_Call now f msg bn with
    | Done (ret, gas, None) => (ret, gas, None)
    | Done (ret, gas, Some e) => (ret, gas, Some (CallErr e))
    | Panic msg => (None, 0, Some (Transport msg))
    end;
  svc_BalanceAt a bn := query_result (EVMEngine_BalanceAt (en_Engine f) a bn);
  svc_StorageAt a k bn := query_result (EVMEngine_StorageAt (en_Engine f) a k bn);
  svc_CodeAt a bn :=
    match query_result (EVMEngine_CodeAt (en_Engine f) a bn) with
    | Ok code => Ok (slice_bytes code)
    | Err err => Err err
    end;
  svc_NonceAt a bn := query_result (EVMEngine_NonceAt (en_Engine f) a bn) |}.

(** ** Messages *)

Record ExecuteRequest := {
  xq_EthereumTx : byte_slice;
  xq_ProposalHash : byte_slice;
  xq_TxId : string;
  xq_Args : list byte_slice;
  xq_ChaincodeName : string;
  xq_ChaincodeVersion : string;
  xq_Timestamp : Z
}.

(** The signed payload and the endorsement are carried as they are. *)
Record ExecuteResponse := {
  xr_Signed : option ExecutionResult;
  xr_Status : Z;
  xr_Message : string;
  xr_Payload : byte_slice
}.

Record CallRequest := {
  cq_From : byte_slice;
  cq_To : byte_slice;
  cq_Gas : Z;
  cq_GasPrice : byte_slice;
  cq_Value : byte_slice;
  cq_Data : byte_slice;
  cq_BlockNumber : option Z
}.

Record CallResponse := {
  cr_ReturnData : byte_slice;
  cr_Status : Z;
  cr_Message : string;
  cr_MaxUsedGas : Z
}.

(** ** endorser/client/client.go: requests *)

Definition Address_zero : Address := BytesToAddress [].

(** [Bytes] and [SetBytes] of a [big.Int]: the absolute value, big-endian. *)
Definition big_Bytes (n : Z) : byte_slice := be_min (Z.abs n).
Definition big_SetBytes (b : byte_slice) : Z := be_value b.

Definition blockNumberProto (bn : option Z) : option Z :=
  match bn with
  | None => None
  | Some n => if n <? 0 then None else Some (u64 n)
  end.

Definition callRequest (msg : CallMsg) (bn : option Z) : CallRequest := {|
  cq_From := if decide (cm_From msg = Address_zero) then [] else Address_Bytes (cm_From msg);
  cq_To := match cm_To msg with Some a => Address_Bytes a | None => [] end;
  cq_Gas := cm_Gas msg;
  cq_GasPrice := match cm_GasPrice msg with Some p => big_Bytes p | None => [] end;
  cq_Value := match cm_Value msg with Some v => big_Bytes v | None => [] end;
  cq_Data := cm_Data msg;
  cq_BlockNumber := blockNumberProto bn |}.

Definition executeRequest (inv : Invocation) (raw : byte_slice) (timestamp : Z) : ExecuteRequest := {|
  xq_EthereumTx := raw; xq_ProposalHash := inv_ProposalHash inv; xq_TxId := inv_TxID inv;
  xq_Args := inv_Args inv; xq_ChaincodeName := inv_Namespace inv;
  xq_ChaincodeVersion := inv_ChaincodeVersion inv; xq_Timestamp := time_Unix timestamp |}.

Definition proposalResponse (resp : ExecuteResponse) : ProposalResponse := {|
  pr_Version := 0; pr_Status := xr_Status resp; pr_Message := xr_Message resp;
  pr_Payload := Some (xr_Payload resp); pr_Signed := xr_Signed resp |}.

(** ** endorser/server/handlers.go *)

Definition callMsg (req : CallRequest) : CallMsg := {|
  cm_From := if (0 <? length (cq_From req))%nat then BytesToAddress (cq_From req) else Address_zero;
  cm_To := if (0 <? length (cq_To req))%nat then Some (BytesToAddress (cq_To req)) else None;
  cm_Gas := cq_Gas req;
  cm_GasPrice := if (0 <? length (cq_GasPrice req))%nat
                 then Some (big_SetBytes (cq_GasPrice req)) else None;
  cm_GasFeeCap := None; cm_GasTipCap := None;
  cm_Value := if (0 <? length (cq_Value req))%nat then Some (big_SetBytes (cq_Value req)) else None;
  cm_Data := cq_Data req; cm_AccessList := []; cm_BlobGasFeeCap := None; cm_BlobHashes := [];
  cm_AuthorizationList := [] |}.

Definition invocation (req : ExecuteRequest) : Invocation :=
  make_Invocation (xq_TxId req) (xq_Args req) (xq_ChaincodeName req) (xq_ChaincodeVersion req)
    (xq_ProposalHash req).

Definition executeResponse (pr : ProposalResponse) : ExecuteResponse := {|
  xr_Signed := pr_Signed pr; xr_Status := pr_Status pr; xr_Message := pr_Message pr;
  xr_Payload := slice_bytes (pr_Payload pr) |}.

(** The decoder's own message is not kept. *)
Definition Server_Execute (svc : Service) (req : ExecuteRequest) : result string ExecuteResponse :=
  match UnmarshalBinary (xq_EthereumTx req) with
  | None => Err "unmarshal tx"
  | Some tx =>
      let ts := if xq_Timestamp req =? 0 then time_zero else xq_Timestamp req * nanos in
      match svc_Execute svc (invocation req) tx ts with
      | Err err => Err ("execute: " +:+ err)
      | Ok resp => Ok (executeResponse resp)
      end
  end.

Definition Server_Call (svc : Service) (req : CallRequest) : result string CallResponse :=
  match svc_Call svc (callMsg req) (cq_BlockNumber req) with
  | (_, gas, Some (CallErr e)) =>
      Ok {| cr_ReturnData := slice_bytes (ce_Data e); cr_Status := ce_Status e;
            cr_Message := ce_Message e; cr_MaxUsedGas := gas |}
  | (_, _, Some (Transport err)) => Err ("call: " +:+ err)
  | (out, gas, None) =>
      Ok {| cr_ReturnData := slice_bytes out; cr_Status := StatusOK; cr_Message := "";
            cr_MaxUsedGas := gas |}
  end.

(** The state queries: the account and the key as bytes, a balance as bytes. *)
Definition Server_BalanceAt (svc : Service) (account : byte_slice) (bn : option Z)
    : result string byte_slice :=
  match svc_BalanceAt svc (BytesToAddress account) bn with
  | Err err => Err ("balance: " +:+ err)
  | Ok bal => Ok (big_Bytes bal)
  end.

Definition Server_StorageAt (svc : Service) (account key : byte_slice) (bn : option Z)
    : result string byte_slice :=
  match svc_StorageAt svc (BytesToAddress account) (BytesToHash key) bn with
  | Err err => Err ("storage: " +:+ err)
  | Ok val => Ok val
  end.

Definition Server_CodeAt (svc : Service) (account : byte_slice) (bn : option Z)
    : result string byte_slice :=
  match svc_CodeAt svc (BytesToAddress account) bn with
  | Err err => Err ("code: " +:+ err)
  | Ok code => Ok code
  end.

Definition Server_NonceAt (svc : Service) (account : byte_slice) (bn : option Z) : result string Z :=
  match svc_NonceAt svc (BytesToAddress account) bn with
  | Err err => Err ("nonce: " +:+ err)
  | Ok nonce => Ok nonce
  end.

(** ** endorser/client/client.go: the methods *)

Definition Client_Execute (svc : Service) (inv : Invocation) (tx : EthTx) (timestamp : Z)
    : result string ProposalResponse :=
  match MarshalBinary tx with
  | Err err => Err err
  | Ok raw =>
      match Server_Execute svc (executeRequest inv raw timestamp) with
      | Err err => Err err
      | Ok resp => Ok (proposalResponse resp)
      end
  end.

Definition Client_Call (svc : Service) (msg : CallMsg) (bn : option Z)
    : option byte_slice * Z * option call_err :=
  match Server_Call svc (callRequest msg bn) with
  | Err err => (None, 0, Some (Transport err))
  | Ok resp =>
      if cr_Status resp =? StatusOK then (Some (cr_ReturnData resp), cr_MaxUsedGas resp, None)
      else (Some (cr_ReturnData resp), cr_MaxUsedGas resp,
            Some (CallErr {| ce_Status := cr_Status resp; ce_Message := cr_Message resp;
                             ce_Data := Some (cr_ReturnData resp) |}))
  end.

Definition Client_BalanceAt (svc : Service) (account : Address) (bn : option Z) : result string Z :=
  match Server_BalanceAt svc (Address_Bytes account) (blockNumberProto bn) with
  | Err err => Err err
  | Ok b => Ok (big_SetBytes b)
  end.

Definition Client_StorageAt (svc : Service) (account : Address) (key : Hash) (bn : option Z) :=
  Server_StorageAt svc (Address_Bytes account) (Hash_Bytes key) (blockNumberProto bn).

Definition Client_CodeAt (svc : Service) (account : Address) (bn : option Z) :=
  Server_CodeAt svc (Address_Bytes account) (blockNumberProto bn).

Definition Client_NonceAt (svc : Service) (account : Address) (bn : option Z) :=
  Server_NonceAt svc (Address_Bytes account) (blockNumberProto bn).

Definition remote_service (svc : Service) : Service := {|
  svc_Execute := Client_Execute svc; svc_Call := Client_Call svc;
  svc_BalanceAt := Client_BalanceAt svc; svc_StorageAt := Client_StorageAt svc;
  svc_CodeAt := Client_CodeAt svc; svc_NonceAt := Client_NonceAt svc |}.
End remote.

(** ** Health *)

(** [Monitor]: the probe results it passes to [onChange]. *)
Fixpoint Monitor_loop (first wasHealthy : bool) (probes : list (option string)) : list (option string) :=
  match probes with
  | [] => []
  | err :: rest =>
      let healthy := bool_decide (err = None) in
      if first || negb (Bool.eqb healthy wasHealthy) then err :: Monitor_loop false healthy rest
      else Monitor_loop first wasHealthy rest
  end.

Definition Monitor (probes : list (option string)) : list (option string) :=
  Monitor_loop true false probes.
