(* ===== verification/RemoteProps.v ===== *)
(** * RemoteProps: a remote endorser is the endorser

    What goes through the gRPC client and server comes out as if the endorser had
    been called in the process: calls and state queries give the same answers,
    and all endorsers execute at the same block time. *)

From Stdlib Require Import ZArith Lia.
From stdpp Require Import base numbers list strings.
From S2P Require Import Prelude Blocks Codec Geth StateDB StateDBProps Domain.
From S2P Require Import Convert Executor Engine EngineProps Endorse Remote.

Local Open Scope Z_scope.

Section props.
Context {G : GethTypes} {L : GethLaws G} {T : EthTxTypes G} {C : EthCodec G T}.
Context {CL : EthCodecLaws G T C} {V : GethEVM G T} {VL : GethEVMLaws G T V}.
Context {W : Wire} {K : EndorsementSDK W} {KL : SDKLaws W K}.
Context {I : WireInvocation W K} {M : TxMarshal G T C}.

(** ** Messages *)

(** What a call message can say over the wire: legacy gas price, amounts that
    are not negative, no lists. *)
Definition wireable (msg : CallMsg) : Prop :=
  cm_GasFeeCap msg = None ∧ cm_GasTipCap msg = None ∧ cm_AccessList msg = [] ∧
  cm_BlobGasFeeCap msg = None ∧ cm_BlobHashes msg = [] ∧ cm_AuthorizationList msg = [] ∧
  0 ≤ default 0 (cm_GasPrice msg) ∧ 0 ≤ default 0 (cm_Value msg).

Definition is_height (bn : option Z) : Prop := ∀ n, bn = Some n → is_u64 n.

Lemma big_roundtrip n : 0 ≤ n → big_SetBytes (big_Bytes n) = n.
Proof. intros Hn. unfold big_SetBytes, big_Bytes. rewrite Z.abs_eq by done. by apply be_value_min. Qed.

Lemma big_amount o :
  0 ≤ default 0 o →
  default 0 (let b := match o with Some v => big_Bytes v | None => [] end in
             if (0 <? length b)%nat then Some (big_SetBytes b) else None) = default 0 o.
Proof.
  intros Ho. destruct o as [v|]; [|done]. simpl in *.
  destruct (Nat.ltb_spec 0 (length (big_Bytes v))) as [_|Hl]; [by apply big_roundtrip|].
  destruct (big_Bytes v) as [|] eqn:E; [|simpl in Hl; lia].
  rewrite <-(big_roundtrip v) by done. by rewrite E.
Qed.

Lemma from_roundtrip a :
  (let b := if decide (a = Address_zero) then [] else Address_Bytes a in
   if (0 <? length b)%nat then BytesToAddress b else Address_zero) = a.
Proof.
  simpl. case_decide as Ha; [by subst|]. rewrite Address_Bytes_length. simpl. apply BytesToAddress_Bytes.
Qed.

Lemma to_roundtrip o :
  (let b := match o with Some a => Address_Bytes a | None => [] end in
   if (0 <? length b)%nat then Some (BytesToAddress b) else None) = o.
Proof.
  destruct o as [a|]; [|done]. simpl. rewrite Address_Bytes_length. simpl. by rewrite BytesToAddress_Bytes.
Qed.

Lemma height_roundtrip bn : is_height bn → blockNumberProto bn = bn.
Proof.
  destruct bn as [n|]; [|done]. intros Hn. specialize (Hn n eq_refl). simpl.
  destruct (Z.ltb_spec n 0); [unfold is_u64 in Hn; lia|]. by rewrite u64_small.
Qed.

(** The message the executor builds is the same. *)
Lemma callMsg_roundtrip msg bn b1 b2 :
  wireable msg →
  callMsgToMessage (callMsg (callRequest msg bn)) (Some 0) b1 b2 = callMsgToMessage msg (Some 0) b1 b2.
Proof.
  intros (Hf & Ht & Ha & Hb & Hh & Hau & Hp & Hv). unfold callMsgToMessage.
  assert (call_prices (callMsg (callRequest msg bn)) (Some 0) = call_prices msg (Some 0)) as ->.
  { unfold call_prices. cbn [cm_GasPrice cm_GasFeeCap cm_GasTipCap callMsg]. rewrite Hf, Ht.
    pose proof (big_amount (cm_GasPrice msg) Hp) as Hg. cbn [callRequest cq_GasPrice].
    cbv zeta in Hg. destruct (cm_GasPrice msg) as [p|]; [|done]. simpl in Hg.
    destruct (_ <? _)%nat; simpl in Hg; [by rewrite Hg|]. by subst p. }
  destruct (call_prices msg (Some 0)) as [[p1 p2] p3].
  pose proof (big_amount (cm_Value msg) Hv) as Hval. pose proof (from_roundtrip (cm_From msg)) as Hfrom.
  pose proof (to_roundtrip (cm_To msg)) as Hto. cbv zeta in *.
  cbn [callMsg callRequest cm_From cm_To cm_Gas cm_Value cm_Data cm_AccessList cm_BlobGasFeeCap
    cm_BlobHashes cm_AuthorizationList cq_From cq_To cq_Gas cq_Value cq_Data].
  rewrite Hval, Hfrom, Hto, Ha, Hb, Hh, Hau. done.
Qed.

(** ** Calls and queries *)

(** Two answers to a call agree: the same bytes, gas and error; a transport
    failure is passed on with a prefix. *)
Definition call_agrees (x y : option byte_slice * Z * option call_err) : Prop :=
  match x, y with
  | (ret, gas, None), (ret', gas', None) => slice_bytes ret' = slice_bytes ret ∧ gas' = gas
  | (ret, gas, Some (CallErr e)), (ret', gas', Some (CallErr e')) =>
      slice_bytes ret' = slice_bytes ret ∧ gas' = gas ∧ ce_Status e' = ce_Status e ∧
      ce_Message e' = ce_Message e ∧ slice_bytes (ce_Data e') = slice_bytes (ce_Data e)
  | (_, _, Some (Transport m)), (_, _, Some (Transport m')) => m' = "call: " +:+ m
  | _, _ => False
  end.

Definition query_agrees {A} (prefix : string) (x y : result string A) : Prop :=
  match x, y with
  | Ok a, Ok b => b = a
  | Err m, Err m' => m' = prefix +:+ m
  | _, _ => False
  end.

Lemma classify_not_OK err : classify err ≠ StatusOK.
Proof. unfold classify. by repeat case_match. Qed.

Lemma Endorser_Call_roundtrip now f msg bn :
  wireable msg → Endorser_Call now f (callMsg (callRequest msg bn)) bn = Endorser_Call now f msg bn.
Proof.
  intros Hw. unfold Endorser_Call, EVMEngine_Call.
  destruct (newExecutor (en_Engine f) bn _) as [ex|] eqn:Hex; [|done].
  assert (bc_BaseFee (ex_BlockCtx ex) = 0) as Hfee.
  { unfold newExecutor, NewExecutor in Hex. repeat case_match; try done; by injection Hex as <-. }
  assert (∀ s, Executor_Call ex (callMsg (callRequest msg bn)) s = Executor_Call ex msg s) as Hc.
  { intros s. unfold Executor_Call. by rewrite Hfee, callMsg_roundtrip. }
  by rewrite Hc.
Qed.

Lemma remote_call now f msg bn :
  wireable msg → is_height bn →
  call_agrees (svc_Call (endorser_service now f) msg bn)
    (svc_Call (remote_service (endorser_service now f)) msg bn).
Proof.
  intros Hw Hbn. simpl. unfold Client_Call, Server_Call. cbn [svc_Call endorser_service].
  assert (cq_BlockNumber (callRequest msg bn) = bn) as -> by (by apply height_roundtrip).
  rewrite Endorser_Call_roundtrip by done.
  destruct (Endorser_Call now f msg bn) as [[[ret gas] [e|]]|m] eqn:He; simpl; [|done..].
  assert (ce_Status e ≠ StatusOK ∧ ce_Data e = ret) as [Hst Hd].
  { unfold Endorser_Call in He. destruct (EVMEngine_Call _ _ _ _) as [[[r g] [err|]]|]; [|done..].
    injection He as <- <- <-. split; [apply classify_not_OK|done]. }
  rewrite (proj2 (Z.eqb_neq _ _) Hst). simpl. by rewrite Hd.
Qed.

Lemma BalanceAt_nonneg e a bn bal : EVMEngine_BalanceAt e a bn = Done (Ok bal) → 0 ≤ bal.
Proof.
  unfold EVMEngine_BalanceAt, at_snapshot. destruct (eng_NewSnapshot e _) as [reader|]; [|done].
  destruct (GetBalance _ a NewStateDB) as [[b s]|] eqn:Hb; [|done]. intros [= <-].
  unfold GetBalance in Hb. apply st_bind_done in Hb as (r & s1 & _ & Hb).
  apply st_bind_done in Hb as (v & s2 & _ & Hb). injection Hb as <- _. apply bytesToUint256_range.
Qed.

(** C24: a remote endorser answers as a local one.  Calls whose message fits the
    wire format (no fee caps, lists or negative amounts) and all state queries at
    a height that is a [uint64], or at the latest state, give the same result
    through client and server as in the process: return data, gas, status,
    message and revert data of a call, balances, storage words, code and nonces;
    failures are passed on. *)
Theorem remote_transparent now f (svc := endorser_service now f) :
  (∀ msg bn, wireable msg → is_height bn →
     call_agrees (svc_Call svc msg bn) (svc_Call (remote_service svc) msg bn)) ∧
  (∀ a k bn, is_height bn →
     query_agrees "balance: " (svc_BalanceAt svc a bn) (svc_BalanceAt (remote_service svc) a bn) ∧
     query_agrees "storage: " (svc_StorageAt svc a k bn) (svc_StorageAt (remote_service svc) a k bn) ∧
     query_agrees "code: " (svc_CodeAt svc a bn) (svc_CodeAt (remote_service svc) a bn) ∧
     query_agrees "nonce: " (svc_NonceAt svc a bn) (svc_NonceAt (remote_service svc) a bn)).
Proof.
  split; [intros msg bn; apply remote_call|]. intros a k bn Hbn.
  cbn [svc_BalanceAt svc_StorageAt svc_CodeAt svc_NonceAt remote_service].
  unfold Client_BalanceAt, Client_StorageAt, Client_CodeAt, Client_NonceAt, Server_BalanceAt,
    Server_StorageAt, Server_CodeAt, Server_NonceAt.
  rewrite BytesToAddress_Bytes, BytesToHash_Bytes, height_roundtrip by done. split_and!.
  - unfold svc, endorser_service. cbn [svc_BalanceAt]. unfold query_result.
    destruct (EVMEngine_BalanceAt _ a bn) as [[bal|err]|] eqn:Hb; simpl; [|done..].
    apply big_roundtrip. by eapply BalanceAt_nonneg.
  - by destruct (svc_StorageAt svc a k bn).
  - by destruct (svc_CodeAt svc a bn).
  - by destruct (svc_NonceAt svc a bn).
Qed.

(** ** Endorsements *)

(** The signed result of an endorsement. *)
Definition signed (r : result string ProposalResponse) : option ExecutionResult :=
  match r with Ok resp => pr_Signed resp | Err _ => None end.

Lemma Endorser_Execute_signed now f inv tx ts resp res :
  is_i64 (time_Unix ts) → Endorser_Execute now f inv tx ts = Done resp → pr_Signed resp = Some res →
  EVMEngine_Execute (en_Engine f) tx (time_Unix ts) = Done (Ok res) ∧ 0 < time_Unix ts.
Proof.
  intros Hts. unfold Endorser_Execute.
  destruct (validateRequestTimestamp _ _ _ _) eqn:Hv; [by intros [= <-]|].
  apply validate_window in Hv as [H0 _]. rewrite u64_small by (unfold is_u64, is_i64 in *; lia).
  destruct (EVMEngine_Execute _ _ _) as [[res'|err]|] eqn:He; [|by intros [= <-]|done].
  destruct (Execute_status _ _ _ _ He) as (_ & Hne & _).
  destruct (Endorse inv res') as [r|] eqn:Hen; intros [= <-]; [|done].
  apply Endorse_spec in Hen as [_ ->]. intros [= <-]. split; [done|lia].
Qed.

(** The remote endorser runs at the whole second of the request, with the
    invocation the server rebuilds from the message. *)
Lemma remote_execute now f inv tx ts raw :
  MarshalBinary tx = Ok raw → time_Unix ts ≠ 0 →
  svc_Execute (remote_service (endorser_service now f)) inv tx ts =
  match Endorser_Execute now f (invocation (executeRequest inv raw ts)) tx (time_Unix ts * nanos) with
  | Done resp => Ok (proposalResponse (executeResponse resp))
  | Panic msg => Err ("execute: " +:+ msg)
  end.
Proof.
  intros Hraw Hts. simpl. unfold Client_Execute, Server_Execute. rewrite Hraw. simpl.
  rewrite (Unmarshal_Marshal _ _ Hraw), (proj2 (Z.eqb_neq _ _) Hts).
  by destruct (Endorser_Execute _ _ _ _ _).
Qed.

Lemma time_Unix_second n : time_Unix (n * nanos) = n.
Proof. unfold time_Unix, nanos. by rewrite Z.div_mul. Qed.

(** C23: endorsers agree.  The gateway sends one time stamp to all endorsers, with
    its nanoseconds to the local one and as whole seconds to a remote one.  A
    remote endorser behaves as the endorser called at the whole second with the
    fields of the invocation the message carries.  If a local and a remote
    endorser with the same engine state both sign, they sign the same execution
    result, so their read-write sets match; what the builder takes from the
    invocation beyond the message, such as a namespace version, is not compared. *)
Theorem endorsers_agree now1 now2 f1 f2 inv tx ts raw
    (Hraw : MarshalBinary tx = Ok raw) (Hts : is_i64 (time_Unix ts)) (Hne : time_Unix ts ≠ 0)
    (Heng : en_Engine f1 = en_Engine f2) :
  svc_Execute (remote_service (endorser_service now2 f2)) inv tx ts =
    match Endorser_Execute now2 f2 (invocation (executeRequest inv raw ts)) tx (time_Unix ts * nanos) with
    | Done resp => Ok (proposalResponse (executeResponse resp))
    | Panic msg => Err ("execute: " +:+ msg)
    end ∧
  ∀ r1 r2,
    signed (svc_Execute (endorser_service now1 f1) inv tx ts) = Some r1 →
    signed (svc_Execute (remote_service (endorser_service now2 f2)) inv tx ts) = Some r2 →
    r1 = r2.
Proof.
  pose proof (remote_execute now2 f2 inv tx ts raw Hraw Hne) as Hrem. split; [exact Hrem|].
  intros r1 r2. rewrite Hrem. simpl.
  destruct (Endorser_Execute now1 f1 inv tx ts) as [p1|] eqn:E1; [|done].
  destruct (Endorser_Execute now2 f2 _ tx _) as [p2|] eqn:E2; [|done]. simpl. intros H1 H2.
  destruct (Endorser_Execute_signed _ _ _ _ _ _ _ Hts E1 H1) as [He1 _].
  destruct (Endorser_Execute_signed _ _ _ _ _ _ _ ltac:(by rewrite time_Unix_second) E2 H2) as [He2 _].
  rewrite time_Unix_second, <-Heng in He2. congruence.
Qed.
End props.

(** ** Health *)

Definition healthy (err : option string) : bool := bool_decide (err = None).

Lemma Monitor_loop_reports was probes :
  let reported := healthy <$> Monitor_loop false was probes in
  (∀ i a b, (was :: reported) !! i = Some a → (was :: reported) !! S i = Some b → a ≠ b) ∧
  last (was :: reported) = last (was :: (healthy <$> probes)).
Proof.
  revert was. induction probes as [|err rest IH]; intros was; simpl.
  - split; [by intros [|] a b|done].
  - fold (healthy err). destruct (Bool.eqb_spec (healthy err) was) as [Heq|Hne]; simpl.
    + destruct (IH was) as [Ha Hl]. split; [done|]. rewrite Hl. simpl. by rewrite Heq.
    + destruct (IH (healthy err)) as [Ha Hl]. split; [|exact Hl].
      intros [|i] a b; simpl; [intros [= <-] [= <-]; congruence|apply Ha].
Qed.

(** The monitor reports the first probe, afterwards exactly the changes: two
    reports in a row differ, and after any number of probes the last report is
    the current health. *)
Lemma Monitor_reports probes :
  let reported := healthy <$> Monitor probes in
  (∀ i a b, reported !! i = Some a → reported !! S i = Some b → a ≠ b) ∧
  last reported = last (healthy <$> probes).
Proof.
  destruct probes as [|err rest]; [by split; [intros [|]|]|]. apply (Monitor_loop_reports (healthy err)).
Qed.

(** ** A concrete service *)

#[local] Existing Instances four_types four_txs demo_codec demo_evm enc_wire enc_sdk.

Definition demo_marshal : TxMarshal four_types four_txs demo_codec.
Proof.
  refine (@Build_TxMarshal _ _ demo_codec (λ tx, Ok [if tx.1 : bool then 1 else 0; if tx.2 : bool then 1 else 0]) _).
  by intros [[] []] raw [= <-].
Defined.

Definition demo_inv : WireInvocation enc_wire enc_sdk :=
  @Build_WireInvocation enc_wire enc_sdk (λ _, "tx") (λ _, []) (λ _, "evm") (λ _, "1.0") (λ _, [7])
    (λ _ _ _ _ _, tt).

#[local] Existing Instances demo_marshal demo_inv.

Definition demo_call : CallMsg := {|
  cm_From := true; cm_To := Some false; cm_Gas := 50000; cm_GasPrice := Some 0; cm_GasFeeCap := None;
  cm_GasTipCap := None; cm_Value := Some 300; cm_Data := [1; 2]; cm_AccessList := [];
  cm_BlobGasFeeCap := None; cm_BlobHashes := []; cm_AuthorizationList := [] |}.

Lemma remote_transparent_witness :
  wireable demo_call ∧
  call_agrees (svc_Call (endorser_service (1000 * nanos) (demo_endorser 4)) demo_call (Some 3))
    (svc_Call (remote_service (endorser_service (1000 * nanos) (demo_endorser 4))) demo_call (Some 3)) ∧
  svc_NonceAt (remote_service (endorser_service (1000 * nanos) (demo_endorser 4))) true (Some 3) = Ok 4.
Proof.
  assert (wireable demo_call) as Hw by (unfold wireable; simpl; split_and!; (done || lia)).
  assert (is_height (Some 3)) as Hh by (intros n [= <-]; unfold is_u64; lia).
  destruct (remote_transparent (1000 * nanos) (demo_endorser 4)) as [Hcall Hq].
  split; [done|]. split; [by apply Hcall|].
  destruct (Hq true (BytesToHash []) (Some 3) Hh) as (_ & _ & _ & Hn).
  assert (svc_NonceAt (endorser_service (1000 * nanos) (demo_endorser 4)) true (Some 3) = Ok 4) as Hv
    by (vm_compute; reflexivity).
  rewrite Hv in Hn. unfold query_agrees in Hn. destruct (svc_NonceAt _ _ _); [by rewrite Hn|done].
Defined.

Lemma endorsers_agree_witness :
  let local := endorser_service (1000 * nanos) (demo_endorser 4) in
  let remote := remote_service (endorser_service (1003 * nanos) (demo_endorser 4)) in
  let ts := 1001 * nanos + 999 in
  match signed (svc_Execute local tt (true, false) ts), signed (svc_Execute remote tt (true, false) ts) with
  | Some r1, Some r2 => r1 = r2
  | _, _ => False
  end.
Proof.
  cbv zeta. destruct (endorsers_agree (W := enc_wire) (K := enc_sdk) (1000 * nanos) (1003 * nanos) (demo_endorser 4) (demo_endorser 4) tt
    (true, false) (1001 * nanos + 999) [1; 0]) as [_ Hagree];
    [reflexivity|split; vm_compute; congruence|vm_compute; congruence|reflexivity|].
  destruct (signed (svc_Execute (endorser_service _ _) _ _ _)) as [r1|] eqn:E1;
    [|vm_compute in E1; discriminate E1].
  destruct (signed (svc_Execute (remote_service _) _ _ _)) as [r2|] eqn:E2;
    [|vm_compute in E2; discriminate E2].
  by apply Hagree.
Defined.

(** A call that names its fee caps is another call at a remote endorser: the
    message the server rebuilds has none. *)
Definition fee_call : CallMsg := {|
  cm_From := true; cm_To := Some false; cm_Gas := 50000; cm_GasPrice := None; cm_GasFeeCap := Some 9;
  cm_GasTipCap := Some 2; cm_Value := None; cm_Data := []; cm_AccessList := [(false, [BytesToHash []])];
  cm_BlobGasFeeCap := None; cm_BlobHashes := []; cm_AuthorizationList := [] |}.

Lemma fee_caps_dropped :
  cm_GasFeeCap (callMsg (callRequest fee_call None)) = None ∧
  cm_AccessList (callMsg (callRequest fee_call None)) = [] ∧
  callMsgToMessage (callMsg (callRequest fee_call None)) (Some 0) true true ≠
    callMsgToMessage fee_call (Some 0) true true.
Proof. split_and!; [reflexivity..|]. intros H. vm_compute in H. discriminate H. Qed.
