(* ===== verification/Gateway.v ===== *)
(** * Gateway: from a submitted transaction to the orderer

    gateway/core/api.go, gateway/core/validate.go and
    gateway/core/batch_submitter.go.  [TxQueueInterface] is the queue interface of
    api.go as a class, with the queue's own goroutines as a relation; the three
    queues are its instances.  The gateway's state is the queue, the nonce gate
    and where a dequeued transaction is: with a worker, in the endorsement
    channel, with a submitter, or accepted by the orderer.  Each function is what
    one goroutine does between two points where another can run; metrics and
    logging are left out. *)

From Stdlib Require Import ZArith Lia.
From stdpp Require Import base numbers list gmap sets strings.
From S2P Require Import Prelude Blocks Geth Domain Convert Store TxQueues DepGraph DepGraphProps.
From S2P Require Import NonceGate Executor Engine Endorse Remote.

Local Open Scope Z_scope.

(** ** The queue interface *)

(** [ti_Reusable] is [endorsementReuser]; a queue that does not implement it has
    nothing to hand back. *)
Class TxQueueInterface (G : GethTypes) (T : EthTxTypes G) (E Q : Type) := {
  ti_Enqueue : EthTx → Q → option queue_error * Q;
  ti_Dequeue : Q → outcome (dequeued EthTx * Q);
  ti_IsPending : Hash → Q → option EthTx;
  ti_InFlight : Q → Z;
  ti_Complete : Hash → Q → Q;
  ti_Close : Q → Q;
  ti_Handle : DBlock → Q → Q;
  ti_Reusable : Hash → Q → option E * Q;
  ti_background : Q → Q → Prop
}.

Section queues.
Context {G : GethTypes} {T : EthTxTypes G}.

(** What the in-memory queues read of a block. *)
Definition block_hash (tx : DTransaction) : Hash := BytesToHash (slice_bytes (dt_TxHash tx)).

Definition committed_hashes (b : DBlock) : list committedHash :=
  (λ tx, {| ch_Hash := block_hash tx; ch_Status := dt_Status tx |}) <$> db_Transactions b.

Definition of_enqueue (e : option enqueue_error) : option queue_error :=
  (λ _, ErrTransactionAlreadyPending) <$> e.

#[export] Instance fifo_interface (E : Type) : TxQueueInterface G T E TxQueue := {|
  ti_Enqueue tx q := let '(e, q) := Enqueue tx q in (of_enqueue e, q);
  ti_Dequeue q := Done (Dequeue q);
  ti_IsPending := q_IsPending;
  ti_InFlight := InFlight;
  ti_Complete := Complete;
  ti_Close := q_Close;
  ti_Handle b := q_Handle (committed_hashes b);
  ti_Reusable _ q := (None, q);
  ti_background _ _ := False |}.

#[export] Instance v2_interface {A : TxAccess G T} (range : gset nat → list nat) (E : Type)
    : TxQueueInterface G T E TxQueueV2 := {|
  ti_Enqueue tx q := let '(e, q) := v2_Enqueue range tx q in (of_enqueue e, q);
  ti_Dequeue := v2_Dequeue;
  ti_IsPending := v2_IsPending;
  ti_InFlight := v2_InFlight;
  ti_Complete := v2_Complete;
  ti_Close := v2_Close;
  ti_Handle b := v2_Handle (committed_hashes b);
  ti_Reusable _ q := (None, q);
  ti_background _ _ := False |}.

(** *** The dependency-graph queue

    Its state here is the whole system of queue, workers, batcher and manager;
    a call that frees nodes leaves them to be fed back. *)

Context {D : DepTypes}.

Definition of_depgraph (e : option depgraph_error) : option queue_error :=
  (λ e, match e with
        | DepGraph.ErrQueueClosed => NonceGate.ErrQueueClosed
        | ErrAlreadyPending => ErrTransactionAlreadyPending
        | ErrQueueFull => ErrQueueOther
        end) <$> e.

Definition dep_Complete (h : Hash) (s : DepGraphProps.sys) : DepGraphProps.sys :=
  let '(nodes, q) := dg_Complete h (s_q s) in with_releasing q (s_releasing s ++ [nodes]) s.

Definition dep_Handle (b : DBlock) (s : DepGraphProps.sys) : DepGraphProps.sys :=
  let '(nodes, q) := dg_Handle b (s_q s) in
  with_hist q (s_releasing s ++ [nodes]) (add_hist (s_q s) (db_Transactions b) (g_hist s)) s.

(** Its background is every move that is not a call. *)
#[export] Instance dep_interface : TxQueueInterface G T Endorsement DepGraphProps.sys := {|
  ti_Enqueue tx s := let '(e, q) := dg_Enqueue tx (s_q s) in (of_depgraph e, with_q q s);
  ti_Dequeue s := let '(r, q) := dg_Dequeue (s_q s) in Done (r, with_q q s);
  ti_IsPending h s := dg_IsPending h (s_q s);
  ti_InFlight s := dg_InFlight (s_q s);
  ti_Complete := dep_Complete;
  ti_Close s := with_q (shutdown (s_q s)) s;
  ti_Handle := dep_Handle;
  ti_Reusable h s := let '(e, q) := ReusableEndorsement h (s_q s) in (e, with_q q s);
  ti_background := DepGraphProps.step false Worker |}.
End queues.

(** ** gateway/core/validate.go *)

Record ValidationOptions := {
  vo_Accept : Z; vo_MaxSize : Z; vo_MaxBlobCount : Z; vo_MinTip : Z;
  vo_HeadNumber : Z; vo_HeadTime : Z; vo_HeadDifficulty : Z; vo_HeadGasLimit : Z
}.

(** [txpool.ValidateTransaction], with the chain configuration and the head it
    is given as options. *)
Class TxPool (G : GethTypes) (T : EthTxTypes G) := {
  ValidateTransaction : EthTx → ValidationOptions → option string
}.

Definition AccessListTxType : Z := 1.
Definition DynamicFeeTxType : Z := 2.
Definition txMaxSize : Z := 4 * 32 * 1024.
Definition blockGasLimit : Z := u64_max.
Definition acceptedTxTypes : Z :=
  Z.lor (Z.lor (Z.shiftl 1 LegacyTxType) (Z.shiftl 1 AccessListTxType)) (Z.shiftl 1 DynamicFeeTxType).

Definition validation_opts : ValidationOptions := {|
  vo_Accept := acceptedTxTypes; vo_MaxSize := txMaxSize; vo_MaxBlobCount := 0; vo_MinTip := 0;
  vo_HeadNumber := 0; vo_HeadTime := 0; vo_HeadDifficulty := 0; vo_HeadGasLimit := blockGasLimit |}.

Inductive validate_error := ErrUnprotectedTx | ErrPool (e : string) | ErrInvalidSender.

Definition ValidateTx `{TxPool} {A : TxAccess G T} (tx : EthTx) : option validate_error :=
  if negb (Tx_Protected tx) then Some ErrUnprotectedTx
  else match ValidateTransaction tx validation_opts with
       | Some e => Some (ErrPool e)
       | None => match Tx_Sender tx with None => Some ErrInvalidSender | Some _ => None end
       end.

(** ** gateway/core/api.go *)

Section gateway.
Context {G : GethTypes} {T : EthTxTypes G} {C : EthCodec G T} {M : TxMarshal G T C} {W : Wire}.
Context {A : TxAccess G T} {P : TxPool G T} {DR : Driver}.
Context {E Q : Type} {I : TxQueueInterface G T E Q}.

(** [gw_reading]: the [Admit] calls away reading a nonce.  [gw_working]: the
    transactions in [processTx].  [gw_chan]: the endorsement channel, oldest
    first.  [gw_submitting]: the endorsements in [submitOne].  [gw_ordered]: the
    submissions the orderer accepted, until their block.  [gw_foreign] is not
    in the code: the hashes a block completed in the queue although this gateway
    had not got them ordered, which another gateway's copy can do. *)
Record Gateway := {
  gw_queue : Q;
  gw_gate : nonceGate;
  gw_reading : list (Address * EthTx);
  gw_working : list EthTx;
  gw_chan : list (Hash * E);
  gw_submitting : list (Hash * E);
  gw_ordered : list Hash;
  gw_foreign : list Hash
}.

Definition New (q : Q) : Gateway := {|
  gw_queue := q; gw_gate := newNonceGate; gw_reading := []; gw_working := []; gw_chan := [];
  gw_submitting := []; gw_ordered := []; gw_foreign := [] |}.

Definition set_gate (q : Q) (gate : nonceGate) (reading : list (Address * EthTx)) (g : Gateway)
    : Gateway := {|
  gw_queue := q; gw_gate := gate; gw_reading := reading; gw_working := gw_working g;
  gw_chan := gw_chan g; gw_submitting := gw_submitting g; gw_ordered := gw_ordered g;
  gw_foreign := gw_foreign g |}.

Definition set_work (q : Q) (working : list EthTx) (chan submitting : list (Hash * E))
    (ordered : list Hash) (g : Gateway) : Gateway := {|
  gw_queue := q; gw_gate := gw_gate g; gw_reading := gw_reading g; gw_working := working;
  gw_chan := chan; gw_submitting := submitting; gw_ordered := ordered; gw_foreign := gw_foreign g |}.

(** *** Submitting *)

Inductive send_error :=
| SendInvalid (e : validate_error)
| SendAlreadyPending
| SendAdmit (e : admit_error).

(** [SendTransaction] is done, or [Admit] went off to read the store. *)
Inductive send_phase := SendDone (e : option send_error) | SendReading (from : Address).

(** The queue after the gate's calls of [Enqueue] that [gate'] has made since
    [gate], which is held under the gate's lock meanwhile. *)
Definition enqueue_all (q : Q) (txs : list EthTx) : Q := foldl (λ q tx, (ti_Enqueue tx q).2) q txs.

Definition new_calls (gate gate' : nonceGate) : list EthTx :=
  drop (length (g_calls gate)) (g_calls gate').

Definition answer (q : Q) (tx : EthTx) : option queue_error := (ti_Enqueue tx q).1.

Context (cfg : gate_config).

Definition Admit (now : Z) (tx : EthTx) (g : Gateway) : send_phase * Gateway :=
  let '(ph, gate) := Admit_begin cfg (answer (gw_queue g)) now tx (gw_gate g) in
  let q := enqueue_all (gw_queue g) (new_calls (gw_gate g) gate) in
  match ph with
  | Finished e => (SendDone (SendAdmit <$> e), set_gate q gate (gw_reading g) g)
  | Reading from => (SendReading from, set_gate q gate ((from, tx) :: gw_reading g) g)
  end.

(** The second half of an [Admit] whose read returned [seed]. *)
Definition Admit_resume (now : Z) (from : Address) (tx : EthTx) (seed : option Z)
    (rest : list (Address * EthTx)) (g : Gateway) : outcome (option send_error * Gateway) :=
  match Admit_finish cfg (answer (gw_queue g)) now from tx seed (gw_gate g) with
  | Panic msg => Panic msg
  | Done (e, gate) =>
      Done (SendAdmit <$> e,
            set_gate (enqueue_all (gw_queue g) (new_calls (gw_gate g) gate)) gate rest g)
  end.

(** [IsPending] of queue or gate. *)
Definition pending (h : Hash) (g : Gateway) : option EthTx :=
  match ti_IsPending h (gw_queue g) with
  | Some tx => Some tx
  | None => IsPending h (gw_gate g)
  end.

Definition SendTransaction (now : Z) (tx : EthTx) (g : Gateway) : send_phase * Gateway :=
  match ValidateTx tx with
  | Some e => (SendDone (Some (SendInvalid e)), g)
  | None =>
      if decide (is_Some (pending (Tx_Hash tx) g)) then (SendDone (Some SendAlreadyPending), g)
      else Admit now tx g
  end.

(** Where a call of [SendTransaction] is.  It asks the queue, asks the gate and
    admits under separate locks, and [Admit] reads the nonce under none. *)
Inductive send_at :=
| AtStart
| AskGate
| AtAdmit
| AtRead (from : Address)
| Returned (e : option send_error).

(** The next piece of the call.  [seed] is what a nonce read returned and [rest]
    the other reads under way. *)
Definition send_next (now : Z) (tx : EthTx) (seed : option Z) (rest : list (Address * EthTx))
    (c : send_at) (g : Gateway) : outcome (send_at * Gateway) :=
  match c with
  | AtStart =>
      match ValidateTx tx with
      | Some e => Done (Returned (Some (SendInvalid e)), g)
      | None =>
          if decide (is_Some (ti_IsPending (Tx_Hash tx) (gw_queue g)))
          then Done (Returned (Some SendAlreadyPending), g) else Done (AskGate, g)
      end
  | AskGate =>
      if decide (is_Some (IsPending (Tx_Hash tx) (gw_gate g)))
      then Done (Returned (Some SendAlreadyPending), g) else Done (AtAdmit, g)
  | AtAdmit =>
      let '(ph, g') := Admit now tx g in
      Done (match ph with SendDone e => Returned e | SendReading from => AtRead from end, g')
  | AtRead from =>
      match Admit_resume now from tx seed rest g with
      | Panic msg => Panic msg
      | Done (e, g') => Done (Returned e, g')
      end
  | Returned e => Done (c, g)
  end.

(** *** Workers *)

Definition worker_Dequeue (g : Gateway) : outcome (dequeued EthTx * Gateway) :=
  match ti_Dequeue (gw_queue g) with
  | Panic msg => Panic msg
  | Done (DqTx tx, q) =>
      Done (DqTx tx, set_work q (gw_working g ++ [tx]) (gw_chan g) (gw_submitting g) (gw_ordered g) g)
  | Done (r, q) =>
      Done (r, set_work q (gw_working g) (gw_chan g) (gw_submitting g) (gw_ordered g) g)
  end.

(** The endorsement [processTx] submits: the one the queue kept, or the answer
    of [ExecuteEthTx]. *)
Definition processTx (tx : EthTx) (execute : result string E) (q : Q) : result string E * Q :=
  match ti_Reusable (Tx_Hash tx) q with
  | (Some e, q) => (Ok e, q)
  | (None, q) => (execute, q)
  end.

(** [SubmitFabricTx] puts the endorsement into the channel, [canceled] when the
    context ended first; the worker completes a transaction that failed. *)
Definition worker_process (tx : EthTx) (rest : list EthTx) (execute : result string E)
    (canceled : bool) (g : Gateway) : Gateway :=
  let '(r, q) := processTx tx execute (gw_queue g) in
  match r with
  | Ok e =>
      if canceled
      then set_work (ti_Complete (Tx_Hash tx) q) rest (gw_chan g) (gw_submitting g) (gw_ordered g) g
      else set_work q rest (gw_chan g ++ [(Tx_Hash tx, e)]) (gw_submitting g) (gw_ordered g) g
  | Err _ =>
      set_work (ti_Complete (Tx_Hash tx) q) rest (gw_chan g) (gw_submitting g) (gw_ordered g) g
  end.

(** *** gateway/core/batch_submitter.go *)

Definition submitter_take (g : Gateway) : option Gateway :=
  match gw_chan g with
  | [] => None
  | t :: chan => Some (set_work (gw_queue g) (gw_working g) chan (gw_submitting g ++ [t]) (gw_ordered g) g)
  end.

(** [submitOne] fails when the rate limiter or the orderer does; the completer
    is the queue. *)
Definition submitOne (limiter : option string) (submit : option string) : option string :=
  match limiter with Some e => Some e | None => submit end.

Definition submitter_done (t : Hash * E) (rest : list (Hash * E)) (err : option string) (g : Gateway)
    : Gateway :=
  match err with
  | Some _ => set_work (ti_Complete t.1 (gw_queue g)) (gw_working g) (gw_chan g) rest (gw_ordered g) g
  | None => set_work (gw_queue g) (gw_working g) (gw_chan g) rest (gw_ordered g ++ [t.1]) g
  end.

(** *** Blocks *)

(** What the gate reads of a committed transaction. *)
Definition observed (tx : DTransaction) : committedTx := {|
  ct_Valid := status_Valid (dt_FabricTxStatus tx);
  ct_EthTx := UnmarshalBinary (slice_bytes (dt_RawTx tx));
  ct_From := Domain.BytesToAddress (slice_bytes (dt_FromAddress tx)) |}.

Definition Handle_gate (now : Z) (order : list (Address * Z)) (g : Gateway) : Gateway :=
  let gate := Observe (answer (gw_queue g)) now order (gw_gate g) in
  set_gate (enqueue_all (gw_queue g) (new_calls (gw_gate g) gate)) gate (gw_reading g) g.

(** The hashes of a block that the queue tracks and the orderer had not got from
    this gateway. *)
Definition foreign_hashes (b : DBlock) (g : Gateway) : list Hash :=
  filter (λ h, is_Some (ti_IsPending h (gw_queue g)) ∧ h ∉ gw_ordered g) (block_hash <$> db_Transactions b).

Definition Handle_queue (b : DBlock) (g : Gateway) : Gateway := {|
  gw_queue := ti_Handle b (gw_queue g); gw_gate := gw_gate g; gw_reading := gw_reading g;
  gw_working := gw_working g; gw_chan := gw_chan g; gw_submitting := gw_submitting g;
  gw_ordered := filter (λ h, h ∉ (block_hash <$> db_Transactions b)) (gw_ordered g);
  gw_foreign := gw_foreign g ++ foreign_hashes b g |}.

Definition Gateway_Handle (now : Z) (range : gmap Address Z → list (Address * Z)) (b : Block)
    (g : Gateway) : result convert_error Gateway :=
  match ConvertToDomain b with
  | Err e => Err e
  | Ok d =>
      let order := range (highest (observed <$> db_Transactions d)) in
      Ok (Handle_queue d (Handle_gate now order g))
  end.

(** *** Queries *)

Definition resolveBlockNumber (num : Z) (s : Store) : Z :=
  if num =? u64_max then BlockNumber s else num.

Definition gw_GetBlockByNumber (num : Z) (s : Store) : option DBlock :=
  if num =? u64_max then LatestBlock s else GetBlockByNumber s num.

Definition gw_GetBlockTxCountByNumber (num : Z) (s : Store) : Z :=
  GetBlockTxCountByNumber s (resolveBlockNumber num s).

Definition gw_GetTransactionByBlockNumberAndIndex (num i : Z) (s : Store) : option DTransaction :=
  GetTransactionByBlockNumberAndIndex s (resolveBlockNumber num s) i.

Definition pending_transaction (h : Hash) (tx : EthTx) : result string DTransaction :=
  match MarshalBinary tx with
  | Err e => Err e
  | Ok raw =>
      match Tx_Sender tx with
      | None => Err "invalid sender"
      | Some from =>
          Ok {| dt_TxHash := Some (Hash_Bytes h); dt_BlockHash := None; dt_BlockNumber := 0;
                dt_TxIndex := 0; dt_RawTx := Some raw; dt_FromAddress := Some (Address_Bytes from);
                dt_ToAddress := Address_Bytes <$> Tx_To tx; dt_ContractAddress := None;
                dt_Status := 0; dt_FabricTxID := ""; dt_FabricTxStatus := Status_of 0;
                dt_GasUsed := 0; dt_CumulativeGasUsed := 0; dt_Logs := [] |}
      end
  end.

Definition with_logs (logs : list DLog) (t : DTransaction) : DTransaction := {|
  dt_TxHash := dt_TxHash t; dt_BlockHash := dt_BlockHash t; dt_BlockNumber := dt_BlockNumber t;
  dt_TxIndex := dt_TxIndex t; dt_RawTx := dt_RawTx t; dt_FromAddress := dt_FromAddress t;
  dt_ToAddress := dt_ToAddress t; dt_ContractAddress := dt_ContractAddress t;
  dt_Status := dt_Status t; dt_FabricTxID := dt_FabricTxID t;
  dt_FabricTxStatus := dt_FabricTxStatus t; dt_GasUsed := dt_GasUsed t;
  dt_CumulativeGasUsed := dt_CumulativeGasUsed t; dt_Logs := logs |}.

(** The queue, the gate and the store are read one after another, each in the
    state it then has. *)
Definition TransactionByHash (h : Hash) (q : Q) (gate : nonceGate) (s : Store)
    : result string (option DTransaction) :=
  match match ti_IsPending h q with Some tx => Some tx | None => IsPending h gate end with
  | Some tx => match pending_transaction h tx with Ok t => Ok (Some t) | Err e => Err e end
  | None =>
      match GetTransactionByHash s (Some (Hash_Bytes h)) with
      | None => Ok None
      | Some t => Ok (Some (with_logs (GetLogsByTxHash s (Some (Hash_Bytes h))) t))
      end
  end.
End gateway.

#[global] Arguments Gateway {_ _} _ _.
