(* ===== verification/GatewayQueues.v ===== *)
(** * GatewayQueues: what the gateway may rely on in a queue

    [TxQueueLaws] is the contract behind [TxQueueInterface]: which hashes are
    pending after each call, and which of them have been handed to a worker and
    not completed.  The first-in-first-out queue, the dependency-aware queue and
    the dependency-graph queue all keep it. *)

From Stdlib Require Import ZArith Lia.
From stdpp Require Import base numbers list gmap sets strings relations.
From S2P Require Import Prelude Blocks Geth Domain TxQueues TxQueueProps TxQueueV2Props.
From S2P Require Import DepGraph DepGraphProps NonceGate Gateway.

Local Open Scope Z_scope.

(** The hashes of a block's transactions. *)
Definition block_hashes {G : GethTypes} (b : DBlock) : list Hash := block_hash <$> db_Transactions b.

(** [ti_ok q t]: [q] is well formed and [t] are the hashes it has handed out and
    not seen completed.  A hash that is still queued is never completed; the
    queue's own goroutines only drop what they have not handed out. *)
Class TxQueueLaws (G : GethTypes) (T : EthTxTypes G) (E Q : Type) (I : TxQueueInterface G T E Q) := {
  ti_ok : Q → gset Hash → Prop;
  law_taken q t h : ti_ok q t → h ∈ t → is_Some (ti_IsPending h q);
  law_enqueue tx q t : ti_ok q t →
    ti_ok (ti_Enqueue tx q).2 t ∧
    match (ti_Enqueue tx q).1 with
    | None => ti_IsPending (Tx_Hash tx) q = None ∧
              ∀ h, ti_IsPending h (ti_Enqueue tx q).2 =
                   if decide (h = Tx_Hash tx) then Some tx else ti_IsPending h q
    | Some _ => ∀ h, ti_IsPending h (ti_Enqueue tx q).2 = ti_IsPending h q
    end;
  law_dequeue q t : ti_ok q t →
    ∃ r q', ti_Dequeue q = Done (r, q') ∧ (∀ h, ti_IsPending h q' = ti_IsPending h q) ∧
      match r with
      | DqTx tx => ti_IsPending (Tx_Hash tx) q = Some tx ∧ Tx_Hash tx ∉ t ∧
                   ti_ok q' ({[Tx_Hash tx]} ∪ t)
      | _ => ti_ok q' t
      end;
  law_complete q t h : ti_ok q t → (is_Some (ti_IsPending h q) → h ∈ t) →
    ti_ok (ti_Complete h q) (t ∖ {[h]}) ∧
    ∀ h', ti_IsPending h' (ti_Complete h q) = if decide (h' = h) then None else ti_IsPending h' q;
  law_handle q t b : ti_ok q t → (∀ h, h ∈ block_hashes b → is_Some (ti_IsPending h q) → h ∈ t) →
    ti_ok (ti_Handle b q) (t ∖ list_to_set (block_hashes b)) ∧
    ∀ h, ti_IsPending h (ti_Handle b q) =
         if decide (h ∈ block_hashes b) then None else ti_IsPending h q;
  law_reusable q t h : ti_ok q t →
    ti_ok (ti_Reusable h q).2 t ∧ ∀ h', ti_IsPending h' (ti_Reusable h q).2 = ti_IsPending h' q;
  law_close q t : ti_ok q t →
    ti_ok (ti_Close q) t ∧ ∀ h, ti_IsPending h (ti_Close q) = ti_IsPending h q;
  law_background q q' t : ti_background q q' → ti_ok q t →
    ti_ok q' t ∧ (∀ h, h ∈ t → ti_IsPending h q' = ti_IsPending h q) ∧
    ∀ h tx, ti_IsPending h q' = Some tx → ti_IsPending h q = Some tx
}.

(** A block is handled one transaction after another. *)
Lemma handle_fold {G : GethTypes} {T : EthTxTypes G} {Q : Type} (ok : Q → gset Hash → Prop)
    (look : Hash → Q → option EthTx) (one : Q → committedHash → Q)
    (Hone : ∀ q t c, ok q t → (is_Some (look (ch_Hash c) q) → ch_Hash c ∈ t) →
       ok (one q c) (t ∖ {[ch_Hash c]}) ∧
       ∀ h', look h' (one q c) = if decide (h' = ch_Hash c) then None else look h' q) :
  ∀ (cs : list committedHash) q t, ok q t → (∀ h, h ∈ ch_Hash <$> cs → is_Some (look h q) → h ∈ t) →
    ok (foldl one q cs) (t ∖ list_to_set (ch_Hash <$> cs)) ∧
    ∀ h, look h (foldl one q cs) = if decide (h ∈ ch_Hash <$> cs) then None else look h q.
Proof.
  induction cs as [|c cs IH]; intros q t Hq Hs.
  { split; [simpl; by rewrite difference_empty_L|]. intros h.
    by case_decide as Hd; [apply not_elem_of_nil in Hd|]. }
  destruct (Hone q t c Hq) as [H1 H2]; [apply Hs; left|].
  destruct (IH (one q c) (t ∖ {[ch_Hash c]}) H1) as [H3 H4].
  { intros h Hh. rewrite H2. case_decide as Hd; [by intros [? ?]|]. intros Hp.
    apply elem_of_difference. split; [|set_solver]. apply Hs; [by right|done]. }
  cbn [foldl fmap list_fmap list_to_set]. split.
  - by rewrite <-difference_difference_l_L.
  - intros h. rewrite H4, H2. destruct (decide (h ∈ ch_Hash <$> cs)) as [Hi|Hi].
    + rewrite decide_True; [done|by right].
    + destruct (decide (h = ch_Hash c)) as [->|Hne].
      * rewrite decide_True; [done|left].
      * rewrite decide_False; [done|]. by intros [->|?]%elem_of_cons.
Qed.

Lemma committed_hashes_hashes {G : GethTypes} b : ch_Hash <$> committed_hashes b = block_hashes b.
Proof. unfold committed_hashes, block_hashes. by rewrite <-list_fmap_compose. Qed.

(** ** The first-in-first-out queue *)

Section fifo.
Context {G : GethTypes} {T : EthTxTypes G} {TL : EthTxLaws G T} {E : Type}.

Definition fifo_ok (q : TxQueue) (t : gset Hash) : Prop := fifo_inv q ∧ dom (inProgressMap q) = t.

Lemma fifo_complete_law q t h :
  fifo_ok q t → (is_Some (q_IsPending h q) → h ∈ t) →
  fifo_ok (Complete h q) (t ∖ {[h]}) ∧
  ∀ h', q_IsPending h' (Complete h q) = if decide (h' = h) then None else q_IsPending h' q.
Proof.
  intros [Hi Hd] Hs. split; [split; [by apply fifo_complete|simpl; by rewrite dom_delete_L, Hd]|].
  intros h'. unfold q_IsPending in *. simpl. rewrite lookup_delete.
  destruct (decide (h = h')) as [->|Hne]; [|by rewrite decide_False by done].
  rewrite decide_True by done. destruct (queuedMap q !! h') as [tx|] eqn:E2; [|done].
  assert (inProgressMap q !! h' = None) as Hn by (apply (fi_disjoint _ Hi); by rewrite E2).
  rewrite Hn in Hs. assert (h' ∈ dom (inProgressMap q)) as [? ?]%elem_of_dom; [|congruence].
  rewrite Hd. apply Hs. by exists tx.
Qed.

#[export] Instance fifo_laws : TxQueueLaws G T E TxQueue (fifo_interface E).
Proof.
  refine {| ti_ok := fifo_ok |}; simpl.
  - intros q t h [Hi <-] [tx Hh]%elem_of_dom. exists tx. unfold q_IsPending. by rewrite Hh.
  - intros tx q t [Hi Hd]. pose proof (fifo_enqueue tx q Hi) as He. unfold Enqueue in *.
    repeat case_decide; simpl; [done..|]. destruct He as (He & _ & Hn). split; [by split|].
    split; [done|]. intros h. unfold q_IsPending in *. simpl. rewrite lookup_insert.
    destruct (decide (Tx_Hash tx = h)) as [<-|Hne]; [|by rewrite decide_False by done].
    rewrite decide_True by done. by case_match.
  - intros q t [Hi Hd]. pose proof (fifo_dequeue q Hi) as H. destruct (Dequeue q) as [r q'] eqn:Eq.
    exists r, q'. split; [done|]. unfold Dequeue in Eq.
    destruct (pendingQueue q) as [|tx rest] eqn:Ep;
      [destruct (q_done q); injection Eq as <- <-; split; by try split|].
    injection Eq as <- <-. destruct H as [H1 _].
    assert (queuedMap q !! Tx_Hash tx = Some tx) as Hq
      by (apply (fi_mirror _ Hi); split; [rewrite Ep; left|done]).
    assert (inProgressMap q !! Tx_Hash tx = None) as Hn by (apply (fi_disjoint _ Hi); by rewrite Hq).
    split_and!.
    + intros h. unfold q_IsPending. simpl. rewrite lookup_insert, lookup_delete.
      case_decide as Hd'; [|done]. subst h. by rewrite Hn, Hq.
    + unfold q_IsPending. by rewrite Hn.
    + rewrite <-Hd. by apply not_elem_of_dom.
    + split; [done|]. simpl. by rewrite dom_insert_L, Hd.
  - apply fifo_complete_law.
  - intros q t b Hq Hs. rewrite <-committed_hashes_hashes in *.
    apply (handle_fold fifo_ok q_IsPending q_Handle_tx); [|done|done].
    intros q0 t0 c [Hi0 Hd0] Hs0. unfold q_Handle_tx. set (q1 := Build_TxQueue _ _ _ _ _ _).
    assert (fifo_inv q1) as Hi1 by (by destruct Hi0).
    exact (fifo_complete_law q1 t0 (ch_Hash c) (conj Hi1 Hd0) Hs0).
  - done.
  - intros q t [Hi Hd]. split; [|done]. split; [by destruct Hi|done].
  - by intros q q' t [].
Defined.
End fifo.

(** ** The dependency-aware queue *)

Section v2.
Context {G : GethTypes} {T : EthTxTypes G} {TL : EthTxLaws G T} {A : TxAccess G T} {E : Type}.
Context (range : gset nat → list nat).
Hypothesis range_perm : ∀ s, range s ≡ₚ elements s.

Definition v2_ok (q : TxQueueV2) (t : gset Hash) : Prop := v2_inv q ∧ dom (pendingMap q) = t.

Lemma v2_settled q t h : v2_ok q t → (is_Some (v2_IsPending h q) → h ∈ t) → settled h q.
Proof.
  intros [Hi Hd] Hs p e He Hh.
  assert (h ∈ t) as Ht by (apply Hs; exists (te_tx e); apply isPending_spec; [done|by exists p, e]).
  rewrite <-Hd in Ht. apply elem_of_dom in Ht as [tx (p' & e' & He' & Hh' & Hst & _)%(vi_pending _ Hi)].
  destruct He as [Hp1 Hp2], He' as [Hp1' Hp2']. rewrite Hh in Hp1. rewrite Hh' in Hp1'.
  assert (p' = p) as -> by congruence. congruence.
Qed.

Lemma v2_complete_law q t h :
  v2_ok q t → (is_Some (v2_IsPending h q) → h ∈ t) →
  v2_ok (v2_Complete h q) (t ∖ {[h]}) ∧
  ∀ h', v2_IsPending h' (v2_Complete h q) = if decide (h' = h) then None else v2_IsPending h' q.
Proof.
  intros Hq Hs. pose proof (v2_settled q t h Hq Hs) as Hset. destruct Hq as [Hi Hd]. split.
  - split; [by destruct (complete_inv range range_perm q h Hi Hset)|]. by rewrite complete_pendingMap, dom_delete_L, Hd.
  - intros h'. by apply (complete_view range range_perm).
Qed.

#[export] Instance v2_laws : TxQueueLaws G T E TxQueueV2 (v2_interface range E).
Proof.
  refine {| ti_ok := v2_ok |}; simpl.
  - intros q t h [Hi <-] [tx Hh]%elem_of_dom. exists tx. unfold v2_IsPending. by rewrite Hh.
  - intros tx q t [Hi Hd]. destruct (v2_IsPending (Tx_Hash tx) q) as [t0|] eqn:Ep.
    + assert (is_Some (hashMap q !! Tx_Hash tx)) as Hh.
      { apply not_eq_None_Some. intros Hn%isPending_hash; [congruence|done]. }
      unfold v2_Enqueue. rewrite decide_True by done. simpl. done.
    + destruct (enqueue_view range range_perm q tx Hi Ep) as [H1 H2].
      pose proof (enq_inv range range_perm q tx Hi (proj1 (isPending_hash q _ Hi) Ep)) as Hi'.
      destruct (v2_Enqueue range tx q) as [e q'] eqn:Eq. simpl in *. subst e. simpl.
      split; [|done]. split; [done|]. rewrite <-Hd. f_equal.
      unfold v2_Enqueue in Eq. rewrite decide_False in Eq
        by (apply isPending_hash in Ep as ->; [by intros [? ?]|done]).
      destruct (scan_conflicts _ _). by injection Eq as <-.
  - intros q t [Hi Hd]. destruct (readyList q) as [|p rest] eqn:Er.
    + exists (if v_done q then DqClosed else DqBlocked), q. unfold v2_Dequeue. rewrite Er.
      split; [done|]. split; [done|]. by destruct (v_done q).
    + destruct (deq_result q p rest Hi Er) as (e & q' & Hd' & He & Hst & Hf).
      exists (DqTx (te_tx e)), q'. split; [done|].
      split; [intros h; by eapply (dequeue_view range range_perm)|].
      pose proof (vi_tx _ Hi _ _ He) as Hhash. rewrite Hhash. split_and!.
      * apply isPending_spec; [done|]. by exists p, e.
      * rewrite <-Hd. intros [tx (p' & e' & [Hp1 Hp2] & Hh' & Hst' & _)%(vi_pending _ Hi)]%elem_of_dom.
        destruct He as [He1 He2]. rewrite Hh' in Hp1. assert (p' = p) as -> by congruence. congruence.
      * split; [eapply (step_inv range range_perm); [by eapply step_dequeue|done]|].
        destruct Hf as (_ & _ & _ & _ & _ & _ & ->). by rewrite dom_insert_L, Hd.
  - apply v2_complete_law.
  - intros q t b Hq Hs. rewrite <-committed_hashes_hashes in *.
    apply (handle_fold v2_ok v2_IsPending v2_Handle_tx); [|done|done].
    intros q0 t0 c [Hi0 Hd0] Hs0. unfold v2_Handle_tx.
    set (q1 := Build_TxQueueV2 _ _ _ _ _ _ _ _ _ _ _ _).
    assert (v2_inv q1) as Hi1 by (destruct Hi0 as [[] []]; split; by constructor).
    exact (v2_complete_law q1 t0 (ch_Hash c) (conj Hi1 Hd0) Hs0).
  - done.
  - intros q t [Hi Hd]. split; [|done]. split; [destruct Hi as [[] []]; split; by constructor|done].
  - by intros q q' t [].
Defined.
End v2.

(** ** The dependency-graph queue *)

Section depgraph.
Context {G : GethTypes} {T : EthTxTypes G} {D : DepTypes} {TL : EthTxLaws G T}.

(** [way]: the hashes between [Enqueue] and the ready list.  Each is tracked and
    there once; a ready or handed-out transaction holds a node. *)
Record dep_core (way : list Hash) (ready : list EthTx) (m : gmap Hash trackedTx) (t : gset Hash)
    : Prop := {
  dc_way : NoDup way;
  dc_on_way h : h ∈ way → ∃ x, m !! h = Some x ∧ tt_node x = None;
  dc_nodup : NoDup ready;
  dc_ready tx : tx ∈ ready → Tx_Hash tx ∉ t ∧
    ∃ x, m !! Tx_Hash tx = Some x ∧ tt_tx x = tx ∧ is_Some (tt_node x);
  dc_taken h : h ∈ t → ∃ x, m !! h = Some x ∧ is_Some (tt_node x);
  dc_hash h x : m !! h = Some x → Tx_Hash (tt_tx x) = h;
  dc_served h x : m !! h = Some x → is_Some (tt_node x) → h ∈ t ∨ tt_tx x ∈ ready
}.

Lemma core_fewer way way' extra ready m t :
  way ≡ₚ way' ++ extra → dep_core way ready m t → dep_core way' ready m t.
Proof.
  intros Hp [H1 H2 H3 H4 H5 H6 H7]. constructor; try done.
  - rewrite Hp in H1. by apply NoDup_app in H1 as [? _].
  - intros h Hh. apply H2. rewrite Hp. apply elem_of_app. by left.
Qed.

Lemma core_perm way way' ready m t : way ≡ₚ way' → dep_core way ready m t → dep_core way' ready m t.
Proof. intros Hp. apply (core_fewer _ _ []). by rewrite app_nil_r. Qed.

Lemma core_update way ready m t h x x' :
  m !! h = Some x → tt_tx x' = tt_tx x → tt_node x' = tt_node x →
  dep_core way ready m t → dep_core way ready (<[h := x']> m) t.
Proof.
  intros Hm Htx Hn [H1 H2 H3 H4 H5 H6 H7].
  assert (∀ k y, m !! k = Some y →
    ∃ y', <[h := x']> m !! k = Some y' ∧ tt_tx y' = tt_tx y ∧ tt_node y' = tt_node y) as Hf.
  { intros k y Hy. rewrite lookup_insert. case_decide; [subst; exists x'; naive_solver congruence|eauto]. }
  assert (∀ k y', <[h := x']> m !! k = Some y' →
    ∃ y, m !! k = Some y ∧ tt_tx y' = tt_tx y ∧ tt_node y' = tt_node y) as Hb.
  { intros k y' Hy. rewrite lookup_insert in Hy. case_decide; [subst; simplify_eq; eauto|eauto]. }
  constructor; [done| |done| | | |].
  - intros k (y & Hy & Hyn)%H2. destruct (Hf k y Hy) as (y' & ? & ? & ?). exists y'. split; congruence.
  - intros tx Htx'. destruct (H4 tx Htx') as (? & y & Hy & ? & ?). split; [done|].
    destruct (Hf _ y Hy) as (y' & ? & ? & Hyn). exists y'. rewrite Hyn. split_and!; congruence.
  - intros k (y & Hy & ?)%H5. destruct (Hf k y Hy) as (y' & ? & ? & Hyn). exists y'. by rewrite Hyn.
  - intros k y' (y & Hy & -> & _)%Hb. by apply H6.
  - intros k y' (y & Hy & -> & ->)%Hb. by apply H7.
Qed.

(** A worker gives a transaction up. *)
Lemma core_drop way ready m t h :
  dep_core (h :: way) ready m t → dep_core way ready (delete h m) t.
Proof.
  intros [H1 H2 H3 H4 H5 H6 H7]. apply NoDup_cons in H1 as [Hh H1].
  destruct (H2 h) as (x & Hx & Hn); [left|].
  constructor; try done.
  - intros k Hk. destruct (H2 k) as (y & Hy & ?); [by right|]. exists y.
    by rewrite lookup_delete_ne by (intros ->; done).
  - intros tx Htx. destruct (H4 tx Htx) as (? & y & Hy & ? & [n Hn']). split; [done|]. exists y.
    rewrite lookup_delete_ne by (intros ->; congruence). eauto.
  - intros k Hk. destruct (H5 k Hk) as (y & Hy & [n Hn']). exists y.
    rewrite lookup_delete_ne by (intros ->; congruence). eauto.
  - intros k y [_ Hy]%lookup_delete_Some. by apply H6.
  - intros k y [_ Hy]%lookup_delete_Some. by apply H7.
Qed.

Lemma core_mark way ready m t h x x' n :
  m !! h = Some x → tt_tx x' = tt_tx x → tt_node x' = Some n →
  dep_core (h :: way) ready m t → dep_core way (ready ++ [tt_tx x]) (<[h := x']> m) t.
Proof.
  intros Hm Htx Hnode [H1 H2 H3 H4 H5 H6 H7]. apply NoDup_cons in H1 as [Hh H1].
  destruct (H2 h) as (y & Hy & Hn); [left|]. assert (y = x) as -> by congruence.
  assert (h ∉ t) as Ht by (intros (z & Hz & [? ?])%H5; congruence).
  assert (tt_tx x ∉ ready) as Hr.
  { intros (_ & z & Hz & _ & [? ?])%H4. rewrite (H6 h x Hm) in Hz. congruence. }
  constructor; [done| | | | | |].
  - intros k Hk. destruct (H2 k) as (z & Hz & ?); [by right|]. exists z.
    by rewrite lookup_insert_ne by (intros ->; done).
  - apply NoDup_app. split_and!; [done| |apply NoDup_singleton]. by intros z Hz ->%list_elem_of_singleton.
  - intros tx [Htx'| ->%list_elem_of_singleton]%elem_of_app.
    + destruct (H4 tx Htx') as (? & z & Hz & ? & Hs). split; [done|]. exists z.
      rewrite lookup_insert_ne; [done|]. intros ->. destruct Hs. congruence.
    + rewrite (H6 h x Hm). split; [done|]. exists x'. rewrite lookup_insert_eq, Hnode. by eauto.
  - intros k Hk. destruct (H5 k Hk) as (z & Hz & Hs). exists z.
    by rewrite lookup_insert_ne by (intros ->; done).
  - intros k z. rewrite lookup_insert. case_decide as Hd; [intros [= <-]|apply H6].
    subst k. rewrite Htx. by apply H6.
  - intros k z. rewrite lookup_insert. case_decide as Hd; [intros [= <-] _|].
    + right. rewrite Htx. apply elem_of_app. right. by apply list_elem_of_singleton.
    + intros Hz Hs. destruct (H7 k z Hz Hs); [by left|right; apply elem_of_app; by left].
Qed.

Lemma core_enter way ready m t tx :
  m !! Tx_Hash tx = None → dep_core way ready m t →
  dep_core (way ++ [Tx_Hash tx]) ready (<[Tx_Hash tx := fresh_tracked tx]> m) t.
Proof.
  intros Hm [H1 H2 H3 H4 H5 H6 H7]. constructor; [| |done| | | |].
  - apply NoDup_app. split_and!; [done| |apply NoDup_singleton].
    intros h (x & Hx & _)%H2 ->%list_elem_of_singleton. congruence.
  - intros h [Hh| ->%list_elem_of_singleton]%elem_of_app.
    + destruct (H2 h Hh) as (x & Hx & ?). exists x. by rewrite lookup_insert_ne by congruence.
    + eexists. by rewrite lookup_insert_eq.
  - intros u Hu. destruct (H4 u Hu) as (? & x & Hx & ?). split; [done|]. exists x.
    by rewrite lookup_insert_ne by congruence.
  - intros h Hh. destruct (H5 h Hh) as (x & Hx & ?). exists x. by rewrite lookup_insert_ne by congruence.
  - intros h x. rewrite lookup_insert. case_decide; [by intros [= <-]|apply H6].
  - intros h x. rewrite lookup_insert. case_decide; [by intros [= <-] [? ?]|apply H7].
Qed.

Lemma core_dequeue way ready m t tx :
  dep_core way (tx :: ready) m t →
  m !! Tx_Hash tx ≠ None ∧ Tx_Hash tx ∉ t ∧ dep_core way ready m ({[Tx_Hash tx]} ∪ t).
Proof.
  intros [H1 H2 H3 H4 H5 H6 H7]. apply NoDup_cons in H3 as [Hni H3].
  destruct (H4 tx) as (Ht & x & Hx & Htx & Hn); [left|]. split_and!; [congruence|done|].
  constructor; try done.
  - intros u Hu. destruct (H4 u) as (Hut & y & Hy & Huy & ?); [by right|].
    split; [|by exists y]. rewrite not_elem_of_union, not_elem_of_singleton. split; [|done].
    intros Heq%(inj Tx_Hash). apply Hni. by rewrite <-Heq.
  - intros h [->%elem_of_singleton|Hh]%elem_of_union; [by exists x|by apply H5].
  - intros h y Hy Hs. destruct (H7 h y Hy Hs) as [?|[Heq|?]%elem_of_cons].
    + left. set_solver.
    + left. rewrite <-(H6 h y Hy), Heq. set_solver.
    + by right.
Qed.

(** A completed transaction: handed out, or not tracked at all. *)
Lemma core_take way ready m t h :
  (is_Some (m !! h) → h ∈ t) → dep_core way ready m t →
  dep_core way ready (delete h m) (t ∖ {[h]}).
Proof.
  intros Hs [H1 H2 H3 H4 H5 H6 H7].
  assert (∀ k x, m !! k = Some x → tt_node x = None → k ≠ h) as Hway.
  { intros k x Hk Hn ->. destruct (H5 h) as (y & Hy & [? ?]); [apply Hs; eauto|congruence]. }
  constructor; [done| |done| | | |].
  - intros k (x & Hx & Hn)%H2. exists x. by rewrite lookup_delete_ne by (intros <-; by destruct (Hway _ _ Hx Hn)).
  - intros tx Htx. destruct (H4 tx Htx) as (Ht & x & Hx & ? & ?). split; [set_solver|]. exists x.
    rewrite lookup_delete_ne; [done|]. intros ->. apply Ht, Hs. by exists x.
  - intros k [Hk Hne]%elem_of_difference. destruct (H5 k Hk) as (x & Hx & ?). exists x.
    rewrite lookup_delete_ne; [done|]. set_solver.
  - intros k x [_ Hx]%lookup_delete_Some. by apply H6.
  - intros k x [Hne Hx]%lookup_delete_Some Hn. destruct (H7 k x Hx Hn); [left; set_solver|by right].
Qed.

(** The tracked transactions stay what they are. *)
Definition fewer (m m' : gmap Hash trackedTx) : Prop :=
  ∀ h x', m' !! h = Some x' → ∃ x, m !! h = Some x ∧ tt_tx x = tt_tx x'.

Lemma fewer_refl m : fewer m m.
Proof. intros h x Hx. by exists x. Qed.

Lemma fewer_insert m h x x' : m !! h = Some x → tt_tx x' = tt_tx x → fewer m (<[h := x']> m).
Proof. intros Hm Htx k y. rewrite lookup_insert. case_decide; [intros [= <-]; subst; eauto|eauto]. Qed.

Lemma fewer_delete m h : fewer m (delete h m).
Proof. intros k x [_ Hx]%lookup_delete_Some. by exists x. Qed.

Lemma fewer_trans m1 m2 m3 : fewer m1 m2 → fewer m2 m3 → fewer m1 m3.
Proof.
  intros H1 H2 h x Hx. destruct (H2 h x Hx) as (y & Hy & <-). destruct (H1 h y Hy) as (z & Hz & <-). eauto.
Qed.

Lemma mark_nodes_core nodes : ∀ orphans q orphans' q' way t,
  foldl mark_node (orphans, q) nodes = (orphans', q') →
  dep_core (omap node_hash nodes ++ way) (dq_ready q) (dq_tracked q) t →
  dep_core way (dq_ready q') (dq_tracked q') t ∧ fewer (dq_tracked q) (dq_tracked q').
Proof.
  induction nodes as [|n nodes IH]; intros orphans q orphans' q' way t He Hc; simpl in He, Hc.
  { injection He as <- <-. split; [done|apply fewer_refl]. }
  change (node_hash n) with (hashFromTxRefID (tr_TxId (Node_Tx n))) in Hc.
  destruct (hashFromTxRefID (tr_TxId (Node_Tx n))) as [h|]; [|by eapply IH].
  destruct (dq_tracked q !! h) as [x|] eqn:Hx.
  2:{ eapply IH; [exact He|]. eapply (core_fewer _ _ [h]); [|exact Hc]. simpl. solve_Permutation. }
  destruct (IH _ _ _ _ way t He) as [H1 H2]; [by eapply core_mark|]. split; [exact H1|].
  eapply fewer_trans; [|exact H2]. by apply (fewer_insert _ _ x).
Qed.

Lemma take_nodes_core hashes : ∀ nodes q nodes' q' way t,
  foldl take_node (nodes, q) hashes = (nodes', q') →
  (∀ h, h ∈ hashes → is_Some (dq_tracked q !! h) → h ∈ t) →
  dep_core way (dq_ready q) (dq_tracked q) t →
  dep_core way (dq_ready q') (dq_tracked q') (t ∖ list_to_set hashes) ∧
  ∀ h, dq_tracked q' !! h = if decide (h ∈ hashes) then None else dq_tracked q !! h.
Proof.
  induction hashes as [|h hashes IH]; intros nodes q nodes' q' way t He Hs Hc; simpl in He.
  { injection He as <- <-. split; [simpl; by rewrite difference_empty_L|]. intros h.
    by case_decide as Hd; [apply not_elem_of_nil in Hd|]. }
  assert (∃ nodes1, foldl take_node (nodes1, set_tracked (dq_ready q) (delete h (dq_tracked q)) q) hashes =
    (nodes', q')) as [nodes1 He1].
  { destruct (dq_tracked q !! h) as [x|] eqn:Hx; [by eexists|]. exists nodes.
    by rewrite delete_id, set_tracked_id. }
  destruct (IH _ _ _ _ way (t ∖ {[h]}) He1) as [H1 H2].
  - simpl. intros k Hk. rewrite lookup_delete. case_decide as Hd; [by intros [? ?]|]. intros Hp.
    apply elem_of_difference. split; [|set_solver]. apply Hs; [by right|done].
  - apply core_take; [apply Hs; left|done].
  - split; [simpl; by rewrite <-difference_difference_l_L|]. intros k. rewrite H2. simpl.
    rewrite lookup_delete. destruct (decide (k ∈ hashes)) as [Hi|Hi].
    + rewrite decide_True; [done|by right].
    + destruct (decide (h = k)) as [->|Hne].
      * rewrite decide_True; [done|left].
      * rewrite decide_False; [done|]. by intros [->|?]%elem_of_cons.
Qed.

Definition dep_ok (s : DepGraphProps.sys) (t : gset Hash) : Prop :=
  dep_core (on_the_way s) (dq_ready (s_q s)) (dq_tracked (s_q s)) t ∧
  ∀ h w, Sending h w ∈ s_tasks s → ref_hash w = Some h.

Context {L : GethLaws G} {HL : HexLaws G}.

(** A move along the way: the same transactions, in other places. *)
Lemma dep_ok_move s s' t extra :
  on_the_way s ≡ₚ on_the_way s' ++ extra →
  dq_ready (s_q s') = dq_ready (s_q s) → dq_tracked (s_q s') = dq_tracked (s_q s) →
  (∀ h w, Sending h w ∈ s_tasks s' → Sending h w ∈ s_tasks s) →
  dep_ok s t → dep_ok s' t ∧ fewer (dq_tracked (s_q s)) (dq_tracked (s_q s')).
Proof.
  intros Hp Hr Hm Ht [Hc Hs]. split; [|rewrite Hm; apply fewer_refl].
  split; [rewrite Hr, Hm; by eapply core_fewer|]. intros h w Hw. by apply Hs, Ht.
Qed.

Lemma answer_core tx seq answer q w q' way t :
  submit_answered tx seq answer q = (w, q') →
  dep_core (Tx_Hash tx :: way) (dq_ready q) (dq_tracked q) t →
  dep_core (match w with Some _ => [Tx_Hash tx] | None => [] end ++ way) (dq_ready q') (dq_tracked q') t ∧
  fewer (dq_tracked q) (dq_tracked q').
Proof.
  unfold submit_answered. intros He Hc.
  assert (dep_core way (dq_ready q) (delete (Tx_Hash tx) (dq_tracked q)) t ∧
    fewer (dq_tracked q) (delete (Tx_Hash tx) (dq_tracked q))) as Hdrop
    by (split; [by apply core_drop|apply fewer_delete]).
  destruct answer as [e|]; [|by injection He as <- <-].
  destruct (txContent e) as [c|]; [|by injection He as <- <-].
  injection He as <- <-. unfold keepEndorsement. destruct (readWriteKeys c) as [reads writes].
  destruct (dq_tracked q !! Tx_Hash tx) as [x|] eqn:Ht; [|split; [done|apply fewer_refl]].
  split; [by apply (core_update _ _ _ _ _ x)|by apply (fewer_insert _ _ x)].
Qed.

Lemma dep_background_ok s s' t :
  DepGraphProps.step false Worker s s' → dep_ok s t →
  dep_ok s' t ∧ fewer (dq_tracked (s_q s)) (dq_tracked (s_q s')).
Proof.
  intros Hst Hok. remember Worker as who eqn:Hwho.
  destruct Hst as [s tx Hw|s tx rest He _|s tx l1 l2 He|s tx seq l1 l2 answer w q He Ha
    |s h w l1 l2 He _|s h w l1 l2 He Hcc|s w rest He _|s _|s Hcc|s nodes rest orphans q He Hm
    |s|s h nodes q He|s block nodes q He|s nodes l1 l2 He _|s nodes l1 l2 He Hcc|s h|s
    |s b rest He _|s nodes rest He Hcf _|s nodes rest He]; try done; clear Hwho.
  - eapply (dep_ok_move _ _ _ []); [unfold on_the_way; rewrite ?He; moved|done|done| |done].
    simpl. intros h w. rewrite elem_of_app, list_elem_of_singleton. naive_solver.
  - eapply (dep_ok_move _ _ _ []); [unfold on_the_way; rewrite ?He; moved|done|done| |done].
    simpl. rewrite He. intros h w. rewrite !elem_of_app, !elem_of_cons. naive_solver.
  - destruct (answer_way s tx seq l1 l2 answer w q He Ha) as (tk & Hk & Hk'). destruct Hok as [Hc Hs].
    destruct (answer_core _ _ _ _ _ _ tk t Ha) as [Hc' Hf]; [by eapply core_perm|].
    split; [|done]. split; [eapply core_perm; [symmetry; exact Hk'|exact Hc']|].
    simpl. intros h w' Hw'. destruct w as [w|]; rewrite !elem_of_app, ?elem_of_cons in Hw'.
    + destruct Hw' as [Hw'|[[[= -> ->]|[]%not_elem_of_nil]|Hw']];
        [apply Hs; rewrite He; set_solver|by eapply answered_hash|apply Hs; rewrite He; set_solver].
    + apply Hs. rewrite He. set_solver.
  - destruct Hok as [Hc Hs]. assert (ref_hash w = Some h) as Hwh by (apply Hs; rewrite He; set_solver).
    eapply (dep_ok_move _ _ _ []); [unfold on_the_way; rewrite ?He; moved|done|done| |done].
    simpl. rewrite He. set_solver.
  - destruct Hok as [Hc Hs]. assert (ref_hash w = Some h) as Hwh by (apply Hs; rewrite He; set_solver).
    split; [|apply fewer_delete]. split; [|intros h' w'; simpl; intros Hw'; apply Hs; rewrite He; set_solver].
    simpl. apply core_drop. eapply core_perm; [|exact Hc]. unfold on_the_way. rewrite He. simpl.
    rewrite !omap_app. simpl. rewrite Hwh. solve_Permutation.
  - eapply (dep_ok_move _ _ _ []); [unfold on_the_way; rewrite ?He; moved|done|done|done|done].
  - unfold flush. destruct (dq_pending (s_q s)) as [|w ws] eqn:Hp; [split; [done|apply fewer_refl]|].
    eapply (dep_ok_move _ _ _ []); [unfold on_the_way; rewrite ?Hp; moved|done|done|done|done].
  - unfold flush. destruct (dq_pending (s_q s)) as [|w ws] eqn:Hp; [split; [done|apply fewer_refl]|].
    eapply (dep_ok_move _ _ _ (omap ref_hash (w :: ws)));
      [unfold on_the_way; rewrite ?Hp; moved|done|done|done|done].
  - destruct Hok as [Hc Hs]. destruct (mark_nodes_frame _ _ _ _ _ Hm) as (r & m & Hq).
    eapply (mark_nodes_core nodes) in Hm as [Hc' Hf]; [split; [split; [exact Hc'|exact Hs]|exact Hf]|].
    subst q. simpl. eapply core_perm; [|exact Hc]. unfold on_the_way. rewrite He. simpl.
    rewrite omap_app. solve_Permutation.
  - eapply (dep_ok_move _ _ _ []); [|..|exact Hok]; unfold release; destruct nodes; try done;
      unfold on_the_way; by rewrite app_nil_r.
  - eapply (dep_ok_move _ _ _ []); [by rewrite app_nil_r|done|done|done|done].
  - eapply (dep_ok_move _ _ _ []); [unfold on_the_way; rewrite ?He; moved|done|done|done|done].
  - eapply (dep_ok_move _ _ _ []); [|done|done|done|done]. rewrite app_nil_r.
    unfold on_the_way. simpl. rewrite He, omap_app.
    rewrite omap_fmap_comp, concat_app, omap_app. simpl. rewrite app_nil_r.
    change (ref_hash ∘ Node_Tx) with node_hash. solve_Permutation.
  - eapply (dep_ok_move _ _ _ []); [by rewrite app_nil_r|done|done|done|done].
Qed.

Lemma dep_pending h s x : dg_IsPending h (s_q s) = Some x ↔ ∃ y, dq_tracked (s_q s) !! h = Some y ∧ tt_tx y = x.
Proof. unfold dg_IsPending. rewrite fmap_Some. naive_solver. Qed.

Lemma with_q_id s : with_q (s_q s) s = s.
Proof. by destruct s. Qed.

Lemma dep_enqueue_ok tx s t :
  dep_ok s t →
  dep_ok (with_q (dg_Enqueue tx (s_q s)).2 s) t ∧
  match (dg_Enqueue tx (s_q s)).1 with
  | None => dq_tracked (s_q s) !! Tx_Hash tx = None ∧
            dq_tracked (dg_Enqueue tx (s_q s)).2 = <[Tx_Hash tx := fresh_tracked tx]> (dq_tracked (s_q s))
  | Some _ => (dg_Enqueue tx (s_q s)).2 = s_q s
  end.
Proof.
  intros [Hc Hs]. unfold dg_Enqueue. destruct (dq_done (s_q s)); [simpl; by rewrite with_q_id|].
  case_decide as Hd; [simpl; by rewrite with_q_id|]. case_match; [simpl; by rewrite with_q_id|].
  apply eq_None_not_Some in Hd. simpl. split; [|done]. split; [|exact Hs].
  eapply core_perm; [|by eapply core_enter]. unfold on_the_way. simpl. rewrite fmap_app. simpl.
  solve_Permutation.
Qed.

(** On an ok state a call of [Enqueue] is a move of the queue's system without
    resubmission: a transaction on its way is tracked, so a second copy is
    refused. *)
Lemma dep_enqueue_step tx s t :
  dep_ok s t → rtc (any_step false) s (with_q (dg_Enqueue tx (s_q s)).2 s).
Proof.
  intros [Hc _]. destruct (decide (Tx_Hash tx ∈ on_the_way s)) as [Hw|Hw].
  - destruct (dc_on_way _ _ _ _ Hc _ Hw) as (x & Hx & _). unfold dg_Enqueue.
    destruct (dq_done (s_q s)); [simpl; by rewrite with_q_id|].
    rewrite decide_True by (by rewrite Hx). simpl. by rewrite with_q_id.
  - apply rtc_once. exists Caller. by constructor.
Qed.

Lemma dep_handle_core b s nodes q t :
  dep_ok s t → dg_Handle b (s_q s) = (nodes, q) →
  (∀ h, h ∈ block_hashes b → is_Some (dq_tracked (s_q s) !! h) → h ∈ t) →
  dep_core (on_the_way s) (dq_ready q) (dq_tracked q) (t ∖ list_to_set (block_hashes b)) ∧
  (∀ h, dq_tracked q !! h = if decide (h ∈ block_hashes b) then None else dq_tracked (s_q s) !! h) ∧
  on_the_way (with_q q s) = on_the_way s.
Proof.
  intros [Hc Hs] He Hb. assert (on_the_way (with_q q s) = on_the_way s) as Hway.
  { by destruct (Handle_frame _ _ _ _ He) as (? & ? & ? & ? & ? & ? & ? & ->). }
  unfold dg_Handle, block_hashes in *. destruct (db_Transactions b) as [|tx txs].
  - injection He as <- <-. split_and!; [|intros h|done].
    + simpl. by rewrite difference_empty_L.
    + by case_decide as Hd; [apply not_elem_of_nil in Hd|].
  - destruct (stats_frame (tx :: txs) (s_q s)) as (a & i & Hst). rewrite Hst in He.
    destruct (record_frame (tx :: txs) (set_stats a i (s_q s))) as (seq & lw & rc & Hrc). rewrite Hrc in He.
    destruct (take_nodes_core (block_hash <$> tx :: txs) _ _ _ _ (on_the_way s) t He) as [H1 H2];
      [exact Hb|exact Hc|]. split_and!; [exact H1|exact H2|done].
Qed.

#[export] Instance dep_laws : TxQueueLaws G T Endorsement DepGraphProps.sys dep_interface.
Proof.
  refine {| ti_ok := dep_ok |}; simpl.
  - intros s t h [Hc _] Hh. destruct (dc_taken _ _ _ _ Hc h Hh) as (x & Hx & _).
    exists (tt_tx x). unfold dg_IsPending. by rewrite Hx.
  - intros tx s t Hok. destruct (dep_enqueue_ok tx s t Hok) as [H1 H2].
    destruct (dg_Enqueue tx (s_q s)) as [[e|] q]; simpl in *; (split; [done|]).
    + by rewrite H2.
    + destruct H2 as [Hn Hm]. unfold dg_IsPending. rewrite Hn, Hm. split; [done|]. intros h.
      rewrite lookup_insert. by destruct (decide (Tx_Hash tx = h)) as [<-|];
        [rewrite decide_True|rewrite decide_False].
  - intros s t [Hc Hs]. unfold dg_Dequeue. destruct (dq_ready (s_q s)) as [|tx rest] eqn:Hr.
    + eexists _, _. split; [done|]. simpl. split; [done|].
      assert (dep_ok (with_q (s_q s) s) t) by (rewrite with_q_id; split; [by rewrite Hr|done]).
      by destruct (dq_done (s_q s)).
    + destruct (core_dequeue _ _ _ _ _ Hc) as (Hn & Ht & Hc').
      destruct (dc_ready _ _ _ _ Hc tx) as (_ & x & Hx & Htx & _); [left|].
      eexists _, _. split; [done|]. simpl. split_and!; [done| |done|by split].
      unfold dg_IsPending. rewrite Hx. simpl. by rewrite Htx.
  - intros s t h [Hc Hs] Hp. unfold dep_Complete, dg_Complete, takeNodes.
    destruct (foldl take_node ([], s_q s) [h]) as [nodes q] eqn:He.
    destruct (take_nodes_frame _ _ _ _ _ He) as (r & m & Hq).
    destruct (take_nodes_core [h] _ _ _ _ (on_the_way s) t He) as [H1 H2]; [|done|].
    { intros k ->%list_elem_of_singleton [x Hx]. apply Hp. exists (tt_tx x). unfold dg_IsPending. by rewrite Hx. }
    split.
    + split; [|done]. simpl. simpl in H1. rewrite union_empty_r_L in H1. subst q. exact H1.
    + intros h'. unfold dg_IsPending. simpl. rewrite H2.
      destruct (decide (h' = h)) as [->|Hne]; [by rewrite decide_True by left|].
      rewrite decide_False; [done|]. by rewrite list_elem_of_singleton.
  - intros s t b Hok Hp. unfold dep_Handle. destruct (dg_Handle b (s_q s)) as [nodes q] eqn:He.
    destruct (dep_handle_core b s nodes q t Hok He) as (H1 & H2 & H3).
    { intros h Hh [x Hx]. apply Hp; [done|]. exists (tt_tx x). unfold dg_IsPending. by rewrite Hx. }
    split; [split; [|by destruct Hok]|].
    + simpl. change (on_the_way (with_hist q _ _ s)) with (on_the_way (with_q q s)). by rewrite H3.
    + intros h. unfold dg_IsPending. simpl. rewrite H2. by case_decide.
  - intros s t h [Hc Hs]. unfold ReusableEndorsement.
    destruct (dq_tracked (s_q s) !! h) as [x|] eqn:Hx; [|simpl; by rewrite with_q_id].
    assert (∀ x', tt_tx x' = tt_tx x → tt_node x' = tt_node x →
      let q' := set_tracked (dq_ready (s_q s)) (<[h := x']> (dq_tracked (s_q s))) (s_q s) in
      dep_ok (with_q q' s) t ∧ ∀ h', dg_IsPending h' q' = dg_IsPending h' (s_q s)) as Hupd.
    { intros x' H1 H2 q'. split; [split; [by apply (core_update _ _ _ _ _ x)|done]|].
      intros h'. unfold dg_IsPending. simpl. rewrite lookup_insert. case_decide; [|done]. subst h'.
      rewrite Hx. simpl. by rewrite H1. }
    repeat case_match; simplify_eq/=; [by rewrite with_q_id|by apply Hupd..].
  - done.
  - intros s s' t Hst Hok. destruct (dep_background_ok s s' t Hst Hok) as [Hok' Hf].
    assert (∀ h tx, dg_IsPending h (s_q s') = Some tx → dg_IsPending h (s_q s) = Some tx) as Hb.
    { intros h tx (y & Hy & <-)%dep_pending. destruct (Hf h y Hy) as (x & Hx & <-).
      apply dep_pending. by exists x. }
    split_and!; [done| |done]. intros h Hh. destruct Hok' as [Hc' _].
    destruct (dc_taken _ _ _ _ Hc' h Hh) as (x & Hx & _).
    assert (dg_IsPending h (s_q s') = Some (tt_tx x)) as Hp by (unfold dg_IsPending; by rewrite Hx).
    rewrite Hp. symmetry. by apply Hb.
Defined.

Lemma dep_start_ok cfg : dep_ok (start cfg) ∅.
Proof.
  split; [|by intros h w ?%not_elem_of_nil]. constructor; simpl; try done; try apply NoDup_nil_2;
    try (intros; by exfalso; eapply not_elem_of_nil).
  unfold on_the_way. simpl. by intros h ?%not_elem_of_nil.
Qed.
End depgraph.
