(* ===== verification/GatewayProps.v ===== *)
(** * GatewayProps: the submission pipeline

    The gateway over any queue that keeps the contract of [TxQueueLaws]: its
    clients, workers, submitters and the block feed interleave as they like.
    Every transaction a queue has handed out is in exactly one place of the
    pipeline, so none is processed twice at a time and none stays pending
    without a block to come.  Over the dependency-graph queue, transactions in
    flight never touch each other's keys. *)

From Stdlib Require Import ZArith Lia.
From stdpp Require Import base numbers list gmap sets strings relations.
From S2P Require Import Prelude Blocks Geth Domain Convert Store TxQueues DepGraph DepGraphProps.
From S2P Require Import NonceGate NonceGateProps Executor Engine Endorse Remote RemoteProps.
From S2P Require Import TxQueueProps TxQueueV2Props StoreProps EngineProps Gateway GatewayQueues.

Local Open Scope Z_scope.

Section pipeline.
Context {G : GethTypes} {T : EthTxTypes G} {TL : EthTxLaws G T} {C : EthCodec G T}.
Context {A : TxAccess G T} {P : TxPool G T}.
Context {E Q : Type} {I : TxQueueInterface G T E Q}.
Context (cfg : gate_config).

(** ** The transition system *)

(** The number of workers and of submitters and the size of the channel. *)
Context (workers submitters chanSize : nat).

(** Any block can come.  A submission counts as done when the orderer has
    accepted or refused it. *)
Inductive gw_step : Gateway E Q → Gateway E Q → Prop :=
| gs_admit now tx ph g g' :
    ValidateTx tx = None → Admit cfg now tx g = (ph, g') → gw_step g g'
| gs_resume now from tx seed ps1 ps2 e g g' :
    gw_reading g = ps1 ++ (from, tx) :: ps2 →
    Admit_resume cfg now from tx seed (ps1 ++ ps2) g = Done (e, g') → gw_step g g'
| gs_prune now range gate g :
    (∀ m, range m ≡ₚ map_to_list m) → prune cfg range now (gw_gate g) = Some gate →
    gw_step g (set_gate (gw_queue g) gate (gw_reading g) g)
| gs_dequeue r g g' :
    (length (gw_working g) < workers)%nat → worker_Dequeue g = Done (r, g') → gw_step g g'
| gs_reusable tx g :
    tx ∈ gw_working g →
    gw_step g (set_gate (ti_Reusable (Tx_Hash tx) (gw_queue g)).2 (gw_gate g) (gw_reading g) g)
| gs_process tx l1 l2 execute canceled g :
    gw_working g = l1 ++ tx :: l2 → (canceled = false → length (gw_chan g) < chanSize)%nat →
    gw_step g (worker_process tx (l1 ++ l2) execute canceled g)
| gs_submit g g' :
    (length (gw_submitting g) < submitters)%nat → submitter_take g = Some g' → gw_step g g'
| gs_submitted t l1 l2 limiter submit g :
    gw_submitting g = l1 ++ t :: l2 →
    gw_step g (submitter_done t (l1 ++ l2) (submitOne limiter submit) g)
| gs_observe now b order g :
    order ≡ₚ map_to_list (highest (observed <$> db_Transactions b)) →
    gw_step g (Handle_gate now order g)
| gs_handle b g : gw_step g (Handle_queue b g)
| gs_close g : gw_step g (set_gate (ti_Close (gw_queue g)) (gw_gate g) (gw_reading g) g)
| gs_background q g :
    ti_background (gw_queue g) q → gw_step g (set_gate q (gw_gate g) (gw_reading g) g).

Definition gw_reachable (q0 : Q) (g : Gateway E Q) : Prop := rtc gw_step (New q0) g.

(** Where a transaction the queue has handed out can be. *)
Definition held (g : Gateway E Q) : list Hash :=
  (Tx_Hash <$> gw_working g) ++ (gw_chan g).*1 ++ (gw_submitting g).*1 ++ gw_ordered g.

(** ** The nonce gate inside the gateway *)

Lemma gate_step g g' :
  gw_step g g' →
  rtc (gstep cfg) {| sys_gate := gw_gate g; sys_reading := gw_reading g |}
    {| sys_gate := gw_gate g'; sys_reading := gw_reading g' |}.
Proof.
  intros Hst. destruct Hst as [now tx ph g g' _ He|now from tx seed ps1 ps2 e g g' Hp He|now range gate g Hr He
    |r g g' _ He|tx g _|tx l1 l2 ex ca g _ _|g g' _ He|t l1 l2 li su g _|now b order g Ho|b g|g|q g _];
    try apply rtc_refl.
  - unfold Admit in He. destruct (Admit_begin _ _ _ _ _) as [[e|from] gate] eqn:Ha;
      injection He as <- <-; apply rtc_once; [by eapply step_admit|by eapply step_admit_read].
  - unfold Admit_resume in He. destruct (Admit_finish _ _ _ _ _ _ _) as [[e' gate]|] eqn:Ha; [|done].
    injection He as <- <-. simpl. rewrite Hp. apply rtc_once. by eapply step_admit_finish.
  - apply rtc_once. by eapply step_prune.
  - unfold worker_Dequeue in He. repeat case_match; simplify_eq/=; apply rtc_refl.
  - unfold worker_process. by repeat case_match.
  - unfold submitter_take in He. repeat case_match; simplify_eq/=; apply rtc_refl.
  - unfold submitter_done. by case_match.
  - apply rtc_once. by eapply step_observe.
Qed.

Lemma gate_reachable q0 g :
  gw_reachable q0 g →
  NonceGateProps.reachable cfg {| sys_gate := gw_gate g; sys_reading := gw_reading g |}.
Proof.
  intros Hr. pattern g. eapply rtc_ind_r; [| |exact Hr]; [apply rtc_refl|].
  intros x y _ Hst IH. unfold NonceGateProps.reachable. etrans; [exact IH|by apply gate_step].
Qed.

(** ** The pipeline invariant *)

Context {QL : TxQueueLaws G T E Q I}.

Definition gw_ok (g : Gateway E Q) : Prop :=
  NoDup (held g) ∧ ti_ok (gw_queue g) (list_to_set (held g)).

Lemma enqueue_all_ok txs : ∀ q t, ti_ok q t → ti_ok (enqueue_all q txs) t.
Proof.
  induction txs as [|tx txs IH]; intros q t Hq; [done|]. apply IH. by apply law_enqueue.
Qed.

(** The same transactions in other places. *)
Lemma gw_ok_move g g' :
  held g ≡ₚ held g' → ti_ok (gw_queue g') (list_to_set (held g)) → NoDup (held g) → gw_ok g'.
Proof.
  intros Hp Hok Hn. split; [by rewrite <-Hp|]. by rewrite <-Hp.
Qed.

(** A transaction that failed leaves the pipeline and the queue. *)
Lemma gw_ok_complete g g' q h :
  held g ≡ₚ h :: held g' → gw_queue g' = ti_Complete h q →
  ti_ok q (list_to_set (held g)) → NoDup (held g) → gw_ok g'.
Proof.
  intros Hp Hq Hok Hn. rewrite Hp in Hn. apply NoDup_cons in Hn as [Hh Hn]. split; [done|].
  destruct (law_complete _ _ h Hok) as [H1 _].
  - intros _. rewrite Hp. simpl. set_solver.
  - rewrite Hq. replace (list_to_set (held g')) with (list_to_set (held g) ∖ {[h]} : gset Hash); [done|].
    apply set_eq. intros k. rewrite elem_of_difference, !elem_of_list_to_set, Hp, elem_of_cons,
      elem_of_singleton. split; [naive_solver|]. intros Hk. split; [by right|]. by intros ->.
Qed.

Ltac relocate He := unfold held; simpl; rewrite ?He, ?fmap_app; simpl; rewrite ?fmap_app; simpl;
  solve_Permutation.

Lemma gw_process_ok tx l1 l2 execute canceled g :
  gw_working g = l1 ++ tx :: l2 → gw_ok g → gw_ok (worker_process tx (l1 ++ l2) execute canceled g).
Proof.
  intros He [Hn Hok]. unfold worker_process, processTx.
  destruct (law_reusable _ _ (Tx_Hash tx) Hok) as [Hok' _].
  destruct (ti_Reusable (Tx_Hash tx) (gw_queue g)) as [[e|] q];
    [destruct canceled|destruct execute as [e|]; [destruct canceled|]].
  2,4: eapply gw_ok_move; [|exact Hok'|done]; relocate He.
  all: eapply (gw_ok_complete g _ q (Tx_Hash tx)); [|reflexivity|exact Hok'|done]; relocate He.
Qed.

Lemma gw_handle_ok b g :
  (∀ h, h ∈ block_hashes b → is_Some (ti_IsPending h (gw_queue g)) → h ∈ gw_ordered g) →
  gw_ok g → gw_ok (Handle_queue b g).
Proof.
  intros Hb [Hn Hok].
  assert (∀ h, h ∈ block_hashes b → is_Some (ti_IsPending h (gw_queue g)) → h ∈ held g) as Hb'.
  { intros h H1 H2. unfold held. rewrite !elem_of_app. right; right; right. by apply Hb. }
  destruct (law_handle _ _ b Hok) as [H1 _].
  { intros h Hh Hp. apply elem_of_list_to_set. by apply Hb'. }
  assert (∀ h, h ∈ held (Handle_queue b g) ↔ h ∈ held g ∧ h ∉ block_hashes b) as Hheld.
  { intros h. unfold held. simpl. rewrite !elem_of_app, list_elem_of_filter. split.
    - intros Hh. split; [naive_solver|]. intros Hin.
      assert (h ∈ gw_ordered g) as Ho.
      { apply Hb; [done|]. apply (law_taken _ _ _ Hok). apply elem_of_list_to_set. unfold held.
        rewrite !elem_of_app. naive_solver. }
      unfold held in Hn. apply NoDup_app in Hn as (_ & Hd1 & Hn). apply NoDup_app in Hn as (_ & Hd2 & Hn).
      apply NoDup_app in Hn as (_ & Hd3 & _). destruct Hh as [Hh|[Hh|[Hh|[Hh _]]]]; [..|done].
      + apply (Hd1 h Hh). rewrite !elem_of_app. auto.
      + apply (Hd2 h Hh). rewrite elem_of_app. auto.
      + by apply (Hd3 h Hh).
    - naive_solver. }
  split.
  - unfold held in *. simpl. rewrite !NoDup_app in *. destruct Hn as (? & Hd1 & ? & Hd2 & ? & Hd3 & ?).
    split_and!; try done; try (by apply NoDup_filter);
      intros h Hh; rewrite ?elem_of_app, ?list_elem_of_filter.
    + specialize (Hd1 h Hh). rewrite !elem_of_app in Hd1. naive_solver.
    + specialize (Hd2 h Hh). rewrite !elem_of_app in Hd2. naive_solver.
    + specialize (Hd3 h Hh). naive_solver.
  - simpl. replace (list_to_set (held (Handle_queue b g)))
      with (list_to_set (held g) ∖ list_to_set (block_hashes b) : gset Hash); [done|].
    apply set_eq. intros h. by rewrite elem_of_difference, !elem_of_list_to_set, Hheld.
Qed.

(** Once a block was foreign the record of it stays. *)
Lemma gw_step_foreign g g' : gw_step g g' → gw_foreign g `prefix_of` gw_foreign g'.
Proof.
  intros Hst. destruct Hst as [now tx ph g g' _ He|now from tx seed ps1 ps2 e g g' Hp He|now range gate g Hr He
    |r g g' _ He|tx g _|tx l1 l2 ex ca g _ _|g g' _ He|t l1 l2 li su g _|now b order g Ho|b g|g|q g _];
    try done.
  - unfold Admit in He. by destruct (Admit_begin _ _ _ _ _) as [[e|from] gate]; injection He as <- <-.
  - unfold Admit_resume in He. destruct (Admit_finish _ _ _ _ _ _ _) as [[e' gate]|]; [|done].
    by injection He as <- <-.
  - unfold worker_Dequeue in He. by repeat case_match; simplify_eq/=.
  - unfold worker_process. by repeat case_match.
  - unfold submitter_take in He. by repeat case_match; simplify_eq/=.
  - unfold submitter_done. by case_match.
  - by apply prefix_app_r.
Qed.

Lemma gw_step_own g g' : gw_step g g' → gw_foreign g' = [] → gw_foreign g = [].
Proof. intros H%gw_step_foreign He. rewrite He in H. by apply prefix_nil_inv in H. Qed.

Lemma foreign_nil b g h :
  foreign_hashes b g = [] → h ∈ block_hashes b → is_Some (ti_IsPending h (gw_queue g)) → h ∈ gw_ordered g.
Proof.
  intros Hf Hh Hp. destruct (decide (h ∈ gw_ordered g)) as [|Hn]; [done|]. exfalso.
  apply (not_elem_of_nil h). rewrite <-Hf. by apply list_elem_of_filter.
Qed.

Lemma gw_step_ok g g' : gw_step g g' → gw_foreign g' = [] → gw_ok g → gw_ok g'.
Proof.
  intros Hst Hown Hg. pose proof Hg as [Hn Hok].
  destruct Hst as [now tx ph g g' _ He|now from tx seed ps1 ps2 e g g' Hp He|now range gate g Hr He
    |r g g' _ He|tx g Hin|tx l1 l2 ex ca g He _|g g' _ He|t l1 l2 li su g He|now b order g Ho|b g|g|q g Hb].
  - unfold Admit in He. destruct (Admit_begin _ _ _ _ _) as [[e|from] gate] eqn:Ha; injection He as <- <-;
      (split; [done|by apply enqueue_all_ok]).
  - unfold Admit_resume in He. destruct (Admit_finish _ _ _ _ _ _ _) as [[e' gate]|] eqn:Ha; [|done].
    injection He as <- <-. split; [done|by apply enqueue_all_ok].
  - done.
  - unfold worker_Dequeue in He. destruct (law_dequeue _ _ Hok) as (r' & q' & Hd & _ & Hq). rewrite Hd in He.
    destruct r' as [tx| |]; injection He as <- <-; [|done..]. destruct Hq as (_ & Hnew & Hq).
    rewrite not_elem_of_list_to_set in Hnew.
    assert (held (set_work q' (gw_working g ++ [tx]) (gw_chan g) (gw_submitting g) (gw_ordered g) g)
      ≡ₚ Tx_Hash tx :: held g) as Hp by relocate Hnew.
    split; rewrite Hp; [by constructor|done].
  - split; [done|]. by apply law_reusable.
  - by apply gw_process_ok.
  - unfold submitter_take in He. destruct (gw_chan g) as [|t chan] eqn:Hc; [done|]. injection He as <-.
    eapply gw_ok_move; [|exact Hok|done]. relocate Hc.
  - unfold submitter_done. destruct (submitOne li su).
    + eapply (gw_ok_complete g _ (gw_queue g) t.1); [|reflexivity|exact Hok|done]. relocate He.
    + eapply gw_ok_move; [|exact Hok|done]. relocate He.
  - split; [done|by apply enqueue_all_ok].
  - simpl in Hown. apply app_nil in Hown as [_ Hown]. apply gw_handle_ok; [|done].
    intros h. by apply foreign_nil.
  - split; [done|]. by apply law_close.
  - split; [done|]. by eapply law_background.
Qed.

Lemma gw_reachable_ok q0 g : ti_ok q0 ∅ → gw_reachable q0 g → gw_foreign g = [] → gw_ok g.
Proof.
  intros H0 Hr. pattern g. eapply rtc_ind_r; [| |exact Hr].
  - split; [constructor|done].
  - intros x y _ Hst IH Hy. eapply gw_step_ok; [done..|]. apply IH. by eapply gw_step_own.
Qed.

(** C5: the pipeline loses nothing and doubles nothing.  Over any queue that
    keeps the contract, however clients, workers, submitters and blocks
    interleave: the transactions the queue has handed out and not seen completed
    are exactly those with a worker, in the endorsement channel, with a
    submitter or accepted by the orderer, each in one place; each is reported as
    pending; and the next transaction a worker gets is none of them.  This holds
    until a block carries a transaction that the queue tracks and this gateway
    has not got ordered, as when a client gave it to two gateways. *)
Theorem pipeline_exact q0 g (H0 : ti_ok q0 ∅) (Hr : gw_reachable q0 g) (Hown : gw_foreign g = []) :
  NoDup (held g) ∧ ti_ok (gw_queue g) (list_to_set (held g)) ∧
  (∀ h, h ∈ held g → is_Some (pending h g)) ∧
  ∃ r g', worker_Dequeue g = Done (r, g') ∧
    ∀ tx, r = DqTx tx → Tx_Hash tx ∉ held g ∧ pending (Tx_Hash tx) g = Some tx.
Proof.
  destruct (gw_reachable_ok q0 g H0 Hr Hown) as [Hn Hok]. split_and!; [done|done| |].
  - intros h Hh. destruct (law_taken _ _ h Hok) as [tx Htx]; [by apply elem_of_list_to_set|].
    exists tx. unfold pending. by rewrite Htx.
  - unfold worker_Dequeue. destruct (law_dequeue _ _ Hok) as (r & q' & Hd & _ & Hq). rewrite Hd.
    destruct r as [tx| |]; eexists _, _; (split; [reflexivity|]); [|done..].
    destruct Hq as (Hp & Hnew & _). intros tx' [= <-]. split.
    + by rewrite not_elem_of_list_to_set in Hnew.
    + unfold pending. by rewrite Hp.
Qed.
End pipeline.

(** ** Submission *)

Section submission.
Context {G : GethTypes} {T : EthTxTypes G} {TL : EthTxLaws G T} {C : EthCodec G T}.
Context {A : TxAccess G T} {P : TxPool G T}.
Context (cfg : gate_config).
Hypothesis cap_nonneg : 0 ≤ maxPerSender cfg.

Lemma release_frame from (g : nonceGate) :
  g_calls (NonceGate.release from g) = g_calls g ∧ g_byHash (NonceGate.release from g) = g_byHash g.
Proof. unfold NonceGate.release. by repeat case_match. Qed.

(** The gate kept a transaction: one it replaced is gone. *)
Definition parked_over (tx : EthTx) (g g' : nonceGate) : Prop :=
  ∃ m, g_byHash g' = <[Tx_Hash tx := tx]> m ∧
    (m = g_byHash g ∨
     ∃ from old, Tx_Sender tx = Some from ∧ parked_at g from (Tx_Nonce tx) = Some old ∧
                 m = delete (Tx_Hash old) (g_byHash g)).

(** What an [Admit] that ends with [e] did to the gate. *)
Definition admitted_as (enq : EthTx → option queue_error) (tx : EthTx) (e : option admit_error)
    (g g' : nonceGate) : Prop :=
  (g_calls g' = g_calls g ∧
     ((e ≠ None ∧ g_byHash g' = g_byHash g) ∨ (e = None ∧ parked_over tx g g'))) ∨
  (g_calls g' = g_calls g ++ [tx] ∧ e = ErrEnqueue <$> enq tx ∧ g_byHash g' = g_byHash g).

(** [g0] is the gate before the call took its entry [ss]. *)
Lemma admit_known_view enq now from tx next ss g0 g e g' :
  admit_known cfg enq now from tx next ss g = (e, g') → Tx_Sender tx = Some from →
  g_calls g = g_calls g0 → g_byHash g = g_byHash g0 →
  (∀ p, ss_parked ss !! Tx_Nonce tx = Some p → parked_at g0 from (Tx_Nonce tx) = Some (p_tx p)) →
  admitted_as enq tx e g0 (NonceGate.release from g').
Proof.
  intros Ha Hfrom Hc Hb Hp. unfold admitted_as, parked_over.
  destruct (release_frame from g') as [-> ->].
  unfold admit_known, call_enqueue in Ha.
  repeat case_match; simplify_eq/=; rewrite ?Hc, ?Hb; auto 6.
  left. split; [done|]. right. split; [done|]. eexists. split; [reflexivity|].
  destruct (ss_parked ss !! Tx_Nonce tx) as [old|] eqn:Hold; [right|by left].
  exists from, (p_tx old). auto.
Qed.

Lemma Admit_begin_view enq now tx g ph g' :
  Admit_begin cfg enq now tx g = (ph, g') →
  match ph with
  | Finished e => admitted_as enq tx e g g'
  | Reading from => g_calls g' = g_calls g ∧ g_byHash g' = g_byHash g
  end.
Proof.
  unfold Admit_begin. destruct (Tx_Sender tx) as [from|] eqn:Hfrom;
    [|intros [= <- <-]; by left; split; [|left]].
  unfold acquire. set (ss := set_refs _ _). destruct (en_value (ss_next ss)) as [next|];
    [|by intros [= <- <-]].
  destruct (admit_known _ _ _ _ _ _ _ _) as [e g1] eqn:Ha. intros [= <- <-].
  eapply admit_known_view; [done..|]. intros p Hp. unfold parked_at.
  destruct (g_senders g !! from) as [ss0|]; simpl in Hp |- *; [by rewrite Hp|done].
Qed.

Lemma Admit_finish_view enq now from tx seed g e g' :
  Admit_finish cfg enq now from tx seed g = Done (e, g') → Tx_Sender tx = Some from →
  admitted_as enq tx e g g'.
Proof.
  unfold Admit_finish. intros Hf Hfrom. destruct seed as [seed|].
  - destruct (g_senders g !! from) as [ss|] eqn:Hss; [|done].
    destruct (admit_known _ _ _ _ _ _ _ _) as [e1 g1] eqn:Ha. injection Hf as <- <-.
    eapply admit_known_view; [done..|]. intros p Hp. unfold parked_at. rewrite Hss. simpl in Hp |- *.
    by rewrite Hp.
  - injection Hf as <- <-. left. destruct (release_frame from g) as [-> ->]. by split; [|left].
Qed.

Context {E Q : Type} {I : TxQueueInterface G T E Q} {QL : TxQueueLaws G T E Q I}.
Context (workers submitters chanSize : nat).

Lemma new_calls_app g g' l : g_calls g' = g_calls g ++ l → new_calls g g' = l.
Proof. unfold new_calls. intros ->. by rewrite drop_app_length. Qed.

(** A transaction of the same sender and nonce. *)
Definition same_slot (old tx : EthTx) : Prop := Tx_Sender old = Tx_Sender tx ∧ Tx_Nonce old = Tx_Nonce tx.

(** How a call that returns [r] leaves the pending transactions. *)
Definition send_outcome (tx : EthTx) (r : option send_error) (g g' : Gateway E Q) : Prop :=
  match r with
  | Some (SendInvalid e) => ValidateTx tx = Some e ∧ g' = g
  | Some SendAlreadyPending => is_Some (pending (Tx_Hash tx) g) ∧ g' = g
  | Some (SendAdmit _) => ∀ h, pending h g' = pending h g
  | None =>
      is_Some (pending (Tx_Hash tx) g') ∧
      (pending (Tx_Hash tx) g = None → pending (Tx_Hash tx) g' = Some tx) ∧
      ∀ h, h ≠ Tx_Hash tx → pending h g' = pending h g ∨
        (pending h g' = None ∧ ∃ old, pending h g = Some old ∧ same_slot old tx)
  end.

Lemma parked_outcome g gate rest pins tx :
  gate_ok cfg pins (gw_gate g) → parked_over tx (gw_gate g) gate →
  send_outcome tx None g (set_gate (gw_queue g) gate rest g).
Proof.
  intros Hgate (m & Hbm & Hm). unfold send_outcome, pending, IsPending. simpl. rewrite Hbm.
  split; [|split].
  - destruct (ti_IsPending _ _); [done|]. by rewrite lookup_insert_eq.
  - destruct (ti_IsPending _ _); [done|]. by rewrite lookup_insert_eq.
  - intros h Hh. destruct (ti_IsPending h (gw_queue g)) as [t|]; [by left|]. rewrite lookup_insert_ne by done.
    destruct Hm as [->|(from & old & Hfrom & Hold & ->)]; [by left|].
    rewrite lookup_delete. case_decide as Hd; [|by left]. right. split; [done|]. exists old.
    destruct (ok_nonce _ _ _ Hgate _ _ _ Hold) as [Hn Hsnd].
    split; [|split; congruence]. apply (ok_hash _ _ _ Hgate). split; [done|]. exists from. by rewrite Hn.
Qed.

Lemma admitted_outcome g gate rest pins tx e taken :
  gate_ok cfg pins (gw_gate g) → ti_ok (gw_queue g) taken →
  admitted_as (answer (gw_queue g)) tx e (gw_gate g) gate →
  send_outcome tx (SendAdmit <$> e) g
    (set_gate (enqueue_all (gw_queue g) (new_calls (gw_gate g) gate)) gate rest g).
Proof.
  intros Hgate Hok [[Hc Hb]|(Hc & -> & Hb)].
  - rewrite (new_calls_app _ _ []) by (by rewrite app_nil_r). simpl.
    destruct Hb as [[Hne Hb]|[-> Hb]]; [|by eapply parked_outcome].
    destruct e as [e|]; [|done]. intros h. unfold pending, IsPending. simpl. by rewrite Hb.
  - rewrite (new_calls_app _ _ [tx]) by done. simpl.
    pose proof (law_enqueue tx _ _ Hok) as [_ Henq]. unfold answer.
    destruct (ti_Enqueue tx (gw_queue g)) as [[e|] q] eqn:Hq; simpl in *;
      unfold pending, IsPending in *; simpl; rewrite Hb.
    + intros h. by rewrite Henq.
    + destruct Henq as [Hn Henq]. rewrite Henq, decide_True by done. split; [done|]. split; [done|].
      intros h Hh. left. by rewrite Henq, decide_False.
Qed.

(** One call of [SendTransaction] among everything else the gateway does: a step
    is the call's own or any step of the gateway, which does not take over the
    call's nonce read. *)
Inductive send_step (tx : EthTx) : send_at * Gateway E Q → send_at * Gateway E Q → Prop :=
| send_other c g g' :
    gw_step cfg workers submitters chanSize g g' →
    (∀ from, c = AtRead from → (from, tx) ∈ gw_reading g') → send_step tx (c, g) (c, g')
| send_own now seed ps1 ps2 c g c' g' :
    (∀ from, c = AtRead from → gw_reading g = ps1 ++ (from, tx) :: ps2) →
    send_next cfg now tx seed (ps1 ++ ps2) c g = Done (c', g') → send_step tx (c, g) (c', g').

(** The pieces of the call that are left. *)
Definition pieces (c : send_at) : nat :=
  match c with AtStart => 4 | AskGate => 3 | AtAdmit => 2 | AtRead _ => 1 | Returned _ => 0 end.

(** What holds of a call under way. *)
Definition calling (tx : EthTx) (q0 : Q) (s : send_at * Gateway E Q) : Prop :=
  gw_reachable cfg workers submitters chanSize q0 s.2 ∧
  match s.1 with
  | AtStart | Returned _ => True
  | AskGate | AtAdmit => ValidateTx tx = None
  | AtRead from => (from, tx) ∈ gw_reading s.2
  end.

Lemma send_step_calling tx q0 s s' : send_step tx s s' → calling tx q0 s → calling tx q0 s'.
Proof.
  intros [c g g' Hst Hrd|now seed ps1 ps2 c g c' g' Hrd Hn] [Hr Hc]; simpl in *.
  - split; [by eapply rtc_r|]. destruct c; simpl in *; auto.
  - unfold calling. destruct c as [| | |from|e]; simpl in Hn.
    + destruct (ValidateTx tx) eqn:Hv; [by simplify_eq|]. by case_decide; simplify_eq.
    + by case_decide; simplify_eq.
    + destruct (Admit cfg now tx g) as [ph g1] eqn:Ha. injection Hn as <- <-. split.
      * eapply rtc_r; [exact Hr|]. by eapply gs_admit.
      * unfold Admit in Ha. destruct (Admit_begin _ _ _ _ _) as [[e|from] gate]; injection Ha as <- <-; [done|].
        simpl. apply list_elem_of_here.
    + destruct (Admit_resume _ _ _ _ _ _ _) as [[e g1]|] eqn:Ha; [|done]. injection Hn as <- <-.
      split; [|done]. eapply rtc_r; [exact Hr|]. eapply gs_resume; [by apply Hrd|done].
    + by injection Hn as <- <-.
Qed.

(** C25: submission.  A call of [SendTransaction] validates, asks the queue, asks
    the gate and admits in separate critical sections, and [Admit] may go off to
    read the sender's nonce; clients, workers, submitters, blocks and the reaper
    act in between.  Wherever the call is, its next piece runs to a result, never
    on a detached sender entry, and is one of at most four.  As long as it has
    not returned it leaves every pending transaction alone.  When it returns: an
    invalid transaction, and one the queue or the gate has when it asks, is
    refused and changes nothing; a refusal by the gate or the queue leaves the
    set of pending transactions alone; an accepted transaction is pending, and
    nothing else stops being pending, except a parked transaction of the same
    sender and nonce that it replaces.  This holds until a block carries a
    transaction that the queue tracks and this gateway has not got ordered. *)
Theorem SendTransaction_spec q0 g0 tx c g now seed ps1 ps2
    (H0 : ti_ok q0 ∅) (Hr : gw_reachable cfg workers submitters chanSize q0 g0)
    (Hs : rtc (send_step tx) (AtStart, g0) (c, g)) (Hown : gw_foreign g = [])
    (Hrd : ∀ from, c = AtRead from → gw_reading g = ps1 ++ (from, tx) :: ps2)
    (Hc : ∀ e, c ≠ Returned e) :
  ∃ c' g', send_next cfg now tx seed (ps1 ++ ps2) c g = Done (c', g') ∧ (pieces c' < pieces c)%nat ∧
    match c' with
    | Returned r => send_outcome tx r g g'
    | _ => ∀ h, pending h g' = pending h g
    end.
Proof.
  assert (calling tx q0 (c, g)) as [Hreach Hat].
  { pattern (c, g). eapply rtc_ind_r; [| |exact Hs]; [done|]. intros. by eapply send_step_calling. }
  simpl in Hreach, Hat. destruct (gw_reachable_ok _ _ _ _ _ _ H0 Hreach Hown) as [_ Hok].
  pose proof (gate_reachable _ _ _ _ _ _ Hreach) as Hgr.
  destruct (reachable_ok cfg cap_nonneg _ Hgr) as [Hgate Hfrom]. simpl in Hgate, Hfrom.
  destruct c as [| | |from|e]; simpl; [| | | |by destruct (Hc e)].
  - destruct (ValidateTx tx) as [e|] eqn:Hv; [eexists _, _; split; [done|]; simpl; auto with lia|].
    case_decide as Hp; (eexists _, _; split; [done|]); simpl; [|auto with lia].
    split; [lia|]. split; [|done]. unfold pending. by destruct Hp as [t ->].
  - case_decide as Hp; (eexists _, _; split; [done|]); simpl; [|auto with lia].
    split; [lia|]. split; [|done]. unfold pending. by case_match.
  - unfold Admit. destruct (Admit_begin _ _ _ _ _) as [[e|from] gate] eqn:Ha;
      apply Admit_begin_view in Ha; (eexists _, _; split; [done|]); (split; [simpl; lia|]).
    + by eapply admitted_outcome.
    + destruct Ha as [Hcl Hb]. rewrite (new_calls_app _ _ []) by (by rewrite app_nil_r).
      intros h. unfold pending, IsPending. simpl. by rewrite Hb.
  - unfold Admit_resume.
    destruct (Admit_finds_entry cfg cap_nonneg _ from tx now (answer (gw_queue g)) seed Hgr Hat)
      as (e & gate & Ha). simpl in Ha. rewrite Ha. (eexists _, _; split; [done|]); (split; [simpl; lia|]).
    eapply admitted_outcome; [done..|]. eapply Admit_finish_view; [done|].
    rewrite Forall_forall in Hfrom. by apply (Hfrom _ Hat).
Qed.
End submission.

(** ** Over the dependency-graph queue *)

Section depgraph.
Context {G : GethTypes} {T : EthTxTypes G} {TL : EthTxLaws G T} {C : EthCodec G T} {D : DepTypes}.
Context {L : GethLaws G} {HL : HexLaws G} {A : TxAccess G T} {P : TxPool G T}.
Context (cfg : gate_config) (workers submitters chanSize : nat).

Abbreviation queue_moves := (rtc (any_step false)).

Lemma enqueue_all_moves txs : ∀ (s : DepGraphProps.sys) t,
  dep_ok s t → queue_moves s (enqueue_all s txs).
Proof.
  induction txs as [|tx txs IH]; intros s t Hok; [apply rtc_refl|]. unfold enqueue_all. cbn [foldl].
  etrans; [by eapply (dep_enqueue_step tx)|]. destruct (dep_enqueue_ok tx s t Hok) as [Hok' _].
  pose proof (IH _ t Hok') as IH'. unfold enqueue_all in IH'. simpl in *.
  by destruct (dg_Enqueue tx (s_q s)).
Qed.

Lemma complete_moves h (s : DepGraphProps.sys) : queue_moves s (ti_Complete h s).
Proof.
  simpl. unfold dep_Complete. destruct (dg_Complete h (s_q s)) as [nodes q] eqn:He.
  apply rtc_once. exists Caller. by eapply st_complete.
Qed.

Lemma reusable_moves h (s : DepGraphProps.sys) : queue_moves s (ti_Reusable h s).2.
Proof.
  simpl. pose proof (st_reuse false s h) as Hst.
  destruct (ReusableEndorsement h (s_q s)) as [e q]. apply rtc_once. by exists Caller.
Qed.

(** What the gateway does to the queue are moves without resubmission. *)
Lemma gw_step_moves g g' :
  gw_step cfg workers submitters chanSize g g' → gw_ok g → queue_moves (gw_queue g) (gw_queue g').
Proof.
  intros Hst [_ Hok].
  destruct Hst as [now tx ph g g' _ He|now from tx seed ps1 ps2 e g g' Hp He|now range gate g Hr He
    |r g g' _ He|tx g Hin|tx l1 l2 ex ca g He _|g g' _ He|t l1 l2 li su g He|now b order g Ho|b g|g|q g Hb];
    try apply rtc_refl.
  - unfold Admit in He. destruct (Admit_begin _ _ _ _ _) as [[e|from] gate] eqn:Ha; injection He as <- <-;
      exact (enqueue_all_moves _ _ _ Hok).
  - unfold Admit_resume in He. destruct (Admit_finish _ _ _ _ _ _ _) as [[e' gate]|] eqn:Ha; [|done].
    injection He as <- <-. exact (enqueue_all_moves _ _ _ Hok).
  - unfold worker_Dequeue in He. simpl in He. pose proof (st_dequeue false (gw_queue g)) as Hst.
    destruct (dg_Dequeue (s_q (gw_queue g))) as [r' q'].
    destruct r'; injection He as <- <-; apply rtc_once; by exists Caller.
  - apply reusable_moves.
  - unfold worker_process, processTx. pose proof (reusable_moves (Tx_Hash tx) (gw_queue g)) as Hre.
    destruct (ti_Reusable (Tx_Hash tx) (gw_queue g)) as [[e|] q]; simpl in Hre;
      repeat case_match; try exact Hre; (etrans; [exact Hre|apply complete_moves]).
  - unfold submitter_take in He. case_match; [done|]. injection He as <-. apply rtc_refl.
  - unfold submitter_done. case_match; [apply complete_moves|apply rtc_refl].
  - exact (enqueue_all_moves _ _ _ Hok).
  - simpl. unfold dep_Handle. destruct (dg_Handle b (s_q (gw_queue g))) as [nodes q] eqn:He.
    apply rtc_once. exists Caller. by eapply st_handle.
  - apply rtc_once. exists Caller. apply st_close.
  - apply rtc_once. by exists Worker.
Qed.

Lemma gw_queue_reachable dcfg g :
  gw_reachable cfg workers submitters chanSize (start dcfg) g → gw_foreign g = [] →
  DepGraphProps.reachable false dcfg (gw_queue g).
Proof.
  intros Hr Hown. cut (gw_ok g ∧ DepGraphProps.reachable false dcfg (gw_queue g)); [by intros [_ ?]|].
  revert Hown. pattern g. eapply rtc_ind_r; [| |exact Hr].
  - intros _. split; [split; [constructor|apply dep_start_ok]|apply rtc_refl].
  - intros x y _ Hst IH Hy. destruct (IH (gw_step_own _ _ _ _ _ _ Hst Hy)) as [Hok IH'].
    split; [by eapply gw_step_ok|]. clear IH. rename IH' into IH.
    unfold DepGraphProps.reachable. etrans; [exact IH|by apply gw_step_moves].
Qed.

End depgraph.

(** ** Concrete runs *)

Section runs.
Context {G : GethTypes} {T : EthTxTypes G} {C : EthCodec G T} {A : TxAccess G T} {P : TxPool G T}.
Context {E Q B : Type} {I : TxQueueInterface G T E Q} (cfg : gate_config) (cap : nat).
(** Chosen moves of the queue's goroutines. *)
Context (back : B → Q → option Q).

(** Moves of the first reader, worker and submitter. *)
Inductive gmove :=
| GAdmit (tx : EthTx)
| GResume (seed : option Z)
| GDequeue
| GProcess (execute : result string E)
| GSubmit
| GSubmitted (err : option string)
| GObserve (b : DBlock)
| GHandle (b : DBlock)
| GBack (m : B).

Definition gexec (m : gmove) (g : Gateway E Q) : option (Gateway E Q) :=
  match m with
  | GAdmit tx => if decide (ValidateTx tx = None) then Some (Admit cfg 0 tx g).2 else None
  | GResume seed =>
      match gw_reading g with
      | (from, tx) :: rest =>
          match Admit_resume cfg 0 from tx seed rest g with Done (_, g') => Some g' | Panic _ => None end
      | [] => None
      end
  | GDequeue =>
      if decide (length (gw_working g) < cap)%nat
      then match worker_Dequeue g with Done (_, g') => Some g' | Panic _ => None end else None
  | GProcess execute =>
      match gw_working g with
      | tx :: rest =>
          if decide (length (gw_chan g) < cap)%nat then Some (worker_process tx rest execute false g) else None
      | [] => None
      end
  | GSubmit => if decide (length (gw_submitting g) < cap)%nat then submitter_take g else None
  | GSubmitted err =>
      match gw_submitting g with
      | t :: rest => Some (submitter_done t rest (submitOne None err) g)
      | [] => None
      end
  | GObserve b => Some (Handle_gate 0 (map_to_list (highest (observed <$> db_Transactions b))) g)
  | GHandle b => Some (Handle_queue b g)
  | GBack m => (λ q, set_gate q (gw_gate g) (gw_reading g) g) <$> back m (gw_queue g)
  end.

Hypothesis back_ok : ∀ m q q', back m q = Some q' → ti_background q q'.

Lemma gexec_step m g g' : gexec m g = Some g' → gw_step cfg cap cap cap g g'.
Proof.
  destruct m; simpl; intros He; repeat case_match; simplify_eq/=.
  - destruct (Admit cfg 0 tx g) as [ph g'] eqn:Ha. by eapply gs_admit.
  - by eapply (gs_resume _ _ _ _ 0 a e seed [] l).
  - by eapply gs_dequeue.
  - by apply (gs_process _ _ _ _ e [] l).
  - by apply gs_submit.
  - by apply (gs_submitted _ _ _ _ p [] l None err).
  - by apply (gs_observe _ _ _ _ 0 b).
  - apply gs_handle.
  - apply fmap_Some in He as (q & Hq & ->). by eapply gs_background, back_ok.
Qed.

Fixpoint gexecs (ms : list gmove) (g : Gateway E Q) : option (Gateway E Q) :=
  match ms with
  | [] => Some g
  | m :: ms => g' ← gexec m g; gexecs ms g'
  end.

Lemma gexecs_reachable ms : ∀ g g', gexecs ms g = Some g' → rtc (gw_step cfg cap cap cap) g g'.
Proof.
  induction ms as [|m ms IH]; intros g g' He; simpl in He; [injection He as <-; apply rtc_refl|].
  apply bind_Some in He as (g1 & H1 & H2). eapply rtc_l; [by eapply gexec_step|by apply IH].
Qed.

Definition grun (q0 : Q) (ms : list gmove) : Gateway E Q := default (New q0) (gexecs ms (New q0)).
Definition gruns (q0 : Q) (ms : list gmove) : bool :=
  match gexecs ms (New q0) with Some _ => true | None => false end.

Lemma gruns_reachable q0 ms :
  gruns q0 ms = true → gw_reachable cfg cap cap cap q0 (grun q0 ms).
Proof.
  unfold gruns, grun, gw_reachable. intros Hs. destruct (gexecs ms (New q0)) as [g|] eqn:He; [|done].
  exact (gexecs_reachable ms _ _ He).
Qed.
End runs.

Definition any_pool (G : GethTypes) (T : EthTxTypes G) : TxPool G T := {| ValidateTransaction _ _ := None |}.

Module Fifo.
#[local] Existing Instances four_types four_txs demo_codec four_access any_pool.

Lemma new_ok : fifo_ok NewTxQueue ∅.
Proof. split; [|done]. exact (proj1 (fifo_run_inv [])). Qed.

Definition no_back (m : Empty_set) (q : TxQueue) : option TxQueue := None.

Lemma no_back_ok m q q' : no_back m q = Some q' → ti_background (TxQueueInterface := fifo_interface Z) q q'.
Proof. done. Qed.

(** One transaction is at the orderer, one with a worker, one parked. *)
Definition busy : list (gmove (E := Z) (B := Empty_set)) :=
  [GAdmit tx4; GResume (Some 4); GDequeue; GProcess (Ok 7); GSubmit; GSubmitted None;
   GAdmit (false, false); GResume (Some 4); GDequeue; GAdmit tx5].

Definition busy_gw : Gateway Z TxQueue := grun (I := fifo_interface Z) cfg64 4 no_back NewTxQueue busy.

Lemma busy_gw_reachable : gw_reachable (I := fifo_interface Z) cfg64 4 4 4 NewTxQueue busy_gw.
Proof. apply gruns_reachable; [exact no_back_ok|]. vm_compute. reflexivity. Qed.

Lemma pipeline_exact_witness :
  held busy_gw = [(false, false); (true, false)] ∧ NoDup (held busy_gw) ∧
  (∀ h, h ∈ held busy_gw → is_Some (pending (I := fifo_interface Z) h busy_gw)).
Proof.
  split; [vm_compute; reflexivity|].
  destruct (pipeline_exact (QL := fifo_laws) cfg64 4 4 4 NewTxQueue busy_gw new_ok busy_gw_reachable eq_refl)
    as (Hn & _ & Hp & _). split; [exact Hn|exact Hp].
Defined.

Definition away : send_at := AtRead true.
Definition other_tx : EthTx := (false, false).

(** A call reads its sender's nonce, another client submits meanwhile, and the
    read returns. *)
Definition reading_gw : Gateway Z TxQueue :=
  grun (I := fifo_interface Z) cfg64 4 no_back NewTxQueue [GAdmit tx4].

Definition later_gw : Gateway Z TxQueue :=
  grun (I := fifo_interface Z) cfg64 4 no_back NewTxQueue [GAdmit tx4; GAdmit other_tx].

Definition other_reads : list (Address * EthTx) := [(false, other_tx)].

Lemma call_away :
  rtc (send_step (I := fifo_interface Z) cfg64 4 4 4 tx4) (AtStart, New NewTxQueue) (away, later_gw).
Proof.
  eapply rtc_l; [apply (send_own _ _ _ _ _ 0 None [] [] _ _ AskGate (New NewTxQueue)); [done|vm_compute; reflexivity]|].
  eapply rtc_l; [apply (send_own _ _ _ _ _ 0 None [] [] _ _ AtAdmit (New NewTxQueue)); [done|vm_compute; reflexivity]|].
  eapply rtc_l; [apply (send_own _ _ _ _ _ 0 None [] [] _ _ away reading_gw); [done|vm_compute; reflexivity]|].
  apply rtc_once, send_other.
  - eapply (gs_admit _ _ _ _ 0 other_tx); vm_compute; reflexivity.
  - intros from [= <-]. vm_compute. right. left.
Qed.

Lemma SendTransaction_spec_witness :
  ∃ g', send_next (I := fifo_interface Z) cfg64 1 tx4 (Some 4) other_reads away later_gw
      = Done (Returned None, g') ∧ is_Some (pending (I := fifo_interface Z) (Tx_Hash tx4) g').
Proof.
  destruct (SendTransaction_spec (P := any_pool four_types four_txs) cfg64 cap64 (QL := fifo_laws) 4 4 4
    NewTxQueue (New NewTxQueue) tx4 away later_gw 1 (Some 4) other_reads []
    new_ok (rtc_refl _ _) call_away eq_refl) as (c' & g' & Hn & _ & Ho).
  - intros from [= <-]. vm_compute. reflexivity.
  - done.
  - vm_compute in Hn. injection Hn as <- <-. eexists. split; [vm_compute; reflexivity|]. exact (proj1 Ho).
Defined.

(** *** A pending transaction can be reported as unknown

    [TransactionByHash] reads the queue before the gate.  A block that commits
    the sender's earlier transaction between the two reads moves the parked one
    from the gate to the queue, and it is found in neither. *)

#[local] Existing Instances demo_marshal enc_wire nil_driver.

Definition commit_tx4 : DBlock := {|
  db_BlockNumber := 1; db_BlockHash := None; db_ParentHash := None; db_StateRoot := None;
  db_Timestamp := 0;
  db_Transactions := [{|
    dt_TxHash := Some (Hash_Bytes (Tx_Hash tx4)); dt_BlockHash := None; dt_BlockNumber := 1;
    dt_TxIndex := 0; dt_RawTx := Some [1; 0]; dt_FromAddress := Some (Address_Bytes true);
    dt_ToAddress := None; dt_ContractAddress := None; dt_Status := 1; dt_FabricTxID := "f";
    dt_FabricTxStatus := StatusCommitted; dt_GasUsed := 0; dt_CumulativeGasUsed := 0; dt_Logs := [] |}] |}.

Definition after_block : Gateway Z TxQueue :=
  grun (I := fifo_interface Z) cfg64 4 no_back NewTxQueue (busy ++ [GObserve commit_tx4]).

Lemma lookup_race :
  gw_reachable (I := fifo_interface Z) cfg64 4 4 4 NewTxQueue after_block ∧
  pending (I := fifo_interface Z) (Tx_Hash tx5) busy_gw = Some tx5 ∧
  pending (I := fifo_interface Z) (Tx_Hash tx5) after_block = Some tx5 ∧
  TransactionByHash (I := fifo_interface Z) (Tx_Hash tx5) (gw_queue busy_gw) (gw_gate after_block)
    (Init empty_db) = Ok None.
Proof.
  split; [apply gruns_reachable; [exact no_back_ok|vm_compute; reflexivity]|].
  repeat split; vm_compute; reflexivity.
Qed.
End Fifo.

Module Dep.
#[local] Existing Instances hex_types hex_txs demo_deps hex_geth_laws hex_laws any_pool.

#[export] Instance hex_tx_laws : EthTxLaws hex_types hex_txs.
Proof.
  constructor; simpl.
  - by intros x y.
  - intros [? []]; unfold is_u64; simpl; lia.
  - intros t. unfold is_u64. lia.
Qed.

Definition hex_codec : EthCodec hex_types hex_txs :=
  @Build_EthCodec hex_types hex_txs (λ _, None) (λ _, 1) (λ _ t, Some t.1) (λ a _, a) (λ _, true) (true, true).
Definition hex_access : TxAccess hex_types hex_txs :=
  @Build_TxAccess hex_types hex_txs (λ _, []) (λ _, true) (λ _, 0) (λ t, Some t.1) (λ _, true).
#[local] Existing Instances hex_codec hex_access.

Definition dep_back (m : move) (s : DepGraphProps.sys) : option DepGraphProps.sys :=
  if decide (mover m = Worker) then exec false m s else None.

Lemma dep_back_ok m s s' : dep_back m s = Some s' → ti_background s s'.
Proof. unfold dep_back. case_decide as Hm; [|done]. intros He%exec_step. simpl. by rewrite <-Hm. Qed.

Definition serve (tx : EthTx) (i k : Z) : list (gmove (E := Endorsement) (B := move)) :=
  [GAdmit tx; GResume (Some 4); GBack MReceive; GBack MLoad; GBack (MAnswer (Some [[k]])); GBack MSend;
   GBack MTake; GBack MFlush; GBack MMgrTake; GBack (MMgrRelease (demo_node i tx k)); GBack MMark; GDequeue].

(** Two transactions with different keys are in flight. *)
Definition both : list gmove := serve txA 0 1 ++ [GProcess (Err "")] ++ serve txB 1 2.

Definition both_gw : Gateway Endorsement DepGraphProps.sys := grun cfg64 4 dep_back (start None) both.

End Dep.
