(* ===== verification/Rpc.v ===== *)
(** * Rpc: the eth namespace of the JSON-RPC API

    gateway/api/eth.go, gateway/api/models.go, gateway/api/rpcerrors.go and
    gateway/api/rpcerr.  A method is a function on what its backend calls
    return: the store of blocks, the lookup of a transaction by hash, and the
    endorser service.  JSON values are null, strings and anything else; the
    results are the Go values before they are marshalled, without the fields
    that are always the same; error texts are shortened. *)

From Stdlib Require Import ZArith Lia Ascii.
From stdpp Require Import base numbers list gmap strings.
From S2P Require Import Prelude Blocks Codec Geth Domain Convert Store Filters NonceGate Executor Engine.
From S2P Require Import Endorse Remote Gateway.

Local Open Scope Z_scope.

(** ** gateway/api/rpcerr and rpcerrors.go *)

Definition CodeInvalidParams : Z := -32602.
Definition CodeInternal : Z := -32603.
Definition CodeTxRejected : Z := -32003.
Definition CodeExecutionReverted : Z := -32000.

(** [Error], and [DataError] when there is data. *)
Record RpcError := { re_Code : Z; re_Message : string; re_Data : option string }.

Definition InvalidParams (msg : string) : RpcError :=
  {| re_Code := CodeInvalidParams; re_Message := msg; re_Data := None |}.
Definition Internal (msg : string) : RpcError :=
  {| re_Code := CodeInternal; re_Message := msg; re_Data := None |}.
Definition TxRejected (msg : string) : RpcError :=
  {| re_Code := CodeTxRejected; re_Message := msg; re_Data := None |}.
Definition ExecutionReverted (reason data : string) : RpcError :=
  {| re_Code := CodeExecutionReverted; re_Message := reason; re_Data := Some data |}.
Definition rpcerr_ExecutionError (msg : string) : RpcError :=
  {| re_Code := CodeExecutionReverted; re_Message := msg; re_Data := None |}.

(** [hexutil.Encode]. *)
Definition hexutil_Encode (b : byte_slice) : string := "0x" +:+ hex_EncodeToString b.

(** What [errors.Is] sees of an error of [Backend.SendTransaction]: whether
    [domain.ErrNonceLookup] is in its chain, and its text. *)
Class SendErrors := {
  Is_ErrNonceLookup : send_error → bool;
  send_text : send_error → string
}.

Definition classifyValidationError {SE : SendErrors} (err : option send_error) : option RpcError :=
  match err with
  | None => None
  | Some e => Some (if Is_ErrNonceLookup e then Internal (send_text e) else TxRejected (send_text e))
  end.

(** No error of gate, queue or validation wraps the sentinel: the gate gives a
    failed lookup a text of its own. *)
Definition core_errors (text : send_error → string) : SendErrors :=
  {| Is_ErrNonceLookup _ := false; send_text := text |}.

Definition classifyCallError (err : option query_error) : option RpcError :=
  match err with
  | None => None
  | Some (RevertError Reason Data) =>
      Some (ExecutionReverted Reason (hexutil_Encode (slice_bytes Data)))
  | Some (ExecutionError Message) => Some (rpcerr_ExecutionError Message)
  | Some (QueryFailed msg) => Some (Internal msg)
  | Some (GasExceedsAllowance gas) => Some (Internal "gas required exceeds allowance")
  end.

(** ** Block references *)

(** [rpc.BlockNumberOrHash]. *)
Record BlockNumberOrHash {G : GethTypes} := { bnh_Number : option Z; bnh_Hash : option Hash }.

Definition rpcBlockNumberToBigInt {R : RpcTags} (num : Z) : option Z :=
  if num =? EarliestBlockNumber then Some 0 else if num <? 0 then None else Some num.

Definition blockNumberToUint64 {R : RpcTags} (num : Z) : Z :=
  if num =? EarliestBlockNumber then 0 else if num <? 0 then u64_max else u64 num.

(** [ethereum.NotFound]. *)
Definition NotFound : string := "not found".

Definition blockNumberOrHashToBlockNumber {G : GethTypes} {R : RpcTags} (s : Store)
    (block : BlockNumberOrHash) : result string (option Z) :=
  match bnh_Number block with
  | Some num => Ok (rpcBlockNumberToBigInt num)
  | None =>
      match bnh_Hash block with
      | None => Ok None
      | Some hash =>
          match BlockNumberByHash s (Some (Hash_Bytes hash)) with
          | None => Err NotFound
          | Some n => Ok (Some n)
          end
      end
  end.

(** ** Arguments *)

Inductive jvalue := JNull | JString (s : string) | JOther.

(** The decoders of [hexutil] and [common.Address]. *)
Class HexUtil (G : GethTypes) := {
  DecodeBig : string → result string Z;
  DecodeUint64 : string → result string Z;
  hexutil_Decode : string → result string byte_slice;
  Address_UnmarshalText : string → result string Address;
  EmptyTxsHash : Hash
}.

(** A quantity is not negative; 64-bit quantities fit. *)
Class HexUtilLaws (G : GethTypes) (X : HexUtil G) := {
  DecodeBig_nonneg s n : DecodeBig s = Ok n → 0 ≤ n;
  DecodeUint64_range s n : DecodeUint64 s = Ok n → is_u64 n
}.

Definition has_0x (s : string) : bool :=
  match s with
  | String "0" (String c _) => (c =? "x")%char || (c =? "X")%char
  | _ => false
  end.

Definition DecodeStorageWord {G : GethTypes} (what s : string) : result RpcError Hash :=
  let key := if has_0x s then String.substring 2 (String.length s - 2) s else s in
  let key := if Nat.even (String.length key) then key else String "0" key in
  if (2 * 32 <? String.length key)%nat
  then Err (InvalidParams (what +:+ " too long"))
  else match hex_DecodeString key with
       | None => Err (InvalidParams ("invalid hex in " +:+ what))
       | Some b => Ok (BytesToHash b)
       end.

Section args.
Context {G : GethTypes} {T : EthTxTypes G} {C : EthCodec G T} {X : HexUtil G}.

Definition hexArg (field : string) (v : jvalue) : result RpcError string :=
  match v with JString s => Ok s | _ => Err (InvalidParams ("invalid " +:+ field)) end.

(** An absent argument and a null one. *)
Definition present (args : gmap string jvalue) (field : string) : option jvalue :=
  match args !! field with Some JNull | None => None | Some v => Some v end.

Definition decode_with {A} (f : string → result string A) (field : string) (v : jvalue)
    : result RpcError A :=
  match hexArg field v with
  | Err e => Err e
  | Ok s => match f s with
            | Err m => Err (InvalidParams ("invalid " +:+ field +:+ ": " +:+ m))
            | Ok a => Ok a
            end
  end.

Definition quantityArg (args : gmap string jvalue) (field : string) : result RpcError (option Z) :=
  match present args field with
  | None => Ok None
  | Some v => match decode_with DecodeBig field v with Err e => Err e | Ok n => Ok (Some n) end
  end.

Definition addressArg (field : string) (v : jvalue) : result RpcError Address :=
  decode_with Address_UnmarshalText field v.

Definition optional {A} (f : string → jvalue → result RpcError A) (args : gmap string jvalue)
    (field : string) : result RpcError (option A) :=
  match present args field with
  | None => Ok None
  | Some v => match f field v with Err e => Err e | Ok a => Ok (Some a) end
  end.

(** "input", or its alias "data" when "input" is absent. *)
Definition inputKey (args : gmap string jvalue) : string :=
  match args !! "input", args !! "data" with
  | None, Some _ => "data"
  | _, _ => "input"
  end.

Definition argsToCallMsg (args : gmap string jvalue) : result RpcError CallMsg :=
  match optional addressArg args "from" with
  | Err e => Err e
  | Ok from =>
  match optional addressArg args "to" with
  | Err e => Err e
  | Ok to =>
  match optional (decode_with DecodeUint64) args "gas" with
  | Err e => Err e
  | Ok gas =>
  match quantityArg args "gasPrice" with
  | Err e => Err e
  | Ok gasPrice =>
  match quantityArg args "value" with
  | Err e => Err e
  | Ok value =>
  match optional (decode_with hexutil_Decode) args (inputKey args) with
  | Err e => Err e
  | Ok data =>
  match quantityArg args "maxFeePerGas" with
  | Err e => Err e
  | Ok feeCap =>
  match quantityArg args "maxPriorityFeePerGas" with
  | Err e => Err e
  | Ok tipCap =>
      Ok {| cm_From := default Address_zero from; cm_To := to; cm_Gas := default 0 gas;
            cm_GasPrice := gasPrice; cm_GasFeeCap := feeCap; cm_GasTipCap := tipCap;
            cm_Value := value; cm_Data := default [] data; cm_AccessList := [];
            cm_BlobGasFeeCap := None; cm_BlobHashes := []; cm_AuthorizationList := [] |}
  end end end end end end end end.
End args.

(** ** gateway/api/models.go *)

Section models.
Context {G : GethTypes} {T : EthTxTypes G} {C : EthCodec G T} {W : Wire} {X : HexUtil G}.

(** Go's conversion of a slice to [common.Hash], an array of 32 bytes. *)
Definition to_Hash (b : option byte_slice) : outcome Hash :=
  if (slice_len b <? 32)%nat
  then Panic "cannot convert slice to array" else Done (BytesToHash (take 32 (slice_bytes b))).

Record rpcReceipt := {
  rc_Status : Z;
  rc_CumulativeGasUsed : Z;
  rc_Logs : list TLog;
  rc_TxHash : Hash;
  rc_ContractAddress : Address;
  rc_GasUsed : Z;
  rc_Type : Z;
  rc_BlockHash : Hash;
  rc_BlockNumber : Z;
  rc_TransactionIndex : Z;
  rc_From : Address;
  rc_To : option Address
}.

Definition receipt (r : option DTransaction) : outcome (option rpcReceipt) :=
  match r with
  | None => Done None
  | Some r =>
      match dt_BlockHash r with
      | None => Done None
      | Some _ =>
          match to_Hash (dt_BlockHash r) with
          | Panic msg => Panic msg
          | Done blockHash =>
              Done (Some {|
                rc_Status := dt_Status r; rc_CumulativeGasUsed := dt_CumulativeGasUsed r;
                rc_Logs := DomainLogToTypes <$> dt_Logs r;
                rc_TxHash := BytesToHash (slice_bytes (dt_TxHash r));
                rc_ContractAddress := if (slice_len (dt_ContractAddress r) =? 20)%nat
                  then BytesToAddress (slice_bytes (dt_ContractAddress r)) else Address_zero;
                rc_GasUsed := dt_GasUsed r; rc_Type := TxType r; rc_BlockHash := blockHash;
                rc_BlockNumber := dt_BlockNumber r; rc_TransactionIndex := u64 (dt_TxIndex r);
                rc_From := BytesToAddress (slice_bytes (dt_FromAddress r));
                rc_To := if (slice_len (dt_ToAddress r) =? 20)%nat
                  then Some (BytesToAddress (slice_bytes (dt_ToAddress r))) else None |})
          end
      end
  end.

(** The block fields are set or absent together. *)
Record RPCTransaction := {
  rt_tx : EthTx;
  rt_From : Address;
  rt_Block : option (Hash * Z * Z)
}.

Definition ToEthTx (t : DTransaction) : option EthTx := UnmarshalBinary (slice_bytes (dt_RawTx t)).

Definition rpcTransaction (tx : option DTransaction) : outcome (option RPCTransaction) :=
  match tx with
  | None => Done None
  | Some tx =>
      match ToEthTx tx with
      | None => Done None
      | Some ethTx =>
          let from := BytesToAddress (slice_bytes (dt_FromAddress tx)) in
          if match dt_BlockHash tx with Some _ => negb (dt_BlockNumber tx =? 0) | None => false end
          then match to_Hash (dt_BlockHash tx) with
               | Panic msg => Panic msg
               | Done blockHash =>
                   Done (Some {| rt_tx := ethTx; rt_From := from;
                     rt_Block := Some (blockHash, i64 (dt_BlockNumber tx), u64 (dt_TxIndex tx)) |})
               end
          else Done (Some {| rt_tx := ethTx; rt_From := from; rt_Block := None |})
      end
  end.

Inductive rpc_txs := TxObjects (l : list RPCTransaction) | TxHashes (l : list Hash).

Record RPCBlock := {
  rb_Number : Z;
  rb_Hash : Hash;
  rb_ParentHash : Hash;
  rb_TransactionsRoot : Hash;
  rb_StateRoot : Hash;
  rb_Timestamp : Z;
  rb_Transactions : rpc_txs
}.

(** The transaction objects of a full block: what does not decode is skipped. *)
Definition block_objects (blockHash : Hash) (blockNumber : Z) (txs : list DTransaction)
    : list RPCTransaction :=
  omap (λ tx,
    (λ ethTx, {| rt_tx := ethTx; rt_From := BytesToAddress (slice_bytes (dt_FromAddress tx));
                 rt_Block := Some (blockHash, i64 blockNumber, u64 (dt_TxIndex tx)) |}) <$> ToEthTx tx) txs.

Definition block_txs (full : bool) (blockHash : Hash) (b : DBlock) : rpc_txs :=
  if full then TxObjects (block_objects blockHash (db_BlockNumber b) (db_Transactions b))
  else TxHashes ((λ tx, BytesToHash (slice_bytes (dt_TxHash tx))) <$> db_Transactions b).

Definition txs_length (t : rpc_txs) : nat :=
  match t with TxObjects l => length l | TxHashes l => length l end.

Definition rpcBlock (b : option DBlock) (full : bool) : outcome (option RPCBlock) :=
  match b with
  | None => Done None
  | Some b =>
      match to_Hash (db_BlockHash b), to_Hash (db_ParentHash b) with
      | Done hash, Done parent =>
          let txs := block_txs full hash b in
          Done (Some {| rb_Number := db_BlockNumber b; rb_Hash := hash; rb_ParentHash := parent;
            rb_TransactionsRoot := if (0 <? txs_length txs)%nat then Hash_zero else EmptyTxsHash;
            rb_StateRoot := BytesToHash (slice_bytes (db_StateRoot b));
            rb_Timestamp := u64 (db_Timestamp b); rb_Transactions := txs |})
      | Panic msg, _ | _, Panic msg => Panic msg
      end
  end.
End models.

(** ** gateway/api/eth.go: the methods *)

Section methods.
Context {G : GethTypes} {T : EthTxTypes G} {C : EthCodec G T} {W : Wire} {X : HexUtil G}.
Context {R : RpcTags} {DR : Driver}.

(** *** Blocks and transactions *)

Definition eth_GetBlockByNumber (s : Store) (num : Z) (full : bool) : outcome (option RPCBlock) :=
  rpcBlock (gw_GetBlockByNumber (blockNumberToUint64 num) s) full.

Definition eth_GetBlockByHash (s : Store) (hash : Hash) (full : bool) : outcome (option RPCBlock) :=
  rpcBlock (GetBlockByHash s (Some (Hash_Bytes hash))) full.

Definition eth_GetBlockTransactionCountByHash (s : Store) (hash : Hash) : Z :=
  u64 (GetBlockTxCountByHash s (Some (Hash_Bytes hash))).

Definition eth_GetBlockTransactionCountByNumber (s : Store) (num : Z) : Z :=
  u64 (gw_GetBlockTxCountByNumber (blockNumberToUint64 num) s).

Definition eth_GetTransactionByBlockHashAndIndex (s : Store) (hash : Hash) (idx : Z)
    : outcome (option RPCTransaction) :=
  rpcTransaction (GetTransactionByBlockHashAndIndex s (Some (Hash_Bytes hash)) (i64 idx)).

Definition eth_GetTransactionByBlockNumberAndIndex (s : Store) (num idx : Z)
    : outcome (option RPCTransaction) :=
  rpcTransaction (gw_GetTransactionByBlockNumberAndIndex (blockNumberToUint64 num) (i64 idx) s).

(** [lookup]: [Backend.TransactionByHash]. *)
Definition eth_GetTransactionByHash (lookup : Hash → result string (option DTransaction)) (hash : Hash)
    : result string (outcome (option RPCTransaction)) :=
  match lookup hash with Err e => Err e | Ok tx => Ok (rpcTransaction tx) end.

Definition eth_GetTransactionReceipt (lookup : Hash → result string (option DTransaction)) (hash : Hash)
    : result string (outcome (option rpcReceipt)) :=
  match lookup hash with Err e => Err e | Ok r => Ok (receipt r) end.

(** *** Receipts of a block *)

Definition logsByTx (logs : list DLog) (hash : Hash) : list DLog :=
  filter (λ l, BytesToHash (slice_bytes (dl_TxHash l)) = hash) logs.

Definition block_receipt (logs : list DLog) (tx : DTransaction) : outcome (option rpcReceipt) :=
  receipt (Some (with_logs (logsByTx logs (BytesToHash (slice_bytes (dt_TxHash tx)))) tx)).

(** The loop: a transaction without a block hash is an error. *)
Fixpoint block_receipts (logs : list DLog) (txs : list DTransaction)
    : outcome (result string (list rpcReceipt)) :=
  match txs with
  | [] => Done (Ok [])
  | tx :: txs =>
      match block_receipt logs tx with
      | Panic msg => Panic msg
      | Done None => Done (Err "has no block hash")
      | Done (Some r) =>
          match block_receipts logs txs with
          | Done (Ok rs) => Done (Ok (r :: rs))
          | other => other
          end
      end
  end.

Definition sql_text (e : sql_error) : string := "database error".

Definition find_block (s : Store) (block : BlockNumberOrHash) : option DBlock :=
  match bnh_Hash block with
  | Some hash => GetBlockByHash s (Some (Hash_Bytes hash))
  | None =>
      match bnh_Number block with
      | Some num => gw_GetBlockByNumber (blockNumberToUint64 num) s
      | None => None
      end
  end.

(** [None] is a block that is not found. *)
Definition eth_GetBlockReceipts (s : Store) (block : BlockNumberOrHash)
    : outcome (result string (option (list rpcReceipt))) :=
  match find_block s block with
  | None => Done (Ok None)
  | Some b =>
      match db_Transactions b with
      | [] => Done (Ok (Some []))
      | txs =>
          match GetLogs s {| lf_BlockHash := None; lf_FromBlock := Some (db_BlockNumber b);
                             lf_ToBlock := Some (db_BlockNumber b); lf_Addresses := [];
                             lf_Topics := [] |} with
          | Err e => Done (Err (sql_text e))
          | Ok logs =>
              match block_receipts logs txs with
              | Panic msg => Panic msg
              | Done (Err e) => Done (Err e)
              | Done (Ok rs) => Done (Ok (Some rs))
              end
          end
      end
  end.

(** *** Logs *)

Definition needHead (crit : FilterCriteria) : bool :=
  match fc_BlockHash crit with
  | Some _ => false
  | None =>
      match fc_FromBlock crit with
      | None => true
      | Some n => (n <? 0) && negb (n =? EarliestBlockNumber)
      end
  end.

Definition eth_GetLogs (s : Store) (crit : FilterCriteria) : result sql_error (list TLog) :=
  let head := if needHead crit then BlockNumber s else 0 in
  match GetLogs s (CriteriaToLogFilter crit head) with
  | Err e => Err e
  | Ok logs => Ok (DomainLogToTypes <$> logs)
  end.

(** *** State and calls *)

(** An error with a code, or one the RPC server gives its default code. *)
Inductive api_error := ApiErr (e : RpcError) | PlainErr (msg : string).

Context (BalanceAt : Address → option Z → result string Z)
        (StorageAt : Address → Hash → option Z → result string byte_slice)
        (CodeAt : Address → option Z → result string byte_slice)
        (NonceAt : Address → option Z → result string Z)
        (local_Call : option Z → nat → CallMsg → option byte_slice * Z * option call_err).

Definition at_block {A} (s : Store) (block : BlockNumberOrHash) (f : option Z → result string A)
    : result string A :=
  match blockNumberOrHashToBlockNumber s block with Err e => Err e | Ok bn => f bn end.

Definition eth_GetBalance (s : Store) (address : Address) (block : BlockNumberOrHash) :=
  at_block s block (BalanceAt address).
Definition eth_GetCode (s : Store) (addr : Address) (block : BlockNumberOrHash) :=
  at_block s block (CodeAt addr).
Definition eth_GetTransactionCount (s : Store) (address : Address) (block : BlockNumberOrHash) :=
  at_block s block (NonceAt address).

Definition eth_GetStorageAt (s : Store) (addr : Address) (hexSlot : string) (block : BlockNumberOrHash)
    : result api_error byte_slice :=
  match DecodeStorageWord "storage key" hexSlot with
  | Err e => Err (ApiErr e)
  | Ok slot =>
      match at_block s block (StorageAt addr slot) with Err e => Err (PlainErr e) | Ok b => Ok b end
  end.

Definition eth_Call (s : Store) (args : gmap string jvalue) (block : BlockNumberOrHash)
    : result api_error (option byte_slice) :=
  match argsToCallMsg args with
  | Err e => Err (ApiErr e)
  | Ok msg =>
      match blockNumberOrHashToBlockNumber s block with
      | Err e => Err (PlainErr e)
      | Ok bn =>
          match CallContract (local_Call bn) msg with
          | (_, Some err) => match classifyCallError (Some err) with Some e => Err (ApiErr e) | None => Ok None end
          | (ret, None) => Ok ret
          end
      end
  end.

(** [LatestBlockNumber] when no block is given. *)
Definition eth_EstimateGas (latest : Z) (fuel : nat) (s : Store) (args : gmap string jvalue)
    (block : option BlockNumberOrHash) : option (result api_error Z) :=
  match argsToCallMsg args with
  | Err e => Some (Err (ApiErr e))
  | Ok msg =>
      let blockRef := default {| bnh_Number := Some latest; bnh_Hash := None |} block in
      match blockNumberOrHashToBlockNumber s blockRef with
      | Err e => Some (Err (PlainErr e))
      | Ok bn =>
          match EstimateGas (local_Call bn) fuel msg with
          | None => None
          | Some (Err err) => classifyCallError (Some err) ≫= λ e, Some (Err (ApiErr e))
          | Some (Ok gas) => Some (Ok gas)
          end
      end
  end.

(** *** Submission and fees *)

(** [send]: [Backend.SendTransaction]. *)
Definition eth_SendRawTransaction {SE : SendErrors} (send : EthTx → option send_error) (input : byte_slice)
    : result RpcError Hash :=
  match UnmarshalBinary input with
  | None => Err (InvalidParams "invalid raw transaction")
  | Some tx =>
      match classifyValidationError (send tx) with
      | Some e => Err e
      | None => Ok (Tx_Hash tx)
      end
  end.

Definition maxFeeHistory : Z := 1024.

(** The lengths of [BaseFee], [GasUsedRatio] and [Reward], whose entries are all
    zero, and of each reward. *)
Record FeeHistoryResult := {
  fh_BaseFee : list Z;
  fh_GasUsedRatio : list Z;
  fh_Reward : list (list Z)
}.

Definition eth_FeeHistory (blockCount : Z) (percentiles : nat) : FeeHistoryResult :=
  let n := if maxFeeHistory <? blockCount then maxFeeHistory else blockCount in {|
    fh_BaseFee := replicate (Z.to_nat (u64 (n + 1))) 0;
    fh_GasUsedRatio := replicate (Z.to_nat n) 0;
    fh_Reward := replicate (Z.to_nat n) (replicate percentiles 0) |}.
End methods.
