(* ===== verification/RpcProps.v ===== *)
(** * RpcProps: the JSON-RPC views of the chain agree

    Over the stores the chain builds, a block's receipts are the receipts of its
    transactions, a full block lists the transactions the other queries return,
    and none of these conversions panics.  Call arguments decode to messages that
    a remote endorser runs as a local one. *)

From Stdlib Require Import ZArith Lia Ascii.
From stdpp Require Import base numbers list gmap sorting strings.
From S2P Require Import Prelude Blocks Codec Geth TxQueues Domain Convert Store StoreProps Filters FilterProps.
From S2P Require Import NonceGate Executor Engine Endorse Remote RemoteProps DepGraphProps Gateway Rpc.

Local Open Scope Z_scope.

Section coherence.
Context {G : GethTypes} {GL : GethLaws G} {T : EthTxTypes G} {C : EthCodec G T} {W : Wire} {WL : WireLaws W}.
Context {X : HexUtil G} {R : RpcTags} {DR : Driver} {M : TxMarshal G T C}.

(** ** The stores the chain builds *)

(** A block as the chain stores it: its hash and those of its transactions are
    hashes, it has a parent, and transactions and logs carry their place. *)
Definition real_block (b : DBlock) : Prop :=
  is_u64 (db_BlockNumber b) ∧ numbered b ∧
  (∃ h, db_BlockHash b = Some (Hash_Bytes h)) ∧ is_Some (db_ParentHash b) ∧
  ∀ t, t ∈ db_Transactions b →
    (∃ h, dt_TxHash t = Some (Hash_Bytes h)) ∧ dt_BlockHash t = db_BlockHash b ∧ is_i64 (dt_TxIndex t) ∧
    ∀ l, l ∈ dt_Logs t → dl_TxHash l = dt_TxHash t ∧ dl_TxIndex l = dt_TxIndex t.

(** A number names one block of the ledger. *)
Definition same_ledger (bs : list DBlock) (b : DBlock) : Prop :=
  ∀ b', b' ∈ bs → db_BlockNumber b' = db_BlockNumber b →
    db_BlockHash b' = db_BlockHash b ∧ db_Transactions b' = db_Transactions b.

(** The stores the chain builds from accepted blocks, which may come again and may
    carry transactions that came before. *)
Inductive filled : list DBlock → Store → Prop :=
| filled_new : filled [] (Init empty_db)
| filled_insert bs s b s' :
    filled bs s → real_block b → same_ledger bs b → InsertBlock s b = (s', None) → filled (bs ++ [b]) s'.

(** The ledger holds the transaction's hash once. *)
Definition once (bs : list DBlock) (h : option byte_slice) : Prop :=
  ∀ b b' t t', b ∈ bs → b' ∈ bs → t ∈ db_Transactions b → t' ∈ db_Transactions b' →
    dt_TxHash t = h → dt_TxHash t' = h → t = t'.

Record placed (bs : list DBlock) (db : DB) : Prop := {
  pl_real b : b ∈ bs → real_block b;
  pl_from r : r ∈ t_blocks db → ∃ b, b ∈ bs ∧ br_block_number r = db_BlockNumber b ∧
    br_block_hash r = db_BlockHash b ∧ is_Some (br_parent_hash r);
  pl_src t : t ∈ t_txs db → ∃ b d, b ∈ bs ∧ d ∈ db_Transactions b ∧ t = (toStorageTransaction d).1;
  pl_tx t : t ∈ t_txs db → is_i64 (tr_tx_index t) ∧
    ∃ r, r ∈ t_blocks db ∧ br_block_number r = tr_block_number t ∧ br_block_hash r = tr_block_hash t;
  pl_log l : l ∈ t_logs db → ∃ b d e, b ∈ bs ∧ d ∈ db_Transactions b ∧ e ∈ dt_Logs d ∧ l = toStorageLog e
}.

Lemma pl_block bs db r :
  placed bs db → r ∈ t_blocks db → (∃ h, br_block_hash r = Some (Hash_Bytes h)) ∧ is_Some (br_parent_hash r).
Proof.
  intros Hp Hr. destruct (pl_from _ _ Hp r Hr) as (b & Hb & _ & -> & Hpar).
  destruct (pl_real _ _ Hp b Hb) as (_ & _ & Hh & _). done.
Qed.

Lemma pl_hash bs db t : placed bs db → t ∈ t_txs db → ∃ h, tr_tx_hash t = Some (Hash_Bytes h).
Proof.
  intros Hp Ht. destruct (pl_src _ _ Hp t Ht) as (b & d & Hb & Hd & ->).
  destruct (pl_real _ _ Hp b Hb) as (_ & _ & _ & _ & Htx). by apply Htx.
Qed.

Lemma elem_of_log_rows txs r :
  r ∈ log_rows txs ↔ ∃ t l, t ∈ txs ∧ l ∈ dt_Logs t ∧ r = toStorageLog l.
Proof.
  unfold log_rows. rewrite list_elem_of_bind. split.
  - intros (t & Hr & Ht). simpl in Hr. apply list_elem_of_fmap in Hr as (l & -> & Hl). by exists t, l.
  - intros (t & l & Ht & Hl & ->). exists t. split; [by apply list_elem_of_fmap_2|done].
Qed.

Lemma insert_placed bs db b db' :
  db_wf db → placed bs db → real_block b → same_ledger bs b → insert_rows db b = Ok db' → placed (bs ++ [b]) db'.
Proof.
  intros Hwf Hp Hreal Hsame E. pose proof Hreal as (Hu & Hnum & Hbh & Hph & Htx).
  destruct (insert_rows_blocks _ _ _ Hu E) as (Hi & _ & Hblocks).
  assert ((∃ new, t_txs db' = t_txs db ++ new ∧ sublist new (tx_rows (db_Transactions b))) ∧
          ∃ new, t_logs db' = t_logs db ++ new ∧ sublist new (log_rows (db_Transactions b)))
    as [(nt & Et & Hst) (nl & El & Hsl)].
  { unfold insert_rows in E. destruct (q_InsertBlock db (toStorageBlock b)) as [db1|] eqn:Eb; [|done].
    apply insert_txs_tables in E as (_ & Ht & Hl).
    by apply q_InsertBlock_Ok in Eb as [_ [[_ ->]|[_ ->]]]. }
  assert (∃ r, r ∈ t_blocks db' ∧ br_block_number r = db_BlockNumber b ∧ br_block_hash r = db_BlockHash b) as Hown.
  { destruct Hblocks as [[(r & Hr & Hn)%has_block_true ->]|(_ & _ & ->)].
    - exists r. split_and!; [done..|]. destruct (pl_from _ _ Hp r Hr) as (b' & Hb' & Hn' & -> & _).
      apply (Hsame b' Hb'). congruence.
    - exists (toStorageBlock b). split_and!; [|done..]. apply elem_of_app. right. left. }
  unfold numbered in Hnum. rewrite Forall_forall in Hnum.
  destruct Hp as [P0 P1 P2 P3 P4]. split.
  - intros b' [Hb'| ->%list_elem_of_singleton]%elem_of_app; auto.
  - assert (∀ r, r ∈ t_blocks db → ∃ b', b' ∈ bs ++ [b] ∧ br_block_number r = db_BlockNumber b' ∧
      br_block_hash r = db_BlockHash b' ∧ is_Some (br_parent_hash r)) as Hold.
    { intros r Hr. destruct (P1 r Hr) as (b' & Hb' & H). exists b'. split; [apply elem_of_app; by left|done]. }
    destruct Hblocks as [[_ ->]|(_ & _ & ->)]; [done|].
    intros r [Hr| ->%list_elem_of_singleton]%elem_of_app; [by apply Hold|].
    exists b. split_and!; [apply elem_of_app; right; left|done..].
  - rewrite Et. intros t [Ht|Ht]%elem_of_app.
    + destruct (P2 t Ht) as (b' & d & Hb' & H). exists b', d. split; [apply elem_of_app; by left|done].
    + eapply elem_of_sublist in Ht; [|exact Hst]. apply list_elem_of_fmap in Ht as (d & -> & Hd).
      exists b, d. split_and!; [apply elem_of_app; right; left|done..].
  - rewrite Et. intros t [Ht|Ht]%elem_of_app.
    + destruct (P3 t Ht) as (Hti & r & Hr & H). split; [done|]. exists r. split; [|done].
      destruct Hblocks as [[_ ->]|(_ & _ & ->)]; [done|]. apply elem_of_app. by left.
    + eapply elem_of_sublist in Ht; [|exact Hst]. apply list_elem_of_fmap in Ht as (d & -> & Hd).
      destruct (Htx d Hd) as (_ & Hh & Hti & _). split; [done|]. destruct Hown as (r & Hr & Hn & Hrh).
      exists r. split; [done|]. simpl. rewrite Hrh, Hh, (proj1 (Hnum d Hd)), Hi. done.
  - rewrite El. intros l [Hl|Hl]%elem_of_app.
    + destruct (P4 l Hl) as (b' & d & e & Hb' & H). exists b', d, e. split; [apply elem_of_app; by left|done].
    + eapply elem_of_sublist in Hl; [|exact Hsl]. apply elem_of_log_rows in Hl as (d & e & Hd & He & ->).
      exists b, d, e. split_and!; [apply elem_of_app; right; left|done..].
Qed.

Lemma filled_inv bs s : filled bs s → store_wf s ∧ placed bs (st_db s).
Proof.
  induction 1 as [|bs s b s' _ [Hwf Hp] Hreal Hsame Hins].
  { split; [apply Init_wf, db_wf_empty|]. split; simpl; intros ? []%not_elem_of_nil. }
  split; [eapply InsertBlock_wf; [apply Hreal|done|exact Hins]|]. unfold InsertBlock in Hins.
  destruct (insert_rows (st_db s) b) as [db'|] eqn:E; [|done]. injection Hins as <-. simpl.
  eapply insert_placed; [apply Hwf|done..].
Qed.

(** ** Rows by key *)

Lemma StronglySorted_weaken {A} (lt lt' : relation A) l :
  StronglySorted lt l → (∀ x y, x ∈ l → y ∈ l → lt x y → lt' x y) → StronglySorted lt' l.
Proof.
  induction 1 as [|x l Hs IH Hx]; intros Hw; constructor.
  - apply IH. intros y z Hy Hz. apply Hw; by apply list_elem_of_further.
  - rewrite Forall_forall in Hx |- *. intros y Hy.
    apply Hw; [apply list_elem_of_here|by apply list_elem_of_further|by apply Hx].
Qed.

Lemma filter_unique_by {A} (clash : A → A → bool) (P : A → Prop) `{∀ x, Decision (P x)} l r :
  unique_by clash l → (∀ a b, clash a b = clash b a) → r ∈ l → P r →
  (∀ y, y ∈ l → P y → clash y r = true) → filter P l = [r].
Proof.
  intros Hl Hsym. induction Hl as [|z l Hs IH Hz]; intros Hr Hp Hc; [by apply not_elem_of_nil in Hr|].
  rewrite Forall_forall in Hz. rewrite filter_cons. apply elem_of_cons in Hr as [-> |Hr].
  - rewrite decide_True by done. f_equal. apply filter_none. intros y Hy Hpy.
    specialize (Hz y Hy). specialize (Hc y (list_elem_of_further _ _ _ Hy) Hpy). simpl in Hz. congruence.
  - case_decide as Hpz; [|apply IH; auto using list_elem_of_further].
    specialize (Hz r Hr). specialize (Hc z (list_elem_of_here _ _) Hpz). simpl in Hz.
    rewrite Hsym in Hc. congruence.
Qed.

Section rows.
Context (bs : list DBlock) (db : DB) (Hwf : db_wf db) (Hpl : placed bs db).

Lemma block_row_range r : r ∈ t_blocks db → 0 ≤ br_block_number r < 2 ^ 63.
Proof.
  intros Hr. pose proof (wf_blocks db Hwf) as Hc. pose proof (wf_blocks_range db Hwf) as Hi.
  rewrite Forall_forall in Hc, Hi. destruct (block_check_facts r (Hc r Hr)) as [? _].
  specialize (Hi r Hr). unfold is_i64 in Hi. lia.
Qed.

Lemma block_row_unique r r' :
  r ∈ t_blocks db → r' ∈ t_blocks db →
  br_block_number r = br_block_number r' ∨ sql_eq (br_block_hash r) (br_block_hash r') = true → r = r'.
Proof.
  intros Hr Hr' Hk. eapply (unique_by_elem block_conflict); [apply Hwf|apply block_conflict_sym|done..|].
  unfold block_conflict, block_clash. destruct Hk as [-> | ->]; [by rewrite Z.eqb_refl|].
  apply orb_true_r.
Qed.

Lemma tx_row_unique t t' : t ∈ t_txs db → t' ∈ t_txs db → tx_conflict t t' = true → t = t'.
Proof. intros ???. eapply (unique_by_elem tx_conflict); [apply Hwf|apply tx_conflict_sym|done..]. Qed.

Lemma tx_row_of_hash t h :
  t ∈ t_txs db → tr_tx_hash t = Some (Hash_Bytes h) →
  q_GetTransactionByHash db (Some (Hash_Bytes h)) = Some (scan_tx t).
Proof.
  intros Ht Hh. unfold q_GetTransactionByHash. rewrite (head_filter_unique _ _ t); [done|done| |].
  - rewrite Hh. apply sql_eq_refl.
  - intros t' Ht' He. apply tx_row_unique; [done..|]. unfold tx_conflict.
    by rewrite Hh, sql_eq_sym, He.
Qed.

Lemma tx_row_of_place t r :
  t ∈ t_txs db → r ∈ t_blocks db → br_block_number r = tr_block_number t →
  q_GetTransactionByBlockHashAndIndex db (br_block_hash r) (tr_tx_index t) = Some (scan_tx t).
Proof.
  intros Ht Hr Hn. destruct (pl_tx bs db Hpl t Ht) as (_ & r' & Hr' & Hn' & Hh').
  rewrite (block_row_unique r r') by (try done; left; lia).
  unfold q_GetTransactionByBlockHashAndIndex. rewrite (head_filter_unique _ _ t); [done|done| |].
  - rewrite Hh'. destruct (pl_block bs db r' Hpl Hr') as [[h Hh] _]. rewrite <-Hh', Hh.
    split; [apply sql_eq_refl|done].
  - intros t' Ht' [He Hi]. apply tx_row_unique; [done..|]. unfold tx_conflict, tx_clash.
    rewrite <-Hh', He, Hi, Z.eqb_refl. by rewrite !orb_true_r.
Qed.

(** The join on the block's hash selects the transactions of its number. *)
Lemma txs_joined_number r h :
  r ∈ t_blocks db → sql_eq (br_block_hash r) h = true →
  txs_joined db h = filter (λ t, tr_block_number t = br_block_number r) (t_txs db).
Proof.
  intros Hr Hh. unfold txs_joined. induction (t_txs db) as [|t ts IH]; [done|].
  rewrite bind_cons, IH, filter_cons. clear IH. case_decide as Hn.
  - rewrite (filter_unique_by block_conflict _ _ r); [done|apply Hwf|apply block_conflict_sym|done|done|].
    intros b Hb [Hb' _]. unfold block_conflict. by rewrite Hb', Hn, Z.eqb_refl.
  - rewrite filter_none; [done|]. intros b Hb [Hb' He]. apply Hn.
    rewrite <-Hb'. f_equal. apply block_row_unique; [done..|]. right.
    apply sql_eq_true in Hh as (x & -> & ->). exact He.
Qed.

(** A block as every query that selects its row reads it. *)
Definition block_view (r : BlockRow) : DBlock :=
  with_txs (toDomainTransaction <$> q_GetTransactionsByBlockNumber db (br_block_number r))
    (toDomainBlock (scan_block r)).

Lemma elem_of_block_view r t :
  t ∈ db_Transactions (block_view r) ↔
  ∃ x, x ∈ t_txs db ∧ tr_block_number x = br_block_number r ∧ t = toDomainTransaction (scan_tx x).
Proof.
  simpl. unfold q_GetTransactionsByBlockNumber. rewrite <-list_fmap_compose, list_elem_of_fmap.
  setoid_rewrite elem_of_order_by. setoid_rewrite list_elem_of_filter. naive_solver.
Qed.

(** ** The logs of one transaction among those of its block *)

Definition joined_log (r : LogRow * Z) : DLog := with_timestamp r.2 (toDomainLog (scan_log r.1)).

Lemma log_row_hash l :
  l ∈ t_logs db → ∃ h, lr_tx_hash l = Some (Hash_Bytes h) ∧ scan_blob (lr_tx_hash l) = lr_tx_hash l.
Proof.
  intros Hl. destruct (pl_log bs db Hpl l Hl) as (b & d & e & Hb & Hd & He & ->).
  destruct (pl_real bs db Hpl b Hb) as (_ & _ & _ & _ & Htx). destruct (Htx d Hd) as ([h Hh] & _ & _ & Hlogs).
  destruct (Hlogs e He) as [Heh _]. exists h. simpl. rewrite Heh, Hh. split; [done|].
  apply (scan_blob_len 32); [lia|]. simpl. by rewrite Hash_Bytes_length.
Qed.

Lemma joined_elem p r : r ∈ logs_joined db p → r.1 ∈ t_logs db ∧ p r.1 = true ∧
  ∃ b, b ∈ t_blocks db ∧ br_block_number b = lr_block_number r.1 ∧ r.2 = br_timestamp b.
Proof.
  unfold logs_joined. rewrite list_elem_of_bind. intros (l & Hr & [Hp Hl]%list_elem_of_filter).
  apply list_elem_of_bind in Hr as (b & ->%list_elem_of_singleton & [Hn Hb]%list_elem_of_filter).
  simpl. eauto 10.
Qed.

Lemma joined_unique p r r' :
  r ∈ logs_joined db p → r' ∈ logs_joined db p → lr_tx_hash r.1 = lr_tx_hash r'.1 →
  lr_log_index r.1 = lr_log_index r'.1 → r = r'.
Proof.
  intros (Hl & _ & b & Hb & Hn & Ht)%joined_elem (Hl' & _ & b' & Hb' & Hn' & Ht')%joined_elem Hh Hi.
  assert (r.1 = r'.1) as E.
  { apply (unique_by_elem log_key_eq (t_logs db)); [apply Hwf|apply log_key_eq_sym|done..|].
    unfold log_key_eq. destruct (log_row_hash _ Hl) as (h & Eh & _). rewrite <-Hh, Hi, Eh, Z.eqb_refl.
    by rewrite sql_eq_refl. }
  destruct r as [l ts], r' as [l' ts']; simpl in *. subst l'. f_equal.
  rewrite Ht, Ht'. f_equal. apply block_row_unique; [done..|]. left. congruence.
Qed.

Lemma log_of_tx_place t h l :
  t ∈ t_txs db → tr_tx_hash t = Some (Hash_Bytes h) → once bs (tr_tx_hash t) → l ∈ t_logs db →
  sql_eq (lr_tx_hash l) (Some (Hash_Bytes h)) = true →
  lr_tx_hash l = Some (Hash_Bytes h) ∧ lr_block_number l = tr_block_number t ∧ lr_tx_index l = tr_tx_index t.
Proof.
  intros Ht Hh Honce Hl Hq. destruct (pl_log bs db Hpl l Hl) as (b & d & e & Hb & Hd & He & ->).
  destruct (pl_src bs db Hpl t Ht) as (b' & d' & Hb' & Hd' & ->).
  destruct (pl_real bs db Hpl b Hb) as (_ & Hnum & _ & _ & Htx). destruct (Htx d Hd) as (_ & _ & _ & Hlogs).
  destruct (Hlogs e He) as [Heh Hei]. unfold numbered in Hnum. rewrite Forall_forall in Hnum.
  destruct (Hnum d Hd) as [Hn Hnl]. rewrite Forall_forall in Hnl. simpl in *.
  apply sql_eq_true in Hq as (x & Hx & [= <-]). rewrite Hx. split; [done|].
  assert (d = d') as <-; [|by rewrite Hei, (Hnl e He), Hn].
  apply (Honce b b'); [done..| |done]. by rewrite <-Heh, Hx, Hh.
Qed.

(** The block's logs in (block, transaction, log) order, restricted to one
    transaction, are the transaction's logs in log order. *)
Lemma logs_of_tx t h :
  t ∈ t_txs db → tr_tx_hash t = Some (Hash_Bytes h) → once bs (tr_tx_hash t) →
  let key3 (r : LogRow * Z) := [lr_block_number r.1; lr_tx_index r.1; lr_log_index r.1] in
  filter (λ r, sql_eq (lr_tx_hash r.1) (Some (Hash_Bytes h)) = true)
    (order_by key3 (logs_joined db (λ l, lr_block_number l =? tr_block_number t))) =
  order_by (λ r, [lr_log_index r.1]) (logs_joined db (λ l, sql_eq (lr_tx_hash l) (Some (Hash_Bytes h)))).
Proof.
  intros Ht Hh Honce key3. set (P := λ r : LogRow * Z, sql_eq (lr_tx_hash r.1) (Some (Hash_Bytes h)) = true).
  set (L := logs_joined db (λ l, sql_eq (lr_tx_hash l) (Some (Hash_Bytes h)))).
  pose proof (λ l, log_of_tx_place t h l Ht Hh Honce) as Hplace.
  assert (filter P (order_by key3 (logs_joined db (λ l, lr_block_number l =? tr_block_number t))) ≡ₚ L) as Hperm.
  { rewrite order_by_perm. unfold L. rewrite logs_joined_filter, list_filter_filter.
    rewrite (logs_joined_filter db (λ l, sql_eq _ _)). erewrite filter_ext_in; [done|].
    intros r (Hl & _)%joined_elem. unfold P. split; [by intros []|]. intros He. split; [done|].
    destruct (Hplace _ Hl He) as (_ & -> & _). apply Z.eqb_refl. }
  apply (StronglySorted_unique_strong (by_key (λ r : LogRow * Z, [lr_log_index r.1]))).
  - intros x y Hx Hy Hxy Hyx. rewrite Hperm in Hx. rewrite elem_of_order_by in Hy.
    destruct (joined_elem _ _ Hx) as (Hxl & Hxe & _), (joined_elem _ _ Hy) as (Hyl & Hye & _).
    eapply joined_unique; [done..| |].
    + by rewrite (proj1 (Hplace _ Hxl Hxe)), (proj1 (Hplace _ Hyl Hye)).
    + by injection (lex_le_antisym _ _ Hxy Hyx).
  - eapply StronglySorted_weaken; [apply StronglySorted_filter_list, order_by_sorted|].
    intros x y Hx Hy. rewrite Hperm in Hx, Hy.
    destruct (joined_elem _ _ Hx) as (Hxl & Hxe & _), (joined_elem _ _ Hy) as (Hyl & Hye & _).
    destruct (Hplace _ Hxl Hxe) as (_ & Hn & Hi), (Hplace _ Hyl Hye) as (_ & Hn' & Hi').
    unfold by_key, key3. rewrite !lex_le_cons, Hn, Hn', Hi, Hi'.
    intros [?|[_ [?|[_ ?]]]]; [lia|lia|done].
  - apply order_by_sorted.
  - by rewrite Hperm, order_by_perm.
Qed.

(** The two ways a receipt's logs are read give the same list. *)
Lemma logsByTx_block t h logs :
  t ∈ t_txs db → tr_tx_hash t = Some (Hash_Bytes h) → once bs (tr_tx_hash t) →
  logs = joined_log <$> order_by (λ r, [lr_block_number r.1; lr_tx_index r.1; lr_log_index r.1])
           (logs_joined db (λ l, lr_block_number l =? tr_block_number t)) →
  logsByTx logs h = joined_log <$> order_by (λ r, [lr_log_index r.1])
           (logs_joined db (λ l, sql_eq (lr_tx_hash l) (Some (Hash_Bytes h)))).
Proof.
  intros Ht Hh Honce ->. rewrite <-(logs_of_tx t h Ht Hh Honce). unfold logsByTx. rewrite filter_fmap. f_equal.
  apply filter_ext_in. intros r Hr. rewrite elem_of_order_by in Hr.
  destruct (joined_elem _ _ Hr) as [Hl _]. destruct (log_row_hash _ Hl) as (h' & Eh & Es).
  cbn [joined_log with_timestamp dl_TxHash toDomainLog scan_log lr_tx_hash]. rewrite Es, Eh.
  change (slice_bytes (Some ?b)) with b. rewrite BytesToHash_Bytes, sql_eq_true. split.
  - intros ->. eauto.
  - intros (x & [= <-] & [= Hx]). by rewrite <-(BytesToHash_Bytes h'), <-Hx, BytesToHash_Bytes.
Qed.

Lemma tx_view t r :
  t ∈ t_txs db → r ∈ t_blocks db → tr_block_number t = br_block_number r →
  ∃ h bh, let d := toDomainTransaction (scan_tx t) in
    tr_tx_hash t = Some (Hash_Bytes h) ∧ dt_TxHash d = Some (Hash_Bytes h) ∧
    br_block_hash r = Some (Hash_Bytes bh) ∧ dt_BlockHash d = Some (Hash_Bytes bh) ∧
    dt_BlockNumber d = br_block_number r ∧ is_i64 (dt_TxIndex d).
Proof.
  intros Ht Hr Hn. destruct (pl_hash bs db t Hpl Ht) as [h Hh], (pl_block bs db r Hpl Hr) as [[bh Hb] _].
  destruct (pl_tx bs db Hpl t Ht) as (Hi & r' & Hr' & Hn' & Hh').
  assert (r' = r) as -> by (apply block_row_unique; [done..|left; lia]).
  exists h, bh. simpl. rewrite <-Hh', Hh, Hb.
  rewrite !(scan_blob_len 32) by (lia || (simpl; by rewrite Hash_Bytes_length)).
  pose proof (block_row_range r Hr). rewrite Hn, u64_small by (unfold is_u64; lia). done.
Qed.
End rows.

Lemma to_Hash_Bytes h : to_Hash (Some (Hash_Bytes h)) = Done h.
Proof.
  unfold to_Hash, slice_len. simpl. rewrite Hash_Bytes_length. simpl.
  by rewrite take_ge, BytesToHash_Bytes by (rewrite Hash_Bytes_length; lia).
Qed.

Lemma find_block_view s block b :
  db_wf (st_db s) → find_block s block = Some b →
  ∃ r, r ∈ t_blocks (st_db s) ∧ b = block_view (st_db s) r.
Proof.
  intros Hwf. unfold find_block. destruct (bnh_Hash block) as [h|].
  - unfold GetBlockByHash, q_GetBlockByHash, block_with_hash, q_GetTransactionsByBlockHash.
    destruct (filter _ (t_blocks (st_db s))) as [|r l] eqn:E; [done|]. simpl. intros [= <-].
    assert (r ∈ r :: l) as Hr by apply list_elem_of_here.
    rewrite <-E in Hr. apply list_elem_of_filter in Hr as [Hh Hr].
    exists r. split; [done|]. by rewrite (txs_joined_number _ Hwf r _ Hr Hh).
  - destruct (bnh_Number block) as [num|]; [|done]. unfold gw_GetBlockByNumber. case_match.
    + unfold LatestBlock, q_LatestBlock. pose proof (max_row_spec br_block_number (t_blocks (st_db s))) as Hm.
      destruct (max_row _ _) as [r|]; [|done]. intros [= <-]. exists r. by destruct Hm.
    + unfold GetBlockByNumber, q_GetBlockByNumber.
      destruct (filter _ (t_blocks (st_db s))) as [|r l] eqn:E; [done|]. simpl. intros [= <-].
      assert (r ∈ r :: l) as Hr by apply list_elem_of_here.
      rewrite <-E in Hr. apply list_elem_of_filter in Hr as [Hn Hr].
      exists r. split; [done|]. unfold block_view. by rewrite Hn.
Qed.

(** ** Receipts *)

Context {E Q : Type} {I : TxQueueInterface G T E Q}.

(** Neither the queue nor the gate holds the transaction any more. *)
Definition settled (q : Q) (gate : nonceGate) (t : DTransaction) : Prop :=
  let h := BytesToHash (slice_bytes (dt_TxHash t)) in
  ti_IsPending h q = None ∧ IsPending h gate = None.

Lemma lookup_settled bs s q gate x r :
  db_wf (st_db s) → placed bs (st_db s) → x ∈ t_txs (st_db s) → r ∈ t_blocks (st_db s) →
  tr_block_number x = br_block_number r → settled q gate (toDomainTransaction (scan_tx x)) →
  let t := toDomainTransaction (scan_tx x) in
  let h := BytesToHash (slice_bytes (dt_TxHash t)) in
  tr_tx_hash x = Some (Hash_Bytes h) ∧
  TransactionByHash h q gate s = Ok (Some (with_logs (GetLogsByTxHash s (Some (Hash_Bytes h))) t)).
Proof.
  intros Hwf Hpl Hx Hr Hn [Hq Hg]. destruct (tx_view _ _ Hwf Hpl x r Hx Hr Hn) as (h & bh & Hh & Hd & _).
  cbv zeta in *. rewrite Hd in *. change (slice_bytes (Some ?b)) with b in *.
  rewrite BytesToHash_Bytes in *. split; [done|]. unfold TransactionByHash. rewrite Hq, Hg.
  unfold GetTransactionByHash. by rewrite (tx_row_of_hash _ Hwf x h).
Qed.

Lemma receipt_total logs t bh :
  dt_BlockHash t = Some (Hash_Bytes bh) → ∃ rc, receipt (Some (with_logs logs t)) = Done (Some rc).
Proof. intros Hb. unfold receipt. simpl. rewrite Hb, to_Hash_Bytes. eauto. Qed.

(** The logs of one stored block, as [GetLogs] selects them by its number. *)
Lemma GetLogs_block s r :
  db_wf (st_db s) → r ∈ t_blocks (st_db s) →
  let n := db_BlockNumber (block_view (st_db s) r) in
  GetLogs s {| lf_BlockHash := None; lf_FromBlock := Some n; lf_ToBlock := Some n;
               lf_Addresses := []; lf_Topics := [] |} =
  Ok (joined_log <$> order_by (λ x, [lr_block_number x.1; lr_tx_index x.1; lr_log_index x.1])
        (logs_joined (st_db s) (λ l, lr_block_number l =? br_block_number r))).
Proof.
  intros Hwf Hr. pose proof (block_row_range _ Hwf r Hr) as Hn. simpl.
  rewrite u64_small by (unfold is_u64; lia). unfold GetLogs, bind_bounds, bind_u64. simpl.
  destruct (Z.ltb_spec (br_block_number r) (2 ^ 63)); [|lia]. simpl. f_equal.
  unfold scan_logs. rewrite <-list_fmap_compose. unfold joined_log, compose. simpl. f_equal. f_equal.
  rewrite (logs_joined_filter _ (log_where _ _)), (logs_joined_filter _ (λ l, _ =? _)).
  apply filter_ext_in. intros l _. unfold log_where, block_where. simpl.
  rewrite !andb_true_r, andb_true_iff, !Z.leb_le, Z.eqb_eq. lia.
Qed.

Lemma block_receipts_all logs (txs : list DTransaction) (Rel : DTransaction → rpcReceipt → Prop) :
  (∀ t, t ∈ txs → ∃ rc, block_receipt logs t = Done (Some rc) ∧ Rel t rc) →
  ∃ rs, block_receipts logs txs = Done (Ok rs) ∧ Forall2 Rel txs rs.
Proof.
  induction txs as [|t txs IH]; intros Hall; simpl; [by exists []|].
  destruct (Hall t (list_elem_of_here _ _)) as (rc & -> & Hrel).
  destruct IH as (rs & -> & Hrs); [intros t' Ht'; by apply Hall, list_elem_of_further|].
  exists (rc :: rs). split; [done|]. by constructor.
Qed.

(** C26: [eth_getBlockReceipts] agrees with [eth_getTransactionReceipt]: for a block found by hash, number or tag in a store the chain built, whose transactions have left the queue and the gate and whose hashes the ledger holds once, the block's receipts are returned, one per transaction in index order, without error or panic, and each is exactly the receipt the transaction's hash gives, logs and their order included, although one reads the logs of the whole block and groups them and the other selects them by transaction hash. *)
Theorem receipts_agree bs s block b q gate
    (Hs : filled bs s) (Hb : find_block s block = Some b)
    (Hset : ∀ t, t ∈ db_Transactions b → settled q gate t)
    (Honce : ∀ t, t ∈ db_Transactions b → once bs (dt_TxHash t)) :
  ∃ rs, eth_GetBlockReceipts s block = Done (Ok (Some rs)) ∧
    Forall2 (λ t rc, eth_GetTransactionReceipt (λ h, TransactionByHash h q gate s)
                       (BytesToHash (slice_bytes (dt_TxHash t))) = Ok (Done (Some rc)))
      (db_Transactions b) rs.
Proof.
  destruct (filled_inv bs s Hs) as [[Hwf _] Hpl].
  destruct (find_block_view s block b Hwf Hb) as (r & Hr & ->).
  unfold eth_GetBlockReceipts. rewrite Hb, (GetLogs_block s r Hwf Hr).
  set (logs := joined_log <$> _).
  destruct (block_receipts_all logs (db_Transactions (block_view (st_db s) r))
    (λ t rc, eth_GetTransactionReceipt (λ h, TransactionByHash h q gate s)
               (BytesToHash (slice_bytes (dt_TxHash t))) = Ok (Done (Some rc)))) as (rs & Hrs & Hrel).
  - intros t Ht. pose proof (Hset t Ht) as Hst. specialize (Honce t Ht).
    apply elem_of_block_view in Ht as (x & Hx & Hn & ->).
    assert (dt_TxHash (toDomainTransaction (scan_tx x)) = tr_tx_hash x) as Hsame.
    { destruct (tx_view _ _ Hwf Hpl x r Hx Hr Hn) as (h & _ & Hxh & Hdh & _). by rewrite Hdh. }
    rewrite Hsame in Honce.
    destruct (lookup_settled _ s q gate x r Hwf Hpl Hx Hr Hn Hst) as [Hh Hlook].
    destruct (tx_view _ _ Hwf Hpl x r Hx Hr Hn) as (_ & bh & _ & _ & _ & Hbh & _).
    unfold eth_GetTransactionReceipt, block_receipt. rewrite Hlook.
    rewrite (logsByTx_block _ _ Hwf Hpl x _ logs Hx Hh Honce) by (unfold logs; by rewrite Hn).
    unfold GetLogsByTxHash, q_GetLogsByTxHash, scan_logs. rewrite <-list_fmap_compose.
    set (own := joined_log <$> _). destruct (receipt_total own _ bh Hbh) as [rc Hrc].
    exists rc. split; [exact Hrc|]. f_equal. exact Hrc.
  - destruct (db_Transactions (block_view (st_db s) r)) as [|t txs].
    + apply Forall2_nil_inv_l in Hrel as ->. exists []. by split.
    + rewrite Hrs. by exists rs.
Qed.

(** ** Blocks and their transactions *)

Lemma block_of_hash s r h :
  db_wf (st_db s) → r ∈ t_blocks (st_db s) → br_block_hash r = Some (Hash_Bytes h) →
  GetBlockByHash s (Some (Hash_Bytes h)) = Some (block_view (st_db s) r).
Proof.
  intros Hwf Hr Hh. unfold GetBlockByHash, q_GetBlockByHash, block_with_hash, q_GetTransactionsByBlockHash.
  assert (sql_eq (br_block_hash r) (Some (Hash_Bytes h)) = true) as He by (rewrite Hh; apply sql_eq_refl).
  rewrite (head_filter_unique _ _ r Hr He), (txs_joined_number _ Hwf r _ Hr He); [done|].
  intros y Hy Hy'. apply (block_row_unique _ Hwf); [done..|]. right. by rewrite Hh.
Qed.

Lemma rpcBlock_view bs s r full :
  db_wf (st_db s) → placed bs (st_db s) → r ∈ t_blocks (st_db s) →
  ∃ h rb, br_block_hash r = Some (Hash_Bytes h) ∧ rb_Hash rb = h ∧
    rpcBlock (Some (block_view (st_db s) r)) full = Done (Some rb) ∧
    rb_Transactions rb = block_txs full h (block_view (st_db s) r).
Proof.
  intros Hwf Hpl Hr. destruct (pl_block _ _ r Hpl Hr) as [[h Hh] [p Hp]].
  pose proof (wf_blocks _ Hwf) as Hc. rewrite Forall_forall in Hc.
  destruct (block_check_facts r (Hc r Hr)) as (_ & _ & Hlen & _).
  unfold rpcBlock. cbn [block_view with_txs toDomainBlock scan_block db_BlockHash db_ParentHash
    br_block_hash br_parent_hash]. rewrite (scan_blob_len 32 _ ltac:(lia) Hlen), Hh, Hp.
  rewrite (scan_blob_len 32) by (lia || (simpl; by rewrite Hash_Bytes_length)).
  rewrite to_Hash_Bytes. rewrite Hp in Hlen. apply Nat.eqb_eq in Hlen.
  unfold to_Hash, slice_len. change (slice_bytes (Some p)) with p. rewrite Hlen. simpl.
  eexists h, _. split; [done|]. split; [|by split]. done.
Qed.

Lemma omap_all {A B} (f : A → option B) (Rel : A → B → Prop) l :
  (∀ x, x ∈ l → ∃ y, f x = Some y ∧ Rel x y) → Forall2 Rel l (omap f l).
Proof.
  induction l as [|x l IH]; intros Hall; [constructor|]. cbn.
  destruct (Hall x (list_elem_of_here _ _)) as (y & -> & Hy). constructor; [done|].
  apply IH. intros z Hz. by apply Hall, list_elem_of_further.
Qed.

Lemma tx_object_agrees bs s q gate x r h e :
  db_wf (st_db s) → placed bs (st_db s) → x ∈ t_txs (st_db s) → r ∈ t_blocks (st_db s) →
  tr_block_number x = br_block_number r → br_block_hash r = Some (Hash_Bytes h) →
  db_BlockNumber (block_view (st_db s) r) ≠ 0 →
  let t := toDomainTransaction (scan_tx x) in
  settled q gate t → ToEthTx t = Some e →
  let o := {| rt_tx := e; rt_From := BytesToAddress (slice_bytes (dt_FromAddress t));
              rt_Block := Some (h, i64 (db_BlockNumber (block_view (st_db s) r)), u64 (dt_TxIndex t)) |} in
  eth_GetTransactionByHash (λ h, TransactionByHash h q gate s)
    (BytesToHash (slice_bytes (dt_TxHash t))) = Ok (Done (Some o)) ∧
  eth_GetTransactionByBlockHashAndIndex s h (dt_TxIndex t) = Done (Some o).
Proof.
  intros Hwf Hpl Hx Hr Hn Hh Hpos t Hst He o.
  destruct (lookup_settled _ s q gate x r Hwf Hpl Hx Hr Hn Hst) as [_ Hlook].
  destruct (tx_view _ _ Hwf Hpl x r Hx Hr Hn) as (_ & bh & _ & _ & Hbh & Hdh & Hdn & Hi).
  rewrite Hh in Hbh. injection Hbh as Hbh. rewrite <-Hbh in Hdh.
  assert (db_BlockNumber (block_view (st_db s) r) = br_block_number r) as Hnum.
  { pose proof (block_row_range _ Hwf r Hr). simpl. apply u64_small. unfold is_u64. lia. }
  assert (∀ logs, rpcTransaction (Some (with_logs logs t)) = Done (Some o)) as Hobj.
  { intros logs. unfold rpcTransaction, ToEthTx in *. cbn [with_logs dt_RawTx dt_FromAddress dt_BlockHash
      dt_BlockNumber dt_TxIndex]. fold t in Hdh, Hdn. rewrite He, Hdh, Hdn.
    rewrite Hnum in Hpos. destruct (Z.eqb_spec (br_block_number r) 0); [done|]. cbn [negb].
    rewrite to_Hash_Bytes. unfold o. by rewrite Hnum. }
  unfold eth_GetTransactionByHash, eth_GetTransactionByBlockHashAndIndex, GetTransactionByBlockHashAndIndex.
  fold t in Hlook, Hi. rewrite Hlook, <-Hh, i64_small by done. split; [by rewrite Hobj|].
  change (dt_TxIndex t) with (tr_tx_index x). rewrite (tx_row_of_place _ _ Hwf Hpl x r Hx Hr) by done.
  exact (Hobj []).
Qed.

(** C40: The views of a block agree: for a block past the first, in a store the chain built, whose transactions decode and have left the queue and the gate, [eth_getBlockByNumber] with full transactions and [eth_getBlockByHash] of the hash it reports return the same block without panic, and the transaction objects it lists are, one for one and in order, those that [eth_getTransactionByHash] and [eth_getTransactionByBlockHashAndIndex] return. *)
Theorem block_views_agree bs s num b q gate
    (Hs : filled bs s) (Hb : gw_GetBlockByNumber (blockNumberToUint64 num) s = Some b)
    (Hpos : db_BlockNumber b ≠ 0) (Hdec : ∀ t, t ∈ db_Transactions b → is_Some (ToEthTx t))
    (Hset : ∀ t, t ∈ db_Transactions b → settled q gate t) :
  ∃ rb objs, eth_GetBlockByNumber s num true = Done (Some rb) ∧
    eth_GetBlockByHash s (rb_Hash rb) true = Done (Some rb) ∧ rb_Transactions rb = TxObjects objs ∧
    Forall2 (λ t o,
      eth_GetTransactionByHash (λ h, TransactionByHash h q gate s)
        (BytesToHash (slice_bytes (dt_TxHash t))) = Ok (Done (Some o)) ∧
      eth_GetTransactionByBlockHashAndIndex s (rb_Hash rb) (dt_TxIndex t) = Done (Some o))
      (db_Transactions b) objs.
Proof.
  destruct (filled_inv bs s Hs) as [[Hwf _] Hpl].
  destruct (find_block_view s {| bnh_Number := Some num; bnh_Hash := None |} b Hwf Hb) as (r & Hr & ->).
  destruct (rpcBlock_view _ s r true Hwf Hpl Hr) as (h & rb & Hh & Hrh & Hrb & Htx).
  exists rb, (block_objects h (db_BlockNumber (block_view (st_db s) r))
    (db_Transactions (block_view (st_db s) r))).
  unfold eth_GetBlockByNumber, eth_GetBlockByHash. rewrite Hb, Hrh, (block_of_hash s r h Hwf Hr Hh).
  split_and!; [done..|]. apply omap_all. intros t Ht. pose proof (Hset t Ht) as Hst.
  destruct (Hdec t Ht) as [e He]. apply elem_of_block_view in Ht as (x & Hx & Hn & ->).
  rewrite He. eexists. split; [done|]. by eapply tx_object_agrees.
Qed.
End coherence.

(** ** Arguments and errors *)

Section arguments.
Context {G : GethTypes} {T : EthTxTypes G} {C : EthCodec G T} {X : HexUtil G} {XL : HexUtilLaws G X}.

Lemma quantityArg_nonneg args field o : quantityArg args field = Ok o → 0 ≤ default 0 o.
Proof.
  unfold quantityArg. destruct (present args field) as [v|]; [|by intros [= <-]].
  unfold decode_with. destruct (hexArg field v) as [s|]; [|done].
  destruct (DecodeBig s) as [n|] eqn:E; [|done]. intros [= <-]. by eapply DecodeBig_nonneg.
Qed.

Lemma quantityArg_absent args field : present args field = None → quantityArg args field = Ok None.
Proof. unfold quantityArg. by intros ->. Qed.

(** Arguments without the EIP-1559 fields decode to a message that survives the
    way to a remote endorser. *)
Lemma args_wireable args msg :
  present args "maxFeePerGas" = None → present args "maxPriorityFeePerGas" = None →
  argsToCallMsg args = Ok msg → wireable msg.
Proof.
  intros Hfee Htip. unfold argsToCallMsg.
  rewrite (quantityArg_absent _ _ Hfee), (quantityArg_absent _ _ Htip).
  destruct (optional addressArg args "from"); [|done]. destruct (optional addressArg args "to"); [|done].
  destruct (optional (decode_with DecodeUint64) args "gas"); [|done].
  destruct (quantityArg args "gasPrice") as [p|] eqn:Hp; [|done].
  destruct (quantityArg args "value") as [v|] eqn:Hv; [|done].
  destruct (optional (decode_with hexutil_Decode) args (inputKey args)); [|done].
  intros [= <-]. apply quantityArg_nonneg in Hp, Hv. by split_and!.
Qed.

(** Up to 32 bytes of hexadecimal with its prefix are the word they denote;
    longer words are refused. *)
Lemma DecodeStorageWord_encode what b :
  Forall (λ x, 0 ≤ x < 256) b →
  DecodeStorageWord what (hexutil_Encode b) =
  if (length b <=? 32)%nat then Ok (BytesToHash b) else Err (InvalidParams (what +:+ " too long")).
Proof.
  intros Hb. unfold DecodeStorageWord, hexutil_Encode. set (k := hex_EncodeToString b).
  change ("0x" +:+ k) with (String "0" (String "x" k)). simpl has_0x. cbv iota zeta.
  assert (String.substring 2 (String.length (String "0" (String "x" k)) - 2) (String "0" (String "x" k)) = k)
    as ->.
  { simpl. rewrite Nat.sub_0_r. apply substring_all. }
  unfold k. rewrite !hex_Encode_length, Nat.even_even, hex_Encode_length, hex_decode_encode by done.
  destruct (Nat.ltb_spec (2 * 32) (2 * length b)), (Nat.leb_spec (length b) 32); done || lia.
Qed.
End arguments.

(** A nonce the backend failed to look up rejects the transaction, with the code
    of a transaction that is at fault: no error of the gate wraps
    [domain.ErrNonceLookup]. *)
Lemma lookup_fault_rejected {G : GethTypes} {T : EthTxTypes G} {C : EthCodec G T} {X : HexUtil G} {E Q : Type}
    {I : TxQueueInterface G T E Q} cfg now from tx rest (g : Gateway E Q) text input :
  UnmarshalBinary input = Some tx →
  ∃ e g', Admit_resume cfg now from tx None rest g = Done (Some e, g') ∧
    eth_SendRawTransaction (SE := core_errors text) (λ _, Some e) input = Err (TxRejected (text e)).
Proof.
  intros Htx. unfold Admit_resume, Admit_finish. eexists _, _. split; [done|].
  unfold eth_SendRawTransaction. by rewrite Htx.
Qed.

Lemma FeeHistory_bounded blockCount percentiles :
  is_u64 blockCount →
  let r := eth_FeeHistory blockCount percentiles in
  length (fh_BaseFee r) = S (length (fh_GasUsedRatio r)) ∧
  length (fh_Reward r) = length (fh_GasUsedRatio r) ∧ (length (fh_BaseFee r) ≤ 1025)%nat.
Proof.
  intros Hn. unfold is_u64 in Hn. unfold eth_FeeHistory, maxFeeHistory. simpl. rewrite !length_replicate.
  destruct (Z.ltb_spec 1024 blockCount); [by vm_compute|].
  rewrite u64_small by (unfold is_u64; lia). lia.
Qed.

(** ** A block of two transactions *)

#[local] Existing Instances four_types four_txs demo_codec demo_wire demo_tags nil_driver demo_marshal.

Definition demo_hex : HexUtil four_types :=
  @Build_HexUtil four_types (λ _, Err "") (λ _, Err "") (λ _, Err "") (λ _, Err "") (false, true).
#[local] Existing Instances demo_hex.

(** The second transaction is at index 2 and has the block's last log. *)
Definition two_txs : DBlock :=
  let h := Some (Hash_Bytes (true, false)) in
  let log th i j := {|
    dl_BlockNumber := 1; dl_BlockHash := h; dl_TxHash := th; dl_TxIndex := i; dl_LogIndex := j;
    dl_Address := Some (replicate 20 9); dl_Topics := []; dl_Data := Some [j]; dl_Timestamp := 0 |} in
  let tx th i id logs := {|
    dt_TxHash := th; dt_BlockHash := h; dt_BlockNumber := 1; dt_TxIndex := i;
    dt_RawTx := Some [1; 0]; dt_FromAddress := Some (replicate 20 5);
    dt_ToAddress := Some (replicate 20 6); dt_ContractAddress := None; dt_Status := 1;
    dt_FabricTxID := id; dt_FabricTxStatus := StatusCommitted; dt_GasUsed := 1;
    dt_CumulativeGasUsed := 1; dt_Logs := logs |} in
  let ha := Some (Hash_Bytes (true, true)) in
  let hb := Some (Hash_Bytes (false, true)) in
  {| db_BlockNumber := 1; db_BlockHash := h; db_ParentHash := Some (replicate 32 0);
     db_StateRoot := Some (replicate 32 1); db_Timestamp := 1001;
     db_Transactions := [tx ha 0 "f" [log ha 0 0; log ha 0 1]; tx hb 2 "g" [log hb 2 2]] |}.

Definition two_store : Store := demo_store [two_txs].

Lemma two_ok : real_block two_txs.
Proof.
  split; [unfold is_u64; simpl; lia|]. split; [repeat constructor|]. split; [by exists (true, false)|].
  split; [by eexists|].
  intros t Ht. simpl in Ht. repeat (apply elem_of_cons in Ht as [-> |Ht]); [..|by apply not_elem_of_nil in Ht];
    (split; [first [by exists (true, true)|by exists (false, true)]|split; [done|split; [unfold is_i64; simpl; lia|]]]);
    intros l Hl; simpl in Hl; repeat (apply elem_of_cons in Hl as [-> |Hl]); try done;
    by apply not_elem_of_nil in Hl.
Qed.

Lemma two_filled : filled [two_txs] two_store.
Proof.
  apply (filled_insert [] (Init empty_db) two_txs); [constructor|apply two_ok|by intros b' ?%not_elem_of_nil|].
  vm_compute. reflexivity.
Qed.

Lemma two_once t : t ∈ db_Transactions (block_view (st_db two_store) (toStorageBlock two_txs)) →
  once [two_txs] (dt_TxHash t).
Proof.
  intros _ b b' d d' ->%list_elem_of_singleton ->%list_elem_of_singleton Hd Hd' Hh Hh'.
  rewrite <-Hh' in Hh. clear Hh'. simpl in Hd, Hd'.
  repeat (apply elem_of_cons in Hd as [-> |Hd]); [..|by apply not_elem_of_nil in Hd];
    (repeat (apply elem_of_cons in Hd' as [-> |Hd']); [..|by apply not_elem_of_nil in Hd']);
    first [reflexivity|by vm_compute in Hh].
Qed.

Lemma two_settled t : t ∈ db_Transactions (block_view (st_db two_store) (toStorageBlock two_txs)) →
  settled (I := fifo_interface Z) NewTxQueue newNonceGate t.
Proof. intros _. split; vm_compute; reflexivity. Qed.

Definition by_hash : BlockNumberOrHash := @Build_BlockNumberOrHash four_types None (Some (true, false)).

(** By hash: both receipts, the first with two logs and the second with one. *)
Lemma receipts_agree_witness :
  ∃ r1 r2, eth_GetBlockReceipts two_store by_hash = Done (Ok (Some [r1; r2])) ∧
    (length (rc_Logs r1), length (rc_Logs r2)) = (2%nat, 1%nat) ∧
    eth_GetTransactionReceipt
      (λ h, TransactionByHash (I := fifo_interface Z) h NewTxQueue newNonceGate two_store)
      (false, true) = Ok (Done (Some r2)).
Proof.
  assert (find_block two_store by_hash = Some (block_view (st_db two_store) (toStorageBlock two_txs))) as Hb
    by (vm_compute; reflexivity).
  destruct (receipts_agree (I := fifo_interface Z) [two_txs] two_store by_hash _ NewTxQueue newNonceGate
    two_filled Hb two_settled two_once) as (rs & Hrs & Hall).
  assert (∃ r1 r2, eth_GetBlockReceipts two_store by_hash = Done (Ok (Some [r1; r2])) ∧
    (length (rc_Logs r1), length (rc_Logs r2)) = (2%nat, 1%nat)) as (r1 & r2 & E & Hl)
    by (vm_compute; eexists _, _; split; reflexivity).
  exists r1, r2. split; [exact E|]. split; [exact Hl|].
  rewrite E in Hrs. injection Hrs as <-. exact (Forall2_lookup_lr _ _ _ 1 _ _ Hall eq_refl eq_refl).
Defined.

(** *** The receipts of a resubmitted transaction disagree

    The first transaction came again in a later block, under another Fabric id
    and with a log of its own.  Its row stays that of the first block, but the
    log is stored, and the two receipts list different logs. *)
Definition again : DBlock :=
  let h := Some (Hash_Bytes (false, false)) in
  let ha := Some (Hash_Bytes (true, true)) in
  {| db_BlockNumber := 2; db_BlockHash := h; db_ParentHash := Some (Hash_Bytes (true, false));
     db_StateRoot := Some (replicate 32 1); db_Timestamp := 1002;
     db_Transactions := [{|
       dt_TxHash := ha; dt_BlockHash := h; dt_BlockNumber := 2; dt_TxIndex := 0;
       dt_RawTx := Some [1; 0]; dt_FromAddress := Some (replicate 20 5);
       dt_ToAddress := Some (replicate 20 6); dt_ContractAddress := None; dt_Status := 1;
       dt_FabricTxID := "h"; dt_FabricTxStatus := StatusCommitted; dt_GasUsed := 1;
       dt_CumulativeGasUsed := 1;
       dt_Logs := [{| dl_BlockNumber := 2; dl_BlockHash := h; dl_TxHash := ha; dl_TxIndex := 0; dl_LogIndex := 7;
         dl_Address := Some (replicate 20 9); dl_Topics := []; dl_Data := Some [7]; dl_Timestamp := 0 |}] |}] |}.

Lemma resubmitted_receipts_differ :
  let s := demo_store [two_txs; again] in
  ∃ r1 r2 rc, eth_GetBlockReceipts s by_hash = Done (Ok (Some [r1; r2])) ∧
    eth_GetTransactionReceipt
      (λ h, TransactionByHash (I := fifo_interface Z) h NewTxQueue newNonceGate s) (true, true) = Ok (Done (Some rc)) ∧
    (length (rc_Logs r1), length (rc_Logs rc)) = (2%nat, 3%nat).
Proof. vm_compute. eexists _, _, _. repeat split; reflexivity. Qed.

Lemma block_views_agree_witness :
  ∃ rb o1 o2, eth_GetBlockByNumber two_store 1 true = Done (Some rb) ∧
    rb_Transactions rb = TxObjects [o1; o2] ∧
    eth_GetTransactionByBlockHashAndIndex two_store (rb_Hash rb) 2 = Done (Some o2).
Proof.
  assert (gw_GetBlockByNumber (blockNumberToUint64 1) two_store =
    Some (block_view (st_db two_store) (toStorageBlock two_txs))) as Hb by (vm_compute; reflexivity).
  destruct (block_views_agree (I := fifo_interface Z) [two_txs] two_store 1 _ NewTxQueue newNonceGate
    two_filled Hb) as (rb & objs & Hrb & _ & Htx & Hall).
  - vm_compute. discriminate.
  - intros t Ht. assert (Forall (λ t, is_Some (ToEthTx t))
      (db_Transactions (block_view (st_db two_store) (toStorageBlock two_txs)))) as Hf
      by (vm_compute; repeat constructor; eexists; reflexivity).
    rewrite Forall_forall in Hf. exact (Hf t Ht).
  - exact two_settled.
  - assert (length objs = 2%nat) as Hlen
      by (rewrite <-(Forall2_length _ _ _ Hall); vm_compute; reflexivity).
    destruct objs as [|o1 [|o2 [|]]]; [discriminate Hlen..| |discriminate Hlen].
    exists rb, o1, o2. split; [exact Hrb|]. split; [exact Htx|].
    exact (proj2 (Forall2_lookup_lr _ _ _ 1 _ _ Hall eq_refl eq_refl)).
Defined.
