(* ===== verification/QueryKVS.v ===== *)
(** * QueryKVS: the store that reads from the query service

    endorser/query/kvs.go and grpc_client.go.  The query service is outside the
    repository: its answers are arguments, and [answers] states what it documents
    of a view, that every read of the view is of one state.  A snapshot's [Get]
    holds its lock only to look into the cache and to fill it, so it is two steps
    with the call in between, and concurrent [Get]s interleave. *)

From Stdlib Require Import ZArith Lia Ascii.
From stdpp Require Import base numbers list gmap strings relations.
From S2P Require Import Prelude Blocks.

Local Open Scope Z_scope.

(** ** grpc_client.go *)

Record Row := { row_Key : string; row_Version : Z; row_Value : option byte_slice }.

(** The answer of the service: rows by namespace. *)
Definition query_response : Type := list (string * list Row).

Definition GetRows (ns : string) (res : result string query_response) : result string (list Row) :=
  match res with
  | Err e => Err e
  | Ok nss => Ok (rns ← nss; if decide (rns.1 = ns) then rns.2 else [])
  end.

Definition Connections : nat := 8.

(** The next connection's index: a [uint32] counter modulo the connections. *)
Definition pick (conns : nat) (next : Z) : outcome (nat * Z) :=
  let next := (next + 1) mod 2 ^ 32 in
  if (conns =? 0)%nat then Panic "integer divide by zero"
  else Done (Z.to_nat (next mod Z.of_nat conns), next).

(** ** kvs.go *)

(** The view a snapshot reads, and its cache: [Some None] is a key known absent. *)
Record query_snapshot := { qs_viewID : string; qs_cache : gmap string (option WriteRecord) }.

Definition query_NewSnapshot (blockNumber : option Z) (view : result string string)
    : result string query_snapshot :=
  match blockNumber with
  | Some _ => Err "query-service store only serves the latest state, not a specific block"
  | None => match view with Err e => Err e | Ok id => Ok {| qs_viewID := id; qs_cache := ∅ |} end
  end.

Definition row_record (ns key : string) (r : Row) : WriteRecord := {|
  wr_Namespace := ns; wr_Key := key; wr_BlockNum := 0; wr_TxNum := 0; wr_Version := row_Version r;
  wr_Value := row_Value r; wr_IsDelete := false; wr_TxID := "" |}.

Definition KVS_get (ns key : string) (res : result string query_response) : result string (option WriteRecord) :=
  match GetRows ns res with
  | Err e => Err e
  | Ok rows => Ok (row_record ns key <$> head (filter (λ r, row_Key r = key) rows))
  end.

Definition cache_key (ns key : string) : string := ns +:+ String "000"%char key.

Definition snapshot_lookup (s : query_snapshot) (ns key : string) : option (option WriteRecord) :=
  qs_cache s !! cache_key ns key.

Definition snapshot_store (ns key : string) (rec : option WriteRecord) (s : query_snapshot) : query_snapshot :=
  {| qs_viewID := qs_viewID s; qs_cache := <[cache_key ns key := rec]> (qs_cache s) |}.

(** The second half of a [Get] that missed, with the answer to its call. *)
Definition snapshot_finish (ns key : string) (res : result string query_response) (s : query_snapshot)
    : result string (option WriteRecord) * query_snapshot :=
  match KVS_get ns key res with
  | Err e => (Err e, s)
  | Ok rec => (Ok rec, snapshot_store ns key rec s)
  end.

Definition snapshot_Get (ns key : string) (res : result string query_response) (s : query_snapshot)
    : result string (option WriteRecord) * query_snapshot :=
  match snapshot_lookup s ns key with
  | Some rec => (Ok rec, s)
  | None => snapshot_finish ns key res s
  end.

(** The height the synchronizer resumes from. *)
Definition query_Handle (b : Block) (height : Z) : Z := if height <? b_Number b then b_Number b else height.

(** ** What the service promises of a view *)

(** The records of one state, by namespace and key. *)
Definition view_state : Type := string → string → option Row.

Definition view_ok (v : view_state) : Prop := ∀ ns key r, v ns key = Some r → row_Key r = key.

(** An answer to the query for [key] in [ns] over [v]: rows it names for the
    namespace are rows of the state, and the key's is there when there is one. *)
Definition answers (v : view_state) (ns key : string) (res : query_response) : Prop :=
  (∀ rows r, (ns, rows) ∈ res → r ∈ rows → v ns (row_Key r) = Some r) ∧
  (∀ r, v ns key = Some r → ∃ rows, (ns, rows) ∈ res ∧ r ∈ rows).

(** ** Concurrent reads *)

Record reads := {
  rd_snap : query_snapshot;
  rd_pending : list (string * string);
  (** The results returned so far. *)
  rd_results : list (string * string * result string (option WriteRecord))
}.

(** Namespaces are names: they hold no NUL. *)
Fixpoint no_nul (s : string) : bool :=
  match s with EmptyString => true | String c s => negb (Ascii.eqb c "000"%char) && no_nul s end.

Inductive read_step (v : view_state) : reads → reads → Prop :=
| rs_hit ns key rec s :
    no_nul ns = true → snapshot_lookup (rd_snap s) ns key = Some rec →
    read_step v s {| rd_snap := rd_snap s; rd_pending := rd_pending s;
                     rd_results := (ns, key, Ok rec) :: rd_results s |}
| rs_miss ns key s :
    no_nul ns = true → snapshot_lookup (rd_snap s) ns key = None →
    read_step v s {| rd_snap := rd_snap s; rd_pending := (ns, key) :: rd_pending s;
                     rd_results := rd_results s |}
| rs_answer ns key rest res s out snap' :
    rd_pending s ≡ₚ (ns, key) :: rest →
    (∀ r, res = Ok r → answers v ns key r) →
    snapshot_finish ns key res (rd_snap s) = (out, snap') →
    read_step v s {| rd_snap := snap'; rd_pending := rest; rd_results := (ns, key, out) :: rd_results s |}.

(** What a read of the state returns. *)
Definition read_view (v : view_state) (ns key : string) : option WriteRecord := row_record ns key <$> v ns key.

Definition open_view (id : string) : reads :=
  {| rd_snap := {| qs_viewID := id; qs_cache := ∅ |}; rd_pending := []; rd_results := [] |}.

Lemma cache_key_inj ns key ns' key' :
  no_nul ns = true → no_nul ns' = true → cache_key ns key = cache_key ns' key' → ns = ns' ∧ key = key'.
Proof.
  unfold cache_key. revert ns'. induction ns as [|c ns IH]; intros [|c' ns']; simpl; intros H H' E.
  - by injection E.
  - injection E as <- _. done.
  - injection E as -> _. done.
  - injection E as -> E. apply andb_true_iff in H as [_ H], H' as [_ H'].
    by destruct (IH ns' H H' E) as [-> ->].
Qed.

Lemma KVS_get_view v ns key res :
  view_ok v → answers v ns key res → KVS_get ns key (Ok res) = Ok (read_view v ns key).
Proof.
  intros Hv [Hin Hall]. unfold KVS_get, GetRows, read_view. f_equal. f_equal.
  set (rows := res ≫= _).
  assert (∀ r, r ∈ rows → v ns (row_Key r) = Some r) as Hrows.
  { intros r ([id rs] & Hr & Hres)%list_elem_of_bind. simpl in Hr. case_decide; [subst|by apply not_elem_of_nil in Hr].
    by eapply Hin. }
  destruct (v ns key) as [r|] eqn:E.
  - destruct (Hall r eq_refl) as (rs & Hres & Hr).
    assert (r ∈ filter (λ r, row_Key r = key) rows) as Hf.
    { apply list_elem_of_filter. split; [by eapply Hv|]. apply list_elem_of_bind. exists (ns, rs).
      split; [|done]. simpl. by rewrite decide_True. }
    destruct (filter _ rows) as [|r' l] eqn:Ef; [by apply not_elem_of_nil in Hf|]. simpl.
    assert (r' ∈ r' :: l) as Hr' by apply list_elem_of_here.
    rewrite <-Ef in Hr'. apply list_elem_of_filter in Hr' as [Hk Hr']. specialize (Hrows r' Hr'). congruence.
  - destruct (filter _ rows) as [|r l] eqn:Ef; [done|].
    assert (r ∈ r :: l) as Hr by apply list_elem_of_here. rewrite <-Ef in Hr.
    apply list_elem_of_filter in Hr as [<- Hr]. specialize (Hrows r Hr). congruence.
Qed.

Definition reads_inv (v : view_state) (s : reads) : Prop :=
  (∀ ns key rec, no_nul ns = true → snapshot_lookup (rd_snap s) ns key = Some rec → rec = read_view v ns key) ∧
  Forall (λ p, no_nul p.1 = true) (rd_pending s) ∧
  (∀ ns key rec, (ns, key, Ok rec) ∈ rd_results s → rec = read_view v ns key).

Lemma read_step_inv v s s' : view_ok v → reads_inv v s → read_step v s s' → reads_inv v s'.
Proof.
  intros Hv (Hc & Hp & Hr) Hstep. destruct Hstep as [ns key rec s Hn Hl|ns key s Hn Hl|ns key rest res s out snap' Hperm Hans Hf];
    split_and!; simpl; try done.
  - intros ns' key' rec' [[= -> -> ->]|Hin]%elem_of_cons; [by apply Hc|by apply Hr].
  - by constructor.
  - rewrite Hperm, Forall_cons in Hp. destruct Hp as [Hn _]. simpl in Hn. unfold snapshot_finish in Hf.
    destruct res as [res|e]; [|by injection Hf as <- <-].
    rewrite (KVS_get_view v) in Hf by auto. injection Hf as <- <-. intros ns' key' rec Hn'.
    unfold snapshot_lookup. simpl. destruct (decide (cache_key ns key = cache_key ns' key')) as [E|E].
    + destruct (cache_key_inj _ _ _ _ Hn Hn' E) as [<- <-]. rewrite lookup_insert_eq. by intros [= <-].
    + rewrite lookup_insert_ne by done. by apply Hc.
  - rewrite Hperm, Forall_cons in Hp. by destruct Hp.
  - intros ns' key' rec [[= -> -> <-]|Hin]%elem_of_cons; [|by apply Hr]. unfold snapshot_finish in Hf.
    destruct res as [res|e]; [|by injection Hf].
    rewrite (KVS_get_view v) in Hf by auto. by injection Hf as <- <-.
Qed.

(** C39: Reads of a query-service snapshot are reads of one state: when every answer of the service is of the view's state, then after any interleaving of concurrent [Get]s, with calls that fail at any point, each [Get] that returned without error returned the record of that state, or nil where it has none, and a key is answered from the cache only with the state's record, so repeated reads agree and a failed call is never remembered as an absent key. *)
Theorem snapshot_consistent v id s
    (Hv : view_ok v) (Hs : rtc (read_step v) (open_view id) s) :
  (∀ ns key rec, (ns, key, Ok rec) ∈ rd_results s → rec = read_view v ns key) ∧
  (∀ ns key rec res, no_nul ns = true → snapshot_lookup (rd_snap s) ns key = Some rec →
     snapshot_Get ns key res (rd_snap s) = (Ok (read_view v ns key), rd_snap s)).
Proof.
  assert (reads_inv v s) as (Hc & _ & Hr).
  { pattern s. eapply rtc_ind_r; [|intros y z _ Hyz Hy; by eapply read_step_inv|exact Hs].
    split_and!; simpl; [|constructor|by intros ??? ?%not_elem_of_nil].
    intros ns key rec _. unfold snapshot_lookup. simpl. by rewrite lookup_empty. }
  split; [exact Hr|]. intros ns key rec res Hn Hl. unfold snapshot_Get. rewrite Hl.
  by rewrite (Hc ns key rec Hn Hl).
Qed.

(** Reads go round the connections: the index is always one of them. *)
Lemma pick_range conns next :
  (0 < conns)%nat → ∃ i next', pick conns next = Done (i, next') ∧ (i < conns)%nat ∧ 0 ≤ next' < 2 ^ 32.
Proof.
  intros Hc. unfold pick. destruct (Nat.eqb_spec conns 0); [lia|]. eexists _, _. split; [done|].
  pose proof (Z.mod_pos_bound (next + 1) (2 ^ 32)).
  pose proof (Z.mod_pos_bound ((next + 1) mod 2 ^ 32) (Z.of_nat conns)). lia.
Qed.

(** The height is that of the highest block seen, whatever order they come in. *)
Lemma query_height bs h :
  let h' := foldl (λ h b, query_Handle b h) h bs in
  h ≤ h' ∧ (∀ b, b ∈ bs → b_Number b ≤ h') ∧ (h' = h ∨ ∃ b, b ∈ bs ∧ h' = b_Number b).
Proof.
  revert h. induction bs as [|b bs IH]; intros h; simpl.
  { split_and!; [lia|by intros b ?%not_elem_of_nil|by left]. }
  destruct (IH (query_Handle b h)) as (Hle & Hall & Hex). simpl in *.
  assert (h ≤ query_Handle b h ∧ b_Number b ≤ query_Handle b h ∧
    (query_Handle b h = h ∨ query_Handle b h = b_Number b)) as (H1 & H2 & H3).
  { unfold query_Handle. destruct (Z.ltb_spec h (b_Number b)); lia. }
  split_and!; [lia| |].
  - intros b' [-> |Hb]%elem_of_cons; [lia|by apply Hall].
  - destruct Hex as [-> |(b' & Hb & ->)].
    + destruct H3 as [->| ->]; [by left|right; exists b; split; [apply list_elem_of_here|done]].
    + right. exists b'. split; [by apply list_elem_of_further|done].
Qed.

(** ** Two concurrent reads of one key, the first of which fails *)

Definition one_row : Row := {| row_Key := "k"; row_Version := 3; row_Value := Some [7] |}.

Definition one_view : view_state := λ ns key, if decide (ns = "basic" ∧ key = "k") then Some one_row else None.

Definition after_reads : reads := {|
  rd_snap := {| qs_viewID := "v"; qs_cache := {[cache_key "basic" "k" := Some (row_record "basic" "k" one_row)]} |};
  rd_pending := [];
  rd_results := [("basic", "k", Ok (Some (row_record "basic" "k" one_row))); ("basic", "k", Err "timeout")] |}.

Lemma one_view_answers : answers one_view "basic" "k" [("other", [one_row]); ("basic", [one_row])].
Proof.
  split.
  - intros rows r [[=]|[= ->]%list_elem_of_singleton]%elem_of_cons. by intros ->%list_elem_of_singleton.
  - intros r [= <-]. exists [one_row]. split; [right; left|by apply list_elem_of_singleton].
Qed.

Lemma snapshot_consistent_witness :
  rtc (read_step one_view) (open_view "v") after_reads ∧
  snapshot_Get "basic" "k" (Err "unavailable") (rd_snap after_reads) =
    (Ok (Some (row_record "basic" "k" one_row)), rd_snap after_reads).
Proof.
  assert (rtc (read_step one_view) (open_view "v") after_reads) as Hs.
  { eapply rtc_l; [apply (rs_miss _ "basic" "k"); reflexivity|].
    eapply rtc_l; [apply (rs_miss _ "basic" "k"); reflexivity|].
    eapply rtc_l; [apply (rs_answer _ "basic" "k" [("basic", "k")] (Err "timeout"));
      [reflexivity|discriminate|reflexivity]|].
    eapply rtc_l; [|apply rtc_refl].
    eapply (rs_answer _ "basic" "k" [] (Ok [("other", [one_row]); ("basic", [one_row])]));
      [reflexivity|intros r [= <-]; exact one_view_answers|vm_compute; reflexivity]. }
  split; [exact Hs|].
  destruct (snapshot_consistent one_view "v" after_reads) as [_ Hget].
  - intros ns key r. unfold one_view. case_decide as Hd; [|discriminate]. intros [= <-]. by destruct Hd as [_ ->].
  - exact Hs.
  - exact (Hget "basic" "k" (Some (row_record "basic" "k" one_row)) (Err "unavailable") eq_refl eq_refl).
Defined.
