(* ===== verification/Config.v ===== *)
(** * Config: configuration and its validation

    The configuration records with their defaults and [Validate] methods
    (common/config.go, endorser/config/config.go, gateway/config/config.go) and
    the addresses they produce.  [os.Stat] is an argument; an error is the list
    of messages [errors.Join] keeps, empty for [nil].  Decoding the YAML file is
    left to its library. *)

From Stdlib Require Import ZArith Lia QArith Ascii DecimalString DecimalZ DecimalFacts.
From stdpp Require Import base numbers list sets strings.
From S2P Require Import Prelude Blocks Geth Domain DepGraph Executor Engine Endorse.

Local Open Scope Z_scope.

(** ** Addresses: net.SplitHostPort, net.JoinHostPort and strconv *)

Definition colon : ascii := ":".
Definition open_br : ascii := "[".
Definition close_br : ascii := "]".

Definition IndexByte (c : ascii) (s : list ascii) : option nat := fst <$> list_find (λ x, x = c) s.

Definition LastIndexByte (c : ascii) (s : list ascii) : option nat :=
  (λ p, (length s - 1 - p.1)%nat) <$> list_find (λ x, x = c) (reverse s).

Definition contains (c : ascii) (s : list ascii) : bool := bool_decide (c ∈ s).

Definition split_tail (hostport host : list ascii) (i j k : nat) : option (list ascii * list ascii) :=
  if contains open_br (drop j hostport) then None
  else if contains close_br (drop k hostport) then None
  else Some (host, drop (S i) hostport).

Definition SplitHostPort (hostport : list ascii) : option (list ascii * list ascii) :=
  match LastIndexByte colon hostport with
  | None => None
  | Some i =>
      if decide (head hostport = Some open_br) then
        match IndexByte close_br hostport with
        | None => None
        | Some fin =>
            if (S fin =? i)%nat
            then split_tail hostport (take (fin - 1) (drop 1 hostport)) i 1 (S fin)
            else None
        end
      else
        let host := take i hostport in
        if contains colon host then None else split_tail hostport host i 0 0
  end.

Definition JoinHostPort (host port : list ascii) : list ascii :=
  if contains colon host
  then open_br :: host ++ close_br :: colon :: port
  else host ++ colon :: port.

Definition Itoa (n : Z) : string := NilZero.string_of_int (Z.to_int n).

(** [strconv.Atoi]: an optional sign, digits, 64 bits. *)
Definition Atoi (s : string) : option Z :=
  let d := match s with
           | String "+" s => Decimal.Pos <$> NilZero.uint_of_string s
           | _ => NilZero.int_of_string s
           end in
  n ← Z.of_int <$> d; if bool_decide (is_i64 n) then Some n else None.

(** ** common/config.go *)

Definition ProtocolFabric : string := "fabric".
Definition ProtocolFabricX : string := "fabric-x".

Definition NormalizeProtocol (protocol : string) : result string string :=
  if decide (protocol = "") then Ok ProtocolFabricX
  else if decide (protocol = ProtocolFabric ∨ protocol = ProtocolFabricX) then Ok protocol
  else Err "network.protocol must be fabric or fabric-x".

Record Network := {
  nw_Protocol : string;
  nw_Channel : string;
  nw_Namespace : string;
  nw_NsVersion : string;
  nw_ChainID : Z;
  nw_MaxTxGas : Z
}.

Record IdentityConfig := { id_MspID : string; id_MSPDir : string }.

Record Endpoint := { ep_Host : string; ep_Port : Z }.

#[export] Instance Endpoint_eq_dec : EqDecision Endpoint.
Proof. solve_decision. Defined.

Definition Endpoint_Address (e : Endpoint) : string :=
  if decide (ep_Host e = "localhost") then ep_Host e +:+ ":" +:+ Itoa (ep_Port e)
  else String.string_of_list_ascii
         (JoinHostPort (String.list_ascii_of_string (ep_Host e)) (String.list_ascii_of_string (Itoa (ep_Port e)))).

Record TLSConfig := {
  tls_Mode : string;
  tls_CertPath : string;
  tls_KeyPath : string;
  tls_CACertPaths : list string;
  tls_ServerName : string
}.

Record ClientConfig := { cc_Endpoint : option Endpoint; cc_TLS : TLSConfig }.

(** The SDK's [PeerConf] and [OrdererConf], which have the same fields. *)
Record NodeConf := { nc_Address : string; nc_TLS : TLSConfig }.

(** [ToPeerConf] and [ToOrdererConf]: a missing endpoint is dereferenced. *)
Definition ToNodeConf (c : ClientConfig) : outcome NodeConf :=
  match cc_Endpoint c with
  | None => Panic "nil dereference"
  | Some e => Done {| nc_Address := Endpoint_Address e; nc_TLS := cc_TLS c |}
  end.

Definition require (bad : bool) (msg : string) : list string := if bad then [msg] else [].
Definition wrap (what : string) (errs : list string) : list string :=
  match errs with [] => [] | _ => [what +:+ ": " +:+ String.concat "; " errs] end.

Section validation.
(** [os.Stat]: an error, or whether the path is a directory. *)
Context (stat : string → result string bool).
Context (ParseFloat : string → option Q).

Definition checkFile (label path : string) : list string :=
  if decide (path = "") then []
  else match stat path with Err e => [label +:+ ": " +:+ e] | Ok _ => [] end.

Definition Identity_Validate (c : IdentityConfig) : list string :=
  require (bool_decide (id_MspID c = "")) "msp-id is required" ++
  (if decide (id_MSPDir c = "") then ["msp-dir is required"]
   else match stat (id_MSPDir c) with
        | Err e => ["msp-dir: " +:+ e]
        | Ok dir => require (negb dir) "msp-dir is not a directory"
        end).

Definition TLS_Validate (c : TLSConfig) : list string :=
  (tls_CACertPaths c ≫= checkFile "tls.ca-cert-paths") ++
  checkFile "tls.cert-path" (tls_CertPath c) ++ checkFile "tls.key-path" (tls_KeyPath c).

Definition Client_Validate (c : ClientConfig) : list string :=
  require (bool_decide (cc_Endpoint c = None)) "endpoint is required" ++ TLS_Validate (cc_TLS c).

Definition ValidateListenAddress (addr : string) : list string :=
  match SplitHostPort (String.list_ascii_of_string addr) with
  | None => ["invalid listen address"]
  | Some (_, portStr) =>
      match Atoi (String.string_of_list_ascii portStr) with
      | Some port => require ((port <? 0) || (65535 <? port)) "invalid listen address: port must be 0-65535"
      | None => ["invalid listen address: port must be 0-65535"]
      end
  end.

(** ** endorser/config/config.go *)

Definition DBSQLite : string := "sqlite".
Definition DBMemory : string := "memory".
Definition DBPebble : string := "pebble".
Definition DBQueryService : string := "query-service".

Record EndorserDB := {
  db_Database : string;
  db_ConnString : string;
  db_HistorySize : Z;
  db_QueryService : option ClientConfig
}.

(** What is read of the committer's server configuration. *)
Record ServerConfig := { sv_Empty : bool; sv_TLS : TLSConfig }.

Record EndorserConfig := {
  ec_Name : string;
  ec_Identity : IdentityConfig;
  ec_Database : EndorserDB;
  ec_MaxTimestampFuture : Z;
  ec_MaxTimestampPast : Z;
  ec_Server : option ServerConfig
}.

Definition validateServerConfig (cfg : ServerConfig) : list string :=
  require (sv_Empty cfg) "endpoint is required" ++ TLS_Validate (sv_TLS cfg).

Definition Endorser_Validate (protocol : string) (cfg : EndorserConfig) : list string :=
  let db := ec_Database cfg in
  require (bool_decide (ec_Name cfg = "")) "name is required" ++
  wrap "identity" (Identity_Validate (ec_Identity cfg)) ++
  require (bool_decide (db_Database db = "")) "database.database is required" ++
  require (bool_decide (db_Database db = DBSQLite ∧ db_ConnString db = ""))
    "database.connection-string is required for sqlite" ++
  require (bool_decide (db_Database db = DBPebble ∧ db_ConnString db = ""))
    "database.connection-string (data directory) is required for pebble" ++
  (if decide (db_Database db = DBQueryService) then
     require (match NormalizeProtocol protocol with Ok p => bool_decide (p ≠ ProtocolFabricX) | Err _ => true end)
       "database.database query-service requires protocol fabric-x" ++
     match db_QueryService db with
     | None => ["database.query-service is required for query-service"]
     | Some q => wrap "database.query-service" (Client_Validate q)
     end
   else []) ++
  match ec_Server cfg with None => [] | Some sv => wrap "server" (validateServerConfig sv) end.

(** ** gateway/config/config.go *)

Record SynchronizerConfig := { sy_Timeout : Z; sy_AllTxQueueDepth : Z }.

Definition DefaultSyncTimeout : Z := 600 * nanos.
Definition SyncTimeout (s : SynchronizerConfig) : Z := if sy_Timeout s <=? 0 then DefaultSyncTimeout else sy_Timeout s.

Record FiltersConfig := {
  fc_MaxFilters : option Z;
  fc_MaxSubscriptionsPerConnection : option Z;
  fc_MaxSubscriptionsGlobal : option Z
}.

Definition ResolvedLimits (f : option FiltersConfig) (defMaxFilters defPerConn defGlobal : Z) : Z * Z * Z :=
  match f with
  | None => (defMaxFilters, defPerConn, defGlobal)
  | Some f => (default defMaxFilters (fc_MaxFilters f), default defPerConn (fc_MaxSubscriptionsPerConnection f),
               default defGlobal (fc_MaxSubscriptionsGlobal f))
  end.

Record GatewayConfig := {
  gc_Listen : string;
  gc_Identity : IdentityConfig;
  gc_ConnString : string;
  gc_TriePath : string;
  gc_Orderers : list ClientConfig;
  gc_Endorsers : list ClientConfig;
  gc_Vhosts : list string;
  gc_WorkerCount : Z;
  gc_SubmitterCount : Z;
  gc_EndorsementChanSize : Z;
  gc_Filters : option FiltersConfig;
  gc_DepGraphQueue : DepGraphConfig
}.

Definition DefaultVhosts : list string := ["localhost"].
Definition VHosts (g : GatewayConfig) : list string :=
  match gc_Vhosts g with [] => DefaultVhosts | vs => vs end.

(** The logging library's format and levels. *)
Record Logging := { lg_Format : string; lg_Spec : string }.

Record Config := {
  cf_Logging : Logging;
  cf_Network : Network;
  cf_Committer : ClientConfig;
  cf_Synchronizer : SynchronizerConfig;
  cf_Gateway : option GatewayConfig;
  cf_Endorser : option EndorserConfig
}.

(** The entries of a list, each error with its position. *)
Definition validate_each (what : string) (cs : list ClientConfig) : list string :=
  concat (imap (λ i c, wrap (what +:+ "[" +:+ Itoa (Z.of_nat i) +:+ "]") (Client_Validate c)) cs).

Definition negative (o : option Z) : bool := match o with Some n => n <? 0 | None => false end.

Definition Filters_Validate (f : FiltersConfig) : list string :=
  require (negative (fc_MaxFilters f)) "gateway.filters.max-filters must be >= 0" ++
  require (negative (fc_MaxSubscriptionsPerConnection f))
    "gateway.filters.max-subscriptions-per-connection must be >= 0" ++
  require (negative (fc_MaxSubscriptionsGlobal f)) "gateway.filters.max-subscriptions-global must be >= 0".

Definition Gateway_Validate (endorser : option EndorserConfig) (g : GatewayConfig) : list string :=
  require (match endorser with None => true | Some _ => false end) "endorser is required when gateway is present" ++
  (if decide (gc_Listen g = "") then ["gateway.listen is required"] else ValidateListenAddress (gc_Listen g)) ++
  wrap "gateway.identity" (Identity_Validate (gc_Identity g)) ++
  require (bool_decide (gc_ConnString g = "")) "gateway.database.connection-string is required" ++
  require (bool_decide (length (gc_Orderers g) = 0%nat)) "gateway.orderers must have at least one entry" ++
  validate_each "gateway.orderers" (gc_Orderers g) ++
  validate_each "gateway.endorsers" (gc_Endorsers g) ++
  match gc_Filters g with None => [] | Some f => Filters_Validate f end.

Definition Validate (cfg : Config) : list string :=
  let nw := cf_Network cfg in
  require (bool_decide (nw_Channel nw = "")) "network.channel is required" ++
  require (bool_decide (nw_Namespace nw = "")) "network.namespace is required" ++
  match NormalizeProtocol (nw_Protocol nw) with
  | Err e => [e]
  | Ok protocol =>
      if decide (protocol = ProtocolFabricX) then
        match NsVersionUint64 ParseFloat (nw_NsVersion nw) with Err e => ["network: " +:+ e] | Ok _ => [] end
      else []
  end ++
  wrap "committer" (Client_Validate (cf_Committer cfg)) ++
  require (match cf_Gateway cfg, cf_Endorser cfg with None, None => true | _, _ => false end)
    "one of gateway or endorser is required" ++
  match cf_Gateway cfg with None => [] | Some g => Gateway_Validate (cf_Endorser cfg) g end ++
  match cf_Endorser cfg with
  | None => []
  | Some e =>
      Endorser_Validate (nw_Protocol nw) e ++
      require (match cf_Gateway cfg, ec_Server e with None, None => true | _, _ => false end)
        "endorser.server is required when running as a standalone endorser (no gateway configured)"
  end.
End validation.

(** ** An address comes apart again *)

Lemma list_find_app_first {A} (P : A → Prop) `{∀ x, Decision (P x)} (l k : list A) x :
  Forall (λ y, ¬ P y) l → P x → list_find P (l ++ x :: k) = Some (length l, x).
Proof.
  intros Hl Hx. induction Hl as [|y l Hy _ IH]; simpl; [by rewrite decide_True|].
  rewrite decide_False by done. by rewrite IH.
Qed.

Lemma not_in_Forall {A} (x : A) l : x ∉ l → Forall (λ y, ¬ y = x) l.
Proof. intros Hx. apply Forall_forall. intros y Hy ->. done. Qed.

Lemma IndexByte_app c l k : c ∉ l → IndexByte c (l ++ c :: k) = Some (length l).
Proof. intros Hc. unfold IndexByte. by rewrite list_find_app_first by (done || by apply not_in_Forall). Qed.

Lemma LastIndexByte_app c l k : c ∉ k → LastIndexByte c (l ++ c :: k) = Some (length l).
Proof.
  intros Hc. unfold LastIndexByte. rewrite reverse_app, reverse_cons, <-app_assoc. simpl.
  rewrite list_find_app_first; [|apply not_in_Forall; by rewrite elem_of_reverse|done]. simpl.
  rewrite length_app, length_reverse. simpl. f_equal. lia.
Qed.

Lemma contains_false c l : contains c l = false ↔ c ∉ l.
Proof. apply bool_decide_eq_false. Qed.

Lemma SplitHostPort_Join host port :
  open_br ∉ host → close_br ∉ host → colon ∉ port → open_br ∉ port → close_br ∉ port →
  SplitHostPort (JoinHostPort host port) = Some (host, port).
Proof.
  intros H1 H2 H3 H4 H5. unfold JoinHostPort. destruct (contains colon host) eqn:Hc.
  - unfold SplitHostPort.
    replace (open_br :: host ++ close_br :: colon :: port)
      with ((open_br :: host ++ [close_br]) ++ colon :: port) by (simpl; by rewrite <-app_assoc).
    rewrite LastIndexByte_app by done. rewrite decide_True by done.
    replace ((open_br :: host ++ [close_br]) ++ colon :: port)
      with ((open_br :: host) ++ close_br :: colon :: port) by (simpl; by rewrite <-app_assoc).
    rewrite IndexByte_app by (rewrite elem_of_cons; naive_solver).
    replace (length (open_br :: host ++ [close_br])) with (S (S (length host))) by (simpl; rewrite length_app; simpl; lia).
    cbn [length]. rewrite Nat.eqb_refl. unfold split_tail.
    replace (drop 1 ((open_br :: host) ++ close_br :: colon :: port)) with (host ++ close_br :: colon :: port) by done.
    replace (drop (S (S (length host))) ((open_br :: host) ++ close_br :: colon :: port)) with (colon :: port).
    2: { rewrite cons_middle, app_assoc. by rewrite drop_app_length' by (rewrite length_app; simpl; lia). }
    replace (drop (S (S (S (length host)))) ((open_br :: host) ++ close_br :: colon :: port)) with port.
    2: { change (close_br :: colon :: port) with ([close_br; colon] ++ port). rewrite app_assoc.
         by rewrite drop_app_length' by (rewrite length_app; simpl; lia). }
    rewrite !(proj2 (contains_false _ _)); [|set_unfold; naive_solver..].
    simpl. by rewrite Nat.sub_0_r, take_app_length.
  - apply contains_false in Hc. unfold SplitHostPort. rewrite LastIndexByte_app by done.
    rewrite decide_False; [|destruct host; simpl; [done|]; intros [= ->]; apply H1; left].
    rewrite take_app_length. rewrite (proj2 (contains_false colon _)) by done. unfold split_tail. simpl.
    rewrite !(proj2 (contains_false _ _)); [|set_unfold; naive_solver..].
    do 2 f_equal. rewrite cons_middle, app_assoc. apply drop_app_length'. rewrite length_app. simpl. lia.
Qed.

Lemma chars_app s t :
  String.list_ascii_of_string (s +:+ t) = String.list_ascii_of_string s ++ String.list_ascii_of_string t.
Proof. induction s as [|c s IH]; [done|]. simpl. by rewrite IH. Qed.

(** Decimal digits are none of the characters that separate hosts and ports. *)
Lemma uint_chars c u :
  c ∈ String.list_ascii_of_string (NilEmpty.string_of_uint u) →
  c ≠ colon ∧ c ≠ open_br ∧ c ≠ close_br ∧ c ≠ "+"%char.
Proof.
  induction u; simpl; intros Hc; [by apply not_elem_of_nil in Hc|..];
    (apply elem_of_cons in Hc as [-> |Hc]; [split_and!; discriminate|auto]).
Qed.

Lemma Itoa_chars c n :
  c ∈ String.list_ascii_of_string (Itoa n) → c ≠ colon ∧ c ≠ open_br ∧ c ≠ close_br ∧ c ≠ "+"%char.
Proof.
  assert (∀ u, c ∈ String.list_ascii_of_string (NilZero.string_of_uint u) →
    c ≠ colon ∧ c ≠ open_br ∧ c ≠ close_br ∧ c ≠ "+"%char) as Hu.
  { intros u Hc. assert (NilZero.string_of_uint u = "0" ∨ NilZero.string_of_uint u = NilEmpty.string_of_uint u) as [E|E]
      by (destruct u; auto).
    - rewrite E in Hc. apply list_elem_of_singleton in Hc as ->. split_and!; discriminate.
    - rewrite E in Hc. by apply uint_chars in Hc. }
  unfold Itoa. destruct (Z.to_int n) as [u|u]; cbn [NilZero.string_of_int]; [exact (Hu u)|].
  intros [-> |Hc]%elem_of_cons; [split_and!; discriminate|exact (Hu u Hc)].
Qed.

Lemma Atoi_Itoa n : is_i64 n → Atoi (Itoa n) = Some n.
Proof.
  intros Hn. assert (Z.of_int <$> NilZero.int_of_string (Itoa n) = Some n) as Hi.
  { unfold Itoa. pose proof (of_to n) as Ho.
    assert (Z.to_int n ≠ Decimal.Pos Decimal.Nil ∧ Z.to_int n ≠ Decimal.Neg Decimal.Nil) as [H1 H2].
    { split; intros He; rewrite He in Ho; simpl in Ho; by subst n. }
    rewrite NilZero.isi by done. simpl. by rewrite Ho. }
  unfold Atoi. pose proof (Itoa_chars "+" n) as Hplus. destruct (Itoa n) as [|c s] eqn:Hs; [done|].
  assert (c ≠ "+"%char) as Hc.
  { intros ->. destruct Hplus as (_ & _ & _ & H); [left|done]. }
  replace (match String c s with String "+" s => Decimal.Pos <$> NilZero.uint_of_string s | _ =>
    NilZero.int_of_string (String c s) end) with (NilZero.int_of_string (String c s)).
  - rewrite Hi. simpl. by rewrite bool_decide_eq_true_2.
  - destruct c as [[] [] [] [] [] [] [] []]; try done.
Qed.

(** An endpoint's address comes apart into its host and port.  For every
    host without brackets, IPv6 literals included, [net.SplitHostPort] of
    [Endpoint.Address] gives the host and the decimal port back, the port
    parses to the number it was printed from, and the address is accepted as a
    listen address exactly for ports of 16 bits. *)
Theorem Address_roundtrip (e : Endpoint) :
  open_br ∉ String.list_ascii_of_string (ep_Host e) → close_br ∉ String.list_ascii_of_string (ep_Host e) →
  is_i64 (ep_Port e) →
  SplitHostPort (String.list_ascii_of_string (Endpoint_Address e)) =
    Some (String.list_ascii_of_string (ep_Host e), String.list_ascii_of_string (Itoa (ep_Port e))) ∧
  Atoi (Itoa (ep_Port e)) = Some (ep_Port e) ∧
  (ValidateListenAddress (Endpoint_Address e) = [] ↔ 0 ≤ ep_Port e ≤ 65535).
Proof.
  intros H1 H2 Hp. pose proof (Atoi_Itoa _ Hp) as Ha.
  assert (SplitHostPort (String.list_ascii_of_string (Endpoint_Address e)) =
    Some (String.list_ascii_of_string (ep_Host e), String.list_ascii_of_string (Itoa (ep_Port e)))) as Hs.
  { assert (String.list_ascii_of_string (Endpoint_Address e) =
      JoinHostPort (String.list_ascii_of_string (ep_Host e)) (String.list_ascii_of_string (Itoa (ep_Port e)))) as ->.
    { unfold Endpoint_Address. case_decide as Hl; [|apply String.list_ascii_of_string_of_list_ascii].
      rewrite !chars_app, Hl. done. }
    apply SplitHostPort_Join; [done..| | |]; intros Hc%Itoa_chars; naive_solver. }
  split_and!; [done..|]. unfold ValidateListenAddress.
  rewrite Hs, String.string_of_list_ascii_of_string, Ha. unfold require.
  destruct (Z.ltb_spec (ep_Port e) 0), (Z.ltb_spec 65535 (ep_Port e)); simpl; split; done || lia.
Qed.

Lemma Address_roundtrip_witness :
  let e := {| ep_Host := "::1"; ep_Port := 7050 |} in
  Endpoint_Address e = "[::1]:7050" ∧ ValidateListenAddress (Endpoint_Address e) = [].
Proof.
  split; [vm_compute; reflexivity|].
  apply (Address_roundtrip {| ep_Host := "::1"; ep_Port := 7050 |}).
  - apply (bool_decide_eq_true_1 _). vm_compute. reflexivity.
  - apply (bool_decide_eq_true_1 _). vm_compute. reflexivity.
  - vm_compute. split; congruence.
  - vm_compute. split; congruence.
Defined.
