(* ===== verification/Lifecycle.v ===== *)
(** * Lifecycle: starting and stopping the gateway

    [Gateway.Start] and [Gateway.Stop] (gateway/core/api.go), the goroutines of
    [BatchSubmitter] (batch_submitter.go) and the sizes the wiring gives them
    (gateway/app/wiring.go).  [Stop] runs next to the workers and submitters it
    waits for, so its waits are transitions of the system.  It returns, whatever
    the workers were doing, and nothing is submitted afterwards. *)

From Stdlib Require Import ZArith Lia.
From stdpp Require Import base numbers list gmap sets strings relations.
From S2P Require Import Prelude Blocks Geth TxQueues Domain Convert TxQueueProps TxQueueV2Props DepGraph DepGraphProps.
From S2P Require Import NonceGate NonceGateProps Executor Engine Endorse Config Remote Gateway GatewayQueues GatewayProps.

Local Open Scope Z_scope.

(** ** Construction *)

Definition DefaultNumWorkers : Z := 16.

(** [newSubmitter p i]: the constructor of protocol [p], for worker [i]. *)
Definition NewNetworkSubmitters {S} (newSubmitter : string → nat → result string S) (protocol : string) (count : Z)
    : result string (list S) :=
  match NormalizeProtocol protocol with
  | Err e => Err e
  | Ok protocol =>
      let count := if count <=? 0 then DefaultNumWorkers else count in
      foldl (λ acc i,
        match acc with
        | Err e => Err e
        | Ok l => match newSubmitter protocol i with Err e => Err e | Ok s => Ok (l ++ [s]) end
        end) (Ok []) (seq 0 (Z.to_nat count))
  end.

(** The number of submission goroutines. *)
Definition NewBatchSubmitter {S} (submitters : list S) (numWorkers : Z) : outcome nat :=
  let numWorkers := if numWorkers <=? 0 then DefaultNumWorkers else numWorkers in
  if Z.of_nat (length submitters) <? numWorkers
  then Panic "Only %d submitters provided for %d workers."
  else Done (Z.to_nat numWorkers).

Definition endorsement_chan_size (endorsementChanSize : Z) : nat :=
  Z.to_nat (if endorsementChanSize <=? 0 then 1000 else endorsementChanSize).

Definition worker_count (workerCount : Z) : nat := Z.to_nat (if workerCount <=? 0 then 1 else workerCount).

(** [BatchSubmitter.Close]: every connection is closed, the first error reported. *)
Definition submitter_Close (close : list (option string)) : option string :=
  foldl (λ first err, match first with Some e => Some e | None => err end) None close.

Lemma NewNetworkSubmitters_length {S} (newSubmitter : string → nat → result string S) protocol count l :
  NewNetworkSubmitters newSubmitter protocol count = Ok l →
  Z.of_nat (length l) = if count <=? 0 then DefaultNumWorkers else count.
Proof.
  unfold NewNetworkSubmitters. destruct (NormalizeProtocol protocol) as [p|]; [|done].
  set (n := if count <=? 0 then _ else count).
  assert (0 ≤ n) as Hn by (unfold n, DefaultNumWorkers; destruct (Z.leb_spec count 0); lia).
  assert (∀ idx acc l, foldl (λ acc i,
    match acc with
    | Err e => Err e
    | Ok l => match newSubmitter p i with Err e => Err e | Ok s => Ok (l ++ [s]) end
    end) acc idx = Ok l → ∃ l0, acc = Ok l0 ∧ length l = (length l0 + length idx)%nat) as Hf.
  { induction idx as [|i idx IH]; intros acc l'; simpl; [intros ->; exists l'; split; [done|lia]|].
    intros (l0 & Hl0 & Hlen)%IH. destruct acc as [l1|]; [|done]. destruct (newSubmitter p i); [|done].
    injection Hl0 as <-. exists l1. split; [done|]. rewrite Hlen, length_app. simpl. lia. }
  intros (l0 & [= <-] & Hlen)%Hf. rewrite Hlen, length_seq. simpl. lia.
Qed.

(** The submitters the wiring builds are enough for the goroutines it starts,
    and there is at least one of each kind, with room in the channel. *)
Lemma wiring_sizes {S} (newSubmitter : string → nat → result string S) protocol count workers chan l :
  NewNetworkSubmitters newSubmitter protocol count = Ok l →
  ∃ n, NewBatchSubmitter l count = Done n ∧ (0 < n ≤ length l)%nat ∧
    (0 < worker_count workers)%nat ∧ (0 < endorsement_chan_size chan)%nat.
Proof.
  intros Hl%NewNetworkSubmitters_length. unfold NewBatchSubmitter. rewrite Hl.
  set (n := if count <=? 0 then _ else count) in *.
  assert (0 < n) as Hn by (unfold n, DefaultNumWorkers; destruct (Z.leb_spec count 0); lia).
  rewrite Z.ltb_irrefl. exists (Z.to_nat n). unfold worker_count, endorsement_chan_size.
  destruct (Z.leb_spec workers 0), (Z.leb_spec chan 0); split_and!; done || lia.
Qed.

(** ** The running gateway *)

(** How far [Stop] has come.  At [ClosingQueue] the queue is closed and
    [TxQueue.Close] waits for the queue's goroutines, at [WaitingWorkers] [Stop]
    waits for the workers, at [StoppingSubmitters] [stopChan] is closed. *)
Inductive stop_phase := Running | ClosingQueue | WaitingWorkers | StoppingSubmitters | Stopped.

(** What a queue does once it is closed.  [ti_left] bounds the transactions it may
    still hand out and the work its goroutines have with them; [ti_late] is what a
    call of [Enqueue] can add to that.  [ti_busy]: the queue's goroutines that are
    in the middle of a transaction, which [ti_finish] takes on. *)
Class TxQueueCloses (G : GethTypes) (T : EthTxTypes G) (E Q : Type) (I : TxQueueInterface G T E Q) := {
  ti_closed : Q → Prop;
  ti_left : Q → nat;
  ti_late : nat;
  ti_busy : Q → nat;
  ti_finish : Q → Q → Prop;
  closes q : ti_closed (ti_Close q);
  closed_close q : (ti_left (ti_Close q) ≤ ti_left q)%nat;
  closed_enqueue tx q : ti_closed q →
    ti_closed (ti_Enqueue tx q).2 ∧ (ti_left (ti_Enqueue tx q).2 ≤ ti_left q + ti_late)%nat;
  closed_handle b q : ti_closed q → ti_closed (ti_Handle b q) ∧ (ti_left (ti_Handle b q) ≤ ti_left q)%nat;
  closed_background q q' : ti_background q q' → ti_closed q → ti_closed q' ∧ (ti_left q' ≤ ti_left q)%nat;
  finish_background q q' : ti_finish q q' → ti_background q q';
  finish_less q q' : ti_finish q q' → (ti_left q' < ti_left q)%nat;
  busy_finish q : ti_closed q → (0 < ti_busy q)%nat → ∃ q', ti_finish q q';
  closed_complete h q : ti_closed q → ti_closed (ti_Complete h q) ∧ (ti_left (ti_Complete h q) ≤ ti_left q)%nat;
  closed_reusable h q : ti_closed q →
    ti_closed (ti_Reusable h q).2 ∧ (ti_left (ti_Reusable h q).2 ≤ ti_left q)%nat;
  closed_dequeue q : ti_closed q → ∃ r q', ti_Dequeue q = Done (r, q') ∧ ti_closed q' ∧
    match r with
    | DqTx _ => (ti_left q' < ti_left q)%nat
    | DqClosed => ti_left q' = ti_left q
    | DqBlocked => False
    end
}.

Section lifecycle.
Context {G : GethTypes} {T : EthTxTypes G} {TL : EthTxLaws G T} {C : EthCodec G T}.
Context {A : TxAccess G T} {P : TxPool G T}.
Context {E Q : Type} {I : TxQueueInterface G T E Q} {QC : TxQueueCloses G T E Q I}.

(** The gateway with the number of its worker and submitter goroutines, and of
    the goroutines in the queue's own wait group. *)
Record lifecycle := {
  lc_gw : Gateway E Q;
  lc_workers : nat;
  lc_submitters : nat;
  lc_queue : nat;
  lc_phase : stop_phase
}.

Definition with_gw (g : Gateway E Q) (l : lifecycle) : lifecycle :=
  {| lc_gw := g; lc_workers := lc_workers l; lc_submitters := lc_submitters l; lc_queue := lc_queue l;
     lc_phase := lc_phase l |}.

Definition with_queue (q : Q) (l : lifecycle) : lifecycle :=
  with_gw (set_gate q (gw_gate (lc_gw l)) (gw_reading (lc_gw l)) (lc_gw l)) l.

(** [BuildGateway] has started the submitters and the queue's goroutines; [Start]
    starts the workers. *)
Definition Start (q : Q) (workers submitters queue : nat) : lifecycle :=
  {| lc_gw := New q; lc_workers := workers; lc_submitters := submitters; lc_queue := queue; lc_phase := Running |}.

(** [stopOnce]: a second [Stop] has nothing to do. *)
Definition Stop_begin (l : lifecycle) : lifecycle :=
  match lc_phase l with
  | Running =>
      {| lc_gw := set_gate (ti_Close (gw_queue (lc_gw l))) (gw_gate (lc_gw l)) (gw_reading (lc_gw l)) (lc_gw l);
         lc_workers := lc_workers l; lc_submitters := lc_submitters l; lc_queue := lc_queue l;
         lc_phase := ClosingQueue |}
  | _ => l
  end.

(** A worker that finds the queue closed returns. *)
Definition worker_return (g : Gateway E Q) (l : lifecycle) : lifecycle :=
  {| lc_gw := g; lc_workers := pred (lc_workers l); lc_submitters := lc_submitters l; lc_queue := lc_queue l;
     lc_phase := lc_phase l |}.

(** A goroutine of the queue that sees the canceled context returns. *)
Definition queue_return (l : lifecycle) : lifecycle :=
  {| lc_gw := lc_gw l; lc_workers := lc_workers l; lc_submitters := lc_submitters l; lc_queue := pred (lc_queue l);
     lc_phase := lc_phase l |}.

(** A submitter whose [select] takes [stopChan] returns. *)
Definition submitter_return (l : lifecycle) : lifecycle :=
  {| lc_gw := lc_gw l; lc_workers := lc_workers l; lc_submitters := pred (lc_submitters l); lc_queue := lc_queue l;
     lc_phase := lc_phase l |}.

Definition set_phase (p : stop_phase) (l : lifecycle) : lifecycle :=
  {| lc_gw := lc_gw l; lc_workers := lc_workers l; lc_submitters := lc_submitters l; lc_queue := lc_queue l;
     lc_phase := p |}.

(** [ctxEnds]: whether the context the workers run under can end. *)
Context (cfg : gate_config) (chanSize : nat) (ctxEnds : bool).

(** The steps of the goroutines [Stop] waits for, and its own.  A call of the
    endorser, the orderer or the dependency manager that a goroutine is in comes
    back. *)
Inductive own_step : lifecycle → lifecycle → Prop :=
| os_dequeue tx g l :
    (length (gw_working (lc_gw l)) < lc_workers l)%nat →
    worker_Dequeue (lc_gw l) = Done (DqTx tx, g) → own_step l (with_gw g l)
| os_return g l :
    (length (gw_working (lc_gw l)) < lc_workers l)%nat →
    worker_Dequeue (lc_gw l) = Done (DqClosed, g) → own_step l (worker_return g l)
| os_process tx l1 l2 execute canceled l :
    gw_working (lc_gw l) = l1 ++ tx :: l2 → (canceled = true → ctxEnds = true) →
    (canceled = false → length (gw_chan (lc_gw l)) < chanSize)%nat →
    own_step l (with_gw (worker_process tx (l1 ++ l2) execute canceled (lc_gw l)) l)
| os_take g l :
    (length (gw_submitting (lc_gw l)) < lc_submitters l)%nat → submitter_take (lc_gw l) = Some g →
    own_step l (with_gw g l)
| os_submitted t l1 l2 limiter submit l :
    gw_submitting (lc_gw l) = l1 ++ t :: l2 →
    own_step l (with_gw (submitter_done t (l1 ++ l2) (submitOne limiter submit) (lc_gw l)) l)
| os_submitter_return l :
    lc_phase l = StoppingSubmitters → (length (gw_submitting (lc_gw l)) < lc_submitters l)%nat →
    own_step l (submitter_return l)
| os_queue_work q l :
    (0 < lc_queue l)%nat → ti_finish (gw_queue (lc_gw l)) q → own_step l (with_queue q l)
| os_queue_return l :
    lc_phase l = ClosingQueue → (ti_busy (gw_queue (lc_gw l)) < lc_queue l)%nat → own_step l (queue_return l)
| os_queue_done l :
    lc_phase l = ClosingQueue → lc_queue l = 0%nat → own_step l (set_phase WaitingWorkers l)
| os_workers_done l :
    lc_phase l = WaitingWorkers → lc_workers l = 0%nat → own_step l (set_phase StoppingSubmitters l)
| os_stopped l :
    lc_phase l = StoppingSubmitters → lc_submitters l = 0%nat → own_step l (set_phase Stopped l).

(** With clients, blocks, the gate's reaper and the queue's own goroutines next
    to them.  [Stop] may be called at any time, again too. *)
Inductive life_step : lifecycle → lifecycle → Prop :=
| ls_own l l' : own_step l l' → life_step l l'
| ls_stop l : life_step l (Stop_begin l)
| ls_outside g l : gw_step cfg 0 0 chanSize (lc_gw l) g → life_step l (with_gw g l).

Definition life_reachable (q0 : Q) (workers submitters queue : nat) (l : lifecycle) : Prop :=
  rtc life_step (Start q0 workers submitters queue) l.

(** A run in which the goroutines [Stop] waits for made [n] steps, between the
    steps of everyone else, and the gate called [Enqueue] [k] times. *)
Inductive life_run (l : lifecycle) : nat → nat → lifecycle → Prop :=
| lr_start : life_run l 0 0 l
| lr_own n k l' l'' : life_run l n k l' → own_step l' l'' → life_run l (S n) k l''
| lr_other n k l' l'' :
    life_run l n k l' → life_step l' l'' →
    life_run l n (k + length (new_calls (gw_gate (lc_gw l')) (gw_gate (lc_gw l'')))) l''.
End lifecycle.
Arguments lifecycle {_ _} _ _.

(** ** What a closed queue does *)

(** The FIFO queue has no goroutines, and [Enqueue] takes a transaction also after
    [Close]. *)
#[export] Instance fifo_closes {G : GethTypes} {T : EthTxTypes G} {E : Type}
    : TxQueueCloses G T E TxQueue (fifo_interface E).
Proof.
  refine {| ti_closed q := q_done q = true; ti_left q := length (pendingQueue q); ti_late := 1;
            ti_busy q := 0%nat; ti_finish q q' := False |}; simpl; try done.
  - intros tx q Hq. unfold Enqueue. repeat case_decide; simpl; rewrite ?length_app; simpl; split; done || lia.
  - intros b q. revert q. induction (committed_hashes b) as [|c cs IH]; intros q Hq; [done|].
    by apply (IH (q_Handle_tx q c)).
  - lia.
  - intros q Hq. unfold Dequeue. destruct (pendingQueue q) as [|tx rest] eqn:E1.
    + rewrite Hq. eexists _, _. split; [done|]. split; [done|]. by rewrite E1.
    + eexists _, _. split; [done|]. split; [done|]. simpl. lia.
Defined.

Section dep_closes.
Context {G : GethTypes} {T : EthTxTypes G} {D : DepTypes}.

(** The two things [shutdown] decides and no other call changes, and the ready list. *)
Lemma takeNodes_frame hs q : dq_done (takeNodes hs q).2 = dq_done q ∧ dq_ready (takeNodes hs q).2 = dq_ready q.
Proof.
  unfold takeNodes. assert (∀ acc, dq_done (foldl take_node acc hs).2 = dq_done acc.2 ∧
    dq_ready (foldl take_node acc hs).2 = dq_ready acc.2) as H; [|apply H].
  induction hs as [|h hs IH]; intros [nodes q']; [done|]. cbn [foldl].
  destruct (IH (take_node (nodes, q') h)) as [-> ->]. unfold take_node. by case_match.
Qed.

Lemma markReady_done nodes q : dq_done (markReady nodes q).2 = dq_done q.
Proof.
  unfold markReady. assert (∀ acc, dq_done (foldl mark_node acc nodes).2 = dq_done acc.2) as H; [|apply H].
  induction nodes as [|n nodes IH]; intros [out q']; [done|]. cbn [foldl]. rewrite IH. unfold mark_node.
  by repeat case_match.
Qed.

Lemma dg_Handle_done b q : dq_done (dg_Handle b q).2 = dq_done q.
Proof.
  destruct (dg_Handle b q) as [nodes q'] eqn:He. apply Handle_frame in He as (t & i & seq & lw & rc & r & m & ->).
  done.
Qed.

Lemma dg_Handle_ready b q : dq_ready (dg_Handle b q).2 = dq_ready q.
Proof.
  unfold dg_Handle. destruct (db_Transactions b) as [|tx txs]; [done|].
  destruct (stats_frame (tx :: txs) q) as (t & i & ->).
  destruct (record_frame (tx :: txs) (set_stats t i q)) as (seq & lw & rc & ->).
  by rewrite (proj2 (takeNodes_frame _ _)).
Qed.

Lemma background_done s s' :
  DepGraphProps.step false Worker s s' →
  dq_done (s_q s') = dq_done (s_q s) ∧ (dq_canceled (s_q s) = true → dq_canceled (s_q s') = true).
Proof.
  intros Hst. split.
  - inversion Hst; subst; simpl; try done.
    + unfold submit_answered, keepEndorsement in *. by repeat case_match; simplify_eq/=.
    + unfold flush. by repeat case_match.
    + unfold flush. by repeat case_match.
    + match goal with H : markReady _ _ = _ |- _ => pose proof (f_equal (λ x, dq_done x.2) H) as He end.
      cbn beta in He. rewrite markReady_done in He. by simpl in He.
    + unfold DepGraph.release. by case_match.
  - intros Hc. destruct (dq_canceled (s_q s')) eqn:He; [done|].
    apply (step_canceled _ _ _ _ Hst) in He. congruence.
Qed.

(** A transaction on its way through the queue's goroutines, weighed by what they
    still have to do with it. *)
Definition task_weight (t : task) : nat :=
  match t with Received _ => 5 | Endorsing _ _ => 4 | Sending _ _ => 3 end.

Definition queue_left (q : DepGraphQueue) : nat :=
  6 * length (dq_admitted q) +
  2 * (length (dq_endorsed q) + length (dq_pending q) + length (concat (tb_Txs <$> dq_incoming q)) +
       length (concat (dq_outgoing q))) +
  length (dq_ready q).

Definition dep_left (s : DepGraphProps.sys) : nat :=
  queue_left (s_q s) + sum_list_with task_weight (s_tasks s) + 2 * length (m_waiting s).

(** The steps of an endorse worker on the transaction it holds. *)
Inductive endorse_work : DepGraphProps.sys → DepGraphProps.sys → Prop :=
| ew_load s tx l1 l2 :
    s_tasks s = l1 ++ Received tx :: l2 →
    endorse_work s (with_tasks (s_q s) (l1 ++ Endorsing tx (dq_commitSeq (s_q s)) :: l2) s)
| ew_answer s tx seq l1 l2 answer w q :
    s_tasks s = l1 ++ Endorsing tx seq :: l2 → submit_answered tx seq answer (s_q s) = (w, q) →
    endorse_work s (with_tasks q
      (l1 ++ match w with Some w => [Sending (Tx_Hash tx) w] | None => [] end ++ l2) s)
| ew_send s h w l1 l2 :
    s_tasks s = l1 ++ Sending h w :: l2 → has_room (s_q s) (dq_endorsed (s_q s)) →
    endorse_work s (with_tasks (submit_send w (s_q s)) (l1 ++ l2) s)
| ew_canceled s h w l1 l2 :
    s_tasks s = l1 ++ Sending h w :: l2 → dq_canceled (s_q s) = true →
    endorse_work s (with_tasks (dg_drop h (s_q s)) (l1 ++ l2) s).

Lemma endorse_work_step s s' : endorse_work s s' → DepGraphProps.step false Worker s s'.
Proof.
  intros [x tx l1 l2 H|x tx seq l1 l2 ans w q H Ha|x h w l1 l2 H Hr|x h w l1 l2 H Hc];
    [by apply st_load|by eapply st_answer|by eapply st_send|by eapply st_send_canceled].
Qed.

Lemma submit_answered_left tx seq answer q w q' :
  submit_answered tx seq answer q = (w, q') → queue_left q' = queue_left q.
Proof. unfold submit_answered, keepEndorsement. intros He. by repeat case_match; simplify_eq/=. Qed.

Lemma markReady_left nodes q : (queue_left (markReady nodes q).2 ≤ queue_left q + length nodes)%nat.
Proof.
  unfold markReady. assert (∀ acc, queue_left (foldl mark_node acc nodes).2 ≤ queue_left acc.2 + length nodes)%nat as H;
    [|apply (H ([], q))].
  induction nodes as [|n nodes IH]; intros [out q']; [simpl; lia|]. cbn [foldl length].
  etrans; [apply IH|]. unfold mark_node, queue_left.
  repeat case_match; simpl; rewrite ?length_app; simpl; lia.
Qed.

Lemma flush_left sent q : (queue_left (flush sent q) ≤ queue_left q)%nat.
Proof.
  unfold flush. destruct (dq_pending q) as [|w ws] eqn:Hp; [done|].
  destruct sent; unfold queue_left; simpl; rewrite ?fmap_app, ?concat_app, ?length_app, Hp; simpl;
    rewrite ?app_nil_r; simpl; lia.
Qed.

Lemma endorse_work_less s s' : endorse_work s s' → (dep_left s' < dep_left s)%nat.
Proof.
  intros [x tx l1 l2 H|x tx seq l1 l2 ans w q H Ha|x h w l1 l2 H Hr|x h w l1 l2 H Hc]; unfold dep_left;
    simpl; rewrite H, ?sum_list_with_app; simpl.
  - lia.
  - rewrite (submit_answered_left _ _ _ _ _ _ Ha). destruct w; simpl; lia.
  - unfold queue_left. simpl. rewrite length_app. simpl. lia.
  - unfold queue_left. simpl. lia.
Qed.

Lemma background_left s s' : DepGraphProps.step false Worker s s' → (dep_left s' ≤ dep_left s)%nat.
Proof.
  intros Hst. inversion Hst as [|x tx rest Ha Hn|x tx l1 l2 H|x tx seq l1 l2 ans w q H Ha|x h w l1 l2 H Hr
    |x h w l1 l2 H Hc|x w rest He Hn|x Hr|x Hc|x nodes rest orph q Ho Hm| | | |x nodes l1 l2 H Hr
    |x nodes l1 l2 H Hc| | |x b rest Hi Hid|x nodes rest Hp Hcf Hr|x nodes rest Hv]; subst;
    try (apply Nat.lt_le_incl, endorse_work_less; by econstructor); unfold dep_left; simpl.
  - unfold queue_left. simpl. rewrite Ha, sum_list_with_app. simpl. lia.
  - unfold queue_left. simpl. rewrite He, length_app. simpl. lia.
  - pose proof (flush_left true (s_q s)). lia.
  - pose proof (flush_left false (s_q s)). lia.
  - pose proof (markReady_left nodes (set_channels (dq_incoming (s_q s)) rest (dq_validated (s_q s)) (s_q s))) as H.
    rewrite Hm in H. simpl in H. unfold queue_left in *. simpl in H. rewrite Ho. simpl. rewrite length_app. lia.
  - unfold DepGraph.release. by case_match.
  - done.
  - unfold queue_left. simpl. rewrite Hi, fmap_cons. cbn [concat]. rewrite !length_app. lia.
  - apply Permutation_length in Hp. rewrite length_app, length_fmap in Hp.
    unfold queue_left. simpl. rewrite concat_app, length_app. simpl. rewrite app_nil_r. lia.
  - done.
Qed.

(** The queue's wait group: the manager and the reader of its answers, the endorse
    workers, the batcher. *)
Definition dep_goroutines (q : DepGraphQueue) : nat := 2 + Z.to_nat (dq_endorseWorkers q) + 1.

(** [shutdown] cancels the context its goroutines wait on, and [Enqueue] refuses
    from then on. *)
#[export] Instance dep_closes : TxQueueCloses G T Endorsement DepGraphProps.sys dep_interface.
Proof.
  refine {| ti_closed s := dq_done (s_q s) = true ∧ dq_canceled (s_q s) = true; ti_left := dep_left; ti_late := 0;
            ti_busy s := length (s_tasks s); ti_finish := endorse_work |}; simpl.
  - done.
  - done.
  - intros tx s [Hs Hc]. unfold dg_Enqueue. rewrite Hs. simpl. split; [done|]. unfold dep_left. simpl. lia.
  - intros b s [Hs Hc]. unfold dep_Handle. destruct (dg_Handle b (s_q s)) as [nodes q] eqn:Hh. simpl.
    pose proof (dg_Handle_ready b (s_q s)) as Hd. rewrite Hh in Hd. simpl in Hd.
    apply Handle_frame in Hh as (t & i & seq & lw & rc & r & m & ->). simpl in *. split; [done|].
    unfold dep_left, queue_left. simpl. by rewrite Hd.
  - intros s s' Hst [Hs Hc]. destruct (background_done s s' Hst) as [Hd Hk].
    split; [split; [congruence|by apply Hk]|by apply background_left].
  - exact endorse_work_step.
  - exact endorse_work_less.
  - intros s [_ Hc] Hb. destruct (s_tasks s) as [|t l] eqn:Ht; [simpl in Hb; lia|]. destruct t as [tx|tx seq|h w].
    + eexists. by apply (ew_load s tx [] l).
    + destruct (submit_answered tx seq None (s_q s)) as [w q] eqn:Ha. eexists. by eapply (ew_answer s tx seq [] l None).
    + eexists. by apply (ew_canceled s h w [] l).
  - intros h s [Hs Hc]. unfold dep_Complete, dg_Complete.
    destruct (takeNodes [h] (s_q s)) as [nodes q] eqn:Ht. pose proof (takeNodes_frame [h] (s_q s)) as [_ Hr].
    rewrite Ht in Hr. simpl in Hr. apply take_nodes_frame in Ht as (r & m & ->). simpl in *. split; [done|].
    unfold dep_left, queue_left. simpl. by rewrite Hr.
  - intros h s Hs. unfold ReusableEndorsement. by repeat case_match; simplify_eq/=.
  - intros s [Hs Hc]. unfold dg_Dequeue. destruct (dq_ready (s_q s)) as [|tx ready] eqn:Hr.
    + rewrite Hs. eexists _, _. split; [done|]. simpl. split; [done|]. done.
    + eexists _, _. split; [done|]. simpl. split; [done|]. unfold dep_left, queue_left. simpl. rewrite Hr. simpl. lia.
Defined.
End dep_closes.

(** ** Stopping *)

Section stopping.
Context {G : GethTypes} {T : EthTxTypes G} {TL : EthTxLaws G T} {C : EthCodec G T}.
Context {A : TxAccess G T} {P : TxPool G T}.
Context {E Q : Type} {I : TxQueueInterface G T E Q} {QC : TxQueueCloses G T E Q I}.
Context (cfg : gate_config) (chanSize : nat) (ctxEnds : bool) (workers submitters queue : nat).

Notation own := (own_step chanSize ctxEnds).
Notation step := (life_step cfg chanSize ctxEnds).

Lemma closed_enqueue_all txs : ∀ q,
  ti_closed q → ti_closed (enqueue_all q txs) ∧ (ti_left (enqueue_all q txs) ≤ ti_left q + ti_late * length txs)%nat.
Proof.
  induction txs as [|tx txs IH]; intros q Hq; simpl; [split; [done|lia]|].
  destruct (closed_enqueue tx q Hq) as [H1 H2]. destruct (IH _ H1) as [H3 H4]. split; [done|].
  unfold enqueue_all in *. lia.
Qed.

(** A worker's call changes the queue, gate aside, by a removal at most. *)
Lemma worker_process_closed tx rest execute canceled (g : Gateway E Q) :
  ti_closed (gw_queue g) →
  let g' := worker_process tx rest execute canceled g in
  ti_closed (gw_queue g') ∧ (ti_left (gw_queue g') ≤ ti_left (gw_queue g))%nat ∧ gw_working g' = rest ∧
  gw_submitting g' = gw_submitting g ∧ (length (gw_chan g') ≤ S (length (gw_chan g)))%nat.
Proof.
  intros Hq. unfold worker_process, processTx. destruct (closed_reusable (Tx_Hash tx) _ Hq) as [H1 H2].
  destruct (ti_Reusable (Tx_Hash tx) (gw_queue g)) as [r q]. simpl in *.
  destruct (closed_complete (Tx_Hash tx) q H1) as [H3 H4].
  destruct r as [e|]; [|destruct execute as [e|]]; try destruct canceled; simpl;
    rewrite ?length_app; simpl; split_and!; done || lia.
Qed.

Lemma submitter_done_closed t rest err (g : Gateway E Q) :
  ti_closed (gw_queue g) →
  let g' := submitter_done t rest err g in
  ti_closed (gw_queue g') ∧ (ti_left (gw_queue g') ≤ ti_left (gw_queue g))%nat ∧
  gw_working g' = gw_working g ∧ gw_submitting g' = rest ∧ gw_chan g' = gw_chan g.
Proof.
  intros Hq. unfold submitter_done. destruct (closed_complete t.1 _ Hq) as [H3 H4].
  destruct err; simpl; split_and!; done || lia.
Qed.

(** What the gateway has in hand, weighed by the steps left. *)
Definition in_hand (g : Gateway E Q) : nat :=
  5 * ti_left (gw_queue g) + 4 * length (gw_working g) + 2 * length (gw_chan g) + length (gw_submitting g).

(** Nobody else's step opens the queue, and only a call of [Enqueue] adds work. *)
Lemma gw_step_closed g g' :
  gw_step cfg 0 0 chanSize g g' → ti_closed (gw_queue g) →
  ti_closed (gw_queue g') ∧
  (in_hand g' ≤ in_hand g + 5 * ti_late * length (new_calls (gw_gate g) (gw_gate g')))%nat.
Proof.
  intros Hst Hq. unfold in_hand.
  destruct Hst as [now tx ph g g' _ He|now from tx seed ps1 ps2 e g g' Hp He|now range gate g Hr He
    |r g g' H _|tx g _|tx l1 l2 ex ca g Hw _|g g' H _|t l1 l2 li su g Hs|now b order g Ho|b g|g|q g Hb]; try lia; simpl.
  - assert (∃ gate rest, g' = set_gate (enqueue_all (gw_queue g) (new_calls (gw_gate g) gate)) gate rest g) as (gate & rest & ->).
    { unfold Admit in He. repeat case_match; simplify_eq/=; by eexists _, _. }
    simpl. destruct (closed_enqueue_all (new_calls (gw_gate g) gate) _ Hq) as [H1 H2]. split; [done|lia].
  - assert (∃ gate rest, g' = set_gate (enqueue_all (gw_queue g) (new_calls (gw_gate g) gate)) gate rest g) as (gate & rest & ->).
    { unfold Admit_resume in He. repeat case_match; simplify_eq/=; by eexists _, _. }
    simpl. destruct (closed_enqueue_all (new_calls (gw_gate g) gate) _ Hq) as [H1 H2]. split; [done|lia].
  - split; [done|lia].
  - destruct (closed_reusable (Tx_Hash tx) _ Hq) as [H1 H2]. split; [done|lia].
  - destruct (worker_process_closed tx (l1 ++ l2) ex ca _ Hq) as (H0 & H1 & H2 & H3 & H4). split; [done|].
    rewrite H2, H3, Hw, !length_app. simpl. lia.
  - destruct (submitter_done_closed t (l1 ++ l2) (submitOne li su) _ Hq) as (H0 & H1 & H2 & H3 & H4). split; [done|].
    rewrite H2, H3, H4, Hs, !length_app. simpl. lia.
  - destruct (closed_enqueue_all (new_calls (gw_gate g) (gw_gate (Handle_gate now order g))) _ Hq) as [H1 H2].
    unfold Handle_gate in *. simpl in *. split; [done|lia].
  - destruct (closed_handle b _ Hq) as [H1 H2]. split; [done|lia].
  - pose proof (closed_close (gw_queue g)). split; [apply closes|lia].
  - destruct (closed_background _ _ Hb Hq) as [H1 H2]. split; [done|lia].
Qed.

(** The other steps take nothing out of the queue, and once workers and
    submitters hold nothing they submit nothing. *)
Lemma gw_step_outside g g' :
  gw_step cfg 0 0 chanSize g g' →
  (length (gw_working g') ≤ length (gw_working g))%nat ∧ (length (gw_submitting g') ≤ length (gw_submitting g))%nat ∧
  (gw_working g = [] → gw_submitting g = [] → gw_chan g' = gw_chan g ∧ gw_ordered g' ⊆ gw_ordered g).
Proof.
  intros Hst. destruct Hst as [now tx ph g g' _ He|now from tx seed ps1 ps2 e g g' Hp He|now range gate g Hr He
    |r g g' H _|tx g _|tx l1 l2 ex ca g Hw _|g g' H _|t l1 l2 li su g Hs|now b order g Ho|b g|g|q g Hb]; try lia;
    try (simpl; done).
  - unfold Admit in He. repeat case_match; simplify_eq/=; done.
  - unfold Admit_resume in He. repeat case_match; simplify_eq/=; done.
  - rewrite Hw. assert (gw_working (worker_process tx (l1 ++ l2) ex ca g) = l1 ++ l2 ∧
      gw_submitting (worker_process tx (l1 ++ l2) ex ca g) = gw_submitting g) as [-> ->].
    { unfold worker_process. by repeat case_match. }
    rewrite !length_app. simpl. split_and!; [lia..|]. by intros [_ ?]%app_eq_nil.
  - rewrite Hs. assert (gw_submitting (submitter_done t (l1 ++ l2) (submitOne li su) g) = l1 ++ l2 ∧
      gw_working (submitter_done t (l1 ++ l2) (submitOne li su) g) = gw_working g) as [-> ->].
    { unfold submitter_done. by case_match. }
    rewrite !length_app. simpl. split_and!; [lia..|]. by intros _ [_ ?]%app_eq_nil.
  - simpl. split_and!; try lia. intros _ _. split; [done|]. intros h. by intros [_ ?]%list_elem_of_filter.
Qed.

Record life_ok (l : lifecycle E Q) : Prop := {
  lo_working : (length (gw_working (lc_gw l)) ≤ lc_workers l ≤ workers)%nat;
  lo_submitting : (length (gw_submitting (lc_gw l)) ≤ lc_submitters l ≤ submitters)%nat;
  lo_phase :
    match lc_phase l with
    | Running => lc_submitters l = submitters
    | ClosingQueue | WaitingWorkers => ti_closed (gw_queue (lc_gw l)) ∧ lc_submitters l = submitters
    | StoppingSubmitters => ti_closed (gw_queue (lc_gw l)) ∧ lc_workers l = 0%nat
    | Stopped => ti_closed (gw_queue (lc_gw l)) ∧ lc_workers l = 0%nat ∧ lc_submitters l = 0%nat
    end
}.

(** What a step that moves no goroutine has to show. *)
Lemma life_ok_gw g l :
  life_ok l → (length (gw_working g) ≤ lc_workers l)%nat → (length (gw_submitting g) ≤ lc_submitters l)%nat →
  (ti_closed (gw_queue (lc_gw l)) → ti_closed (gw_queue g)) → life_ok (with_gw g l).
Proof.
  intros [Hw Hs Hp] H1 H2 H3. split; simpl; [lia..|]. destruct (lc_phase l); naive_solver.
Qed.

(** A worker's turn at the queue. *)
Lemma worker_Dequeue_cases (g g' : Gateway E Q) r :
  worker_Dequeue g = Done (r, g') →
  gw_submitting g' = gw_submitting g ∧ gw_chan g' = gw_chan g ∧
  gw_working g' = gw_working g ++ (if r is DqTx tx then [tx] else []) ∧
  (ti_closed (gw_queue g) → ti_closed (gw_queue g') ∧
    match r with
    | DqTx _ => (ti_left (gw_queue g') < ti_left (gw_queue g))%nat
    | DqClosed => ti_left (gw_queue g') = ti_left (gw_queue g)
    | DqBlocked => False
    end).
Proof.
  unfold worker_Dequeue. intros He. destruct (ti_Dequeue (gw_queue g)) as [[r' q]|] eqn:Hd; [|done].
  assert (ti_closed (gw_queue g) → ti_closed q ∧ match r' with
    | DqTx _ => (ti_left q < ti_left (gw_queue g))%nat
    | DqClosed => ti_left q = ti_left (gw_queue g)
    | DqBlocked => False
    end) as Hc.
  { intros Hq. destruct (closed_dequeue _ Hq) as (r2 & q2 & He2 & ?). rewrite Hd in He2. by simplify_eq. }
  by destruct r'; simplify_eq/=; rewrite ?app_nil_r.
Qed.

Lemma own_step_ok l l' : own l l' → life_ok l → life_ok l'.
Proof.
  intros Hst Hok. pose proof Hok as [Hw Hs Hp].
  destruct Hst as [tx g l Hl He|g l Hl He|tx l1 l2 ex ca l Hl _ _|g l Hl He|t l1 l2 li su l Hl|l Hph Hl|q l Hl Hf|l Hph Hb|l Hph H0|l Hph H0|l Hph H0].
  - apply worker_Dequeue_cases in He as (H1 & H2 & H3 & H4).
    apply life_ok_gw; [done|rewrite H3, length_app; simpl; lia|rewrite H1; lia|naive_solver].
  - apply worker_Dequeue_cases in He as (H1 & H2 & H3 & H4). rewrite app_nil_r in H3.
    split; simpl; [rewrite H3; lia|rewrite H1; lia|].
    destruct (lc_phase l); try naive_solver; split_and!; try naive_solver; lia.
  - rewrite Hl, length_app in Hw. simpl in Hw.
    apply life_ok_gw; [done| | |intros Hq; by apply worker_process_closed];
      unfold worker_process; repeat case_match; simpl; rewrite ?length_app; lia.
  - unfold submitter_take in He. destruct (gw_chan (lc_gw l)) as [|t chan]; [done|]. injection He as <-.
    apply life_ok_gw; simpl; [done|lia|rewrite length_app; simpl; lia|done].
  - rewrite Hl, length_app in Hs. simpl in Hs.
    apply life_ok_gw; [done| | |intros Hq; by apply submitter_done_closed];
      unfold submitter_done; destruct (submitOne li su); simpl; rewrite ?length_app; lia.
  - rewrite Hph in Hp. split; simpl; [lia..|]. by rewrite Hph.
  - apply life_ok_gw; simpl; [done|lia..|]. intros Hq. by eapply closed_background; [apply finish_background|].
  - rewrite Hph in Hp. split; simpl; [lia..|]. by rewrite Hph.
  - rewrite Hph in Hp. split; simpl; [lia..|]. done.
  - rewrite Hph in Hp. split; simpl; [lia..|]. naive_solver.
  - rewrite Hph in Hp. split; simpl; [lia..|]. naive_solver.
Qed.

Lemma life_step_ok l l' : step l l' → life_ok l → life_ok l'.
Proof.
  intros [l1 l2 Hst|l1|g l1 Hst] Hok; [by eapply own_step_ok| |].
  - pose proof Hok as [Hw Hs Hp]. unfold Stop_begin. destruct (lc_phase l1) eqn:Hph; try done.
    split; simpl; [lia..|]. split; [apply closes|done].
  - pose proof Hok as [Hw Hs Hp]. destruct (gw_step_outside _ _ Hst) as (H1 & H2 & _).
    apply life_ok_gw; [done|lia..|]. intros Hq. by eapply gw_step_closed.
Qed.

Lemma life_reachable_ok q0 l : life_reachable cfg chanSize ctxEnds q0 workers submitters queue l → life_ok l.
Proof.
  intros Hr. pattern l. eapply rtc_ind_r; [| |exact Hr].
  - split; simpl; lia.
  - intros x y _ Hst IH. by eapply life_step_ok.
Qed.

(** *** [Stop] returns *)

Definition phase_rank (p : stop_phase) : nat :=
  match p with Running => 4 | ClosingQueue => 3 | WaitingWorkers => 2 | StoppingSubmitters => 1 | Stopped => 0 end.

Definition work_left (l : lifecycle E Q) : nat :=
  in_hand (lc_gw l) + lc_workers l + lc_submitters l + lc_queue l + phase_rank (lc_phase l).

Lemma own_step_less l l' :
  own l l' → ti_closed (gw_queue (lc_gw l)) → (work_left l' < work_left l)%nat.
Proof.
  intros Hst Hq. unfold work_left, in_hand.
  destruct Hst as [tx g l Hl He|g l Hl He|tx l1 l2 ex ca l Hl _ _|g l Hl He|t l1 l2 li su l Hl|l Hph Hl|q l Hl Hf|l Hph Hb|l Hph H0|l Hph H0|l Hph H0];
    simpl.
  - apply worker_Dequeue_cases in He as (-> & -> & -> & [_ ?]%(λ f, f Hq)). rewrite length_app. simpl. lia.
  - apply worker_Dequeue_cases in He as (-> & -> & -> & [_ ?]%(λ f, f Hq)). rewrite app_nil_r. lia.
  - destruct (worker_process_closed tx (l1 ++ l2) ex ca _ Hq) as (_ & H1 & H2 & H3 & H4).
    rewrite H2, H3, Hl, !length_app. simpl. lia.
  - unfold submitter_take in He. destruct (gw_chan (lc_gw l)) as [|t chan]; [done|]. injection He as <-.
    simpl. rewrite length_app. simpl. lia.
  - destruct (submitter_done_closed t (l1 ++ l2) (submitOne li su) _ Hq) as (_ & H1 & H2 & H3 & H4).
    rewrite H2, H3, H4, Hl, !length_app. simpl. lia.
  - lia.
  - pose proof (finish_less _ _ Hf). lia.
  - lia.
  - rewrite Hph. simpl. lia.
  - rewrite Hph. simpl. lia.
  - rewrite Hph. simpl. lia.
Qed.

Lemma closed_after_stop l : life_ok l → lc_phase l ≠ Running → ti_closed (gw_queue (lc_gw l)).
Proof. intros [_ _ Hp] Hph. destruct (lc_phase l); naive_solver. Qed.

(** Someone can move: a worker at the closed queue, a worker with an answer and
    room in the channel, or a submitter. *)
Lemma own_step_enabled l :
  life_ok l → (0 < submitters)%nat → (0 < chanSize)%nat →
  lc_phase l ≠ Running → lc_phase l ≠ Stopped → ∃ l', own l l'.
Proof.
  intros Hok Hsub Hch Hr Hst. pose proof (closed_after_stop l Hok Hr) as Hq. destruct Hok as [Hw Hs Hp].
  assert ((0 < lc_submitters l)%nat → gw_chan (lc_gw l) ≠ [] ∨ gw_submitting (lc_gw l) ≠ [] → ∃ l', own l l') as Hmove.
  { intros H0 Hne. destruct (gw_submitting (lc_gw l)) as [|t ts] eqn:Hsm.
    - destruct (submitter_take (lc_gw l)) as [g|] eqn:Ht.
      + eexists. apply (os_take _ _ g); [rewrite Hsm; simpl; lia|done].
      + unfold submitter_take in Ht. destruct (gw_chan (lc_gw l)); [naive_solver|done].
    - eexists. by eapply (os_submitted _ _ t [] ts None None). }
  destruct (lc_phase l) eqn:Hph; try done.
  - destruct (decide (lc_queue l = 0%nat)) as [H0|H0]; [eexists; by apply os_queue_done|].
    destruct (decide (ti_busy (gw_queue (lc_gw l)) = 0%nat)) as [Hb|Hb].
    + eexists. apply os_queue_return; [done|lia].
    + destruct (busy_finish _ Hq) as [q Hf]; [lia|]. eexists. apply (os_queue_work _ _ q); [lia|done].
  - destruct (decide (lc_workers l = 0%nat)) as [H0|H0]; [eexists; by apply os_workers_done|].
    destruct (gw_working (lc_gw l)) as [|tx txs] eqn:Hwk.
    + destruct (closed_dequeue _ Hq) as (r & q & Hd & _ & Hcase).
      destruct r as [tx| |]; [| |done]; eexists;
        [eapply os_dequeue|eapply os_return]; try (rewrite Hwk; simpl; lia);
        unfold worker_Dequeue; by rewrite Hd.
    + destruct (decide (length (gw_chan (lc_gw l)) < chanSize)%nat) as [Hroom|Hfull].
      * eexists. by eapply (os_process _ _ tx [] txs (Err "") false).
      * apply Hmove; [lia|]. left. intros Hnil. rewrite Hnil in Hfull. simpl in Hfull. lia.
  - destruct (decide (lc_submitters l = 0%nat)) as [H0|H0]; [eexists; by apply os_stopped|].
    destruct (gw_submitting (lc_gw l)) as [|t ts] eqn:Hsm.
    + eexists. apply os_submitter_return; [done|]. rewrite Hsm. simpl. lia.
    + apply Hmove; [lia|by right].
Qed.

(** The other steps. *)
Lemma life_step_more l l' :
  step l l' → ti_closed (gw_queue (lc_gw l)) → lc_phase l ≠ Running →
  lc_phase l' ≠ Running ∧
  (work_left l' ≤ work_left l + 5 * ti_late * length (new_calls (gw_gate (lc_gw l)) (gw_gate (lc_gw l'))))%nat.
Proof.
  intros [l1 l2 Hst|l1|g l1 Hst] Hq Hr.
  - pose proof (own_step_less _ _ Hst Hq). split; [destruct Hst; simpl; congruence|lia].
  - unfold Stop_begin. by destruct (lc_phase l1) eqn:Hph; rewrite ?Hph; split; done || lia.
  - split; [done|]. destruct (gw_step_closed _ _ Hst Hq) as [_ H]. unfold work_left. simpl. lia.
Qed.

Lemma life_run_bound l n k l' :
  life_ok l → lc_phase l ≠ Running → life_run cfg chanSize ctxEnds l n k l' →
  life_ok l' ∧ lc_phase l' ≠ Running ∧ (n + work_left l' ≤ work_left l + 5 * ti_late * k)%nat.
Proof.
  intros Hok Hr Hrun. induction Hrun as [|n k l1 l2 _ (H1 & H2 & H3) Hst|n k l1 l2 _ (H1 & H2 & H3) Hst].
  - split_and!; [done..|lia].
  - pose proof (closed_after_stop _ H1 H2) as Hq. pose proof (own_step_less _ _ Hst Hq).
    split_and!; [by eapply own_step_ok| |lia]. apply (life_step_more l1 l2); [by apply ls_own|done..].
  - pose proof (closed_after_stop _ H1 H2) as Hq. destruct (life_step_more _ _ Hst Hq H2) as [H4 H5].
    split_and!; [by eapply life_step_ok|done|]. lia.
Qed.

Lemma own_steps_stop l :
  life_ok l → (0 < submitters)%nat → (0 < chanSize)%nat → lc_phase l ≠ Running →
  ∃ n l', nsteps own n l l' ∧ lc_phase l' = Stopped.
Proof.
  intros Hok Hsub Hch. remember (work_left l) as m eqn:Hm. revert l Hm Hok.
  induction (lt_wf m) as [m _ IH]; intros l -> Hok Hr.
  destruct (lc_phase l) eqn:Hph; try done; try (exists 0%nat, l; split; [constructor|done]).
  all: destruct (own_step_enabled l) as [y Hst]; try done; try congruence.
  all: assert (lc_phase y ≠ Running) as Hy by (destruct Hst; simpl; congruence).
  all: assert (lc_phase l ≠ Running) as Hl by congruence.
  all: pose proof (own_step_less _ _ Hst (closed_after_stop _ Hok Hl)) as Hlt.
  all: destruct (IH _ Hlt y eq_refl (own_step_ok _ _ Hst Hok) Hy) as (n & l' & Hn & Hl').
  all: exists (S n), l'; split; [by econstructor|done].
Qed.

(** C8: [Stop] returns.  From any state after it was called, with a submitter and
    room in the channel (which the wiring's defaults give), until it has returned
    one of the goroutines it waits for can always move: the queue's, which
    [TxQueue.Close] waits for, the workers, the submitters.  However their steps
    interleave with those of clients, blocks, the reaper and the queue, they make
    no more than a number of steps fixed when [Stop] was called, plus a constant
    for each [Enqueue] a closed queue still accepts: none for the dependency
    graph, so there the bound is absolute, while the FIFO queue accepts.  And they
    do reach its return, also when the workers' context never ends. *)
Theorem Stop_terminates q0 l :
  (0 < submitters)%nat → (0 < chanSize)%nat →
  life_reachable cfg chanSize ctxEnds q0 workers submitters queue l → lc_phase l ≠ Running →
  (∀ n k l', life_run cfg chanSize ctxEnds l n k l' →
     (n ≤ work_left l + 5 * ti_late * k)%nat ∧ (lc_phase l' = Stopped ∨ ∃ l'', own l' l'')) ∧
  (∃ n l', nsteps own n l l' ∧ lc_phase l' = Stopped).
Proof.
  intros Hs Hc Hr%life_reachable_ok Hph. split; [|by apply own_steps_stop].
  intros n k l' Hn. destruct (life_run_bound l n k l' Hr Hph Hn) as (Hok & Hph' & Hb). split; [lia|].
  destruct (decide (phase_rank (lc_phase l') = 0%nat)) as [H0|H0].
  - left. by destruct (lc_phase l').
  - right. apply own_step_enabled; try done. intros Hst. by rewrite Hst in H0.
Qed.

(** *** After [Stop] *)

Lemma gw_step_more g g' : gw_step cfg 0 0 chanSize g g' → gw_step cfg workers submitters chanSize g g'.
Proof.
  intros Hst. destruct Hst as [now tx ph g g' Hv He|now from tx seed ps1 ps2 e g g' Hp He|now range gate g Hr He
    |r g g' H _|tx g H|tx l1 l2 ex ca g Hw Hc|g g' H _|t l1 l2 li su g Hs|now b order g Ho|b g|g|q g Hb]; try lia.
  - exact (gs_admit _ _ _ _ _ _ _ _ _ Hv He).
  - exact (gs_resume _ _ _ _ _ _ _ _ _ _ _ _ _ Hp He).
  - exact (gs_prune _ _ _ _ _ _ _ _ Hr He).
  - by apply gs_reusable.
  - by apply gs_process.
  - by apply gs_submitted.
  - exact (gs_observe _ _ _ _ _ _ _ _ Ho).
  - by apply gs_handle.
  - apply gs_close.
  - by apply gs_background.
Qed.

(** The gateway's steps of the pipeline's theorems. *)
Lemma life_step_gw l l' :
  life_ok l → step l l' → rtc (gw_step cfg workers submitters chanSize) (lc_gw l) (lc_gw l').
Proof.
  intros [Hw Hs _] Hst. destruct Hst as [l1 l2 Hst|l1|g l1 Hst].
  - destruct Hst as [tx g k Hl He|g k Hl He|tx k1 k2 ex ca k Hl _ Hch|g k Hl He|t k1 k2 li su k Hl|k Hph Hl|q k Hl Hf|k Hph Hb|k Hph H0|k Hph H0|k Hph H0];
      simpl; try apply rtc_refl; apply rtc_once.
    + eapply gs_dequeue; [|done]. lia.
    + eapply gs_dequeue; [|done]. lia.
    + by apply gs_process.
    + apply gs_submit; [lia|done].
    + by apply gs_submitted.
    + apply gs_background. by apply finish_background.
  - unfold Stop_begin. destruct (lc_phase l1); try apply rtc_refl. apply rtc_once, gs_close.
  - apply rtc_once. by apply gw_step_more.
Qed.

Lemma life_reachable_gw q0 l :
  life_reachable cfg chanSize ctxEnds q0 workers submitters queue l →
  gw_reachable cfg workers submitters chanSize q0 (lc_gw l).
Proof.
  intros Hr. cut (life_ok l ∧ gw_reachable cfg workers submitters chanSize q0 (lc_gw l)); [tauto|].
  pattern l. eapply rtc_ind_r; [| |exact Hr].
  - split; [split; simpl; lia|apply rtc_refl].
  - intros x y _ Hst [Hok IH]. split; [by eapply life_step_ok|].
    unfold gw_reachable in *. etrans; [exact IH|by apply life_step_gw].
Qed.

(** Nothing the program does undoes a finished [Stop]. *)
Lemma stopped_step l l' :
  life_ok l → lc_phase l = Stopped → step l l' →
  lc_phase l' = Stopped ∧ gw_chan (lc_gw l') = gw_chan (lc_gw l) ∧ gw_ordered (lc_gw l') ⊆ gw_ordered (lc_gw l).
Proof.
  intros [Hw Hs Hp] Hph. rewrite Hph in Hp. destruct Hp as (_ & H1 & H2). intros Hst. destruct Hst as [l1 l2 Hst|l1|g l1 Hst].
  - destruct Hst as [tx g k Hl He|g k Hl He|tx k1 k2 ex ca k Hl _ Hch|g k Hl He|t k1 k2 li su k Hl|k Hp' Hl|q k Hl Hf|k Hp' Hb|k Hp' H0|k Hp' H0|k Hp' H0];
      first [lia|congruence|done|rewrite Hl, length_app in *; simpl in *; lia].
  - unfold Stop_begin. by rewrite Hph.
  - destruct (gw_step_outside _ _ Hst) as (_ & _ & H). split; [done|]. simpl.
    apply H; apply nil_length_inv; lia.
Qed.

(** C9: When [Stop] has returned, no worker and no submitter holds a
    transaction.  As long as no block has carried a transaction that the queue
    tracks and this gateway has not got ordered, what is left in the channel are
    distinct transactions that were never ordered and that the queue still reports
    as pending.  From then on nothing is ordered, and no transaction leaves or
    enters the channel. *)
Theorem Stop_quiesces {QL : TxQueueLaws G T E Q I} q0 l :
  ti_ok q0 ∅ → life_reachable cfg chanSize ctxEnds q0 workers submitters queue l → lc_phase l = Stopped →
  gw_working (lc_gw l) = [] ∧ gw_submitting (lc_gw l) = [] ∧
  (gw_foreign (lc_gw l) = [] →
     NoDup ((gw_chan (lc_gw l)).*1 ++ gw_ordered (lc_gw l)) ∧
     (∀ h, h ∈ (gw_chan (lc_gw l)).*1 → is_Some (ti_IsPending h (gw_queue (lc_gw l))))) ∧
  (∀ l', rtc step l l' → lc_phase l' = Stopped ∧ gw_chan (lc_gw l') = gw_chan (lc_gw l) ∧
    gw_ordered (lc_gw l') ⊆ gw_ordered (lc_gw l)).
Proof.
  intros Hq Hr Hph. pose proof (life_reachable_ok _ _ Hr) as Hok.
  pose proof (gw_reachable_ok _ _ _ _ _ _ Hq (life_reachable_gw _ _ Hr)) as Hgw.
  pose proof Hok as [Hw Hs Hp]. rewrite Hph in Hp. destruct Hp as (_ & H1 & H2).
  assert (gw_working (lc_gw l) = []) as Ew by (apply nil_length_inv; lia).
  assert (gw_submitting (lc_gw l) = []) as Es by (apply nil_length_inv; lia).
  split_and!; [done..| |].
  - intros [Hn Hti]%Hgw. unfold held in *. rewrite Ew, Es in *. simpl in *. split; [done|].
    intros h Hh. apply (law_taken _ _ _ Hti). set_solver.
  - intros l' Hl. cut (life_ok l' ∧ lc_phase l' = Stopped ∧ gw_chan (lc_gw l') = gw_chan (lc_gw l) ∧
      gw_ordered (lc_gw l') ⊆ gw_ordered (lc_gw l)); [tauto|].
    pattern l'. eapply rtc_ind_r; [| |exact Hl]; [by split_and!|].
    intros x y _ Hst (Hx & Hxp & Hxc & Hxo). destruct (stopped_step x y Hx Hxp Hst) as (? & ? & ?).
    split_and!; [by eapply life_step_ok|done|congruence|by etrans].
Qed.
End stopping.

(** ** Concrete runs *)

Section runs.
Context {G : GethTypes} {T : EthTxTypes G} {C : EthCodec G T} {A : TxAccess G T} {P : TxPool G T}.
Context {E Q : Type} {I : TxQueueInterface G T E Q} {QC : TxQueueCloses G T E Q I} (cfg : gate_config) (chanSize : nat).

(** Moves of the first reader, worker and submitter, and of [Stop]. *)
Inductive lmove :=
| LAdmit (tx : EthTx)
| LResume (seed : option Z)
| LDequeue
| LProcess (execute : result string E)
| LTake
| LSubmitted (err : option string)
| LStop
| LQueueReturn
| LSubmitterReturn
| LNext.

Definition lexec (m : lmove) (l : lifecycle E Q) : option (lifecycle E Q) :=
  let g := lc_gw l in
  match m with
  | LAdmit tx => if decide (ValidateTx tx = None) then Some (with_gw (Admit cfg 0 tx g).2 l) else None
  | LResume seed =>
      match gw_reading g with
      | (from, tx) :: rest =>
          match Admit_resume cfg 0 from tx seed rest g with Done (_, g') => Some (with_gw g' l) | Panic _ => None end
      | [] => None
      end
  | LDequeue =>
      if decide (length (gw_working g) < lc_workers l)%nat
      then match worker_Dequeue g with
           | Done (DqTx _, g') => Some (with_gw g' l)
           | Done (DqClosed, g') => Some (worker_return g' l)
           | _ => None
           end
      else None
  | LProcess execute =>
      match gw_working g with
      | tx :: rest =>
          if decide (length (gw_chan g) < chanSize)%nat
          then Some (with_gw (worker_process tx rest execute false g) l) else None
      | [] => None
      end
  | LTake =>
      if decide (length (gw_submitting g) < lc_submitters l)%nat
      then (λ g', with_gw g' l) <$> submitter_take g else None
  | LSubmitted err =>
      match gw_submitting g with
      | t :: rest => Some (with_gw (submitter_done t rest (submitOne None err) g) l)
      | [] => None
      end
  | LStop => Some (Stop_begin l)
  | LQueueReturn =>
      match lc_phase l with
      | ClosingQueue =>
          if decide (ti_busy (gw_queue g) < lc_queue l)%nat then Some (queue_return l) else None
      | _ => None
      end
  | LSubmitterReturn =>
      match lc_phase l with
      | StoppingSubmitters =>
          if decide (length (gw_submitting g) < lc_submitters l)%nat then Some (submitter_return l) else None
      | _ => None
      end
  | LNext =>
      match lc_phase l with
      | ClosingQueue => if decide (lc_queue l = 0%nat) then Some (set_phase WaitingWorkers l) else None
      | WaitingWorkers => if decide (lc_workers l = 0%nat) then Some (set_phase StoppingSubmitters l) else None
      | StoppingSubmitters => if decide (lc_submitters l = 0%nat) then Some (set_phase Stopped l) else None
      | _ => None
      end
  end.

Lemma lexec_step m l l' : lexec m l = Some l' → life_step cfg chanSize false l l'.
Proof.
  destruct m; simpl; intros He; repeat case_match; simplify_eq/=.
  - apply ls_outside. destruct (Admit cfg 0 tx (lc_gw l)) as [ph g'] eqn:Ha. by eapply gs_admit.
  - apply ls_outside. by eapply (gs_resume _ _ _ _ 0 a e seed [] l0).
  - apply ls_own. by eapply os_dequeue.
  - apply ls_own. by apply os_return.
  - apply ls_own. by apply (os_process _ _ e [] l0).
  - apply fmap_Some in He as (g & Hg & ->). by apply ls_own, os_take.
  - apply ls_own. by apply (os_submitted _ _ p [] l0 None err).
  - apply ls_stop.
  - apply ls_own. by apply os_queue_return.
  - apply ls_own. by apply os_submitter_return.
  - apply ls_own. by apply os_queue_done.
  - apply ls_own. by apply os_workers_done.
  - apply ls_own. by apply os_stopped.
Qed.

Fixpoint lexecs (ms : list lmove) (l : lifecycle E Q) : option (lifecycle E Q) :=
  match ms with
  | [] => Some l
  | m :: ms => l' ← lexec m l; lexecs ms l'
  end.

Lemma lexecs_steps ms : ∀ l l', lexecs ms l = Some l' → rtc (life_step cfg chanSize false) l l'.
Proof.
  induction ms as [|m ms IH]; intros l l' He; simpl in He; [injection He as <-; apply rtc_refl|].
  apply bind_Some in He as (l1 & H1 & H2). eapply rtc_l; [by eapply lexec_step|by apply IH].
Qed.

Definition lrun (l : lifecycle E Q) (ms : list lmove) : lifecycle E Q := default l (lexecs ms l).

Lemma lrun_steps l ms :
  match lexecs ms l with Some _ => true | None => false end = true →
  rtc (life_step cfg chanSize false) l (lrun l ms).
Proof. unfold lrun. intros Hs. destruct (lexecs ms l) as [l'|] eqn:He; [|done]. exact (lexecs_steps ms _ _ He). Qed.
End runs.

Module Halt.
#[local] Existing Instances four_types four_txs demo_codec four_access any_pool.

(** One transaction with the worker, one more in the queue, when [Stop] is called. *)
Definition stopping : list (lmove (E := Z)) :=
  [LAdmit tx4; LResume (Some 4); LDequeue; LAdmit (false, false); LResume (Some 4); LStop].

(** The worker drains the queue and both endorsements wait in the channel; the
    submitter ends one of them and then sees [stopChan] first. *)
Definition draining : list (lmove (E := Z)) :=
  [LProcess (Ok 7); LDequeue; LProcess (Ok 8); LDequeue; LNext; LNext; LTake; LSubmitted None; LSubmitterReturn; LNext].

Definition up : lifecycle Z TxQueue := Start NewTxQueue 1 1 0.
Definition stopping_at : lifecycle Z TxQueue := lrun (I := fifo_interface Z) cfg64 4 up stopping.
Definition stopped_at : lifecycle Z TxQueue := lrun (I := fifo_interface Z) cfg64 4 up (stopping ++ draining).

Lemma stopping_reachable :
  life_reachable (I := fifo_interface Z) cfg64 4 false NewTxQueue 1 1 0 stopping_at.
Proof. apply (lrun_steps (I := fifo_interface Z)). vm_compute. reflexivity. Qed.

Lemma stopped_reachable :
  life_reachable (I := fifo_interface Z) cfg64 4 false NewTxQueue 1 1 0 stopped_at.
Proof. apply (lrun_steps (I := fifo_interface Z)). vm_compute. reflexivity. Qed.

Lemma Stop_quiesces_witness :
  (gw_chan (lc_gw stopped_at)).*1 = [(false, false)] ∧ gw_ordered (lc_gw stopped_at) = [Tx_Hash tx4] ∧
  is_Some (ti_IsPending (TxQueueInterface := fifo_interface Z) (false, false) (gw_queue (lc_gw stopped_at))).
Proof.
  split; [vm_compute; reflexivity|]. split; [vm_compute; reflexivity|].
  destruct (Stop_quiesces (QC := fifo_closes) (QL := fifo_laws) cfg64 4 false 1 1 0 NewTxQueue stopped_at
    Fifo.new_ok stopped_reachable ltac:(vm_compute; reflexivity)) as (_ & _ & Hp & _).
  apply Hp; [vm_compute; reflexivity|]. vm_compute. left.
Defined.

(** *** An endorsed transaction is dropped

    [Stop] lets the workers drain the queue into the channel and then stops the
    submitters, whose [select] may take [stopChan] while endorsements wait.  A
    transaction that was accepted and endorsed is neither submitted nor completed. *)
Lemma stop_drops_endorsed :
  lc_phase stopped_at = Stopped ∧ gw_chan (lc_gw stopped_at) = [((false, false), 8)] ∧
  lc_workers stopped_at = 0%nat ∧ lc_submitters stopped_at = 0%nat.
Proof. vm_compute. repeat split; reflexivity. Qed.

(** *** The FIFO queue takes transactions after it is closed

    [Close] says that no more transactions will be enqueued; [Enqueue] does not
    look at [done].  A client that submits after [Stop] was called is answered
    without an error, and the worker [Stop] waits for gets the transaction. *)
Definition late_at : lifecycle Z TxQueue :=
  lrun (I := fifo_interface Z) cfg64 4 up [LStop; LAdmit tx4; LResume (Some 4); LDequeue].

Lemma late_submission_taken :
  life_reachable (I := fifo_interface Z) cfg64 4 false NewTxQueue 1 1 0 late_at ∧
  lc_phase late_at = ClosingQueue ∧ gw_working (lc_gw late_at) = [tx4].
Proof.
  split; [apply (lrun_steps (I := fifo_interface Z)); vm_compute; reflexivity|].
  vm_compute. repeat split; reflexivity.
Qed.
End Halt.

Module HaltDep.
#[local] Existing Instances hex_types hex_txs demo_deps hex_geth_laws hex_laws any_pool Dep.hex_codec Dep.hex_access.

(** The dependency graph with a transaction on its way when [Stop] is called. *)
Definition dep_up : lifecycle Endorsement DepGraphProps.sys :=
  Start (start None) 1 1 (dep_goroutines (NewDepGraphQueue None)).

Definition dep_stopping : lifecycle Endorsement DepGraphProps.sys :=
  lrun cfg64 4 dep_up [LAdmit txA; LResume (Some 4); LStop].

Lemma dep_stopping_reachable :
  life_reachable cfg64 4 false (start None) 1 1 (dep_goroutines (NewDepGraphQueue None)) dep_stopping.
Proof. apply lrun_steps. vm_compute. reflexivity. Qed.

Lemma Stop_terminates_witness :
  dq_admitted (s_q (gw_queue (lc_gw dep_stopping))) = [txA] ∧
  (∀ n k l', life_run cfg64 4 false dep_stopping n k l' → (n ≤ 46)%nat) ∧
  ∃ n l', nsteps (own_step 4 false) n dep_stopping l' ∧ lc_phase l' = Stopped.
Proof.
  split; [vm_compute; reflexivity|].
  assert (lc_phase dep_stopping ≠ Running) as Hp by (vm_compute; congruence).
  destruct (Stop_terminates cfg64 4 false 1 1 _ (start None) dep_stopping ltac:(lia) ltac:(lia)
    dep_stopping_reachable Hp) as [Hb Hs].
  split; [|exact Hs]. intros n k l' Hn. destruct (Hb n k l' Hn) as [Hle _].
  assert (work_left dep_stopping = 46%nat) as Hw by (vm_compute; reflexivity).
  rewrite Hw in Hle. simpl in Hle. lia.
Defined.
End HaltDep.
