(* ===== verification/Fence.v ===== *)
(** * Fence: keeping submissions away from a rewind

    The fence of a test node (gateway/testimpl/txfence.go) and the nonce
    sequencers tests use (resettable_gate.go, passthrough_gate.go), around the
    gateway with its clients, workers, submitters and blocks.  Between the
    drain and the end of a rewind no client's transaction is on its way to a
    block; the priming transactions of the hardhat directives
    (hardhat_helpers.go, primer/state_primer.go) pass the fence by. *)

From Stdlib Require Import ZArith Lia.
From stdpp Require Import base numbers list gmap sets strings relations.
From S2P Require Import Prelude Blocks Geth TxQueues Domain Convert TxQueueProps TxQueueV2Props.
From S2P Require Import DepGraph DepGraphProps NonceGate NonceGateProps Executor Engine Endorse Remote.
From S2P Require Import Gateway GatewayQueues GatewayProps.

Local Open Scope Z_scope.

(** ** gateway/testimpl/txfence.go *)

Definition errFenced : string := "transaction rejected: a snapshot or revert is in progress".
Definition errDrainTimeout : string := "timed out waiting for in-flight transactions to commit".

(** [submit]: what [enqueue] answers, unless a rewind is on. *)
Definition fence_submit {X} (rewinding : bool) (enqueue : result string X) : result string X :=
  if rewinding then Err errFenced else enqueue.

(** What ends one wait of the polling loop. *)
Inductive wake := CtxDone (err : string) | Deadline | Tick.

(** One round of the loop of [beginRewind]: [None] goes round again. *)
Definition drain_round (inFlight : Z) (w : wake) : option (option string) :=
  if 0 <? inFlight
  then match w with
       | CtxDone err => Some (Some err)
       | Deadline => Some (Some errDrainTimeout)
       | Tick => None
       end
  else Some None.

(** What a rewind has reached: [Draining] inside [beginRewind], [Exclusive]
    between its [nil] and [endRewind]. *)
Inductive rewind_phase := NoRewind | Draining | Exclusive.

Section fence.
Context {G : GethTypes} {T : EthTxTypes G} {TL : EthTxLaws G T} {C : EthCodec G T}.
Context {A : TxAccess G T} {P : TxPool G T}.
Context {E Q : Type} {I : TxQueueInterface G T E Q}.

(** The gateway of a test node behind its fence.  [fn_priming]: the priming
    transactions the orderer has accepted, until their block. *)
Record fenced := {
  fn_gw : Gateway E Q;
  fn_rewinding : bool;
  fn_phase : rewind_phase;
  fn_priming : list Hash
}.

Definition on_gw (g : Gateway E Q) (f : fenced) : fenced :=
  {| fn_gw := g; fn_rewinding := fn_rewinding f; fn_phase := fn_phase f; fn_priming := fn_priming f |}.

Definition beginRewind (f : fenced) : fenced :=
  {| fn_gw := fn_gw f; fn_rewinding := true; fn_phase := Draining; fn_priming := fn_priming f |}.

Definition drained (f : fenced) : fenced :=
  {| fn_gw := fn_gw f; fn_rewinding := fn_rewinding f; fn_phase := Exclusive; fn_priming := fn_priming f |}.

Definition endRewind (f : fenced) : fenced :=
  {| fn_gw := fn_gw f; fn_rewinding := false; fn_phase := NoRewind; fn_priming := fn_priming f |}.

(** [commitAndWait] without waiting: the priming transaction goes straight to a
    submitter, around the queue and the fence. *)
Definition prime_submit (h : Hash) (f : fenced) : fenced :=
  {| fn_gw := fn_gw f; fn_rewinding := fn_rewinding f; fn_phase := fn_phase f; fn_priming := fn_priming f ++ [h] |}.

(** The gateway's [Handle] has seen the block. *)
Definition block_seen (b : DBlock) (f : fenced) : fenced :=
  {| fn_gw := Handle_queue b (fn_gw f); fn_rewinding := fn_rewinding f; fn_phase := fn_phase f;
     fn_priming := filter (λ h, h ∉ block_hashes b) (fn_priming f) |}.

(** [ResettableGate.ResetNonces]: a new gate, which has seen no sender. *)
Definition ResetNonces (g : Gateway E Q) : Gateway E Q :=
  set_gate (gw_queue g) newNonceGate (gw_reading g) g.

(** [passthroughGate.Admit]: every transaction goes to the queue. *)
Definition passthrough_Admit (tx : EthTx) (q : Q) : option queue_error * Q := ti_Enqueue tx q.

Context (cfg : gate_config) (workers submitters chanSize : nat).

(** No transaction of the sender is parked. *)
Definition idle_sender (from : Address) (gate : nonceGate) : Prop :=
  ∀ ss, g_senders gate !! from = Some ss → ss_parked ss = ∅.

(** A test node is the only gateway of its network: a block brings transactions
    it got ordered, and priming transactions, whose sender is a key of their own
    that no client uses. *)
Definition node_block (b : DBlock) (f : fenced) : Prop :=
  ∀ tx, tx ∈ db_Transactions b →
    block_hash tx ∈ gw_ordered (fn_gw f) ∨
    block_hash tx ∈ fn_priming f ∧ ti_IsPending (block_hash tx) (gw_queue (fn_gw f)) = None ∧
    idle_sender (ct_From (observed tx)) (gw_gate (fn_gw f)).

(** The node's steps.  [submit] holds the fence's lock until the gate has
    answered, so no rewind begins while a submission is reading the store. *)
Inductive fence_step : fenced → fenced → Prop :=
| fn_admit now tx ph g f :
    fn_rewinding f = false → gw_reading (fn_gw f) = [] → ValidateTx tx = None →
    Admit cfg now tx (fn_gw f) = (ph, g) → fence_step f (on_gw g f)
| fn_resume now from tx seed e g f :
    gw_reading (fn_gw f) = [(from, tx)] →
    Admit_resume cfg now from tx seed [] (fn_gw f) = Done (e, g) → fence_step f (on_gw g f)
| fn_begin f :
    fn_phase f = NoRewind → gw_reading (fn_gw f) = [] → fence_step f (beginRewind f)
| fn_drained w f :
    fn_phase f = Draining → drain_round (ti_InFlight (gw_queue (fn_gw f))) w = Some None → fence_step f (drained f)
| fn_failed w e f :
    fn_phase f = Draining → drain_round (ti_InFlight (gw_queue (fn_gw f))) w = Some (Some e) →
    fence_step f (endRewind f)
| fn_snapshot_done f : fn_phase f = Exclusive → fence_step f (endRewind f)
| fn_revert_done f : fn_phase f = Exclusive → fence_step f (endRewind (on_gw (ResetNonces (fn_gw f)) f))
| fn_prune now range gate f :
    (∀ m, range m ≡ₚ map_to_list m) → prune cfg range now (gw_gate (fn_gw f)) = Some gate →
    fence_step f (on_gw (set_gate (gw_queue (fn_gw f)) gate (gw_reading (fn_gw f)) (fn_gw f)) f)
| fn_dequeue r g f :
    (length (gw_working (fn_gw f)) < workers)%nat → worker_Dequeue (fn_gw f) = Done (r, g) → fence_step f (on_gw g f)
| fn_process tx l1 l2 execute canceled f :
    gw_working (fn_gw f) = l1 ++ tx :: l2 → (canceled = false → length (gw_chan (fn_gw f)) < chanSize)%nat →
    fence_step f (on_gw (worker_process tx (l1 ++ l2) execute canceled (fn_gw f)) f)
| fn_take g f :
    (length (gw_submitting (fn_gw f)) < submitters)%nat → submitter_take (fn_gw f) = Some g → fence_step f (on_gw g f)
| fn_submitted t l1 l2 limiter submit f :
    gw_submitting (fn_gw f) = l1 ++ t :: l2 →
    fence_step f (on_gw (submitter_done t (l1 ++ l2) (submitOne limiter submit) (fn_gw f)) f)
| fn_observe now b order f :
    order ≡ₚ map_to_list (highest (observed <$> db_Transactions b)) →
    node_block b f → fence_step f (on_gw (Handle_gate now order (fn_gw f)) f)
| fn_handle b f : node_block b f → fence_step f (block_seen b f)
| fn_prime h f : fence_step f (prime_submit h f)
| fn_background q f :
    ti_background (gw_queue (fn_gw f)) q →
    fence_step f (on_gw (set_gate q (gw_gate (fn_gw f)) (gw_reading (fn_gw f)) (fn_gw f)) f).

Definition fence_start (q0 : Q) : fenced :=
  {| fn_gw := New q0; fn_rewinding := false; fn_phase := NoRewind; fn_priming := [] |}.
Definition fence_reachable (q0 : Q) (f : fenced) : Prop := rtc fence_step (fence_start q0) f.
End fence.
Arguments fenced {_ _} _ _.

(** What the fence relies on: a queue that counts nothing in flight has nothing pending. *)
Class TxQueueCounts (G : GethTypes) (T : EthTxTypes G) (E Q : Type) (I : TxQueueInterface G T E Q)
    (QL : TxQueueLaws G T E Q I) := {
  inflight_none q t h : ti_ok q t → ti_InFlight q ≤ 0 → ti_IsPending h q = None
}.

#[export] Instance fifo_counts {G : GethTypes} {T : EthTxTypes G} {TL : EthTxLaws G T} {E : Type}
    : TxQueueCounts G T E TxQueue (fifo_interface E) fifo_laws.
Proof.
  constructor. simpl. intros q t h [Hi _] Hz. unfold InFlight in Hz. unfold q_IsPending.
  assert (inProgressMap q = ∅) as -> by (apply map_size_empty_iff; lia). rewrite lookup_empty.
  destruct (queuedMap q !! h) as [tx|] eqn:Hq; [|done]. apply (fi_mirror _ Hi) in Hq as [Hq _].
  destruct (pendingQueue q); [by apply not_elem_of_nil in Hq|simpl in Hz; lia].
Qed.

#[export] Instance v2_counts {G : GethTypes} {T : EthTxTypes G} {TL : EthTxLaws G T} {A : TxAccess G T}
    {E : Type} (range : gset nat → list nat) (Hr : ∀ s, range s ≡ₚ elements s)
    : TxQueueCounts G T E TxQueueV2 (v2_interface range E) (v2_laws range Hr).
Proof.
  constructor. simpl. intros q t h [Hi _] Hz. unfold v2_InFlight in Hz.
  destruct (v2_IsPending h q) as [tx|] eqn:Hp; [|done].
  apply isPending_spec in Hp as (p & e & [Hh _] & <- & _); [|done].
  assert (hashMap q = ∅) as He by (apply map_size_empty_iff; lia). by rewrite He, lookup_empty in Hh.
Qed.

#[export] Instance dep_counts {G : GethTypes} {GL : GethLaws G} {HL : HexLaws G} {T : EthTxTypes G} {TL : EthTxLaws G T}
    {D : DepTypes} : TxQueueCounts G T Endorsement DepGraphProps.sys dep_interface dep_laws.
Proof.
  constructor. simpl. intros s t h _ Hz. unfold dg_InFlight in Hz. unfold dg_IsPending.
  assert (dq_tracked (s_q s) = ∅) as -> by (apply map_size_empty_iff; lia). by rewrite lookup_empty.
Qed.

(** ** The fence at work *)

Section exclusion.
Context {G : GethTypes} {T : EthTxTypes G} {TL : EthTxLaws G T} {C : EthCodec G T}.
Context {A : TxAccess G T} {P : TxPool G T}.
Context {E Q : Type} {I : TxQueueInterface G T E Q} {QL : TxQueueLaws G T E Q I} {QN : TxQueueCounts G T E Q I QL}.
Context (cfg : gate_config) (workers submitters chanSize : nat).

Notation step := (fence_step cfg workers submitters chanSize).

Definition nothing_pending (g : Gateway E Q) : Prop := ∀ h, ti_IsPending h (gw_queue g) = None.

Record fence_ok (f : fenced E Q) : Prop := {
  fo_gw : gw_ok (fn_gw f);
  fo_own : gw_foreign (fn_gw f) = [];
  fo_phase :
    match fn_phase f with
    | NoRewind => fn_rewinding f = false
    | Draining => fn_rewinding f = true ∧ gw_reading (fn_gw f) = []
    | Exclusive => fn_rewinding f = true ∧ gw_reading (fn_gw f) = [] ∧ nothing_pending (fn_gw f)
    end
}.

(** A queue with nothing pending has handed nothing out. *)
Lemma idle_held g : gw_ok g → nothing_pending g → held g = [].
Proof.
  intros [_ Hok] Hn. destruct (held g) as [|h hs] eqn:Hh; [done|].
  destruct (law_taken _ _ h Hok) as [tx Htx]; [apply elem_of_list_to_set; left|]. by rewrite Hn in Htx.
Qed.

Lemma idle_places g :
  gw_ok g → nothing_pending g →
  gw_working g = [] ∧ gw_chan g = [] ∧ gw_submitting g = [] ∧ gw_ordered g = [].
Proof.
  intros Hok Hn. pose proof (idle_held g Hok Hn) as Hh. unfold held in Hh.
  apply app_eq_nil in Hh as [H1 Hh]. apply app_eq_nil in Hh as [H2 Hh]. apply app_eq_nil in Hh as [H3 H4].
  by apply fmap_nil_inv in H1, H2, H3.
Qed.

(** Steps that leave the reader alone and bring nothing new into the queue. *)
Lemma fence_ok_gw g f :
  fence_ok f → gw_ok g → gw_foreign g = [] → gw_reading g = gw_reading (fn_gw f) →
  (fn_phase f = Exclusive → nothing_pending (fn_gw f) → nothing_pending g) → fence_ok (on_gw g f).
Proof. intros [Hg Ho Hp] H1 H1' H2 H3. split; [done..|]. simpl. rewrite H2. destruct (fn_phase f); naive_solver. Qed.

Lemma fence_dequeue_ok r g f :
  worker_Dequeue (fn_gw f) = Done (r, g) → fence_ok f → gw_ok g → gw_foreign g = [] → fence_ok (on_gw g f).
Proof.
  intros He Hok Hg Hf. unfold worker_Dequeue in He. destruct (law_dequeue _ _ (proj2 (fo_gw _ Hok))) as (r' & q & Hd & Hq & _).
  rewrite Hd in He. destruct r'; injection He as <- <-; apply fence_ok_gw; try done;
    intros _ Hn h; simpl; by rewrite Hq.
Qed.

(** Observing a sender without parked transactions enqueues nothing. *)
Lemma observe_idle ans now from n gate :
  idle_sender from gate →
  g_calls (observe_sender ans now gate (from, n)) = g_calls gate ∧
  ∀ a, idle_sender a gate → idle_sender a (observe_sender ans now gate (from, n)).
Proof.
  intros Hi. unfold observe_sender, acquire.
  set (ss := default fresh_sender (g_senders gate !! from)).
  assert (ss_parked ss = ∅) as Hp by (unfold ss; destruct (g_senders gate !! from) eqn:Es; [by apply Hi|done]).
  simpl. rewrite Hp, map_to_list_empty. unfold promote, drop_spent, unpark. simpl.
  rewrite lookup_insert_eq. simpl. rewrite Hp, lookup_empty. unfold release. simpl. rewrite lookup_insert_eq. simpl.
  assert (∀ a m s', ss_parked s' = ∅ → (∀ x, a ≠ from → m !! a = Some x → ss_parked x = ∅) →
    idle_sender a {| g_senders := <[from := s']> m; g_byHash := g_byHash gate; g_calls := g_calls gate |}) as Hset.
  { intros a m s' Hs Hm x Hx. simpl in Hx. apply lookup_insert_Some in Hx as [[_ <-]|[Hne Hx]]; [done|]. by apply (Hm x). }
  destruct (_ || _); simpl; split; try done; intros a Ha.
  - apply Hset; [done|]. intros x Hne Hx. simpl in Hx. rewrite !lookup_insert_ne in Hx by done. by apply Ha.
  - intros x Hx. simpl in Hx. apply lookup_delete_Some in Hx as [Hne Hx]. simpl in Hx. rewrite !lookup_insert_ne in Hx by done. by apply Ha.
Qed.

Lemma Observe_idle ans now order : ∀ gate,
  (∀ p, p ∈ order → idle_sender p.1 gate) → g_calls (Observe ans now order gate) = g_calls gate.
Proof.
  induction order as [|[from n] order IH]; intros gate Hall; [done|]. simpl.
  destruct (observe_idle ans now from n gate) as [Hc Hk]; [apply (Hall (from, n)); left|].
  rewrite IH; [done|]. intros p Hp. apply Hk, Hall. by right.
Qed.

Lemma highest_from cs from n : (from, n) ∈ map_to_list (highest cs) → ∃ c, c ∈ cs ∧ ct_From c = from.
Proof.
  rewrite elem_of_map_to_list. unfold highest.
  assert (∀ cs m, foldl highest_step m cs !! from = Some n → is_Some (m !! from) ∨ ∃ c, c ∈ cs ∧ ct_From c = from) as H.
  { clear. induction cs as [|c cs IH]; intros m Hm; [left; by exists n|].
    destruct (IH _ Hm) as [Hs|(c' & Hc' & He)]; [|right; exists c'; split; [by right|done]].
    destruct (decide (ct_From c = from)) as [He|Hne]; [right; exists c; split; [left|done]|left].
    unfold highest_step in Hs. repeat case_match; simplify_eq/=; rewrite ?lookup_insert_ne in Hs by done; done. }
  intros Hh. destruct (H cs ∅ Hh) as [[x Hx]|Hc]; [by rewrite lookup_empty in Hx|done].
Qed.

(** While a rewind has the ledger to itself, blocks release nothing. *)
Lemma fence_observe_ok now b order f :
  order ≡ₚ map_to_list (highest (observed <$> db_Transactions b)) → node_block b f →
  fence_ok f → gw_ok (Handle_gate now order (fn_gw f)) → fence_ok (on_gw (Handle_gate now order (fn_gw f)) f).
Proof.
  intros Ho Hb Hok Hg. apply fence_ok_gw; [done|done|apply Hok|done|]. intros Hph Hn.
  destruct (idle_places _ (fo_gw _ Hok) Hn) as (_ & _ & _ & Hord).
  intros h. simpl. unfold new_calls. rewrite Observe_idle.
  - rewrite drop_all. apply Hn.
  - intros [from n] Hp. rewrite Ho in Hp. apply highest_from in Hp as (c & Hc & <-).
    apply list_elem_of_fmap in Hc as (tx & -> & Htx). destruct (Hb tx Htx) as [Hin|(_ & _ & Hidle)]; [|done].
    rewrite Hord in Hin. by apply not_elem_of_nil in Hin.
Qed.

Lemma node_block_own b f : node_block b f → foreign_hashes b (fn_gw f) = [].
Proof.
  intros Hb. unfold foreign_hashes. destruct (filter _ _) as [|h hs] eqn:Hf; [done|].
  assert (h ∈ h :: hs) as Hin by left. rewrite <-Hf in Hin. apply list_elem_of_filter in Hin as [[Hp Ho] Hin].
  apply list_elem_of_fmap in Hin as (tx & -> & Htx). destruct (Hb tx Htx) as [Hor|(_ & Hno & _)]; [done|].
  rewrite Hno in Hp. by destruct Hp.
Qed.

Lemma fence_handle_ok b f :
  fence_ok f → node_block b f → gw_ok (Handle_queue b (fn_gw f)) → fence_ok (block_seen b f).
Proof.
  intros Hok Hb Hg. pose proof Hok as [Hg0 Hf0 Hp]. split; simpl; [done| |].
  - by rewrite (node_block_own b f Hb), Hf0.
  - destruct (fn_phase f); [done..|]. destruct Hp as (H1 & H2 & Hn). split_and!; [done..|]. intros h. simpl.
    destruct (law_handle _ _ b (proj2 Hg0)) as [_ Hv].
    { intros h' _ Hp. rewrite Hn in Hp. by destruct Hp. }
    rewrite Hv. case_decide; [done|apply Hn].
Qed.

Lemma fence_step_gw f f' : step f f' →
  rtc (gw_step cfg workers submitters chanSize) (fn_gw f) (fn_gw f') ∨ fn_gw f' = ResetNonces (fn_gw f).
Proof.
  destruct 1; simpl; try (left; apply rtc_refl); try (by right); left; apply rtc_once.
  - by eapply gs_admit.
  - eapply (gs_resume _ _ _ _ now from tx seed [] []); done.
  - by eapply gs_prune.
  - by eapply gs_dequeue.
  - by apply gs_process.
  - by apply gs_submit.
  - by apply gs_submitted.
  - by eapply (gs_observe _ _ _ _ now b).
  - apply gs_handle.
  - by apply gs_background.
Qed.

Lemma fence_step_own f f' : step f f' → gw_foreign (fn_gw f) = [] → gw_foreign (fn_gw f') = [].
Proof.
  intros Hst Ho. destruct Hst as [now tx ph g f _ _ _ He|now from tx seed e g f _ He|f _ _|w f _ _|w e f _ _|f _|f _
    |now range gate f _ _|r g f _ He|tx l1 l2 ex ca f _ _|g f _ He|t l1 l2 li su f _|now b order f _ _|b f Hb|h f|q f _];
    simpl; try done.
  - unfold Admit in He. by repeat case_match; simplify_eq/=.
  - unfold Admit_resume in He. by repeat case_match; simplify_eq/=.
  - unfold worker_Dequeue in He. by repeat case_match; simplify_eq/=.
  - unfold worker_process. by repeat case_match.
  - unfold submitter_take in He. by repeat case_match; simplify_eq/=.
  - unfold submitter_done. by case_match.
  - by rewrite (node_block_own b f Hb), Ho.
Qed.

Lemma fence_step_gw_ok f f' :
  step f f' → gw_foreign (fn_gw f) = [] → gw_ok (fn_gw f) → gw_ok (fn_gw f').
Proof.
  intros Hst Ho Hok. pose proof (fence_step_own f f' Hst Ho) as Ho'.
  destruct (fence_step_gw f f' Hst) as [Hr| ->]; [|done]. revert Ho'.
  pattern (fn_gw f'). eapply rtc_ind_r; [| |exact Hr]; [done|]. intros x y _ Hxy IH Hy.
  eapply gw_step_ok; [done..|]. apply IH. by eapply gw_step_own.
Qed.

Lemma fence_step_ok f f' : step f f' → fence_ok f → fence_ok f'.
Proof.
  intros Hst Hok. pose proof (fence_step_gw_ok f f' Hst (fo_own _ Hok) (fo_gw _ Hok)) as Hg.
  pose proof (fence_step_own f f' Hst (fo_own _ Hok)) as Ho'. pose proof (fo_phase _ Hok) as Hp.
  destruct Hst as [now tx ph g f Hrw Hrd _ He|now from tx seed e g f Hrd He|f Hph Hrd|w f Hph Hd|w e f Hph Hd|f Hph|f Hph
    |now range gate f _ _|r g f _ He|tx l1 l2 ex ca f Hw _|g f _ He|t l1 l2 li su f Hs|now b order f Ho Hb|b f Hb|h f|q f Hb].
  - split; [done..|]. simpl. destruct (fn_phase f); naive_solver congruence.
  - split; [done..|]. simpl. rewrite Hrd in Hp. destruct (fn_phase f); naive_solver.
  - split; [done..|]. by simpl.
  - split; [done..|]. simpl. rewrite Hph in Hp. split_and!; [apply Hp..|]. intros h.
    unfold drain_round in Hd. destruct (Z.ltb_spec 0 (ti_InFlight (gw_queue (fn_gw f)))); [by destruct w|].
    by eapply inflight_none; [apply Hok|].
  - by split.
  - by split.
  - by split.
  - by apply fence_ok_gw.
  - by eapply fence_dequeue_ok.
  - apply fence_ok_gw; [done..| |]; [unfold worker_process; by repeat case_match|]. intros _ Hn.
    destruct (idle_places _ (fo_gw _ Hok) Hn) as (Hw0 & _). rewrite Hw0 in Hw. by apply app_cons_not_nil in Hw.
  - unfold submitter_take in He. destruct (gw_chan (fn_gw f)); [done|]. injection He as <-. by apply fence_ok_gw.
  - apply fence_ok_gw; [done..| |]; [unfold submitter_done; by destruct (submitOne li su)|]. intros _ Hn.
    destruct (idle_places _ (fo_gw _ Hok) Hn) as (_ & _ & Hs0 & _). rewrite Hs0 in Hs. by apply app_cons_not_nil in Hs.
  - by eapply fence_observe_ok.
  - by apply fence_handle_ok.
  - by split.
  - apply fence_ok_gw; [done..|]. intros _ Hn h. simpl.
    destruct (law_background _ _ _ Hb (proj2 (fo_gw _ Hok))) as (_ & _ & Hback).
    destruct (ti_IsPending h q) as [tx|] eqn:Hq; [|done]. apply Hback in Hq. by rewrite Hn in Hq.
Qed.

(** C15: A rewind is free of client transactions.  From the moment [beginRewind]
    returned until [endRewind], whatever clients, workers, submitters, hardhat
    directives and blocks do meanwhile: every submission through the fence is
    rejected, nothing is pending in the queue, no worker, channel or submitter
    holds a transaction, and none the gateway got ordered, parked ones released by
    the last commit included, is still to come.  What a block can bring meanwhile
    are priming transactions, which go to the orderer around the fence.  This is
    for a node that is the only gateway of its network and whose clients do not
    use the primer's key. *)
Theorem rewind_exclusive q0 f :
  ti_ok q0 ∅ → fence_reachable cfg workers submitters chanSize q0 f → fn_phase f = Exclusive →
  (∀ X (enqueue : result string X), fence_submit (fn_rewinding f) enqueue = Err errFenced) ∧
  gw_reading (fn_gw f) = [] ∧ nothing_pending (fn_gw f) ∧ held (fn_gw f) = [] ∧
  (∀ b tx, node_block b f → tx ∈ db_Transactions b → block_hash tx ∈ fn_priming f).
Proof.
  intros H0 Hr Hph. assert (fence_ok f) as [Hg Ho Hp].
  { pattern f. eapply rtc_ind_r; [| |exact Hr].
    - split; [split; [constructor|exact H0]|done|done].
    - intros x y _ Hst IH. by eapply fence_step_ok. }
  rewrite Hph in Hp. destruct Hp as (-> & Hrd & Hn). split_and!; [done..|by apply idle_held|].
  intros b tx Hb Htx. destruct (Hb tx Htx) as [Hor|[Hor _]]; [|done].
  destruct (idle_places _ Hg Hn) as (_ & _ & _ & Hnil). rewrite Hnil in Hor. by apply not_elem_of_nil in Hor.
Qed.
End exclusion.

(** ** Concrete runs *)

Section runs.
Context {G : GethTypes} {T : EthTxTypes G} {C : EthCodec G T} {A : TxAccess G T} {P : TxPool G T}.
Context {E Q : Type} {I : TxQueueInterface G T E Q} (cfg : gate_config) (cap : nat).

Inductive fmove :=
| FAdmit (tx : EthTx)
| FResume (seed : option Z)
| FBegin
| FDrained
| FDequeue
| FProcess (execute : result string E)
| FTake
| FSubmitted
| FPrime (h : Hash)
| FBlock (b : DBlock).

(** [node_block], for one transaction and decidable. *)
Definition from_node (tx : DTransaction) (f : fenced E Q) : Prop :=
  block_hash tx ∈ gw_ordered (fn_gw f) ∨
  block_hash tx ∈ fn_priming f ∧ ti_IsPending (block_hash tx) (gw_queue (fn_gw f)) = None ∧
  match g_senders (gw_gate (fn_gw f)) !! ct_From (observed tx) with Some ss => ss_parked ss = ∅ | None => True end.

#[global] Instance from_node_dec tx f : Decision (from_node tx f).
Proof. unfold from_node. destruct (g_senders _ !! _); apply _. Defined.

Lemma from_node_block b f : Forall (λ tx, from_node tx f) (db_Transactions b) → node_block b f.
Proof.
  rewrite Forall_forall. intros H tx Htx. destruct (H tx Htx) as [Ho|(Hp & Hn & Hi)]; [by left|right].
  split_and!; [done..|]. intros ss Hss. by rewrite Hss in Hi.
Qed.

Definition fexec (m : fmove) (f : fenced E Q) : option (fenced E Q) :=
  let g := fn_gw f in
  match m with
  | FAdmit tx =>
      if decide (fn_rewinding f = false ∧ gw_reading g = [] ∧ ValidateTx tx = None)
      then Some (on_gw (Admit cfg 0 tx g).2 f) else None
  | FResume seed =>
      match gw_reading g with
      | [(from, tx)] =>
          match Admit_resume cfg 0 from tx seed [] g with Done (_, g') => Some (on_gw g' f) | Panic _ => None end
      | _ => None
      end
  | FBegin =>
      match fn_phase f with
      | NoRewind => if decide (gw_reading g = []) then Some (beginRewind f) else None
      | _ => None
      end
  | FDrained =>
      match fn_phase f, drain_round (ti_InFlight (gw_queue g)) Tick with
      | Draining, Some None => Some (drained f)
      | _, _ => None
      end
  | FDequeue =>
      if decide (length (gw_working g) < cap)%nat
      then match worker_Dequeue g with Done (_, g') => Some (on_gw g' f) | Panic _ => None end else None
  | FProcess execute =>
      match gw_working g with
      | tx :: rest =>
          if decide (length (gw_chan g) < cap)%nat then Some (on_gw (worker_process tx rest execute false g) f) else None
      | [] => None
      end
  | FTake =>
      if decide (length (gw_submitting g) < cap)%nat
      then (λ g', on_gw g' f) <$> submitter_take g else None
  | FSubmitted =>
      match gw_submitting g with
      | t :: rest => Some (on_gw (submitter_done t rest (submitOne None None) g) f)
      | [] => None
      end
  | FPrime h => Some (prime_submit h f)
  | FBlock b =>
      if decide (Forall (λ tx, from_node tx f) (db_Transactions b))
      then let f1 := on_gw (Handle_gate 0 (map_to_list (highest (observed <$> db_Transactions b))) g) f in
           if decide (Forall (λ tx, from_node tx f1) (db_Transactions b)) then Some (block_seen b f1) else None
      else None
  end.

Lemma fexec_steps m f f' : fexec m f = Some f' → rtc (fence_step cfg cap cap cap) f f'.
Proof.
  destruct m; simpl; intros He; repeat case_match; simplify_eq/=.
  - destruct (Admit cfg 0 tx (fn_gw f)) as [ph g'] eqn:Ha. destruct_and!. apply rtc_once. by eapply fn_admit.
  - apply rtc_once. by eapply (fn_resume _ _ _ _ 0 a e seed).
  - apply rtc_once. by apply fn_begin.
  - apply rtc_once. by apply (fn_drained _ _ _ _ Tick).
  - apply rtc_once. by eapply fn_dequeue.
  - apply rtc_once. by apply (fn_process _ _ _ _ e [] l).
  - apply fmap_Some in He as (g & Hg & ->). apply rtc_once. by apply fn_take.
  - apply rtc_once. by apply (fn_submitted _ _ _ _ p [] l None None).
  - apply rtc_once, fn_prime.
  - eapply rtc_l; [apply (fn_observe _ _ _ _ 0 b); [done|by apply from_node_block]|].
    apply rtc_once. apply fn_handle. by apply from_node_block.
Qed.

Fixpoint fexecs (ms : list fmove) (f : fenced E Q) : option (fenced E Q) :=
  match ms with
  | [] => Some f
  | m :: ms => f' ← fexec m f; fexecs ms f'
  end.

Lemma fexecs_steps ms : ∀ f f', fexecs ms f = Some f' → rtc (fence_step cfg cap cap cap) f f'.
Proof.
  induction ms as [|m ms IH]; intros f f' He; simpl in He; [injection He as <-; apply rtc_refl|].
  apply bind_Some in He as (f1 & H1 & H2). etrans; [by eapply fexec_steps|by apply IH].
Qed.
End runs.

Module Drill.
#[local] Existing Instances four_types four_txs demo_codec four_access any_pool.

(** A rewind starts with one transaction queued and waits until its block came. *)
Definition moves : list (fmove (E := Z)) :=
  [FAdmit tx4; FResume (Some 4); FBegin; FDequeue; FProcess (Ok 7); FTake; FSubmitted; FBlock Fifo.commit_tx4; FDrained].

Definition start_at : fenced Z TxQueue := fence_start NewTxQueue.
Definition quiet : fenced Z TxQueue := default start_at (fexecs (I := fifo_interface Z) cfg64 4 moves start_at).

Lemma quiet_reachable : fence_reachable (I := fifo_interface Z) cfg64 4 4 4 NewTxQueue quiet.
Proof. apply (fexecs_steps (I := fifo_interface Z) cfg64 4 moves). vm_compute. reflexivity. Qed.

Lemma rewind_exclusive_witness :
  (fn_phase <$> fexecs (I := fifo_interface Z) cfg64 4 (take 7 moves) start_at) = Some Draining ∧
  fn_phase quiet = Exclusive ∧ held (fn_gw quiet) = [].
Proof.
  split; [vm_compute; reflexivity|]. split; [vm_compute; reflexivity|].
  exact (proj1 (proj2 (proj2 (proj2 (rewind_exclusive (QL := fifo_laws) (QN := fifo_counts) cfg64 4 4 4 NewTxQueue quiet
    Fifo.new_ok quiet_reachable ltac:(vm_compute; reflexivity)))))).
Defined.

(** *** A priming transaction lands in the middle of a rewind

    [txFence] says that draining the queue drains everything that could still
    land.  A hardhat directive sends its priming transaction to the orderer itself. *)
Definition primed : list (fmove (E := Z)) := moves ++ [FPrime (Tx_Hash tx4); FBlock Fifo.commit_tx4].

Lemma priming_lands :
  fn_phase quiet = Exclusive ∧
  (fn_phase <$> fexecs (I := fifo_interface Z) cfg64 4 primed start_at) = Some Exclusive ∧
  db_Transactions Fifo.commit_tx4 ≠ [].
Proof. split; [vm_compute; reflexivity|]. split; [vm_compute; reflexivity|done]. Qed.
End Drill.
