(* ===== verification/Evm.v ===== *)
(** * Evm: evm_snapshot and evm_revert

    [EvmAPI] of gateway/testimpl/hardhat_helpers.go over the endorser's store
    ([RevertibleLightKVS]) and the chain's ([SnapshotStore]), with the start of
    a test node (gateway/app/testnode.go, fund_accounts.go).  Blocks reach both
    stores, the endorser's first.  Reverting to any live snapshot brings back
    what both stores held when it was taken; the chain's memory of its last
    hash is not brought back. *)

From Stdlib Require Import ZArith Lia HexString.
From stdpp Require Import base numbers list sorting gmap sets strings relations.
From S2P Require Import Prelude Blocks Geth Domain Convert Store StoreProps Trie Chain.
From S2P Require Import KVSpec KVHistory LightKVS RevertibleKVS.

Local Open Scope Z_scope.

(** [fmt.Sprintf("0x%x", n)]. *)
Definition snapshotID (n : Z) : string := HexString.of_N (Z.to_N n).

Lemma snapshotID_inj m n : 0 ≤ m → 0 ≤ n → snapshotID m = snapshotID n → m = n.
Proof.
  intros Hm Hn He. apply (f_equal HexString.to_N) in He. unfold snapshotID in He.
  rewrite !HexString.to_N_of_N in He. lia.
Qed.

Inductive rewind_error :=
| DrainError (e : string)
| InvalidSnapshotID (id : string)
| KVSRevertError (n : Z)
| StoreRevertError (e : revert_error).

Section evm.
Context {G : GethTypes} {GL : GethLaws G} {T : EthTxTypes G} {C : EthCodec G T} {W : Wire} {D : Driver}
  {S : StateTrie G}.

Record EvmAPI := {
  ev_lightKVS : LightKVS;
  ev_chain : Chain;
  ev_snapshots : gmap string Z
}.

Definition set_store (s : Store) (c : Chain) : Chain :=
  {| ch_Store := s; ch_ts := ch_ts c; ch_prevHash := ch_prevHash c |}.

(** [Snapshot], given what [beginRewind] answers. *)
Definition evm_Snapshot (drain : option string) (api : EvmAPI) : result rewind_error string * EvmAPI :=
  match drain with
  | Some e => (Err (DrainError e), api)
  | None =>
      let blockNumber := Store.Snapshot (ch_Store (ev_chain api)) in
      let id := snapshotID blockNumber in
      (Ok id, {| ev_lightKVS := ev_lightKVS api; ev_chain := ev_chain api;
                 ev_snapshots := <[id := blockNumber]> (ev_snapshots api) |})
  end.

(** [Revert]; the chain embeds the store that is reverted. *)
Definition evm_Revert (drain : option string) (id : string) (api : EvmAPI)
    : outcome (result rewind_error bool * EvmAPI) :=
  match drain with
  | Some e => Done (Err (DrainError e), api)
  | None =>
      match ev_snapshots api !! id with
      | None => Done (Err (InvalidSnapshotID id), api)
      | Some blockNumber =>
          match RevertibleKVS.RevertToBlock blockNumber (ev_lightKVS api) with
          | Panic msg => Panic msg
          | Done (Some n, kvs) =>
              Done (Err (KVSRevertError n),
                    {| ev_lightKVS := kvs; ev_chain := ev_chain api; ev_snapshots := ev_snapshots api |})
          | Done (None, kvs) =>
              match Store.RevertToBlock (ch_Store (ev_chain api)) blockNumber with
              | (s, Some e) =>
                  Done (Err (StoreRevertError e),
                        {| ev_lightKVS := kvs; ev_chain := set_store s (ev_chain api);
                           ev_snapshots := ev_snapshots api |})
              | (s, None) =>
                  Done (Ok true,
                        {| ev_lightKVS := kvs; ev_chain := set_store s (ev_chain api);
                           ev_snapshots := filter (λ p, ¬ blockNumber < p.2) (ev_snapshots api) |})
              end
          end
      end
  end.

(** The synchronizer's handlers in their order, each run after the one before
    it succeeded. *)
Definition deliver_both (b : Block) (api : EvmAPI) : option EvmAPI :=
  match rev_Handle b (ev_lightKVS api) with
  | Done (None, kvs) =>
      match Chain_Handle (ev_chain api) b with
      | (c, None) => Some {| ev_lightKVS := kvs; ev_chain := c; ev_snapshots := ev_snapshots api |}
      | _ => None
      end
  | _ => None
  end.

(** The block [FundTestAccounts] commits to the endorser's store alone. *)
Definition funding_block (blockNum : Z) (namespace : string) (rws : ReadWriteSet) : Block := {|
  b_Number := blockNum; b_Hash := []; b_ParentHash := []; b_Timestamp := 0;
  b_Transactions := [{|
    tx_ID := "test-account-funding"; tx_Number := 0; tx_Status := StatusCommitted;
    tx_NsRWS := [{| ns_Namespace := namespace; ns_RWS := rws |}];
    tx_EventName := ""; tx_Event := []; tx_InputArgs := []; tx_Payload := [] |}] |}.

(** [NewTestNode]: a store with room for [historySize] snapshots, funded, and a
    chain with its genesis block. *)
Definition NewTestNode (historySize : Z) (namespace : string) (rws : ReadWriteSet) (genesisHash : Hash)
    : option EvmAPI :=
  match NewLightKVS historySize, NewChain empty_db None with
  | Done kvs, Ok c =>
      let kvs := NewRevertibleLightKVS kvs in
      match rev_Handle (funding_block (sn_BlockNumber (Current kvs)) namespace rws) kvs,
            EnsureGenesisBlock c genesisHash with
      | Done (None, kvs), (c, None) => Some {| ev_lightKVS := kvs; ev_chain := c; ev_snapshots := ∅ |}
      | _, _ => None
      end
  | _, _ => None
  end.

(** The node with the number of the last block of the ledger, which no revert
    lowers.  A full history forgets its oldest snapshot. *)
Inductive evm_step : EvmAPI * Z → EvmAPI * Z → Prop :=
| es_block b api high api' :
    is_u64 (b_Number b) → high < b_Number b →
    deliver_both b api = Some api' → evm_step (api, high) (api', b_Number b)
| es_snapshot drain r api high api' :
    evm_Snapshot drain api = (r, api') → evm_step (api, high) (api', high)
| es_revert drain id r api high api' :
    evm_Revert drain id api = Done (r, api') → evm_step (api, high) (api', high).

(** Steps among which are [n] blocks. *)
Inductive evm_run (x : EvmAPI * Z) : nat → EvmAPI * Z → Prop :=
| er_start : evm_run x 0 x
| er_step n y z :
    evm_run x n y → evm_step y z → evm_run x (if bool_decide (y.2 = z.2) then n else Datatypes.S n) z.
End evm.
Arguments EvmAPI {_ _}.

(** ** What a snapshot remembers *)

(** Rows above [n] go, whatever they are. *)
Lemma ext_above_weaken m n db db' : m ≤ n → ext_above n db db' → ext_above m db db'.
Proof.
  intros Hmn [(bs & Hb & Fb) (ts & Ht & Ft) (ls & Hl & Fl)].
  split; eexists; (split; [eassumption|]); (eapply Forall_impl; [eassumption|simpl; lia]).
Qed.

Lemma filter_app_above {X} (f : X → Z) m n (l k : list X) :
  m ≤ n → Forall (λ r, ¬ m < f r) l → Forall (λ r, m < f r) k →
  ∃ k', filter (λ r, ¬ n < f r) (l ++ k) = l ++ k' ∧ Forall (λ r, m < f r) k'.
Proof.
  intros Hmn Hl Hk. exists (filter (λ r, ¬ n < f r) k). rewrite filter_app. split.
  - f_equal. rewrite filter_every; [done|]. intros x Hx. eapply Forall_forall in Hl; [|exact Hx]. simpl in Hl. lia.
  - by apply Forall_filter_list.
Qed.

(** A store reverted to [n] still extends the ones of earlier heights. *)
Lemma ext_above_truncate m n s db :
  store_wf s → st_CachedBlockNumber s = m → m ≤ n → ext_above m (st_db s) db → ext_above m (st_db s) (truncate n db).
Proof.
  intros Hwf Hm Hmn [(bs & Hb & Fb) (ts & Ht & Ft) (ls & Hl & Fl)].
  destruct (rows_below s Hwf) as (Ob & Ot & Ol). rewrite Hm in *.
  split; simpl; rewrite ?Hb, ?Ht, ?Hl; by apply filter_app_above.
Qed.

(** Nothing lies above the tip. *)
Lemma ext_above_tip s s' :
  store_wf s' → st_CachedBlockNumber s = st_CachedBlockNumber s' →
  ext_above (st_CachedBlockNumber s) (st_db s) (st_db s') → s' = s.
Proof.
  intros Hwf Hc [(bs & Hb & Fb) (ts & Ht & Ft) (ls & Hl & Fl)].
  destruct (rows_below s' Hwf) as (Ob & Ot & Ol). rewrite Hb, Ht, Hl, <-Hc in *.
  apply Forall_app in Ob as [_ Ob], Ot as [_ Ot], Ol as [_ Ol].
  assert (∀ X (f : X → Z) k, Forall (λ r, st_CachedBlockNumber s < f r) k →
    Forall (λ r, ¬ st_CachedBlockNumber s < f r) k → k = []) as Hnil.
  { intros X f k H1 H2. destruct k; [done|]. apply Forall_cons in H1 as [? _], H2 as [? _]. done. }
  rewrite (Hnil _ _ _ Fb Ob), (Hnil _ _ _ Ft Ot), (Hnil _ _ _ Fl Ol), !app_nil_r in *.
  destruct s as [[? ? ?] ?], s' as [[? ? ?] ?]; simpl in *. by subst.
Qed.

(** [RevertToBlock] of the store, back to a store it extends. *)
Lemma store_revert_ext s0 s :
  store_wf s0 → store_wf s → st_CachedBlockNumber s0 ≤ st_CachedBlockNumber s →
  ext_above (st_CachedBlockNumber s0) (st_db s0) (st_db s) →
  Store.RevertToBlock s (st_CachedBlockNumber s0) = (s0, None).
Proof.
  intros H0 Hs Hle Hext. unfold Store.RevertToBlock.
  destruct (Z.ltb_spec (st_CachedBlockNumber s) (st_CachedBlockNumber s0)); [lia|].
  destruct (Z.eqb_spec (st_CachedBlockNumber s0) (st_CachedBlockNumber s)) as [He|Hne].
  { by rewrite (ext_above_tip s0 s). }
  unfold bind_u64. destruct (tip_range s0 H0) as [_ Hr].
  destruct (Z.ltb_spec (st_CachedBlockNumber s0) (2 ^ 63)); [|lia].
  change (mbind ?f (Ok ?n)) with (f n). cbn beta.
  rewrite (del_all_restores s0 (st_db s) H0 (proj1 Hs) Hext). by destruct s0.
Qed.

Section snapshots.
Context {G : GethTypes} {GL : GethLaws G} {T : EthTxTypes G} {C : EthCodec G T} {W : Wire} {D : Driver}
  {S : StateTrie G}.

Implicit Types api : EvmAPI.

Definition shown (kvs : LightKVS) (k : string) : option byte_slice := visible (sn_Data (Current kvs) !! k).

(** The snapshots the endorser's store can show, oldest first. *)
Definition held (kvs : LightKVS) : list Snapshot := omap id (History kvs) ++ [Current kvs].

Definition in_window (n : Z) (kvs : LightKVS) : Prop := ∃ s, s ∈ held kvs ∧ sn_BlockNumber s = n.

(** The endorser's side of a snapshot at [n]: the height is in the window, and
    shows [v0]; or the window has moved past it. *)
Definition kvs_remembers (n : Z) (v0 : string → option byte_slice) (kvs : LightKVS) : Prop :=
  n ≤ sn_BlockNumber (Current kvs) ∧ in_window n kvs ∧
  ∀ k, view (rev_NewSnapshot kvs (Some n)) k = Some (v0 k).

Definition kvs_forgot (n : Z) (kvs : LightKVS) : Prop := Forall (λ s, n < sn_BlockNumber s) (held kvs).

(** At most [k] snapshots are newer than one at [n]. *)
Definition recent (n : Z) (k : nat) (kvs : LightKVS) : Prop :=
  ∃ l1 s l2, held kvs = l1 ++ s :: l2 ∧ sn_BlockNumber s = n ∧ (length l2 ≤ k)%nat.

Lemma omap_slots len hs : omap id (slots len hs) = hs.
Proof.
  unfold slots. rewrite omap_app.
  assert (omap id (replicate (len - length hs) (@None Snapshot)) = []) as ->
    by (induction (len - length hs)%nat; [done|simpl; done]).
  rewrite app_nil_r. induction hs as [|s hs IH]; [done|]. simpl. f_equal. exact IH.
Qed.

Lemma held_inv len hs kvs : rev_inv len hs kvs → held kvs = hs ++ [Current kvs].
Proof. intros Hinv. unfold held. by rewrite (ri_hist _ _ _ Hinv), omap_slots. Qed.

(** The scan's exact match is the last one. *)
Lemma scan_last n hs :
  snd <$> (scanHistory n (Some <$> hs)).1 = last (filter (λ s, sn_BlockNumber s = n) hs).
Proof.
  induction hs as [|s hs IH] using rev_ind; [done|]. rewrite scan_snoc, filter_app.
  destruct (scanHistory n (Some <$> hs)) as [e b]. unfold scan_step. simpl in *. rewrite filter_cons, filter_nil.
  destruct (Z.eqb_spec (sn_BlockNumber s) n) as [He|He].
  - rewrite decide_True by done. by rewrite last_snoc.
  - rewrite decide_False, app_nil_r by done. by case_match.
Qed.

Lemma view_last len hs kvs n s :
  rev_inv len hs kvs → n < sn_BlockNumber (Current kvs) →
  last (filter (λ s, sn_BlockNumber s = n) hs) = Some s →
  ∀ k, view (rev_NewSnapshot kvs (Some n)) k = Some (visible (sn_Data s !! k)).
Proof.
  intros Hinv Hlt Hl k. unfold rev_NewSnapshot. destruct (Z.leb_spec (sn_BlockNumber (Current kvs)) n); [lia|].
  rewrite (ri_hist _ _ _ Hinv), scan_slots. rewrite <-scan_last in Hl.
  destruct (scanHistory n (Some <$> hs)) as [[[i t]|] b]; [|done]. by injection Hl as ->.
Qed.

Definition store_remembers (n : Z) (s0 s : Store) : Prop :=
  store_wf s0 ∧ st_CachedBlockNumber s0 = n ∧ ext_above n (st_db s0) (st_db s).

Lemma kvs_remembers_now kvs : kvs_remembers (sn_BlockNumber (Current kvs)) (shown kvs) kvs.
Proof.
  split_and!; [lia| |intros k; unfold rev_NewSnapshot; by rewrite Z.leb_refl].
  exists (Current kvs). split; [|done]. unfold held. apply elem_of_app. right. left.
Qed.

Lemma held_sorted len hs kvs : rev_inv len hs kvs → StronglySorted num_le (held kvs).
Proof. intros Hinv. rewrite (held_inv len hs) by done. apply Hinv. Qed.

(** A height is in the window, or it is not and the window has moved past it, if
    a longer list of snapshots had it. *)
Lemma window_cases n d (l : list Snapshot) :
  StronglySorted num_le l → (∃ s, s ∈ l ∧ sn_BlockNumber s = n) →
  (∃ s, s ∈ drop d l ∧ sn_BlockNumber s = n) ∨ Forall (λ s, n < sn_BlockNumber s) (drop d l).
Proof.
  intros Hso (s & Hs & Hn). destruct (decide (Exists (λ t, sn_BlockNumber t = n) (drop d l))) as [He|He].
  - left. apply Exists_exists in He as (t & Ht & Htn). by exists t.
  - right. rewrite <-Forall_Exists_neg in He. rewrite <-(take_drop d l) in Hs, Hso.
    apply elem_of_app in Hs as [Hs|Hs]; [|rewrite Forall_forall in He; by destruct (He s Hs)].
    apply Forall_forall. intros t Ht. rewrite Forall_forall in He.
    pose proof (StronglySorted_app_1_elem_of _ _ _ s t Hso Hs Ht) as Hle. unfold num_le in Hle. specialize (He t Ht). lia.
Qed.

(** A block above the tip pushes the old tip into the window. *)
Lemma kvs_block len hs kvs b :
  rev_inv len hs kvs → sn_BlockNumber (Current kvs) < b_Number b →
  ∃ kvs' hs', rev_Handle b kvs = Done (None, kvs') ∧ rev_inv len hs' kvs' ∧
    hs' = drop (Datatypes.S (length hs) - len) (held kvs) ∧ sn_BlockNumber (Current kvs') = b_Number b.
Proof.
  intros Hinv Hb. unfold rev_Handle.
  destruct (Z.ltb_spec (b_Number b) (sn_BlockNumber (Current kvs))) as [?|_]; [lia|].
  destruct (Z.eqb_spec (b_Number b) (sn_BlockNumber (Current kvs))) as [?|_]; [lia|]. rewrite !andb_false_r.
  destruct (applyBlockSequential_inv len hs kvs (b_Number b) (blockUpdates b) Hinv) as (kvs' & -> & Hinv' & Hc); [lia|].
  exists kvs', (push_history len hs (Current kvs)). rewrite Hc. split_and!; [done..| |done].
  unfold push_history. by rewrite (held_inv len hs).
Qed.

(** What the block does to a height below it. *)
Lemma kvs_block_keeps len hs hs' kvs kvs' n v0 :
  rev_inv len hs kvs → rev_inv len hs' kvs' → hs' = drop (Datatypes.S (length hs) - len) (held kvs) →
  sn_BlockNumber (Current kvs) < sn_BlockNumber (Current kvs') →
  kvs_remembers n v0 kvs ∨ kvs_forgot n kvs → kvs_remembers n v0 kvs' ∨ kvs_forgot n kvs'.
Proof.
  intros Hinv Hinv' Hhs Hlt [(Hle & Hex & Hv)|Hf].
  2: { right. unfold kvs_forgot in *. rewrite (held_inv _ _ _ Hinv'), Hhs. apply Forall_app.
       split; [by apply Forall_drop|]. rewrite (held_inv _ _ _ Hinv) in Hf.
       apply Forall_app in Hf as [_ Hf]. apply Forall_cons in Hf as [Hf _]. constructor; [lia|constructor]. }
  pose proof (held_sorted _ _ _ Hinv) as Hso.
  destruct (window_cases n (Datatypes.S (length hs) - len) (held kvs) Hso Hex) as [(s & Hs & Hn)|Hgone]; [left|right].
  - rewrite <-Hhs in Hs. split_and!; [lia| |].
    { exists s. rewrite (held_inv _ _ _ Hinv'). split; [|done]. apply elem_of_app. by left. }
    assert (s ∈ filter (λ s, sn_BlockNumber s = n) hs') as Hsf by (by apply list_elem_of_filter).
    destruct (last (filter (λ s, sn_BlockNumber s = n) hs')) as [t|] eqn:Ht;
      [|apply last_None in Ht; rewrite Ht in Hsf; by apply not_elem_of_nil in Hsf].
    assert (n < sn_BlockNumber (Current kvs')) as Hn' by lia.
    intros k. rewrite (view_last _ _ _ _ _ Hinv' Hn' Ht), <-Hv. clear Hv.
    assert (last (filter (λ s, sn_BlockNumber s = n) (held kvs)) = Some t) as Hlast.
    { rewrite <-(take_drop (Datatypes.S (length hs) - len) (held kvs)), filter_app, <-Hhs, last_app.
      by rewrite Ht. }
    rewrite (held_inv _ _ _ Hinv), filter_app, filter_cons, filter_nil in Hlast.
    destruct (decide (sn_BlockNumber (Current kvs) = n)) as [He|He].
    + rewrite last_snoc in Hlast. injection Hlast as <-. unfold rev_NewSnapshot.
      by destruct (Z.leb_spec (sn_BlockNumber (Current kvs)) n); [|lia].
    + rewrite app_nil_r in Hlast. symmetry. apply (view_last _ _ _ _ _ Hinv); [lia|done].
  - unfold kvs_forgot. rewrite (held_inv _ _ _ Hinv'), Hhs. apply Forall_app. split; [done|].
    constructor; [lia|constructor].
Qed.

Lemma kvs_block_recent len hs hs' kvs kvs' n k :
  rev_inv len hs kvs → rev_inv len hs' kvs' → hs' = drop (Datatypes.S (length hs) - len) (held kvs) →
  (k < len)%nat → recent n k kvs → recent n (Datatypes.S k) kvs'.
Proof.
  intros Hinv Hinv' Hhs Hk (l1 & s & l2 & Hl & Hn & Hlen). pose proof (held_inv _ _ _ Hinv) as Hheld.
  assert (length (held kvs) = Datatypes.S (length hs)) as Hlh by (rewrite Hheld, length_app; simpl; lia).
  rewrite Hl, length_app in Hlh. simpl in Hlh.
  exists (drop (Datatypes.S (length hs) - len) l1), s, (l2 ++ [Current kvs']). split_and!; [|done|].
  - rewrite (held_inv _ _ _ Hinv'), Hhs, Hl, drop_app_le by lia. by rewrite <-app_assoc.
  - rewrite length_app. simpl. lia.
Qed.

(** A revert to a height the window has moved past is refused. *)
Lemma kvs_revert_forgot len hs kvs n :
  rev_inv len hs kvs → kvs_forgot n kvs → RevertibleKVS.RevertToBlock n kvs = Done (Some n, kvs).
Proof.
  intros Hinv Hf. unfold kvs_forgot in Hf. rewrite (held_inv _ _ _ Hinv) in Hf.
  apply Forall_app in Hf as [Hf Hc]. apply Forall_cons in Hc as [Hc _].
  rewrite (RevertToBlock_eq len hs) by (done || lia).
  destruct (revert_target kvs n) as [[i t]|] eqn:Ht; [|done].
  apply (revert_target_spec len hs) in Ht as [Hi Hle]; [|done|lia].
  rewrite Forall_forall in Hf. specialize (Hf t ltac:(by eapply list_elem_of_lookup_2)). simpl in Hf. lia.
Qed.

(** A revert to a remembered height keeps the lower ones. *)
Lemma kvs_revert len hs kvs n v0 :
  rev_inv len hs kvs → kvs_remembers n v0 kvs →
  ∃ kvs' hs', RevertibleKVS.RevertToBlock n kvs = Done (None, kvs') ∧ rev_inv len hs' kvs' ∧
    sn_BlockNumber (Current kvs') = n ∧ (∀ k, shown kvs' k = v0 k) ∧
    (kvs' = kvs ∨ ∃ i t, hs !! i = Some t ∧ sn_BlockNumber t = n ∧ hs' = take i hs) ∧
    ∀ m k, m ≤ n → view (rev_NewSnapshot kvs' (Some m)) k = view (rev_NewSnapshot kvs (Some m)) k.
Proof.
  intros Hinv (Hle & (s & Hs & Hsn) & Hv). destruct (decide (n = sn_BlockNumber (Current kvs))) as [Heq|Hne].
  { exists kvs, hs. unfold RevertibleKVS.RevertToBlock. rewrite Heq, Z.eqb_refl. split_and!; [done..| |by left|done].
    intros k. specialize (Hv k). unfold rev_NewSnapshot in Hv. rewrite Heq, Z.leb_refl in Hv. by injection Hv. }
  rewrite (held_inv _ _ _ Hinv) in Hs. apply elem_of_app in Hs as [Hs| ->%list_elem_of_singleton]; [|done].
  assert (Some s ∈ History kvs) as Hs'.
  { rewrite (ri_hist _ _ _ Hinv). unfold slots. apply elem_of_app. left. by apply list_elem_of_fmap_2. }
  destruct (scan_exact len hs kvs n s Hinv Hs' Hsn) as (i & t & He & Hi & Ht).
  destruct (RevertToBlock_view len hs kvs n s) as (kvs' & Hr & Hc & Hview); [done..|lia|].
  pose proof (RevertToBlock_inv len hs kvs n Hinv) as (r & kvs2 & hs' & Hr2 & Hinv' & _).
  rewrite Hr in Hr2. injection Hr2 as <- <-. exists kvs', hs'. split_and!; [done..| | |].
  - intros k. specialize (Hview n k ltac:(lia)). rewrite Hv in Hview. unfold rev_NewSnapshot in Hview.
    rewrite Hc, Z.leb_refl in Hview. by injection Hview.
  - right. exists i, t. split_and!; [done..|]. assert (History kvs' = slots len (take i hs)) as Hh.
    { rewrite (RevertToBlock_eq len hs) in Hr by done. unfold revert_target in Hr. rewrite He in Hr. by injection Hr as <-. }
    rewrite <-(omap_slots len hs'), <-(ri_hist _ _ _ Hinv'), Hh. apply omap_slots.
  - done.
Qed.

(** The lower heights after it. *)
Lemma kvs_revert_keeps len hs hs' kvs kvs' n m i t :
  rev_inv len hs kvs → rev_inv len hs' kvs' → sn_BlockNumber (Current kvs') = n → hs !! i = Some t →
  sn_BlockNumber t = n → hs' = take i hs → m ≤ n →
  (in_window m kvs → in_window m kvs') ∧ (kvs_forgot m kvs → kvs_forgot m kvs') ∧
  (∀ k, recent m k kvs → recent m k kvs').
Proof.
  intros Hinv Hinv' Hc Hi Ht Hhs Hm. pose proof (held_sorted _ _ _ Hinv) as Hso.
  unfold in_window, kvs_forgot, recent. rewrite (held_inv _ _ _ Hinv'), Hhs.
  rewrite (held_inv _ _ _ Hinv) in *. pose proof (take_drop_middle hs i t Hi) as Hmid.
  assert (∀ u, u ∈ t :: drop (Datatypes.S i) hs ++ [Current kvs] → n ≤ sn_BlockNumber u) as Habove.
  { rewrite <-Hmid, <-app_assoc in Hso. apply StronglySorted_app_1_r, StronglySorted_inv in Hso as [_ Hso].
    intros u [-> |Hu]%elem_of_cons; [lia|]. rewrite Forall_forall in Hso. specialize (Hso u Hu). unfold num_le in Hso. lia. }
  assert (hs ++ [Current kvs] = take i hs ++ t :: drop (Datatypes.S i) hs ++ [Current kvs]) as Hall
    by (by rewrite <-Hmid at 1; rewrite <-app_assoc).
  assert ((i < length hs)%nat) as Hlt by (by eapply lookup_lt_Some). split_and!.
  - intros (u & Hu & Hun). destruct (decide (m = n)) as [-> |Hne].
    { exists (Current kvs'). split; [|done]. apply elem_of_app. right. left. }
    exists u. split; [|done]. apply elem_of_app. left. rewrite Hall in Hu. apply elem_of_app in Hu as [Hu|Hu]; [done|].
    specialize (Habove u Hu). lia.
  - rewrite !Forall_app. intros [Hf _]. split; [by apply Forall_take|]. constructor; [|constructor].
    rewrite Forall_forall in Hf. specialize (Hf t ltac:(by eapply list_elem_of_lookup_2)). simpl in Hf. lia.
  - intros k (l1 & u & l2 & Hl & Hun & Hlen). destruct (decide (m = n)) as [-> |Hne].
    { exists (take i hs), (Current kvs'), []. split_and!; [done..|simpl; lia]. }
    assert ((length l1 < i)%nat) as Hpos.
    { destruct (decide (length l1 < i)%nat) as [|Hge]; [done|]. exfalso.
      assert ((hs ++ [Current kvs]) !! length l1 = Some u) as Hlu by (rewrite Hl; by apply list_lookup_middle).
      rewrite Hall, lookup_app_r in Hlu by (rewrite length_take; lia).
      apply list_elem_of_lookup_2, Habove in Hlu. lia. }
    exists l1, u, (take (i - length l1 - 1) l2 ++ [Current kvs']). split_and!; [|done|].
    + assert (take i hs = take i (hs ++ [Current kvs])) as -> by (by rewrite take_app_le by lia).
      rewrite Hl, take_app_ge by lia. replace (i - length l1)%nat with (Datatypes.S (i - length l1 - 1)) by lia.
      simpl. rewrite Nat.sub_0_r. by rewrite <-app_assoc.
    + rewrite length_app, length_take. simpl. apply (f_equal length) in Hl. rewrite !length_app in Hl. simpl in Hl. lia.
Qed.

Lemma ConvertToDomain_numbered b ebl p r : ConvertToDomain b = Ok ebl → numbered (with_links p r ebl).
Proof.
  unfold ConvertToDomain. destruct (convert_txs b _ 0 0) as [etxs|] eqn:E; [|done]. intros [= <-].
  apply convert_txs_converted in E; [|unfold is_i64; lia]. unfold numbered. simpl.
  clear -E. induction E as [|tx etx txs etxs Hc _ IH]; constructor; [|done].
  destruct Hc as (raw & ethTx & from & Hc). split; [by destruct Hc as (_ & _ & _ & _ & _ & _ & -> & _)|].
  destruct Hc as (_ & _ & _ & _ & _ & _ & _ & _ & _ & _ & _ & _ & _ & _ & _ & _ & _ & Hl).
  eapply Forall_impl; [exact Hl|]. simpl. tauto.
Qed.

(** A block above the tip is appended. *)
Lemma store_block c b c' :
  store_wf (ch_Store c) → is_u64 (b_Number b) → st_CachedBlockNumber (ch_Store c) < b_Number b →
  Chain_Handle c b = (c', None) →
  store_wf (ch_Store c') ∧ st_CachedBlockNumber (ch_Store c') = b_Number b ∧
  ∀ n s0, n ≤ st_CachedBlockNumber (ch_Store c) → store_remembers n s0 (ch_Store c) → store_remembers n s0 (ch_Store c').
Proof.
  intros Hwf Hu Hlt (ebl & root & ts & s' & Hcv & Hins & ->)%Chain_Handle_Ok. simpl.
  destruct (ConvertToDomain_facts _ _ Hcv) as (Hn & _ & _).
  set (eb := with_links _ _ ebl) in *.
  assert (later_block (st_CachedBlockNumber (ch_Store c)) eb) as Hlater.
  { split_and!; [by simpl; rewrite Hn|simpl; lia|by eapply ConvertToDomain_numbered]. }
  destruct (InsertBlocks_above _ (ch_Store c) [eb] s' (Forall_cons_2 _ _ _ Hlater (Forall_nil_2 _)) Hwf)
    as (Hwf' & Hext & _); [simpl; by rewrite Hins|].
  split_and!; [done| |].
  - unfold InsertBlock in Hins. destruct (insert_rows _ eb); [|done]. injection Hins as <-. simpl. rewrite Hn.
    by destruct (Z.leb_spec (b_Number b) (st_CachedBlockNumber (ch_Store c))); [lia|].
  - intros n s0 Hle (H1 & H2 & H3). split_and!; [done..|].
    eapply ext_above_trans; [exact H3|]. by eapply ext_above_weaken.
Qed.

Definition remembers (n : Z) (s0 : Store) (v0 : string → option byte_slice) api : Prop :=
  (kvs_remembers n v0 (ev_lightKVS api) ∨ kvs_forgot n (ev_lightKVS api)) ∧ store_remembers n s0 (ch_Store (ev_chain api)).

Record evm_ok (len : nat) api (high : Z) : Prop := {
  eo_kvs : ∃ hs, rev_inv len hs (ev_lightKVS api);
  eo_store : store_wf (ch_Store (ev_chain api));
  eo_tip : sn_BlockNumber (Current (ev_lightKVS api)) = st_CachedBlockNumber (ch_Store (ev_chain api));
  eo_high : st_CachedBlockNumber (ch_Store (ev_chain api)) ≤ high;
  eo_ids id n : ev_snapshots api !! id = Some n → id = snapshotID n ∧ 0 ≤ n ∧ ∃ s0 v0, remembers n s0 v0 api
}.

Definition tip api : Z := st_CachedBlockNumber (ch_Store (ev_chain api)).

Lemma kvs_below n v0 kvs : kvs_remembers n v0 kvs ∨ kvs_forgot n kvs → n ≤ sn_BlockNumber (Current kvs).
Proof.
  intros [[H _]|H]; [done|]. unfold kvs_forgot, held in H. apply Forall_app in H as [_ H].
  apply Forall_cons in H as [H _]. lia.
Qed.

Lemma evm_block_ok len api high b api' :
  evm_ok len api high → is_u64 (b_Number b) → high < b_Number b → deliver_both b api = Some api' →
  evm_ok len api' (b_Number b) ∧ ev_snapshots api' = ev_snapshots api ∧ tip api' = b_Number b ∧
  (∀ n s0 v0, remembers n s0 v0 api → remembers n s0 v0 api') ∧
  ∀ n k, (k < len)%nat → recent n k (ev_lightKVS api) → recent n (Datatypes.S k) (ev_lightKVS api').
Proof.
  intros [[hs Hk] Hs Ht Hh Hids] Hu Hlt He. unfold deliver_both in He.
  destruct (kvs_block len hs (ev_lightKVS api) b Hk) as (kvs' & hs' & Hkv & Hk' & Hhs & Hkt); [lia|].
  rewrite Hkv in He. destruct (Chain_Handle (ev_chain api) b) as [c' [|]] eqn:Hc; [done|]. injection He as <-.
  destruct (store_block _ _ _ Hs Hu ltac:(lia) Hc) as (Hs' & Hst & Hsr).
  assert (∀ n s0 v0, remembers n s0 v0 api → remembers n s0 v0
    {| ev_lightKVS := kvs'; ev_chain := c'; ev_snapshots := ev_snapshots api |}) as Hrem.
  { intros n s0 v0 [H1 H2]. pose proof (kvs_below _ _ _ H1). split; simpl.
    - eapply (kvs_block_keeps len hs hs' (ev_lightKVS api)); [done..|lia|done].
    - apply Hsr; [lia|done]. }
  split_and!; [|done|done|done|intros n k; by apply kvs_block_recent with hs hs'].
  split; simpl; [by eexists|done|congruence|lia|].
  intros id n Hid. destruct (Hids id n Hid) as (? & ? & s0 & v0 & Hr). split_and!; [done..|]. eauto.
Qed.

Lemma evm_Snapshot_ok len api high drain r api' :
  evm_ok len api high → evm_Snapshot drain api = (r, api') →
  evm_ok len api' high ∧ tip api' = tip api ∧
  (∀ n s0 v0, remembers n s0 v0 api → remembers n s0 v0 api') ∧
  (api' = api ∨ ev_snapshots api' = <[snapshotID (tip api) := tip api]> (ev_snapshots api)) ∧
  (r = Ok (snapshotID (tip api)) → remembers (tip api) (ch_Store (ev_chain api)) (shown (ev_lightKVS api)) api' ∧
     ev_snapshots api' !! snapshotID (tip api) = Some (tip api)) ∧
  ev_lightKVS api' = ev_lightKVS api.
Proof.
  intros Hok He. unfold evm_Snapshot in He. destruct drain; injection He as <- <-; [split_and!; auto; done|].
  assert (remembers (tip api) (ch_Store (ev_chain api)) (shown (ev_lightKVS api)) api) as Hnow.
  { split; [left; unfold tip; rewrite <-(eo_tip _ _ _ Hok); apply kvs_remembers_now|].
    split_and!; [apply Hok|done|apply ext_above_refl]. }
  destruct Hok as [Hk Hs Ht Hh Hids]. split_and!; [|done|done|by right| |done].
  - split; simpl; try done. intros id n [[<- <-]|[_ Hid]]%lookup_insert_Some; [|by apply Hids].
    split_and!; [done|apply (tip_range _ Hs)|]. eexists _, _. exact Hnow.
  - intros _. split; [exact Hnow|]. apply lookup_insert_eq.
Qed.

(** A revert with a live id, whatever else the node holds. *)
Lemma evm_Revert_live len api high id n s0 v0 :
  evm_ok len api high → ev_snapshots api !! id = Some n →
  kvs_remembers n v0 (ev_lightKVS api) → store_remembers n s0 (ch_Store (ev_chain api)) →
  ∃ api', evm_Revert None id api = Done (Ok true, api') ∧ evm_ok len api' high ∧ tip api' = n ∧
    ch_Store (ev_chain api') = s0 ∧ (∀ k, shown (ev_lightKVS api') k = v0 k) ∧
    ev_snapshots api' = filter (λ p, ¬ n < p.2) (ev_snapshots api) ∧
    (∀ m s1 v1, m ≤ n → remembers m s1 v1 api → remembers m s1 v1 api') ∧
    ∀ m k, m ≤ n → recent m k (ev_lightKVS api) → recent m k (ev_lightKVS api').
Proof.
  intros [[hs Hk] Hs Ht Hh Hids] Hid Hkr (H0 & Hn & Hext). unfold evm_Revert. rewrite Hid.
  destruct (kvs_revert len hs _ n v0 Hk Hkr) as (kvs' & hs' & -> & Hk' & Hkt & Hv & Hkeep & Hview).
  assert (n ≤ st_CachedBlockNumber (ch_Store (ev_chain api))) as Hle by (destruct Hkr as [? _]; lia).
  pose proof (store_revert_ext s0 (ch_Store (ev_chain api)) H0 Hs) as Hr. rewrite Hn in Hr.
  rewrite Hr by done. eexists. split; [done|].
  assert (∀ m s1 v1, m ≤ n → remembers m s1 v1 api → remembers m s1 v1
    {| ev_lightKVS := kvs'; ev_chain := set_store s0 (ev_chain api);
       ev_snapshots := filter (λ p, ¬ n < p.2) (ev_snapshots api) |}) as Hrem.
  { intros m s1 v1 Hm [H1 (H2 & H3 & H4)]. split; simpl.
    { destruct Hkeep as [-> |(i & t & Hi & Hti & Hhs)]; [done|].
      destruct (kvs_revert_keeps len hs hs' _ kvs' n m i t Hk Hk' Hkt Hi Hti Hhs Hm) as (K1 & K2 & _).
      destruct H1 as [(_ & K3 & K4)|K3]; [left|right; auto]. split_and!; [lia|auto|].
      intros k. rewrite Hview by done. apply K4. }
    split_and!; [done..|].
    destruct (RevertToBlock_cases _ _ _ _ (Hr Hle Hext)) as [-> |(_ & _ & Hdb & _)]; [done|].
    rewrite Hdb. by eapply ext_above_truncate. }
  split_and!; try done.
  2: { intros m k Hm. destruct Hkeep as [-> |(i & t & Hi & Hti & Hhs)]; [done|].
       by eapply kvs_revert_keeps with (hs := hs) (hs' := hs'). }
  split; simpl; [by eexists|done|lia|lia|].
  intros id' m [Hid' Hm]%map_lookup_filter_Some. simpl in Hm.
  destruct (Hids id' m Hid') as (? & ? & s1 & v1 & Hr1). split_and!; [done..|].
  exists s1, v1. apply Hrem; [lia|done].
Qed.

Lemma evm_Revert_forgot len api high id n :
  evm_ok len api high → ev_snapshots api !! id = Some n → kvs_forgot n (ev_lightKVS api) →
  evm_Revert None id api = Done (Err (KVSRevertError n), api).
Proof.
  intros [[hs Hk] _ _ _ _] Hid Hf. unfold evm_Revert. rewrite Hid, (kvs_revert_forgot len hs) by done.
  by destruct api.
Qed.

Lemma evm_Revert_ok len api high drain id r api' :
  evm_ok len api high → evm_Revert drain id api = Done (r, api') →
  api' = api ∨ ∃ n, ev_snapshots api !! id = Some n ∧ evm_ok len api' high ∧ tip api' = n ∧
    ev_snapshots api' = filter (λ p, ¬ n < p.2) (ev_snapshots api) ∧
    (∀ m s1 v1, m ≤ n → remembers m s1 v1 api → remembers m s1 v1 api') ∧
    ∀ m k, m ≤ n → recent m k (ev_lightKVS api) → recent m k (ev_lightKVS api').
Proof.
  intros Hok He. destruct drain as [e|]; [left; by injection He|].
  destruct (ev_snapshots api !! id) as [n|] eqn:Hid; [|left; unfold evm_Revert in He; rewrite Hid in He; by injection He].
  destruct (eo_ids _ _ _ Hok id n Hid) as (_ & _ & s0 & v0 & [Hr|Hf] & Hs0).
  - destruct (evm_Revert_live len api high id n s0 v0 Hok Hid Hr Hs0) as (api2 & Hr2 & H1 & H2 & _ & _ & H3 & H4).
    rewrite He in Hr2. injection Hr2 as -> ->. right. by exists n.
  - left. rewrite (evm_Revert_forgot len _ _ _ _ Hok Hid Hf) in He. by injection He.
Qed.

Lemma evm_step_ok len api high api' high' :
  evm_step (api, high) (api', high') → evm_ok len api high → evm_ok len api' high' ∧ high ≤ high'.
Proof.
  intros Hst Hok. inversion Hst as [b ? ? ? Hu Hlt He|drain r ? ? ? He|drain id r ? ? ? He]; subst.
  - split; [by eapply evm_block_ok|lia].
  - split; [by eapply evm_Snapshot_ok|lia].
  - split; [|lia]. destruct (evm_Revert_ok len _ _ _ _ _ _ Hok He) as [-> |(n & _ & ? & _)]; done.
Qed.

Lemma NewTestNode_ok h namespace rws g api :
  0 ≤ h < 2 ^ 32 → NewTestNode h namespace rws g = Some api → evm_ok (Z.to_nat h) api 0.
Proof.
  intros Hh. unfold NewTestNode. destruct (NewLightKVS h) as [kvs0|] eqn:Hkvs; [|done].
  destruct (NewChain empty_db None) as [c|] eqn:Hc; [|done]. injection Hc as <-. intros He.
  assert (rev_inv (Z.to_nat h) [] (NewRevertibleLightKVS kvs0) ∧ Current kvs0 = placeholder) as [Hinv Hcur].
  { unfold NewLightKVS in Hkvs. destruct (Z.ltb_spec h 0); [lia|]. injection Hkvs as <-. split; [|done].
    constructor; simpl; [lia|lia|unfold slots; simpl; by rewrite Nat.sub_0_r|done|by repeat constructor|done]. }
  set (kvs := NewRevertibleLightKVS kvs0) in *. assert (Current kvs = placeholder) as Hcur' by done.
  set (fb := funding_block _ _ _) in *.
  destruct (applyBlockSequential_inv (Z.to_nat h) [] kvs (b_Number fb) (blockUpdates fb) Hinv)
    as (kvs' & Hap & Hinv' & Hcur2); [done|].
  assert (rev_Handle fb kvs = Done (None, kvs')) as Hfb by (unfold rev_Handle; rewrite Hcur'; cbn [sn_Placeholder placeholder negb andb]; by rewrite Hap).
  rewrite Hfb in He. destruct (EnsureGenesisBlock _ g) as [c' [|]] eqn:Hg; [done|]. injection He as <-.
  unfold EnsureGenesisBlock in Hg. simpl in Hg. destruct (InsertBlock _ _) as [s' [|]] eqn:Hi; [done|].
  injection Hg as <-.
  assert (store_wf s') as Hs.
  { eapply InsertBlock_wf; [|apply (Init_wf empty_db)|exact Hi]; [split; simpl; lia|apply db_wf_empty]. }
  assert (st_CachedBlockNumber s' = 0) as H0.
  { unfold InsertBlock in Hi. destruct (insert_rows _ _); [|done]. by injection Hi as <-. }
  split; simpl; [by eexists|done|rewrite Hcur2, H0; change (sn_BlockNumber (Current kvs) = 0); by rewrite Hcur'|lia|].
  intros id n Hn. by rewrite lookup_empty in Hn.
Qed.

Definition evm_reachable (h : Z) (namespace : string) (rws : ReadWriteSet) (g : Hash) (x : EvmAPI * Z) : Prop :=
  ∃ api, NewTestNode h namespace rws g = Some api ∧ rtc evm_step (api, 0) x.

Lemma evm_reachable_ok h namespace rws g api high :
  0 ≤ h < 2 ^ 32 → evm_reachable h namespace rws g (api, high) → evm_ok (Z.to_nat h) api high.
Proof.
  intros Hh (api0 & H0 & Hr). change (evm_ok (Z.to_nat h) (api, high).1 (api, high).2).
  pattern (api, high). eapply rtc_ind_r; [| |exact Hr]; [by eapply NewTestNode_ok|].
  intros [x hx] [y hy] _ Hst IH. by eapply evm_step_ok.
Qed.

(** From the moment a snapshot was taken, [k] blocks ago: it is live and
    remembered, or its id is gone and its height is not come back to. *)
Definition since (len : nat) (n : Z) (s0 : Store) (v0 : string → option byte_slice) (k : nat) api (high : Z) : Prop :=
  0 ≤ n ≤ high ∧
  (remembers n s0 v0 api ∧ ev_snapshots api !! snapshotID n = Some n ∧ ((k ≤ len)%nat → recent n k (ev_lightKVS api)) ∨
   ev_snapshots api !! snapshotID n = None ∧ tip api ≠ n).

Lemma since_step len n s0 v0 k api high api' high' :
  evm_step (api, high) (api', high') → evm_ok len api high → since len n s0 v0 k api high →
  since len n s0 v0 (if bool_decide (high = high') then k else Datatypes.S k) api' high'.
Proof.
  intros Hst Hok [Hn Hs]. inversion Hst as [b ? ? ? Hu Hlt He|drain r ? ? ? He|drain id r ? ? ? He]; subst.
  - rewrite bool_decide_false by lia.
    destruct (evm_block_ok len _ _ _ _ Hok Hu Hlt He) as (_ & Hids & Ht & Hrem & Hrec). split; [lia|].
    rewrite Hids. destruct Hs as [(H1 & H2 & H3)|[H1 H2]]; [left|right; split; [done|lia]].
    split_and!; [auto|done|]. intros Hk. apply Hrec; [lia|]. apply H3. lia.
  - rewrite bool_decide_true by done.
    destruct (evm_Snapshot_ok len _ _ _ _ _ Hok He) as (_ & Ht & Hrem & Hids & _ & Hkvs). split; [done|].
    destruct Hids as [-> |Hids]; [done|]. rewrite Hids, Ht, Hkvs.
    pose proof (proj1 (tip_range _ (eo_store _ _ _ Hok))) as Htip. fold (tip api) in Htip.
    destruct (decide (tip api = n)) as [<- |Hne].
    + rewrite lookup_insert_eq. destruct Hs as [(H1 & H2 & H3)|[_ H2]]; [left; auto|done].
    + rewrite lookup_insert_ne by (intros Heq; apply snapshotID_inj in Heq; lia).
      destruct Hs as [(H1 & H2 & H3)|[H1 H2]]; [left; auto|by right].
  - rewrite bool_decide_true by done. split; [done|].
    destruct (evm_Revert_ok len _ _ _ _ _ _ Hok He) as [-> |(m & Hm & _ & Ht & Hids & Hrem & Hrec)]; [done|].
    destruct (eo_ids _ _ _ Hok id m Hm) as (-> & Hm0 & _). rewrite Hids, Ht. destruct Hs as [(H1 & H2 & H3)|[H1 H2]].
    + destruct (decide (m < n)) as [Hlt|Hge].
      * right. split; [|lia]. apply map_lookup_filter_None. right. intros x Hx. rewrite H2 in Hx.
        injection Hx as <-. simpl. lia.
      * left. split_and!; [apply Hrem; [lia|done]| |intros Hk; apply Hrec; [lia|auto]].
        apply map_lookup_filter_Some. split; [done|]. simpl. lia.
    + right. split; [apply map_lookup_filter_None; by left|]. intros ->. by rewrite H1 in Hm.
Qed.

(** C7: [evm_revert] brings a snapshot back.  A test node took a snapshot and went
    through later blocks, snapshots and reverts, and still holds its id.  Whatever
    the node's history size, [historySize] later blocks do not move the window past
    the snapshot.  While the window has its height, reverting to the id succeeds:
    the chain's tables and height are exactly those of the time it was taken,
    every key of the endorser's store shows the value it had then, and the
    snapshots that remain are those of lower or equal heights.  Once the window
    has moved past it, the revert returns an error and neither store changes. *)
Theorem evm_revert_restores h namespace rws g api0 high0 id api0' k api1 high1 :
  0 ≤ h < 2 ^ 32 → evm_reachable h namespace rws g (api0, high0) →
  evm_Snapshot None api0 = (Ok id, api0') →
  evm_run (api0', high0) k (api1, high1) → is_Some (ev_snapshots api1 !! id) →
  (Z.of_nat k ≤ h → in_window (tip api0) (ev_lightKVS api1)) ∧
  (in_window (tip api0) (ev_lightKVS api1) →
   ∃ api2, evm_Revert None id api1 = Done (Ok true, api2) ∧
    ch_Store (ev_chain api2) = ch_Store (ev_chain api0) ∧
    sn_BlockNumber (Current (ev_lightKVS api2)) = sn_BlockNumber (Current (ev_lightKVS api0)) ∧
    (∀ k, shown (ev_lightKVS api2) k = shown (ev_lightKVS api0) k) ∧
    ev_snapshots api2 = filter (λ p, ¬ tip api0 < p.2) (ev_snapshots api1)) ∧
  (¬ in_window (tip api0) (ev_lightKVS api1) →
   evm_Revert None id api1 = Done (Err (KVSRevertError (tip api0)), api1)).
Proof.
  intros Hh Hr0 Hsnap Hr Hlive. pose proof (evm_reachable_ok _ _ _ _ _ _ Hh Hr0) as Hok0.
  destruct (evm_Snapshot_ok _ _ _ _ _ _ Hok0 Hsnap) as (Hok0' & Ht & _ & _ & Hnow & Hkvs).
  assert (id = snapshotID (tip api0)) as -> by (by injection Hsnap as <-).
  destruct (Hnow eq_refl) as [Hrem Hid].
  assert (evm_ok (Z.to_nat h) (api1, high1).1 (api1, high1).2 ∧
    since (Z.to_nat h) (tip api0) (ch_Store (ev_chain api0)) (shown (ev_lightKVS api0)) k (api1, high1).1 (api1, high1).2)
    as [Hok [_ Hs]].
  { induction Hr as [|k [x hx] [y hy] _ [H1 H2] Hst].
    - split; [done|]. split; [split; [apply (tip_range _ (eo_store _ _ _ Hok0))|apply Hok0]|]. left.
      split_and!; [done..|]. intros _. simpl. rewrite Hkvs. exists (omap id (History (ev_lightKVS api0))), (Current (ev_lightKVS api0)), [].
      split_and!; [done|apply (eo_tip _ _ _ Hok0)|simpl; lia].
    - split; [by eapply evm_step_ok|by eapply since_step]. }
  simpl in *. destruct Hs as [([Hr1 Hs1] & Hid1 & Hrec)|[Hn _]]; [|rewrite Hn in Hlive; by destruct Hlive].
  split_and!.
  - intros Hk. destruct Hrec as (l1 & s & l2 & Hl & Hsn & _); [lia|]. exists s. split; [|done]. rewrite Hl.
    apply elem_of_app. right. left.
  - intros (s & Hs & Hsn). destruct Hr1 as [Hr1|Hf]; [|].
    + destruct (evm_Revert_live _ _ _ _ _ _ _ Hok Hid1 Hr1 Hs1) as (api2 & Hrv & Hok2 & Ht2 & Hst2 & Hv & Hids & _).
      exists api2. split_and!; [done..| |done|done].
      rewrite (eo_tip _ _ _ Hok2), (eo_tip _ _ _ Hok0). exact Ht2.
    + unfold kvs_forgot in Hf. rewrite Forall_forall in Hf. specialize (Hf s Hs). simpl in Hf. lia.
  - intros Hw. destruct Hr1 as [(_ & Hw' & _)|Hf]; [done|]. by eapply evm_Revert_forgot.
Qed.
End snapshots.

(** ** A concrete node *)

Module Demo.
#[local] Existing Instances four_types four_txs demo_codec demo_wire nil_driver map_trie.

Definition fund : ReadWriteSet :=
  {| rws_Reads := []; rws_Writes := [{| kw_Key := "k"; kw_IsDelete := false; kw_Value := Some [1] |}] |}.

(** Block [n] writes [n] to the key. *)
Definition block (n : Z) (hash : bool * bool) : Block := {|
  b_Number := n; b_Hash := @Hash_Bytes four_types hash; b_ParentHash := []; b_Timestamp := 1000 + n;
  b_Transactions := b_Transactions (put_block n "ns" "k" [n]) |}.

Definition genesis : @Hash four_types := (true, true).

Definition nil_node : EvmAPI := {| ev_lightKVS := fresh8; ev_chain := start_chain; ev_snapshots := ∅ |}.
Definition node0 : EvmAPI := default nil_node (NewTestNode 8 "ns" fund genesis).
Definition after (b : Block) (api : EvmAPI) : EvmAPI := default nil_node (deliver_both b api).
Definition node1 : EvmAPI := after (block 1 (true, false)) node0.
Definition node1' : EvmAPI := (evm_Snapshot None node1).2.
Definition node2 : EvmAPI := after (block 2 (false, true)) node1'.
Definition node2r : EvmAPI := match evm_Revert None "0x1" node2 with Done (_, api) => api | Panic _ => nil_node end.

Lemma node1_reachable : evm_reachable 8 "ns" fund genesis (node1, 1).
Proof.
  exists node0. split; [vm_compute; reflexivity|]. apply rtc_once.
  apply (es_block (block 1 (true, false))); [split; vm_compute; congruence|vm_compute; reflexivity..].
Qed.

Lemma node2_later : evm_run (node1', 1) 1 (node2, 2).
Proof.
  apply (er_step _ 0 (node1', 1) (node2, 2)); [apply er_start|].
  apply (es_block (block 2 (false, true))); [split; vm_compute; congruence|vm_compute; reflexivity..].
Qed.

Lemma evm_revert_restores_witness :
  shown (ev_lightKVS node2) "ns:k" = Some [2] ∧
  ∃ api2, evm_Revert None "0x1" node2 = Done (Ok true, api2) ∧
    ch_Store (ev_chain api2) = ch_Store (ev_chain node1) ∧ shown (ev_lightKVS api2) "ns:k" = Some [1].
Proof.
  split; [vm_compute; reflexivity|].
  destruct (evm_revert_restores 8 "ns" fund genesis node1 1 "0x1" node1' 1 node2 2) as (Hk & Hin & _).
  - split; [discriminate|reflexivity].
  - exact node1_reachable.
  - vm_compute. reflexivity.
  - exact node2_later.
  - vm_compute. by eexists.
  - destruct (Hin (Hk ltac:(lia))) as (api2 & H1 & H2 & _ & H3 & _).
    exists api2. split; [exact H1|]. split; [exact H2|]. rewrite H3. vm_compute. reflexivity.
Defined.

(** *** The block after a revert names a parent that is gone

    [Revert] moves the store back but not the chain's [prevHash].  The next
    block is stored with the hash of the last block before the revert as its
    parent, and no stored block has that hash. *)
Lemma revert_keeps_prevHash :
  let api := after (block 3 (false, false)) node2r in
  (br_block_number <$> t_blocks (st_db (ch_Store (ev_chain api)))) = [0; 1; 3] ∧
  (br_parent_hash <$> last (t_blocks (st_db (ch_Store (ev_chain api))))) = Some (Some (Hash_Bytes (false, true))) ∧
  Hash_Bytes (false, true) ∉ (slice_bytes ∘ br_block_hash <$> t_blocks (st_db (ch_Store (ev_chain api)))).
Proof.
  split; [vm_compute; reflexivity|]. split; [vm_compute; reflexivity|].
  apply (bool_decide_eq_true_1 _). vm_compute. reflexivity.
Qed.
End Demo.
