(* ===== verification/Metrics.v ===== *)
(** * Metrics: the life of a transaction's time stamps

    The per-transaction tracking of gateway/metrics/metrics.go and the calls a
    committed block makes to it (synchronizer/hybridx/notification.go).  Times
    are arguments; the observations of the step histogram are recorded in order.
    Whatever happens to other transactions in between, the three parts of a
    transaction's latency add up to its end-to-end latency, and its entry is
    gone afterwards. *)

From Stdlib Require Import ZArith Lia.
From stdpp Require Import base numbers list gmap strings.
From S2P Require Import Prelude Blocks Geth.

Local Open Scope Z_scope.

Section metrics.
Context {G : GethTypes}.

(** [None] is the zero time. *)
Record txTimestamps := { step1 : option Z; step14 : option Z; step15 : option Z }.

Inductive step_label := StepTxPreSubmit | StepTxOrdering | StepTxPostOrder | StepE2E.

Record Metrics := {
  txTimes : gmap Hash txTimestamps;
  StepLatency : list (Hash * step_label * Z);
  TxCommitted : Z;
  TxMVCCConflict : Z;
  TxInvalidSignature : Z;
  TxOtherFailure : Z
}.

Definition set_times (t : gmap Hash txTimestamps) (obs : list (Hash * step_label * Z)) (m : Metrics) : Metrics := {|
  txTimes := t; StepLatency := StepLatency m ++ obs; TxCommitted := TxCommitted m;
  TxMVCCConflict := TxMVCCConflict m; TxInvalidSignature := TxInvalidSignature m; TxOtherFailure := TxOtherFailure m |}.

(** The latency from a time that was stamped. *)
Definition since_stamp (hash : Hash) (label : step_label) (now : Z) (t : option Z) : list (Hash * step_label * Z) :=
  match t with Some t => [(hash, label, now - t)] | None => [] end.

Definition TrackTxStart (now : Z) (hash : Hash) (m : Metrics) : Metrics :=
  set_times (<[hash := {| step1 := Some now; step14 := None; step15 := None |}]> (txTimes m)) [] m.

Definition RecordTxSubmitted (now : Z) (hash : Hash) (m : Metrics) : Metrics :=
  match txTimes m !! hash with
  | None => m
  | Some ts => set_times (<[hash := {| step1 := step1 ts; step14 := Some now; step15 := step15 ts |}]> (txTimes m))
                 (since_stamp hash StepTxPreSubmit now (step1 ts)) m
  end.

Definition RecordTxNotified (now : Z) (hash : Hash) (m : Metrics) : Metrics :=
  match txTimes m !! hash with
  | None => m
  | Some ts => set_times (<[hash := {| step1 := step1 ts; step14 := step14 ts; step15 := Some now |}]> (txTimes m))
                 (since_stamp hash StepTxOrdering now (step14 ts)) m
  end.

Definition ForgetTx (hash : Hash) (m : Metrics) : Metrics := set_times (delete hash (txTimes m)) [] m.

Definition ObserveTxComplete (now : Z) (hash : Hash) (m : Metrics) : Metrics :=
  match txTimes m !! hash with
  | None => m
  | Some ts => set_times (delete hash (txTimes m))
                 (since_stamp hash StepE2E now (step1 ts) ++ since_stamp hash StepTxPostOrder now (step15 ts)) m
  end.

(** The outcome counters of [HandleBatch]. *)
Definition count_status (s : Status) (m : Metrics) : Metrics :=
  let bump (a b c d : Z) := {|
    txTimes := txTimes m; StepLatency := StepLatency m; TxCommitted := TxCommitted m + a;
    TxMVCCConflict := TxMVCCConflict m + b; TxInvalidSignature := TxInvalidSignature m + c;
    TxOtherFailure := TxOtherFailure m + d |} in
  match s with
  | StatusCommitted => bump 1 0 0 0
  | StatusMVCCConflict => bump 0 1 0 0
  | StatusInvalidSignature => bump 0 0 1 0
  | StatusUnknown => m
  | StatusOther _ => bump 0 0 0 1
  end.

(** [HandleBatch] as the metrics see it: the EVM events stamped and counted, the
    handlers, and the transactions closed when every handler succeeded. *)
Definition HandleBatch_metrics (now done_at : Z) (events : list (Hash * Status)) (handled : bool) (m : Metrics) : Metrics :=
  let m := foldl (λ m e, count_status e.2 (RecordTxNotified now e.1 m)) m events in
  if handled then foldl (λ m e, ObserveTxComplete done_at e.1 m) m events else m.

(** The calls of a transaction's way through the gateway.  A block of the
    delivery service is dispatched to the handlers, which close nothing. *)
Inductive tracker_op :=
| OpStart (now : Z) (h : Hash)
| OpSubmitted (now : Z) (h : Hash)
| OpForget (h : Hash)
| OpBatch (now done_at : Z) (events : list (Hash * Status)) (handled : bool)
| OpDelivered (hashes : list Hash).

Definition tracker_exec (m : Metrics) (op : tracker_op) : Metrics :=
  match op with
  | OpStart now h => TrackTxStart now h m
  | OpSubmitted now h => RecordTxSubmitted now h m
  | OpForget h => ForgetTx h m
  | OpBatch now done_at events handled => HandleBatch_metrics now done_at events handled m
  | OpDelivered _ => m
  end.

(** The step names no event of [h]. *)
Definition spares (h : Hash) (op : tracker_op) : Prop :=
  match op with
  | OpStart _ h' | OpSubmitted _ h' | OpForget h' => h' ≠ h
  | OpBatch _ _ events _ => h ∉ events.*1
  | OpDelivered hashes => h ∉ hashes
  end.

(** What the histogram holds of a transaction. *)
Definition latencies (h : Hash) (m : Metrics) : list (step_label * Z) :=
  omap (λ o, if decide (o.1.1 = h) then Some (o.1.2, o.2) else None) (StepLatency m).

(** An operation on another hash. *)
Definition same_for (h : Hash) (m m' : Metrics) : Prop :=
  txTimes m' !! h = txTimes m !! h ∧ latencies h m' = latencies h m.

Lemma latencies_set h t obs m :
  latencies h (set_times t obs m) = latencies h m ++ omap (λ o, if decide (o.1.1 = h) then Some (o.1.2, o.2) else None) obs.
Proof. unfold latencies. simpl. apply omap_app. Qed.

Lemma since_stamp_other h h' label now t :
  h' ≠ h → omap (λ o, if decide (o.1.1 = h) then Some (o.1.2, o.2) else None) (since_stamp h' label now t) = [].
Proof. intros Hne. destruct t; [|done]. simpl. by rewrite decide_False. Qed.

Lemma same_for_set h t obs m :
  t !! h = txTimes m !! h → omap (λ o, if decide (o.1.1 = h) then Some (o.1.2, o.2) else None) obs = [] →
  same_for h m (set_times t obs m).
Proof. intros Ht Ho. split; [done|]. by rewrite latencies_set, Ho, app_nil_r. Qed.

Lemma other_notified h h' now m : h' ≠ h → same_for h m (RecordTxNotified now h' m).
Proof.
  intros Hne. unfold RecordTxNotified. destruct (txTimes m !! h') as [ts|]; [|done].
  apply same_for_set; [by rewrite lookup_insert_ne|by apply since_stamp_other].
Qed.

Lemma other_complete h h' now m : h' ≠ h → same_for h m (ObserveTxComplete now h' m).
Proof.
  intros Hne. unfold ObserveTxComplete. destruct (txTimes m !! h') as [ts|]; [|done].
  apply same_for_set; [by rewrite lookup_delete_ne|]. by rewrite omap_app, !since_stamp_other.
Qed.

Lemma same_for_trans h m1 m2 m3 : same_for h m1 m2 → same_for h m2 m3 → same_for h m1 m3.
Proof. unfold same_for. intros [-> ->] [-> ->]. done. Qed.

Lemma count_same h s m m' : same_for h m m' → same_for h m (count_status s m').
Proof. intros H. by destruct s. Qed.

Lemma other_fold h (f : Metrics → Hash * Status → Metrics) events :
  (∀ m e, e.1 ≠ h → same_for h m (f m e)) → h ∉ events.*1 → ∀ m, same_for h m (foldl f m events).
Proof.
  intros Hf Hn. induction events as [|e events IH]; intros m; [done|]. simpl. cbn in Hn. apply not_elem_of_cons in Hn as [H1 H2].
  eapply same_for_trans; [by apply Hf|by apply IH].
Qed.

Lemma other_op h op m : spares h op → same_for h m (tracker_exec m op).
Proof.
  destruct op as [now h'|now h'|h'|now d events handled|hashes]; simpl; intros Hs; [..|done].
  - apply same_for_set; [by rewrite lookup_insert_ne|done].
  - unfold RecordTxSubmitted. destruct (txTimes m !! h') as [ts|]; [|done].
    apply same_for_set; [by rewrite lookup_insert_ne|by apply since_stamp_other].
  - apply same_for_set; [by rewrite lookup_delete_ne|done].
  - unfold HandleBatch_metrics. assert (same_for h m (foldl (λ m e, count_status e.2 (RecordTxNotified now e.1 m)) m events)) as H1.
    { apply other_fold; [|done]. intros m' e He. by apply count_same, other_notified. }
    destruct handled; [|done]. eapply same_for_trans; [exact H1|].
    apply other_fold; [|done]. intros m' e He. by apply other_complete.
Qed.

Lemma other_ops h ops : Forall (spares h) ops → ∀ m, same_for h m (foldl tracker_exec m ops).
Proof.
  intros Hops. induction Hops as [|op ops Hop _ IH]; intros m; [done|].
  eapply same_for_trans; [by apply other_op|by apply IH].
Qed.

(** The block that brings [h], once. *)
Lemma batch_own h now d s l1 l2 m ts :
  txTimes m !! h = Some ts → h ∉ l1.*1 → h ∉ l2.*1 →
  let m' := HandleBatch_metrics now d (l1 ++ (h, s) :: l2) true m in
  txTimes m' !! h = None ∧
  latencies h m' = latencies h m ++ ((λ t, (StepTxOrdering, now - t)) <$> option_list (step14 ts)) ++
    ((λ t, (StepE2E, d - t)) <$> option_list (step1 ts)) ++ [(StepTxPostOrder, d - now)].
Proof.
  intros Hts H1 H2. cbv zeta. unfold HandleBatch_metrics. rewrite !foldl_app. cbn [foldl].
  set (f := λ m e, count_status e.2 (RecordTxNotified now e.1 m)). set (g := λ m (e : Hash * Status), ObserveTxComplete d e.1 m).
  assert (∀ m l, h ∉ l.*1 → same_for h m (foldl f m l)) as Hf.
  { intros m' l Hl. apply other_fold; [|done]. intros m0 e He. by apply count_same, other_notified. }
  assert (∀ m l, h ∉ l.*1 → same_for h m (foldl g m l)) as Hg.
  { intros m' l Hl. apply other_fold; [|done]. intros m0 e He. by apply other_complete. }
  destruct (Hf m l1 H1) as [Ht1 Hl1]. rewrite Hts in Ht1. set (m1 := foldl f m l1) in *.
  set (ts' := {| step1 := step1 ts; step14 := step14 ts; step15 := Some now |}).
  assert (txTimes (f m1 (h, s)) !! h = Some ts' ∧ latencies h (f m1 (h, s)) =
    latencies h m ++ ((λ t, (StepTxOrdering, now - t)) <$> option_list (step14 ts))) as [Ht2 Hl2].
  { unfold f, RecordTxNotified. simpl. rewrite Ht1. set (m2 := set_times _ _ m1).
    assert (same_for h m2 (count_status s m2)) as [-> ->] by by apply count_same. split; [simpl; apply lookup_insert_eq|].
    unfold m2. rewrite latencies_set, Hl1. f_equal. destruct (step14 ts); [|done]. simpl. by rewrite decide_True. }
  set (m2 := f m1 (h, s)) in *. destruct (Hf m2 l2 H2) as [Ht3 Hl3]. rewrite Ht2 in Ht3.
  destruct (Hg (foldl f m2 l2) l1 H1) as [Ht4 Hl4]. rewrite Ht3 in Ht4. set (m4 := foldl g _ l1) in *.
  destruct (Hg (g m4 (h, s)) l2 H2) as [Ht5 Hl5].
  change (ObserveTxComplete d (h, s).1 m4) with (g m4 (h, s)). rewrite Ht5, Hl5. unfold g, ObserveTxComplete. simpl. rewrite Ht4.
  split; [simpl; apply lookup_delete_eq|]. rewrite latencies_set, Hl4, Hl3, Hl2, <-app_assoc, omap_app. do 2 f_equal.
  unfold ts'. destruct (step1 ts); simpl; by rewrite !decide_True.
Qed.

(** A transaction sent at [t1], handed to the orderer at [t14], notified in a
    block at [t15] and handled by [t17] is no longer tracked, and contributes
    four observations: the three parts, which add up to the end-to-end one. *)
Theorem latency_parts h s t1 t14 t15 t17 a b l1 l2 m :
  Forall (spares h) a → Forall (spares h) b → h ∉ l1.*1 → h ∉ l2.*1 → latencies h m = [] →
  let m' := foldl tracker_exec m
    (OpStart t1 h :: a ++ OpSubmitted t14 h :: b ++ [OpBatch t15 t17 (l1 ++ (h, s) :: l2) true]) in
  txTimes m' !! h = None ∧
  latencies h m' = [(StepTxPreSubmit, t14 - t1); (StepTxOrdering, t15 - t14); (StepE2E, t17 - t1); (StepTxPostOrder, t17 - t15)].
Proof.
  intros Ha Hb H1 H2 H0. cbv zeta. cbn [foldl]. rewrite foldl_app. cbn [foldl]. rewrite foldl_app. cbn [foldl].
  set (m0 := tracker_exec m (OpStart t1 h)).
  assert (txTimes m0 !! h = Some {| step1 := Some t1; step14 := None; step15 := None |} ∧ latencies h m0 = []) as [Ht0 Hl0].
  { split; [apply lookup_insert_eq|]. unfold m0. simpl. unfold TrackTxStart. by rewrite latencies_set, H0. }
  destruct (other_ops h a Ha m0) as [Ht1 Hl1]. rewrite Ht0 in Ht1. rewrite Hl0 in Hl1. set (m1 := foldl tracker_exec m0 a) in *.
  set (ts := {| step1 := Some t1; step14 := Some t14; step15 := None |}).
  assert (txTimes (tracker_exec m1 (OpSubmitted t14 h)) !! h = Some ts ∧
    latencies h (tracker_exec m1 (OpSubmitted t14 h)) = [(StepTxPreSubmit, t14 - t1)]) as [Ht2 Hl2].
  { simpl. unfold RecordTxSubmitted. rewrite Ht1. split; [apply lookup_insert_eq|].
    rewrite latencies_set, Hl1. simpl. by rewrite decide_True. }
  destruct (other_ops h b Hb (tracker_exec m1 (OpSubmitted t14 h))) as [Ht3 Hl3]. rewrite Ht2 in Ht3. rewrite Hl2 in Hl3.
  destruct (batch_own h t15 t17 s l1 l2 _ ts Ht3 H1 H2) as [Ht4 Hl4]. split; [exact Ht4|].
  etrans; [exact Hl4|]. by rewrite Hl3.
Qed.

(** *** Blocks from the delivery service leave their transactions tracked

    Only the notification path closes a transaction.  On classic Fabric, on a
    test node and while catching up, blocks come from the delivery service: an
    entry made by [SendTransaction] stays for the life of the process. *)
Theorem delivered_stays_tracked h t1 t14 hashes a m :
  Forall (spares h) a →
  is_Some (txTimes (foldl tracker_exec m (OpStart t1 h :: OpSubmitted t14 h :: OpDelivered hashes :: a)) !! h).
Proof.
  intros Ha. cbn [foldl]. destruct (other_ops h a Ha (tracker_exec (tracker_exec (tracker_exec m (OpStart t1 h))
    (OpSubmitted t14 h)) (OpDelivered hashes))) as [-> _].
  simpl. unfold RecordTxSubmitted, TrackTxStart. simpl. rewrite lookup_insert_eq. simpl. by rewrite lookup_insert_eq.
Qed.
End metrics.
