(* ===== verification/Baseline.v ===== *)
(** * Baseline: the known-failures gate of the test suites

    cmd/baseline/baseline.go: test results are compared with a checked-in list of
    expected failures, and the list is brought up to date.  The regular
    expressions of pattern entries and of [inferCause] are Go's: [regexp] enters
    as the class [Regexp], an expression that does not compile as [None]. *)

From Stdlib Require Import ZArith Lia Ascii.
From stdpp Require Import base numbers list gmap strings.
From S2P Require Import Prelude.

(** ** Results and entries *)

(** [StatusNone] is the empty [Status] of a result that never came. *)
Inductive TestStatus := StatusPass | StatusFail | StatusSkip | StatusNone.
#[export] Instance TestStatus_eq_dec : EqDecision TestStatus.
Proof. solve_decision. Defined.

Record Result := { r_ID : string; r_Status : TestStatus; r_Message : string }.

Record Entry := {
  e_ID : string; e_Cause : string; e_Flaky : bool; e_IDPattern : string; e_MessagePattern : string
}.

Definition IsPattern (e : Entry) : bool :=
  negb (bool_decide (e_IDPattern e = "")) || negb (bool_decide (e_MessagePattern e = "")).

Record DiffResult := {
  d_Regressions : list Result;
  d_Stale : list Entry;
  d_Expected : list (Result * Entry);
  (** No result is a flaky test that did not run. *)
  d_Quarantined : list (option Result * Entry)
}.

Definition Regressed (d : DiffResult) : bool := negb (bool_decide (d_Regressions d = [])).

(** [regexp.Compile] with [MatchString], and the signatures of [inferCause]. *)
Class Regexp := {
  re_Compile : string → option (string → bool);
  inferCause : string → string
}.

(** ** Test reports *)

(** A test of Mocha's report: its full title and the message of its [err]. *)
Record mochaTest := { mt_FullTitle : string; mt_Message : string }.

(** [ParseMochaJSON] on the decoded report. *)
Definition ParseMochaJSON (tests pending failures : list mochaTest) : list Result :=
  ((λ t, if bool_decide (mt_FullTitle t ∈ mt_FullTitle <$> pending)
         then {| r_ID := mt_FullTitle t; r_Status := StatusSkip; r_Message := "" |}
         else if bool_decide (mt_Message t = "")
         then {| r_ID := mt_FullTitle t; r_Status := StatusPass; r_Message := "" |}
         else {| r_ID := mt_FullTitle t; r_Status := StatusFail; r_Message := mt_Message t |}) <$> tests) ++
  ((λ f, {| r_ID := mt_FullTitle f; r_Status := StatusFail; r_Message := mt_Message f |}) <$>
     filter (λ f, mt_FullTitle f ∉ mt_FullTitle <$> tests) failures).

Record goTestEvent := { ev_Action : string; ev_Test : string; ev_Output : string }.

Definition is_space (c : ascii) : bool := existsb (Ascii.eqb c) [" "; "009"; "010"; "011"; "012"; "013"]%char.

Fixpoint trim_left (s : string) : string :=
  match s with String c s' => if is_space c then trim_left s' else s | EmptyString => s end.
Fixpoint trim_right (s : string) : string :=
  match s with
  | EmptyString => s
  | String c s => match trim_right s with
                  | EmptyString => if is_space c then EmptyString else String c EmptyString
                  | s => String c s
                  end
  end.

(** [strings.Split(s, "\n")]. *)
Fixpoint split_lines (s : string) : list string :=
  match s with
  | EmptyString => [EmptyString]
  | String c s =>
      if Ascii.eqb c "010" then EmptyString :: split_lines s
      else match split_lines s with
           | line :: lines => String c line :: lines
           | [] => [String c EmptyString]
           end
  end.

(** Spaces are those of ASCII. *)
Definition cleanGoTestOutput (raw : string) : string :=
  let lines := (λ line, trim_right (trim_left line)) <$> split_lines raw in
  String.concat (String "010" EmptyString)
    (filter (λ l, l ≠ "" ∧ String.prefix "=== " l = false ∧ String.prefix "--- " l = false) lines).

(** What was read of each test, and the tests in the order they first appear. *)
Record go_infos := { gi_infos : gmap string (TestStatus * string); gi_order : list string }.

Definition go_event (g : go_infos) (ev : goTestEvent) : go_infos :=
  if bool_decide (ev_Test ev = "") then g
  else
    let '(status, output) := default (StatusNone, "") (gi_infos g !! ev_Test ev) in
    let info :=
      if bool_decide (ev_Action ev = "output") then (status, output +:+ ev_Output ev)
      else if bool_decide (ev_Action ev = "pass") then (StatusPass, output)
      else if bool_decide (ev_Action ev = "fail") then (StatusFail, output)
      else if bool_decide (ev_Action ev = "skip") then (StatusSkip, output)
      else (status, output) in
    {| gi_infos := <[ev_Test ev := info]> (gi_infos g);
       gi_order := match gi_infos g !! ev_Test ev with
                   | Some _ => gi_order g
                   | None => gi_order g ++ [ev_Test ev]
                   end |}.

(** The names of the tests a subtest belongs to: what comes before each slash. *)
Fixpoint ancestors (name : string) : list string :=
  match name with
  | EmptyString => []
  | String c s =>
      (if Ascii.eqb c "/" then [EmptyString] else []) ++ (String c <$> ancestors s)
  end.

Definition incomplete : string :=
  "test did not complete (no pass/fail/skip event — binary may have crashed)".

Definition go_result (g : go_infos) (name : string) : Result :=
  let '(status, output) := default (StatusNone, "") (gi_infos g !! name) in
  match status with
  | StatusNone => {| r_ID := name; r_Status := StatusFail; r_Message := incomplete |}
  | StatusFail => {| r_ID := name; r_Status := StatusFail; r_Message := cleanGoTestOutput output |}
  | _ => {| r_ID := name; r_Status := status; r_Message := "" |}
  end.

(** [ParseGoTestJSON] on the decoded lines. *)
Definition ParseGoTestJSON (events : list goTestEvent) : list Result :=
  let g := foldl go_event {| gi_infos := ∅; gi_order := [] |} events in
  go_result g <$> filter (λ name, name ∉ (gi_order g ≫= ancestors)) (gi_order g).

Section diff.
Context {X : Regexp}.

(** ** Loading *)

(** What [LoadBaseline] checks of each entry it decoded; the error's text is left out. *)
Definition entry_ok (e : Entry) : bool :=
  negb (IsPattern e) ||
  (negb (bool_decide (e_IDPattern e = "")) && negb (bool_decide (e_MessagePattern e = "")) && e_Flaky e &&
   bool_decide (is_Some (re_Compile (e_IDPattern e))) && bool_decide (is_Some (re_Compile (e_MessagePattern e)))).

Definition LoadBaseline (entries : list Entry) : option (list Entry) :=
  if forallb entry_ok entries then Some entries else None.

(** ** Diff *)

Definition compilePatterns (baseline : list Entry) : list (Entry * (string → bool) * (string → bool)) :=
  omap (λ e,
    if negb (IsPattern e) then None
    else id ← re_Compile (e_IDPattern e); message ← re_Compile (e_MessagePattern e); Some (e, id, message))
    baseline.

Fixpoint matchPattern (patterns : list (Entry * (string → bool) * (string → bool))) (r : Result) : option Entry :=
  match patterns with
  | [] => None
  | (e, id, message) :: patterns =>
      if id (r_ID r) && message (r_Message r) then Some e else matchPattern patterns r
  end.

Definition literals (baseline : list Entry) : list Entry := filter (λ e, IsPattern e = false) baseline.

(** [byID]: a later entry replaces an earlier one of the same ID. *)
Definition byID (baseline : list Entry) : gmap string Entry :=
  foldl (λ m e, <[e_ID e := e]> m) ∅ (literals baseline).

Definition diff_add (ids : gmap string Entry) (patterns : list (Entry * (string → bool) * (string → bool)))
    (out : DiffResult) (r : Result) : DiffResult :=
  match ids !! r_ID r with
  | Some e =>
      if e_Flaky e
      then {| d_Regressions := d_Regressions out; d_Stale := d_Stale out; d_Expected := d_Expected out;
              d_Quarantined := d_Quarantined out ++ [(Some r, e)] |}
      else if bool_decide (r_Status r = StatusFail)
      then {| d_Regressions := d_Regressions out; d_Stale := d_Stale out;
              d_Expected := d_Expected out ++ [(r, e)]; d_Quarantined := d_Quarantined out |}
      else {| d_Regressions := d_Regressions out; d_Stale := d_Stale out ++ [e];
              d_Expected := d_Expected out; d_Quarantined := d_Quarantined out |}
  | None =>
      if bool_decide (r_Status r = StatusFail)
      then match matchPattern patterns r with
           | Some pe => {| d_Regressions := d_Regressions out; d_Stale := d_Stale out;
                           d_Expected := d_Expected out; d_Quarantined := d_Quarantined out ++ [(Some r, pe)] |}
           | None => {| d_Regressions := d_Regressions out ++ [r]; d_Stale := d_Stale out;
                        d_Expected := d_Expected out; d_Quarantined := d_Quarantined out |}
           end
      else out
  end.

(** The second loop: literal entries whose test did not run. *)
Definition diff_unseen (seen : list string) (out : DiffResult) (e : Entry) : DiffResult :=
  if bool_decide (e_ID e ∈ seen) then out
  else if e_Flaky e
  then {| d_Regressions := d_Regressions out; d_Stale := d_Stale out; d_Expected := d_Expected out;
          d_Quarantined := d_Quarantined out ++ [(None, e)] |}
  else {| d_Regressions := d_Regressions out; d_Stale := d_Stale out ++ [e];
          d_Expected := d_Expected out; d_Quarantined := d_Quarantined out |}.

Definition Diff (results : list Result) (baseline : list Entry) : DiffResult :=
  let patterns := compilePatterns baseline in
  let out := {| d_Regressions := []; d_Stale := []; d_Expected := []; d_Quarantined := [] |} in
  let out := foldl (diff_add (byID baseline) patterns) out results in
  foldl (diff_unseen (r_ID <$> results)) out (literals baseline).

(** ** Reconcile *)

Definition set_cause (c : string) (e : Entry) : Entry := {|
  e_ID := e_ID e; e_Cause := c; e_Flaky := e_Flaky e; e_IDPattern := e_IDPattern e;
  e_MessagePattern := e_MessagePattern e |}.

(** The message of an expected failure; a missing one is the empty string. *)
Definition messageByID (expected : list (Result * Entry)) (id : string) : string :=
  default "" ((foldl (λ m x, <[e_ID x.2 := r_Message x.1]> m) ∅ expected : gmap string string) !! id).

Definition Reconcile (baseline : list Entry) (d : DiffResult) : list Entry :=
  ((λ e, if bool_decide (e_Cause e = "") then set_cause (inferCause (messageByID (d_Expected d) (e_ID e))) e else e)
     <$> filter (λ e, e_ID e ∉ e_ID <$> d_Stale d) baseline) ++
  ((λ r, {| e_ID := r_ID r; e_Cause := inferCause (r_Message r); e_Flaky := false;
            e_IDPattern := ""; e_MessagePattern := "" |}) <$> d_Regressions d).

(** ** The parts of a diff in closed form *)

Definition fails (r : Result) : bool := bool_decide (r_Status r = StatusFail).

Definition regresses (baseline : list Entry) (r : Result) : bool :=
  fails r && bool_decide (byID baseline !! r_ID r = None) &&
  bool_decide (matchPattern (compilePatterns baseline) r = None).

Definition stale_by (baseline : list Entry) (r : Result) : option Entry :=
  e ← byID baseline !! r_ID r; if e_Flaky e || fails r then None else Some e.

Definition expected_by (baseline : list Entry) (r : Result) : option (Result * Entry) :=
  e ← byID baseline !! r_ID r; if negb (e_Flaky e) && fails r then Some (r, e) else None.

Lemma diff_add_eq baseline results out :
  let out' := foldl (diff_add (byID baseline) (compilePatterns baseline)) out results in
  d_Regressions out' = d_Regressions out ++ filter (λ r, regresses baseline r = true) results ∧
  d_Stale out' = d_Stale out ++ omap (stale_by baseline) results ∧
  d_Expected out' = d_Expected out ++ omap (expected_by baseline) results.
Proof.
  revert out. induction results as [|r rs IH]; intros out; [by rewrite !app_nil_r|].
  cbn [foldl]. destruct (IH (diff_add (byID baseline) (compilePatterns baseline) out r)) as (-> & -> & ->).
  rewrite filter_cons. unfold diff_add, regresses, stale_by, expected_by, fails. cbn [omap list_omap].
  destruct (byID baseline !! r_ID r) as [e|]; simpl.
  - rewrite andb_false_r. simpl. destruct (e_Flaky e); simpl; [done|].
    case_bool_decide; simpl; by rewrite <-?(assoc_L (++)).
  - destruct (bool_decide (r_Status r = StatusFail)); simpl; [|done].
    destruct (matchPattern _ r); simpl; by rewrite <-?(assoc_L (++)).
Qed.

Lemma diff_unseen_eq seen es out :
  let out' := foldl (diff_unseen seen) out es in
  d_Regressions out' = d_Regressions out ∧
  d_Stale out' = d_Stale out ++ filter (λ e, e_ID e ∉ seen ∧ e_Flaky e = false) es ∧
  d_Expected out' = d_Expected out.
Proof.
  revert out. induction es as [|e es IH]; intros out; [by rewrite app_nil_r|].
  cbn [foldl]. destruct (IH (diff_unseen seen out e)) as (-> & -> & ->). rewrite filter_cons.
  unfold diff_unseen. case_bool_decide as Hs; [by rewrite decide_False by tauto|].
  destruct (e_Flaky e); simpl; [by rewrite decide_False by (intros []; done)|].
  rewrite decide_True by done. by rewrite <-(assoc_L (++)).
Qed.

Lemma Diff_eq results baseline :
  d_Regressions (Diff results baseline) = filter (λ r, regresses baseline r = true) results ∧
  d_Stale (Diff results baseline) = omap (stale_by baseline) results ++
    filter (λ e, e_ID e ∉ r_ID <$> results ∧ e_Flaky e = false) (literals baseline) ∧
  d_Expected (Diff results baseline) = omap (expected_by baseline) results.
Proof.
  unfold Diff. set (out := foldl (diff_add _ _) _ results).
  destruct (diff_unseen_eq (r_ID <$> results) (literals baseline) out) as (-> & -> & ->).
  destruct (diff_add_eq baseline results
    {| d_Regressions := []; d_Stale := []; d_Expected := []; d_Quarantined := [] |}) as (Hr & Hs & He).
  fold out in Hr, Hs, He. by rewrite Hr, Hs, He.
Qed.

(** ** The literal entries by ID *)

Lemma byID_Some baseline id e :
  NoDup (e_ID <$> literals baseline) →
  byID baseline !! id = Some e ↔ e ∈ literals baseline ∧ e_ID e = id.
Proof.
  unfold byID. generalize (literals baseline) as l. intros l.
  induction l as [|x l IH] using rev_ind; simpl.
  - intros _. rewrite lookup_empty. split; [done|]. by intros [?%not_elem_of_nil _].
  - rewrite fmap_app, NoDup_app. intros (Hl & Hd & _). rewrite foldl_app. simpl.
    rewrite elem_of_app, list_elem_of_singleton. destruct (decide (e_ID x = id)) as [<-|Hne].
    + rewrite lookup_insert_eq. split; [intros [= ->]; auto|]. intros [[He| ->] Hid]; [|done].
      exfalso. apply (Hd (e_ID e)); [by apply list_elem_of_fmap_2|]. simpl. rewrite Hid. apply list_elem_of_here.
    + rewrite lookup_insert_ne by done. rewrite IH by done. split; [tauto|].
      intros [[He| ->] Hid]; [done|by destruct Hne].
Qed.

(** [r] is the kind of failure that pattern [e] describes. *)
Definition pattern_matches (e : Entry) (r : Result) : Prop :=
  ∃ id message, re_Compile (e_IDPattern e) = Some id ∧ re_Compile (e_MessagePattern e) = Some message ∧
    id (r_ID r) = true ∧ message (r_Message r) = true.

Lemma matchPattern_Some baseline r :
  is_Some (matchPattern (compilePatterns baseline) r) ↔
  ∃ e, e ∈ baseline ∧ IsPattern e = true ∧ pattern_matches e r.
Proof.
  assert (∀ ps, is_Some (matchPattern ps r) ↔
    ∃ e id m, (e, id, m) ∈ ps ∧ id (r_ID r) = true ∧ m (r_Message r) = true) as Hm.
  { induction ps as [|[[e id] m] ps IH]; simpl.
    - split; [by intros []|]. by intros (? & ? & ? & ?%not_elem_of_nil & _).
    - destruct (id (r_ID r) && m (r_Message r)) eqn:E.
      + apply andb_true_iff in E. split; [|eauto]. intros _. exists e, id, m. split; [apply list_elem_of_here|done].
      + rewrite IH. setoid_rewrite elem_of_cons. split; [naive_solver|].
        intros (e' & id' & m' & [[= -> -> ->]|Hin] & Hi & Hmm); [by rewrite Hi, Hmm in E|naive_solver]. }
  rewrite Hm. unfold compilePatterns, pattern_matches. setoid_rewrite list_elem_of_omap. split.
  - intros (e & id & m & (e' & He & Hc) & Hi & Hmm). destruct (IsPattern e') eqn:Hp; [|done]. simpl in Hc.
    destruct (re_Compile (e_IDPattern e')) eqn:E1, (re_Compile (e_MessagePattern e')) eqn:E2; try done.
    injection Hc as <- <- <-. eauto 10.
  - intros (e & He & Hp & id & m & E1 & E2 & Hi & Hmm). exists e, id, m. split; [|done].
    exists e. split; [done|]. by rewrite Hp, E1, E2.
Qed.

(** ** Reconciling *)

(** The entry kept for [e], with its cause filled in. *)
Definition kept (expected : list (Result * Entry)) (e : Entry) : Entry :=
  if bool_decide (e_Cause e = "") then set_cause (inferCause (messageByID expected (e_ID e))) e else e.

Lemma kept_same expected e :
  e_ID (kept expected e) = e_ID e ∧ e_Flaky (kept expected e) = e_Flaky e ∧
  e_IDPattern (kept expected e) = e_IDPattern e ∧ e_MessagePattern (kept expected e) = e_MessagePattern e ∧
  IsPattern (kept expected e) = IsPattern e.
Proof. unfold kept. by case_bool_decide. Qed.

(** What a run and a baseline satisfy: every test has a name of its own, and the
    label of a pattern entry is not the name of a literal one. *)
Record well_named (results : list Result) (baseline : list Entry) : Prop := {
  wn_results : NoDup (r_ID <$> results);
  wn_literals : NoDup (e_ID <$> literals baseline);
  wn_labels p e : p ∈ baseline → IsPattern p = true → e ∈ literals baseline → e_ID p ≠ e_ID e
}.

Section settle.
Context (results : list Result) (baseline : list Entry) (Hwn : well_named results baseline).

Let d := Diff results baseline.
Let next := Reconcile baseline d.

Lemma result_unique r r' : r ∈ results → r' ∈ results → r_ID r = r_ID r' → r = r'.
Proof. intros ???. eapply (NoDup_key r_ID results); [apply Hwn|done..]. Qed.

Lemma elem_of_Stale e :
  e ∈ d_Stale d ↔ e ∈ literals baseline ∧ e_Flaky e = false ∧
    ((∃ r, r ∈ results ∧ r_ID r = e_ID e ∧ fails r = false) ∨ e_ID e ∉ r_ID <$> results).
Proof.
  destruct (Diff_eq results baseline) as (_ & Hs & _). unfold d. rewrite Hs, elem_of_app, list_elem_of_omap.
  rewrite list_elem_of_filter. unfold stale_by. split.
  - intros [(r & Hr & He)|[[Hn Hf] Hl]]; [|tauto].
    destruct (byID baseline !! r_ID r) as [e'|] eqn:E; [|done]. simpl in He.
    destruct (e_Flaky e') eqn:Hf, (fails r) eqn:Hfr; try done. injection He as <-.
    apply byID_Some in E as [Hl Hid]; [|apply Hwn]. eauto 10.
  - intros (Hl & Hf & [(r & Hr & Hid & Hfr)|Hn]); [left|right; tauto]. exists r. split; [done|].
    rewrite (proj2 (byID_Some baseline (r_ID r) e (wn_literals _ _ Hwn))) by done. simpl. by rewrite Hf, Hfr.
Qed.

Lemma elem_of_Regressions r :
  r ∈ d_Regressions d ↔ r ∈ results ∧ fails r = true ∧ byID baseline !! r_ID r = None ∧
    matchPattern (compilePatterns baseline) r = None.
Proof.
  destruct (Diff_eq results baseline) as (Hr & _). unfold d. rewrite Hr, list_elem_of_filter.
  unfold regresses. rewrite !andb_true_iff, !bool_decide_eq_true. tauto.
Qed.

Definition fresh (r : Result) : Entry := {|
  e_ID := r_ID r; e_Cause := inferCause (r_Message r); e_Flaky := false; e_IDPattern := ""; e_MessagePattern := "" |}.

Lemma literals_next :
  literals next = (kept (d_Expected d) <$> filter (λ e, e_ID e ∉ e_ID <$> d_Stale d) (literals baseline)) ++
    (fresh <$> d_Regressions d).
Proof.
  unfold next, Reconcile, literals. change (λ e, if bool_decide (e_Cause e = "") then _ else e) with (kept (d_Expected d)).
  change (λ r, {| e_ID := r_ID r |}) with fresh. rewrite filter_app, !filter_fmap, !list_filter_filter. f_equal; f_equal.
  - apply list_filter_iff. intros e. destruct (kept_same (d_Expected d) e) as (_ & _ & _ & _ & ->). tauto.
  - induction (d_Regressions d) as [|r rs IH]; [done|]. rewrite filter_cons, decide_True by done. by f_equal.
Qed.

Lemma NoDup_next : NoDup (e_ID <$> literals next).
Proof.
  rewrite literals_next, fmap_app, <-!list_fmap_compose. apply NoDup_app. split_and!.
  - rewrite (list_fmap_ext _ e_ID _) by (intros i e _; apply kept_same).
    eapply sublist_NoDup; [apply (wn_literals _ _ Hwn)|]. apply fmap_sublist, sublist_filter.
  - intros id (e & -> & [_ Hl]%list_elem_of_filter)%list_elem_of_fmap (r & Hid & Hr)%list_elem_of_fmap.
    apply elem_of_Regressions in Hr as (_ & _ & Hn & _). simpl in Hid.
    rewrite (proj2 (byID_Some baseline _ e (wn_literals _ _ Hwn))) in Hn; [done|].
    split; [done|]. rewrite <-Hid. symmetry. apply kept_same.
  - change (e_ID ∘ fresh) with r_ID. destruct (Diff_eq results baseline) as (Hr & _). unfold d. rewrite Hr.
    eapply sublist_NoDup; [apply (wn_results _ _ Hwn)|]. apply fmap_sublist, sublist_filter.
Qed.

(** Patterns are kept: their labels are never those of stale entries. *)
Lemma matchPattern_next r :
  is_Some (matchPattern (compilePatterns baseline) r) → is_Some (matchPattern (compilePatterns next) r).
Proof.
  rewrite !matchPattern_Some. intros (e & He & Hp & Hm). exists (kept (d_Expected d) e).
  destruct (kept_same (d_Expected d) e) as (_ & _ & Hid & Hmsg & Hpat). split_and!; [|by rewrite Hpat|].
  - apply elem_of_app. left. apply list_elem_of_fmap. exists e. split; [done|]. apply list_elem_of_filter.
    split; [|done]. intros (e' & Hid' & (Hl & _)%elem_of_Stale)%list_elem_of_fmap. by eapply (wn_labels _ _ Hwn).
  - unfold pattern_matches. by rewrite Hid, Hmsg.
Qed.

Lemma no_regression r : r ∈ results → regresses next r = false.
Proof.
  intros Hr. apply not_true_iff_false. unfold regresses. rewrite !andb_true_iff, !bool_decide_eq_true.
  intros [[Hf Hn] Hm]. destruct (byID baseline !! r_ID r) as [e|] eqn:E.
  - apply byID_Some in E as [Hl Hid]; [|apply Hwn].
    assert (byID next !! r_ID r = Some (kept (d_Expected d) e)) as Hk; [|congruence].
    apply byID_Some; [apply NoDup_next|]. split; [|by rewrite (proj1 (kept_same _ _))].
    rewrite literals_next. apply elem_of_app. left. apply list_elem_of_fmap. exists e. split; [done|].
    apply list_elem_of_filter. split; [|done].
    intros (e' & Hid' & (Hl' & _ & Hst)%elem_of_Stale)%list_elem_of_fmap.
    destruct Hst as [(r' & Hr' & Hid'' & Hf')|Hns].
    + rewrite (result_unique r r') in Hf by (done || congruence). congruence.
    + apply Hns. rewrite <-Hid', Hid. by apply list_elem_of_fmap_2.
  - destruct (matchPattern (compilePatterns baseline) r) eqn:Em.
    + destruct (matchPattern_next r) as [e' He']; [by rewrite Em; eauto|congruence].
    + assert (byID next !! r_ID r = Some (fresh r)) as Hk; [|congruence].
      apply byID_Some; [apply NoDup_next|]. split; [|done]. rewrite literals_next. apply elem_of_app. right.
      apply list_elem_of_fmap. exists r. split; [done|]. by apply elem_of_Regressions.
Qed.

Lemma no_stale e r : e ∈ literals next → r ∈ results → r_ID r = e_ID e → e_Flaky e = false → fails r = true.
Proof.
  rewrite literals_next, elem_of_app, !list_elem_of_fmap.
  intros [(e0 & -> & [Hs Hl]%list_elem_of_filter)|(r' & -> & Hr')] Hr Hid Hf.
  - destruct (kept_same (d_Expected d) e0) as (Hki & Hkf & _). rewrite Hki in Hid. rewrite Hkf in Hf.
    destruct (fails r) eqn:Hfr; [done|]. destruct Hs. apply list_elem_of_fmap_2, elem_of_Stale. eauto 10.
  - apply elem_of_Regressions in Hr' as (Hr' & Hf' & _). by rewrite (result_unique r r' Hr Hr' Hid).
Qed.

Lemma no_unseen e : e ∈ literals next → e_Flaky e = false → e_ID e ∈ r_ID <$> results.
Proof.
  rewrite literals_next. intros [(e0 & -> & [Hs Hl]%list_elem_of_filter)%list_elem_of_fmap|
    (r' & -> & Hr')%list_elem_of_fmap]%elem_of_app Hf.
  - destruct (kept_same (d_Expected d) e0) as (Hki & Hkf & _). rewrite Hki. rewrite Hkf in Hf.
    destruct (decide (e_ID e0 ∈ r_ID <$> results)) as [Hi|Hi]; [done|].
    destruct Hs. apply list_elem_of_fmap_2, elem_of_Stale. eauto.
  - apply elem_of_Regressions in Hr' as (Hr' & _). by apply (list_elem_of_fmap_2 r_ID).
Qed.

Lemma flaky_kept e : e ∈ baseline → e_Flaky e = true → kept (d_Expected d) e ∈ next.
Proof.
  intros He Hf. apply elem_of_app. left. apply list_elem_of_fmap. exists e. split; [done|].
  apply list_elem_of_filter. split; [|done].
  intros (e' & Hid & (Hl & Hf' & _)%elem_of_Stale)%list_elem_of_fmap.
  destruct (IsPattern e) eqn:Hp; [by eapply (wn_labels _ _ Hwn)|].
  assert (e = e') as <-; [|congruence]. eapply (NoDup_key e_ID (literals baseline)); [apply Hwn| |done..].
  by apply list_elem_of_filter.
Qed.
End settle.

(** C28: Updating the baseline settles it: for a run in which every test has a name of its own, and a baseline whose literal entries have distinct names that no pattern entry has as its label, which loading it does not check, comparing the same results with the reconciled baseline reports no regression and no stale entry, whatever failed, passed or did not run, and every flaky entry, literal or pattern, is still there with its patterns. *)
Theorem Reconcile_settles results baseline (Hwn : well_named results baseline) :
  let next := Reconcile baseline (Diff results baseline) in
  Regressed (Diff results next) = false ∧ d_Stale (Diff results next) = [] ∧
  (∀ e, e ∈ baseline → e_Flaky e = true →
     ∃ e', e' ∈ next ∧ e_ID e' = e_ID e ∧ e_Flaky e' = true ∧ e_IDPattern e' = e_IDPattern e ∧
       e_MessagePattern e' = e_MessagePattern e).
Proof.
  intros next. destruct (Diff_eq results next) as (Hr & Hs & _). split_and!.
  - unfold Regressed. rewrite Hr, bool_decide_eq_true_2; [done|]. apply filter_none.
    intros r Hin. unfold next. by rewrite no_regression.
  - rewrite Hs. apply app_nil. split.
    + apply elem_of_nil_inv. intros e0 (r & Hin & He0)%list_elem_of_omap. revert He0. unfold stale_by. destruct (byID next !! r_ID r) as [e|] eqn:E; [|done]. simpl.
      apply byID_Some in E as [Hl Hid]; [|by apply NoDup_next]. destruct (e_Flaky e) eqn:Hf; [done|].
      by rewrite (no_stale results baseline Hwn e r).
    + apply filter_none. intros e Hl [Hn Hf]. by apply Hn, (no_unseen results baseline Hwn).
  - intros e He Hf. exists (kept (d_Expected (Diff results baseline)) e).
    destruct (kept_same (d_Expected (Diff results baseline)) e) as (-> & -> & -> & -> & _).
    split; [by apply flaky_kept|done].
Qed.
End diff.

(** ** Reports and the gate *)

Lemma go_order events g :
  (∀ n, n ∈ gi_order g ↔ is_Some (gi_infos g !! n)) → NoDup (gi_order g) →
  let g' := foldl go_event g events in
  (∀ n, n ∈ gi_order g' ↔ is_Some (gi_infos g' !! n)) ∧ NoDup (gi_order g').
Proof.
  revert g. induction events as [|ev evs IH]; intros g Ho Hn; [done|]. cbn [foldl]. apply IH.
  - intros n. unfold go_event. case_bool_decide; [done|].
    destruct (default _ (gi_infos g !! ev_Test ev)) as [st out]. simpl.
    destruct (decide (ev_Test ev = n)) as [<-|Hne].
    + rewrite lookup_insert_eq. split; [eauto|]. intros _. destruct (gi_infos g !! ev_Test ev) eqn:E.
      * apply Ho. eauto.
      * apply elem_of_app. right. by apply list_elem_of_singleton.
    + rewrite lookup_insert_ne by done. rewrite <-Ho. destruct (gi_infos g !! ev_Test ev); [done|].
      rewrite elem_of_app, list_elem_of_singleton. naive_solver.
  - unfold go_event. case_bool_decide; [done|].
    destruct (default _ (gi_infos g !! ev_Test ev)) as [st out]. simpl.
    destruct (gi_infos g !! ev_Test ev) eqn:E; [done|]. apply NoDup_app. split_and!; [done| |apply NoDup_singleton].
    intros n Hin ->%list_elem_of_singleton. apply Ho in Hin as [? Hin]. congruence.
Qed.

Lemma go_result_ID g n : r_ID (go_result g n) = n.
Proof. unfold go_result. by destruct (default _ _) as [[] ?]. Qed.

(** Every Go test is reported at most once, so a Go suite's results are named as
    the gate needs. *)
Lemma go_results_named events : NoDup (r_ID <$> ParseGoTestJSON events).
Proof.
  unfold ParseGoTestJSON. rewrite <-list_fmap_compose.
  rewrite (list_fmap_ext _ id _) by (intros i n _; apply go_result_ID). rewrite list_fmap_id.
  eapply sublist_NoDup; [|apply sublist_filter].
  apply (go_order events); [|constructor]. intros n. simpl. rewrite lookup_empty, elem_of_nil.
  split; [done|by intros []].
Qed.

Definition terminal (ev : goTestEvent) : Prop := ev_Action ev ∈ ["pass"; "fail"; "skip"].

Lemma go_unfinished events g n :
  (∀ ev, ev ∈ events → ev_Test ev = n → ¬ terminal ev) →
  default StatusNone (fst <$> gi_infos g !! n) = StatusNone →
  default StatusNone (fst <$> gi_infos (foldl go_event g events) !! n) = StatusNone.
Proof.
  revert g. induction events as [|ev evs IH]; intros g Hev Hg; [done|]. cbn [foldl].
  apply IH; [intros ev' He'; by apply Hev, list_elem_of_further|]. unfold go_event.
  case_bool_decide; [done|]. destruct (default _ (gi_infos g !! ev_Test ev)) as [st out] eqn:E. simpl.
  destruct (decide (ev_Test ev = n)) as [Hn|Hn]; [|by rewrite lookup_insert_ne].
  pose proof (Hev ev (list_elem_of_here _ _) Hn) as Ht. unfold terminal in Ht.
  rewrite !elem_of_cons in Ht. rewrite Hn, lookup_insert_eq. rewrite Hn in E.
  assert (st = StatusNone) as -> by (destruct (gi_infos g !! n) as [[]|]; simpl in *; congruence).
  repeat case_bool_decide; simpl; tauto.
Qed.

Lemma go_seen events g ev n :
  ev ∈ events → ev_Test ev = n → n ≠ "" → is_Some (gi_infos (foldl go_event g events) !! n).
Proof.
  intros Hev Ht Hn. assert (∀ evs g, is_Some (gi_infos g !! n) → is_Some (gi_infos (foldl go_event g evs) !! n)) as Hmono.
  { induction evs as [|e evs IH]; intros g'; [done|]. intros Hg. apply IH. unfold go_event.
    case_bool_decide; [done|]. destruct (default _ (gi_infos g' !! ev_Test e)). simpl.
    destruct (decide (ev_Test e = n)) as [->|]; [rewrite lookup_insert_eq; eauto|by rewrite lookup_insert_ne]. }
  revert g. induction events as [|e evs IH]; [by apply not_elem_of_nil in Hev|]. intros g. cbn [foldl].
  apply elem_of_cons in Hev as [<-|Hev]; [|by apply IH]. apply Hmono. unfold go_event. rewrite bool_decide_eq_false_2 by congruence.
  destruct (default _ (gi_infos g !! ev_Test ev)). simpl. rewrite Ht, lookup_insert_eq. eauto.
Qed.

Lemma go_order_named events g n :
  n ∈ gi_order (foldl go_event g events) → n ∈ gi_order g ∨ ∃ ev, ev ∈ events ∧ ev_Test ev = n.
Proof.
  revert g. induction events as [|e evs IH]; intros g; [by left|]. cbn [foldl].
  intros [Hn|(ev & Hev & Ht)]%IH; [|right; exists ev; split; [by apply list_elem_of_further|done]].
  unfold go_event in Hn. case_bool_decide; [by left|].
  destruct (default _ (gi_infos g !! ev_Test e)). simpl in Hn. destruct (gi_infos g !! ev_Test e); [by left|].
  apply elem_of_app in Hn as [Hn|Hn%list_elem_of_singleton]; [by left|right]. exists e.
  split; [apply list_elem_of_here|done].
Qed.

Lemma filter_eq_NoDup {A} `{EqDecision A} (l : list A) x : NoDup l → x ∈ l → filter (λ y, y = x) l = [x].
Proof.
  induction 1 as [|y l Hy Hnd IH]; [by intros ?%not_elem_of_nil|]. intros [->|Hx]%elem_of_cons; rewrite filter_cons.
  - rewrite decide_True by done. f_equal. apply filter_none. by intros z Hz ->.
  - rewrite decide_False by (by intros ->). by apply IH.
Qed.

(** A Go test run is read completely: every test that an event names, and that has no subtests of its own, has exactly one result, and it is a failure when the run ended without saying how the test went. *)
Theorem go_leaf_reported events ev n
    (Hev : ev ∈ events) (Hn : ev_Test ev = n) (Hne : n ≠ "")
    (Hleaf : ∀ ev', ev' ∈ events → n ∉ ancestors (ev_Test ev')) :
  ∃ r, filter (λ r, r_ID r = n) (ParseGoTestJSON events) = [r] ∧
    ((∀ ev', ev' ∈ events → ev_Test ev' = n → ¬ terminal ev') → r_Status r = StatusFail).
Proof.
  set (g0 := {| gi_infos := ∅; gi_order := [] |} : go_infos).
  assert (∀ m, m ∈ gi_order g0 ↔ is_Some (gi_infos g0 !! m)) as Ho0.
  { intros m. simpl. rewrite lookup_empty, elem_of_nil. split; [done|by intros []]. }
  destruct (go_order events g0 Ho0 (NoDup_nil_2)) as [Ho Hnd]. set (g := foldl go_event g0 events) in *.
  exists (go_result g n). split.
  - unfold ParseGoTestJSON. fold g0 g. rewrite filter_fmap.
    rewrite (list_filter_iff _ (λ m, m = n)) by (intros m; by rewrite go_result_ID).
    rewrite filter_eq_NoDup; [done| |].
    + eapply sublist_NoDup; [exact Hnd|apply sublist_filter].
    + apply list_elem_of_filter. split; [|by eapply Ho, go_seen].
      intros (m & Hm & [?%not_elem_of_nil|(ev' & Hev' & Ht')]%go_order_named)%list_elem_of_bind; [done|].
      apply (Hleaf ev' Hev'). by rewrite Ht'.
  - intros Hun. pose proof (go_unfinished events g0 n Hun eq_refl) as Hs. fold g in Hs. unfold go_result.
    destruct (gi_infos g !! n) as [[st out]|]; simpl in *; [by rewrite Hs|done].
Qed.

(** ** Runs the gate misjudges *)

(** A parent test that crashed after its subtests passed has subtests, so it is
    not reported, and the incomplete run looks clean. *)
Lemma crashed_parent_looks_clean :
  r_Status <$> ParseGoTestJSON
    [{| ev_Action := "run"; ev_Test := "TestSuite"; ev_Output := "" |};
     {| ev_Action := "run"; ev_Test := "TestSuite/case"; ev_Output := "" |};
     {| ev_Action := "pass"; ev_Test := "TestSuite/case"; ev_Output := "" |};
     {| ev_Action := "output"; ev_Test := "TestSuite"; ev_Output := "panic: closed" |};
     {| ev_Action := "fail"; ev_Test := "TestSuite"; ev_Output := "" |}] = [StatusPass].
Proof. vm_compute. reflexivity. Qed.

(** A Mocha test that failed with an empty message is listed among the failures
    and reported as passed. *)
Lemma empty_message_passes :
  let t := {| mt_FullTitle := "Token burns"; mt_Message := "" |} in
  ParseMochaJSON [t] [] [t] = [{| r_ID := "Token burns"; r_Status := StatusPass; r_Message := "" |}].
Proof. vm_compute. reflexivity. Qed.

(** ** A run *)

(** An expression matches the strings that start with it; "(" does not compile. *)
#[local] Instance prefix_regexp : Regexp := {|
  re_Compile p := if bool_decide (p = "(") then None else Some (String.prefix p);
  inferCause m := if String.prefix "insufficient funds" m then "insufficient-funds" else "" |}.

Definition demo_run : list Result :=
  [{| r_ID := "a"; r_Status := StatusPass; r_Message := "" |};
   {| r_ID := "b"; r_Status := StatusFail; r_Message := "insufficient funds" |};
   {| r_ID := "race x"; r_Status := StatusFail; r_Message := "nonce" |};
   {| r_ID := "c"; r_Status := StatusFail; r_Message := "boom" |}].

Definition literal (id : string) (flaky : bool) : Entry :=
  {| e_ID := id; e_Cause := ""; e_Flaky := flaky; e_IDPattern := ""; e_MessagePattern := "" |}.

Definition demo_list : list Entry :=
  [literal "a" false; literal "c" false; literal "gone" false; literal "sometimes" true;
   {| e_ID := "races"; e_Cause := ""; e_Flaky := true; e_IDPattern := "race"; e_MessagePattern := "nonce" |}].

Lemma Reconcile_settles_witness :
  d_Regressions (Diff demo_run demo_list) ≠ [] ∧ length (d_Stale (Diff demo_run demo_list)) = 2 ∧
  e_ID <$> Reconcile demo_list (Diff demo_run demo_list) = ["c"; "sometimes"; "races"; "b"] ∧
  Regressed (Diff demo_run (Reconcile demo_list (Diff demo_run demo_list))) = false.
Proof.
  assert (well_named demo_run demo_list) as Hwn.
  { split.
    - apply (bool_decide_unpack _). vm_compute. exact I.
    - apply (bool_decide_unpack _). vm_compute. exact I.
    - assert (Forall (λ p, IsPattern p = true → Forall (λ e, e_ID p ≠ e_ID e) (literals demo_list)) demo_list) as Hf.
      { vm_compute. repeat (constructor; [intros; try discriminate; repeat (constructor; [discriminate|]); constructor|]).
        constructor. }
      intros p e Hp Hpat He. rewrite Forall_forall in Hf. pose proof (Hf p Hp Hpat) as Hf'.
      rewrite Forall_forall in Hf'. exact (Hf' e He). }
  split; [vm_compute; discriminate|]. split; [vm_compute; reflexivity|]. split; [vm_compute; reflexivity|].
  exact (proj1 (Reconcile_settles demo_run demo_list Hwn)).
Defined.

(** Two tests of one title, one passing: the entry is expected and stale at once,
    reconciling drops it and the failure comes back as a regression. *)
Lemma duplicate_title_unsettles :
  let run := [{| r_ID := "t"; r_Status := StatusPass; r_Message := "" |};
              {| r_ID := "t"; r_Status := StatusFail; r_Message := "boom" |}] in
  let d := Diff run [literal "t" false] in
  Regressed d = false ∧ Reconcile [literal "t" false] d = [] ∧
  Regressed (Diff run (Reconcile [literal "t" false] d)) = true.
Proof. vm_compute. done. Qed.

(** A pattern entry whose label is the name of a stale literal entry goes with it,
    although a label is documented as never looked up; the failure it absorbed
    comes back as a regression. *)
Lemma label_clash_drops_pattern :
  let p := {| e_ID := "a"; e_Cause := ""; e_Flaky := true; e_IDPattern := "race"; e_MessagePattern := "nonce" |} in
  let run := take 1 demo_run ++ take 1 (drop 2 demo_run) in
  let d := Diff run [literal "a" false; p] in
  Regressed d = false ∧ Reconcile [literal "a" false; p] d = [] ∧
  Regressed (Diff run (Reconcile [literal "a" false; p] d)) = true.
Proof. vm_compute. done. Qed.

Lemma go_leaf_reported_witness :
  let events := [{| ev_Action := "run"; ev_Test := "T"; ev_Output := "" |};
                 {| ev_Action := "run"; ev_Test := "T/x"; ev_Output := "" |};
                 {| ev_Action := "output"; ev_Test := "T/x"; ev_Output := "panic" |}] in
  ∃ r, filter (λ r, r_ID r = "T/x") (ParseGoTestJSON events) = [r] ∧ r_Status r = StatusFail.
Proof.
  intros events.
  destruct (go_leaf_reported events {| ev_Action := "run"; ev_Test := "T/x"; ev_Output := "" |} "T/x")
    as (r & Hr & Hst).
  - right. left.
  - reflexivity.
  - discriminate.
  - intros ev' Hev'. assert (Forall (λ ev, "T/x" ∉ ancestors (ev_Test ev)) events) as Hf
      by (apply (bool_decide_unpack _); vm_compute; exact I).
    rewrite Forall_forall in Hf. exact (Hf ev' Hev').
  - exists r. split; [exact Hr|]. apply Hst. intros ev' Hev' _.
    assert (Forall (λ ev, ¬ ev_Action ev ∈ ["pass"; "fail"; "skip"]) events) as Hf
      by (apply (bool_decide_unpack _); vm_compute; exact I).
    rewrite Forall_forall in Hf. exact (Hf ev' Hev').
Defined.
