(* ===== verification/Hardhat.v ===== *)
(** * Hardhat: setting ledger state on a test node

    The state primer (gateway/testimpl/primer/state_primer.go), the Hardhat
    directives that commit its transactions and the mining calls
    (gateway/testimpl/hardhat_helpers.go), and the funding of the test accounts
    (fund_accounts.go).  The primer's [DualStateDB] reads from [StateDB] and
    takes its result from it; the twin it keeps beside it is left out.  A
    directive changes the value it names and nothing else, and its call returns
    when the gateway's reads show it. *)

From Stdlib Require Import ZArith Lia Ascii QArith.
From stdpp Require Import base numbers list sorting gmap strings.
From S2P Require Import Prelude Blocks KVSpec LightKVS RevertibleKVS Codec Geth Domain Convert Evm Rpc.
From S2P Require Import StateDB StateDBProps Executor Engine EngineProps Endorse Remote Commit.

Local Open Scope Z_scope.

(** ** Hexadecimal big integers *)

(** The digits of [big.Int.SetString] with base 16. *)
Fixpoint hex_value (acc : Z) (s : string) : option Z :=
  match s with
  | EmptyString => Some acc
  | String ch s => d ← hex_digit ch; hex_value (16 * acc + d) s
  end.

(** [new(big.Int).SetString(s, 16)]: an optional sign and at least one digit. *)
Definition SetString16 (s : string) : option Z :=
  match s with
  | EmptyString => None
  | String "-" s => if String.eqb s "" then None else Z.opp <$> hex_value 0 s
  | String "+" s => if String.eqb s "" then None else hex_value 0 s
  | _ => hex_value 0 s
  end.

(** The slice expression [s[2:]]. *)
Definition from2 (s : string) : outcome string :=
  if (String.length s <? 2)%nat then Panic "slice bounds out of range"
  else Done (String.substring 2 (String.length s - 2) s).

(** ** The primer *)

Section primer.
Context {G : GethTypes}.

(** [StatePrimer.SetBalance]: there is only the delta to apply. *)
Definition sp_SetBalance (c : config) (addr : Address) (balance : option Z) : st StateDB unit :=
  match balance with
  | None => mret tt
  | Some target =>
      if target <? 0 then mret tt
      else if 2 ^ 256 <=? target then st_panic "overflow"
      else
        current ← GetBalance c addr;
        if current <? target then _ ← AddBalance c addr (u256 (target - current)); mret tt
        else if target <? current then _ ← SubBalance c addr (u256 (current - target)); mret tt
        else mret tt
  end.

(** [StatePrimer.SetStorage], the map in the order it is walked in. *)
Fixpoint sp_SetStorage (c : config) (addr : Address) (storage : list (Hash * Hash)) : st StateDB unit :=
  match storage with
  | [] => mret tt
  | (key, value) :: storage => _ ← SetState c addr key value; sp_SetStorage c addr storage
  end.

Definition sp_SetAccount (c : config) (addr : Address) (nonce : option Z) (code : option byte_slice)
    (balance : option Z) (storage : list (Hash * Hash)) : st StateDB unit :=
  CreateAccount addr;;
  match nonce with Some n => SetNonce addr n | None => mret tt end;;
  _ ← SetCode c addr code;
  sp_SetBalance c addr balance;;
  sp_SetStorage c addr storage.

Record AllocEntry := {
  al_Balance : string;
  al_Code : string;
  al_Nonce : string;
  al_Storage : list (string * string)
}.

(** The nonce of an entry: a text that is no number leaves a nil [big.Int]. *)
Definition alloc_nonce (s : string) : outcome (option Z) :=
  if String.eqb s "" then Done None
  else match from2 s with
       | Panic msg => Panic msg
       | Done digits =>
           match SetString16 digits with
           | None => Panic "invalid memory address or nil pointer dereference"
           | Some n => Done (Some (u64 (Z.abs n)))
           end
       end.

Definition alloc_balance (s : string) : outcome (option Z) :=
  if String.eqb s "" then Done None
  else match from2 s with Panic msg => Panic msg | Done digits => Done (SetString16 digits) end.

Section load.
(** [common.HexToAddress], [common.HexToHash] and [common.FromHex]. *)
Context (HexToAddress : string → Address) (HexToHash : string → Hash) (FromHex : string → byte_slice).

(** [LoadFromJSON] after decoding: the entries in the order of the walk. *)
Fixpoint LoadFromJSON (c : config) (alloc : list (string * AllocEntry)) : st StateDB unit :=
  match alloc with
  | [] => mret tt
  | (addrStr, entry) :: alloc =>
      nonce ← lift (alloc_nonce (al_Nonce entry));
      balance ← lift (alloc_balance (al_Balance entry));
      let code := if String.eqb (al_Code entry) "" || String.eqb (al_Code entry) "0x" then None
                  else Some (FromHex (al_Code entry)) in
      let storage := (λ kv, (HexToHash kv.1, HexToHash kv.2)) <$> al_Storage entry in
      sp_SetAccount c (HexToAddress addrStr) nonce code balance storage;;
      LoadFromJSON c alloc
  end.
End load.
End primer.

(** ** Committing the primed state *)

Section commit.
Context {G : GethTypes} {W : Wire} {K : EndorsementSDK W}.

(** [Reset]: a new [StateDB] over the latest snapshot. *)
Definition sp_Reset (ns : string) (mono : bool) (latest : result string ReadStore)
    : result string (config * StateDB) :=
  match latest with
  | Err e => Err e
  | Ok reader => Ok ({| cfg_namespace := ns; cfg_store := reader; cfg_monotonicVersions := mono |}, NewStateDB)
  end.

(** The endorsements of all builders, or the first error. *)
Fixpoint endorse_all (builders : list (Invocation → ExecutionResult → result string ProposalResponse))
    (inv : Invocation) (res : ExecutionResult) : result string (list ProposalResponse) :=
  match builders with
  | [] => Ok []
  | builder :: builders =>
      match builder inv res with
      | Err e => Err e
      | Ok presp =>
          match endorse_all builders inv res with Err e => Err e | Ok presps => Ok (presp :: presps) end
      end
  end.

(** [commitAndWait]: [submit] is the gateway's with [wait] and the submitter's
    without; what [WaitForCommit] returns is ignored. *)
Definition commitAndWait {Net} (submit : list ProposalResponse → Net → option string * Net) (client : option string)
    (presps : list ProposalResponse) (wait : bool) (net : Net) : option string * Net :=
  match submit presps net with
  | (Some e, net) => (Some e, net)
  | (None, net) => (if wait then client else None, net)
  end.

(** Only the status is set. *)
Definition primer_metadata : ExecutionMetadata := {|
  md_Status := EXECUTION_STATUS_SUCCESS; md_Reason := []; md_GasUsed := 0; md_Timestamp := 0 |}.

(** [Commit]: [fakeEthTx] and [NewInvocation] answer by argument. *)
Definition sp_Commit {Net} (ParseFloat : string → option Q) (fakeEthTx : result string byte_slice)
    (NewInvocation : Z → byte_slice → result string Invocation) (nsVersion : string)
    (builders : list (Invocation → ExecutionResult → result string ProposalResponse))
    (submit : list ProposalResponse → Net → option string * Net) (client : option string)
    (s : StateDB) (wait : bool) (net : Net) : option string * Net :=
  match fakeEthTx with
  | Err e => (Some e, net)
  | Ok ethTxBytes =>
      match NsVersionUint64 ParseFloat nsVersion with
      | Err e => (Some e, net)
      | Ok nsVersionX =>
          match NewInvocation nsVersionX ethTxBytes with
          | Err e => (Some e, net)
          | Ok inv =>
              match NewResult (Result s) []
                      primer_metadata EmptyString with
              | Err e => (Some (Error e), net)
              | Ok res =>
                  match endorse_all builders inv res with
                  | Err e => (Some e, net)
                  | Ok presps => commitAndWait submit client presps wait net
                  end
              end
          end
      end
  end.
End commit.

(** ** gateway/testimpl/hardhat_helpers.go *)

Section hardhat.
Context {G : GethTypes} {T : EthTxTypes G} {W : Wire} {K : EndorsementSDK W}.

(** The state-changing directives with their decoded arguments. *)
Inductive directive :=
| SetBalanceOf (address : Address) (balance : Z)
| SetCodeOf (address : Address) (code : byte_slice)
| SetStorageOf (address : Address) (key val : Hash).

(** The [apply] closures of [SetBalance], [SetCode] and [SetStorageAt]. *)
Definition apply (c : config) (d : directive) : st StateDB unit :=
  match d with
  | SetBalanceOf address balance => sp_SetBalance c address (Some balance)
  | SetCodeOf address code => _ ← SetCode c address (Some code); mret tt
  | SetStorageOf address key val => sp_SetStorage c address [(key, val)]
  end.

(** Their [confirm] closures, against the backend. *)
Definition confirm (backend : Service) (d : directive) : result string bool :=
  match d with
  | SetBalanceOf address balance =>
      match svc_BalanceAt backend address None with Err e => Err e | Ok got => Ok (got =? balance) end
  | SetCodeOf address code =>
      match svc_CodeAt backend address None with Err e => Err e | Ok got => Ok (bytes_Equal (Some got) (Some code)) end
  | SetStorageOf address key val =>
      match svc_StorageAt backend address key None with
      | Err e => Err e
      | Ok got => Ok (bool_decide (BytesToHash got = val))
      end
  end.

(** One round of the wait: what [confirm] returned, [waitCtx.Err()] after it,
    and the error if the [select] took [waitCtx.Done()]. *)
Record poll := {
  po_confirm : result string bool;
  po_ctxErr : option string;
  po_done : option string
}.

(** The loop of [prime] over the rounds it makes; [None] while it goes on. *)
Fixpoint prime_wait (what : string) (polls : list poll) : option (option string) :=
  match polls with
  | [] => None
  | p :: polls =>
      match po_confirm p with
      | Ok true => Some None
      | Err e =>
          match po_ctxErr p with
          | Some ce => Some (Some (what +:+ ": change did not become observable: " +:+ ce))
          | None => Some (Some (what +:+ ": confirm change: " +:+ e))
          end
      | Ok false =>
          match po_done p with
          | Some ce => Some (Some (what +:+ ": change did not become observable: " +:+ ce))
          | None => prime_wait what polls
          end
      end
  end.

(** [prime]: [reset] is the store's latest snapshot, [commit] submits the primed
    state to the network [net]. *)
Definition prime {Net} (what : string) (ns : string) (mono : bool) (d : directive) (current : result string bool)
    (latest : result string ReadStore) (commit : StateDB → Net → option string * Net) (polls : list poll) (net : Net)
    : outcome (option (option string) * Net) :=
  match current with
  | Err e => Done (Some (Some (what +:+ ": confirm current value: " +:+ e)), net)
  | Ok true => Done (Some None, net)
  | Ok false =>
      match sp_Reset ns mono latest with
      | Err e => Done (Some (Some (what +:+ ": reset primer: " +:+ e)), net)
      | Ok (c, s) =>
          match apply c d s with
          | Panic msg => Panic msg
          | Done (_, s) =>
              match commit s net with
              | (Some e, net) => Done (Some (Some (what +:+ ": commit priming transaction: " +:+ e)), net)
              | (None, net) => Done (prime_wait what polls, net)
              end
          end
      end
  end.

(** [SetStorageAt] decodes both words first. *)
Definition decode_SetStorageAt (address : Address) (slot value : string) : result RpcError directive :=
  match DecodeStorageWord "storage key" slot with
  | Err e => Err e
  | Ok key =>
      match DecodeStorageWord "storage value" value with
      | Err e => Err e
      | Ok val => Ok (SetStorageOf address key val)
      end
  end.
End hardhat.

(** ** Mining *)

(** One round of the wait of [mineBlocks]: the height read, whether the deadline
    has passed and the error if the [select] took [ctx.Done()]. *)
Record mine_poll := {
  mp_height : result string Z;
  mp_expired : bool;
  mp_done : option string
}.

Fixpoint mine_wait (target : Z) (polls : list mine_poll) : option (option string) :=
  match polls with
  | [] => None
  | p :: polls =>
      match mp_height p with
      | Err e => Some (Some ("block number while waiting for mine: " +:+ e))
      | Ok height =>
          if target <=? height then Some None
          else if mp_expired p then Some (Some "timed out waiting for block height")
          else match mp_done p with Some e => Some (Some e) | None => mine_wait target polls end
      end
  end.

(** The cuts, up to the first that fails. *)
Fixpoint cut_blocks {Net} (CutBlock : Net → option string * Net) (n : nat) (net : Net) : option string * Net :=
  match n with
  | O => (None, net)
  | S n =>
      match CutBlock net with
      | (Some e, net) => (Some ("cut block: " +:+ e), net)
      | (None, net) => cut_blocks CutBlock n net
      end
  end.

Definition mineBlocks {Net} (cutter : option (Net → option string * Net)) (numbers : option (result string Z))
    (n : Z) (polls : list mine_poll) (net : Net) : option (option string) * Net :=
  if n =? 0 then (Some None, net)
  else match cutter, numbers with
       | None, _ => (Some (Some "hardhat_mine requires a block cutter; only available on testnode"), net)
       | _, None => (Some (Some "hardhat_mine requires a backend to observe block height"), net)
       | _, Some (Err e) => (Some (Some ("block number before mine: " +:+ e)), net)
       | Some CutBlock, Some (Ok start) =>
           match cut_blocks CutBlock (Z.to_nat n) net with
           | (Some e, net) => (Some (Some e), net)
           | (None, net) => (mine_wait (u64 (start + n)) polls, net)
           end
       end.

(** [HardhatAPI.Mine]: one block if the argument is left out. *)
Definition hardhat_Mine {Net} (cutter : option (Net → option string * Net)) (numbers : option (result string Z))
    (blocks : option Z) (polls : list mine_poll) (net : Net) : option (option string) * Net :=
  mineBlocks cutter numbers (default 1 blocks) polls net.

(** ** gateway/testimpl/fund_accounts.go *)

Section fund.
Context {G : GethTypes}.

Fixpoint fund_accounts (c : config) (amount : Z) (addresses : list Address) : st StateDB unit :=
  match addresses with
  | [] => mret tt
  | addr :: addresses =>
      CreateAccount addr;; _ ← AddBalance c addr amount; fund_accounts c amount addresses
  end.

(** [FundTestAccounts] on the store of a test node. *)
Definition FundTestAccounts (namespace : string) (addresses : list Address) (balance : option Z) (kvs : LightKVS)
    : outcome (option string * LightKVS) :=
  match balance, addresses, rev_NewSnapshot kvs None with
  | None, _, _ | _, [], _ => Done (None, kvs)
  | Some amount, _, latest =>
      if amount <=? 0 then Done (None, kvs)
      else match latest with
      | Err _ => Done (Some "fund test accounts: snapshot", kvs)
      | Ok reader =>
          if 2 ^ 256 <=? amount then Panic "overflow"
          else
            match fund_accounts {| cfg_namespace := namespace; cfg_store := light_reads reader;
                                   cfg_monotonicVersions := true |} amount addresses NewStateDB with
            | Panic msg => Panic msg
            | Done (_, s) =>
                let rws := Result s in
                if decide (rws_Writes rws = [])
                then Done (Some "fund test accounts: statedb produced no writes", kvs)
                else match rev_Handle (funding_block (sn_BlockNumber (Current kvs)) namespace rws) kvs with
                     | Panic msg => Panic msg
                     | Done (Some _, kvs) => Done (Some "fund test accounts: handle", kvs)
                     | Done (None, kvs) => Done (None, kvs)
                     end
            end
      end
  end.
End fund.

(** ** What the primer writes *)

Section effects.
Context {G : GethTypes} {L : GethLaws G} (c : config).
Hypothesis store_ok : ∀ key, ∃ rec, cfg_store c (cfg_namespace c) key = Ok rec.

(** A state some run has reached. *)
Definition run_ok (s : StateDB) : Prop := wf s ∧ Forall (truthful c) (journal s).

Lemma run_ok_new : run_ok NewStateDB.
Proof. split; [apply NewStateDB_wf|constructor]. Qed.

Lemma run_ok_tracks {A} (m : st StateDB A) s a s' :
  tracks c c m m → run_ok s → m s = Done (a, s') → run_ok s'.
Proof.
  intros Hm [Hwf Ht] H. destruct (Hm s a s' Hwf H) as (Hwf' & (es & Hj & He) & _).
  split; [done|]. rewrite Hj. by apply Forall_app.
Qed.

Lemma same_version key rec1 rec2 :
  cfg_store c (cfg_namespace c) key = Ok rec1 → cfg_store c (cfg_namespace c) key = Ok rec2 →
  readVersion (cfg_monotonicVersions c) rec1 = readVersion (cfg_monotonicVersions c) rec2 →
  readValue rec1 = readValue rec2.
Proof. congruence. Qed.

Lemma put_ok key v s :
  run_ok s → ∃ s', putState key v s = Done (tt, s') ∧ run_ok s' ∧
    ∀ key', shown c s' key' = if decide (key = key') then kept v else shown c s key'.
Proof.
  intros Hr. destruct (putState_shown c key v s (proj1 Hr)) as (s' & Hp & _ & Hs). exists s'.
  split_and!; [done| |done]. eapply run_ok_tracks; [|exact Hr|exact Hp]. apply tracks_putState.
Qed.

Lemma GetBalance_ok a s :
  run_ok s → ∃ s', GetBalance c a s = Done (bal c s a, s') ∧ run_ok s' ∧ ∀ key, shown c s' key = shown c s key.
Proof.
  intros Hr. destruct (GetBalance_val c store_ok a s (proj1 Hr)) as (s' & Hg & _ & Hs). exists s'.
  split_and!; [done| |done]. eapply run_ok_tracks; [|exact Hr|exact Hg].
  apply tracks_GetBalance; try done. apply same_version.
Qed.

(** The common shape of [AddBalance] and [SubBalance]. *)
Lemma change_ok a f s :
  run_ok s → (∀ z, is_u256 (f z)) →
  ∃ r s', (prev ← GetBalance c a; putState (accKey a "bal") (Some (uint256ToBytes (f prev)));; mret prev) s = Done (r, s') ∧
    run_ok s' ∧ bal c s' a = f (bal c s a) ∧ ∀ key, key ≠ accKey a "bal" → shown c s' key = shown c s key.
Proof.
  intros Hr Hf. destruct (GetBalance_ok a s Hr) as (s1 & Hg & Hr1 & Hs1).
  destruct (put_ok (accKey a "bal") (Some (uint256ToBytes (f (bal c s a)))) s1 Hr1) as (s2 & Hp & Hr2 & Hs2).
  exists (bal c s a), s2. split_and!; [|done| |].
  - unfold mbind, st_bind. by rewrite Hg, Hp.
  - unfold bal at 1. rewrite Hs2, decide_True by done. by apply balance_kept.
  - intros key Hk. by rewrite Hs2, decide_False.
Qed.

Lemma u256_range z : is_u256 (u256 z).
Proof. apply Z.mod_pos_bound. lia. Qed.

Lemma bal_range s a : is_u256 (bal c s a).
Proof. apply bytesToUint256_range. Qed.

Lemma AddBalance_ok a v s :
  run_ok s → v ≠ 0 → ∃ r s', AddBalance c a v s = Done (r, s') ∧ run_ok s' ∧
    bal c s' a = u256 (bal c s a + v) ∧ ∀ key, key ≠ accKey a "bal" → shown c s' key = shown c s key.
Proof.
  intros Hr Hv. unfold AddBalance. apply Z.eqb_neq in Hv as ->.
  apply (change_ok a (λ z, u256 (z + v))); [done|]. intros. apply u256_range.
Qed.

Lemma SubBalance_ok a v s :
  run_ok s → v ≠ 0 → ∃ r s', SubBalance c a v s = Done (r, s') ∧ run_ok s' ∧
    bal c s' a = u256 (bal c s a - v) ∧ ∀ key, key ≠ accKey a "bal" → shown c s' key = shown c s key.
Proof.
  intros Hr Hv. unfold SubBalance. apply Z.eqb_neq in Hv as ->.
  apply (change_ok a (λ z, u256 (z - v))); [done|]. intros. apply u256_range.
Qed.

(** The delta leads to the target, from below and from above. *)
Lemma sp_SetBalance_ok a target s :
  is_u256 target → run_ok s →
  ∃ s', sp_SetBalance c a (Some target) s = Done (tt, s') ∧ run_ok s' ∧ bal c s' a = target ∧
    ∀ key, key ≠ accKey a "bal" → shown c s' key = shown c s key.
Proof.
  intros Ht Hr. pose proof (bal_range s a) as Hb. unfold is_u256 in *. unfold sp_SetBalance.
  destruct (Z.ltb_spec target 0); [lia|]. destruct (Z.leb_spec (2 ^ 256) target); [lia|].
  destruct (GetBalance_ok a s Hr) as (s1 & Hg & Hr1 & Hs1).
  assert (bal c s1 a = bal c s a) as Hb1 by (unfold bal; by rewrite Hs1).
  unfold mbind, st_bind. rewrite Hg. unfold u256.
  destruct (Z.ltb_spec (bal c s a) target); [|destruct (Z.ltb_spec target (bal c s a))].
  - destruct (AddBalance_ok a ((target - bal c s a) mod 2 ^ 256) s1 Hr1) as (r & s2 & -> & Hr2 & Hb2 & Hs2);
      [rewrite Z.mod_small; lia|].
    exists s2. split_and!; [done..| |]; [|intros; by rewrite Hs2].
    rewrite Hb2, Hb1, (Z.mod_small (_ - _)) by lia. unfold u256. rewrite Z.mod_small; lia.
  - destruct (SubBalance_ok a ((bal c s a - target) mod 2 ^ 256) s1 Hr1) as (r & s2 & -> & Hr2 & Hb2 & Hs2);
      [rewrite Z.mod_small; lia|].
    exists s2. split_and!; [done..| |]; [|intros; by rewrite Hs2].
    rewrite Hb2, Hb1, (Z.mod_small (_ - _)) by lia. unfold u256. rewrite Z.mod_small; lia.
  - exists s1. split_and!; [done..|lia|done].
Qed.

Lemma SetCode_ok a code s :
  run_ok s → ∃ r s', SetCode c a code s = Done (r, s') ∧ run_ok s' ∧
    ∀ key, shown c s' key = if decide (accKey a "code" = key) then kept code else shown c s key.
Proof.
  intros Hr. destruct (getState_shown c store_ok (accKey a "code") s (proj1 Hr)) as (s1 & Hg & _ & Hs1).
  assert (run_ok s1) as Hr1.
  { eapply run_ok_tracks; [|exact Hr|exact Hg]. apply tracks_getState; try done. apply same_version. }
  destruct (put_ok (accKey a "code") code s1 Hr1) as (s2 & Hp & Hr2 & Hs2).
  exists (shown c s (accKey a "code")), s2. split_and!; [|done|].
  - unfold SetCode, GetCode, mbind, st_bind. rewrite Hg. unfold must, mret, st_ret. by rewrite Hp.
  - intros key. rewrite Hs2. by rewrite Hs1.
Qed.

Lemma SetState_ok a k v s :
  run_ok s → ∃ r s', SetState c a k v s = Done (r, s') ∧ run_ok s' ∧
    ∀ key, shown c s' key = if decide (storeKey a k = key)
      then kept (if decide (v = Hash_zero) then None else Some (Hash_Bytes v)) else shown c s key.
Proof.
  intros Hr. destruct (SetState_shown c store_ok a k v s (proj1 Hr)) as (r & s' & HS & _ & Hs).
  exists r, s'. split_and!; [done| |done].
  eapply (run_ok_tracks (_ ← SetState c a k v; mret OUnit)); [|exact Hr|].
  - by apply tracks_SetState.
  - unfold mbind, st_bind. by rewrite HS.
Qed.

Lemma CreateAccount_ok a s :
  run_ok s → ∃ s', CreateAccount a s = Done (tt, s') ∧ run_ok s' ∧
    ∀ key, shown c s' key = if decide (accKey a "nonce" = key) then kept (Some (uint64ToBytes 0))
      else if decide (accKey a "bal" = key) then kept (Some (uint256ToBytes 0)) else shown c s key.
Proof.
  intros Hr. destruct (put_ok (accKey a "bal") (Some (uint256ToBytes 0)) s Hr) as (s1 & H1 & Hr1 & Hs1).
  destruct (put_ok (accKey a "nonce") (Some (uint64ToBytes 0)) s1 Hr1) as (s2 & H2 & Hr2 & Hs2).
  destruct (markNewContract a s2) as [[[] s3]|] eqn:H3; [|unfold markNewContract in H3; by case_match].
  exists s3. split_and!.
  - unfold CreateAccount, mbind, st_bind. by rewrite H1, H2, H3.
  - eapply run_ok_tracks; [|exact Hr2|exact H3]. apply tracks_markNewContract.
  - intros key. rewrite <-Hs1, <-Hs2. revert H3. unfold markNewContract.
    case_match; intros [= <-]; [done|]. unfold shown, journal_value. simpl. by rewrite find_last_app.
Qed.

(** *** Accounts *)

Lemma sp_SetStorage_ok a storage : ∀ s,
  NoDup storage.*1 → run_ok s →
  ∃ s', sp_SetStorage c a storage s = Done (tt, s') ∧ run_ok s' ∧
    (∀ k v, (k, v) ∈ storage → toHash (shown c s' (storeKey a k)) = v) ∧
    (∀ key, (∀ k, k ∈ storage.*1 → key ≠ storeKey a k) → shown c s' key = shown c s key).
Proof.
  induction storage as [|[k v] rest IH]; intros s Hnd Hr.
  { exists s. split_and!; [done..| |done]. intros k v Hin. by apply not_elem_of_nil in Hin. }
  apply NoDup_cons in Hnd as [Hk Hnd]. destruct (SetState_ok a k v s Hr) as (r & s1 & H1 & Hr1 & Hs1).
  destruct (IH s1 Hnd Hr1) as (s2 & H2 & Hr2 & Hin2 & Hout2). exists s2.
  split_and!; [simpl; unfold mbind, st_bind; by rewrite H1|done| |].
  - intros k' v' [[= -> ->]|Hin]%elem_of_cons; [|by apply Hin2]. rewrite Hout2.
    + rewrite Hs1, decide_True by done. case_decide as Hv; [by subst v|]. apply toHash_kept.
    + intros k' Hk' [_ ->]%storeKey_inj. done.
  - intros key Hkey. rewrite Hout2, Hs1, decide_False; [done| |].
    + intros <-. apply (Hkey k); [apply list_elem_of_here|done].
    + intros k' Hk'. apply Hkey. by apply list_elem_of_further.
Qed.

Lemma bal_kept z s a :
  is_u256 z → shown c s (accKey a "bal") = kept (Some (uint256ToBytes z)) → bal c s a = z.
Proof. intros Hz H. unfold bal. rewrite H. by apply balance_kept. Qed.

(** Setting an account: every field of it is as given, absent ones are those of
    a new account, and nothing else changes. *)
Lemma sp_SetAccount_ok a nonce code balance storage s :
  (∀ n, nonce = Some n → is_u64 n) → (∀ z, balance = Some z → is_u256 z) → NoDup storage.*1 → run_ok s →
  ∃ s', sp_SetAccount c a nonce code balance storage s = Done (tt, s') ∧ run_ok s' ∧
    bal c s' a = default 0 balance ∧
    bytesToUint64 (slice_bytes (shown c s' (accKey a "nonce"))) = Done (default 0 nonce) ∧
    slice_bytes (shown c s' (accKey a "code")) = slice_bytes code ∧
    (∀ k v, (k, v) ∈ storage → toHash (shown c s' (storeKey a k)) = v) ∧
    (∀ b typ, b ≠ a → shown c s' (accKey b typ) = shown c s (accKey b typ)) ∧
    (∀ b k, (b ≠ a ∨ k ∉ storage.*1) → shown c s' (storeKey b k) = shown c s (storeKey b k)).
Proof.
  intros Hn Hz Hnd Hr. destruct (CreateAccount_ok a s Hr) as (s1 & H1 & Hr1 & Hs1).
  assert (∃ s2, match nonce with Some n => SetNonce a n | None => mret tt end s1 = Done (tt, s2) ∧ run_ok s2 ∧
    ∀ key, shown c s2 key = if decide (accKey a "nonce" = key) then kept (Some (uint64ToBytes (default 0 nonce)))
      else shown c s1 key) as (s2 & H2 & Hr2 & Hs2).
  { destruct nonce as [n|]; simpl; [by apply put_ok|]. exists s1. split_and!; [done..|]. intros key.
    case_decide as Hk; [|done]. by rewrite Hs1, decide_True. }
  destruct (SetCode_ok a code s2 Hr2) as (prev & s3 & H3 & Hr3 & Hs3).
  assert (∃ s4, sp_SetBalance c a balance s3 = Done (tt, s4) ∧ run_ok s4 ∧ bal c s4 a = default 0 balance ∧
    ∀ key, key ≠ accKey a "bal" → shown c s4 key = shown c s3 key) as (s4 & H4 & Hr4 & Hb4 & Hs4).
  { destruct balance as [z|]; [by apply sp_SetBalance_ok; auto|]. exists s3. split_and!; [done..| |done].
    simpl. apply (bal_kept 0 s3); [done|].
    rewrite Hs3, decide_False, Hs2, decide_False, Hs1, decide_False, decide_True; try done; by intros [_ ?]%accKey_inj. }
  destruct (sp_SetStorage_ok a storage s4 Hnd Hr4) as (s5 & H5 & Hr5 & Hin5 & Hs5).
  assert (∀ b typ, shown c s5 (accKey b typ) = shown c s4 (accKey b typ)) as Hacc.
  { intros b typ. apply Hs5. intros k _ Heq. by eapply accKey_storeKey. }
  exists s5. split_and!; [|done| | | |done| |].
  - unfold sp_SetAccount, mbind, st_bind. by rewrite H1, H2, H3, H4.
  - unfold bal. by rewrite Hacc.
  - rewrite Hacc, Hs4, Hs3, Hs2, decide_False, decide_True by (done || by intros [_ ?]%accKey_inj).
    unfold kept. simpl. apply uint64_roundtrip. destruct nonce; [by apply Hn|done].
  - rewrite Hacc, Hs4, Hs3, decide_True by (done || by intros [_ ?]%accKey_inj). unfold kept.
    by destruct code as [[]|].
  - intros b typ Hb. rewrite Hacc, Hs4, Hs3, Hs2, Hs1, !decide_False; try done; by intros [? _]%accKey_inj.
  - intros b k Hb. assert (∀ a' typ, storeKey b k ≠ accKey a' typ) as Hne.
    { intros a' typ Heq. by eapply accKey_storeKey. }
    rewrite Hs5, Hs4, Hs3, Hs2, Hs1, !decide_False; try done; [by intros ?%eq_sym%Hne..|].
    intros k' Hk' [-> ->]%storeKey_inj. by destruct Hb.
Qed.

Section alloc.
Context (HexToAddress : string → Address) (HexToHash : string → Hash) (FromHex : string → byte_slice).

Definition alloc_code (entry : AllocEntry) : byte_slice :=
  if String.eqb (al_Code entry) "" || String.eqb (al_Code entry) "0x" then [] else FromHex (al_Code entry).

(** An entry whose numbers parse, with a balance that fits and distinct slots. *)
Definition alloc_parses (entry : AllocEntry) (nonce balance : option Z) : Prop :=
  alloc_nonce (al_Nonce entry) = Done nonce ∧ alloc_balance (al_Balance entry) = Done balance ∧
  (∀ z, balance = Some z → is_u256 z) ∧ NoDup (HexToHash <$> (al_Storage entry).*1).

(** The account of an entry has the entry's balance, nonce, code and slots. *)
Definition allocated (s : StateDB) (a : Address) (entry : AllocEntry) (nonce balance : option Z) : Prop :=
  bal c s a = default 0 balance ∧
  bytesToUint64 (slice_bytes (shown c s (accKey a "nonce"))) = Done (default 0 nonce) ∧
  slice_bytes (shown c s (accKey a "code")) = alloc_code entry ∧
  ∀ k v, (k, v) ∈ al_Storage entry → toHash (shown c s (storeKey a (HexToHash k))) = HexToHash v.

Lemma alloc_nonce_range str n : alloc_nonce str = Done (Some n) → is_u64 n.
Proof.
  unfold alloc_nonce. case_match; [done|]. destruct (from2 str); [|done].
  destruct (SetString16 _); [|done]. intros [= <-]. apply u64_range.
Qed.

Lemma LoadFromJSON_ok alloc : ∀ s,
  Forall (λ e, ∃ nonce balance, alloc_parses e.2 nonce balance) alloc → NoDup (HexToAddress <$> alloc.*1) → run_ok s →
  ∃ s', LoadFromJSON HexToAddress HexToHash FromHex c alloc s = Done (tt, s') ∧ run_ok s' ∧
    (∀ str entry nonce balance, (str, entry) ∈ alloc → alloc_parses entry nonce balance →
       allocated s' (HexToAddress str) entry nonce balance) ∧
    (∀ a, a ∉ HexToAddress <$> alloc.*1 →
       (∀ typ, shown c s' (accKey a typ) = shown c s (accKey a typ)) ∧
       (∀ k, shown c s' (storeKey a k) = shown c s (storeKey a k))).
Proof.
  induction alloc as [|[str entry] rest IH]; intros s Hp Hnd Hr.
  { exists s. split_and!; [done..| |done]. intros ???? Hin. by apply not_elem_of_nil in Hin. }
  apply Forall_cons in Hp as [(nonce & balance & Hn & Hb & Hz & Hst) Hp]. simpl in *.
  apply NoDup_cons in Hnd as [Hnew Hnd].
  destruct (sp_SetAccount_ok (HexToAddress str) nonce
    (if String.eqb (al_Code entry) "" || String.eqb (al_Code entry) "0x" then None else Some (FromHex (al_Code entry)))
    balance ((λ kv, (HexToHash kv.1, HexToHash kv.2)) <$> al_Storage entry) s)
    as (s1 & H1 & Hr1 & Hb1 & Hn1 & Hc1 & Hs1 & Ha1 & Hk1); [| |by rewrite <-!list_fmap_compose in *|done|].
  { intros n ->. by eapply alloc_nonce_range. }
  { done. }
  destruct (IH s1 Hp Hnd Hr1) as (s2 & H2 & Hr2 & Hin2 & Hout2). exists s2. split_and!; [|done| |].
  - unfold mbind, st_bind, lift. by rewrite Hn, Hb, H1.
  - intros str' entry' nonce' balance' [[= -> ->]|Hin]%elem_of_cons Hpar; [|by apply Hin2].
    destruct Hpar as (Hn' & Hb' & _). rewrite Hn in Hn'. rewrite Hb in Hb'. injection Hn' as <-. injection Hb' as <-. destruct (Hout2 _ Hnew) as [Ha2 Hk2].
    split_and!; [unfold bal; by rewrite Ha2|by rewrite Ha2| |].
    + rewrite Ha2, Hc1. unfold alloc_code. by case_match.
    + intros k v Hin. rewrite Hk2. apply Hs1. apply list_elem_of_fmap. by exists (k, v).
  - intros a [Hne Hout]%not_elem_of_cons. destruct (Hout2 a Hout) as [Ha2 Hk2]. split.
    + intros typ. by rewrite Ha2, Ha1.
    + intros k. rewrite Hk2, Hk1; [done|by left].
Qed.
End alloc.

(** *** Funding *)

Lemma fund_ok amount addresses : ∀ s,
  0 < amount < 2 ^ 256 → run_ok s →
  ∃ s', fund_accounts c amount addresses s = Done (tt, s') ∧ run_ok s' ∧
    (∀ a, a ∈ addresses → bal c s' a = amount ∧ shown c s' (accKey a "nonce") = kept (Some (uint64ToBytes 0))) ∧
    (∀ a, a ∉ addresses → ∀ typ, shown c s' (accKey a typ) = shown c s (accKey a typ)).
Proof.
  induction addresses as [|a rest IH]; intros s Ha Hr.
  { exists s. split_and!; [done..| |done]. intros a Hin. by apply not_elem_of_nil in Hin. }
  destruct (CreateAccount_ok a s Hr) as (s1 & H1 & Hr1 & Hs1).
  destruct (AddBalance_ok a amount s1 Hr1) as (r & s2 & H2 & Hr2 & Hb2 & Hs2); [lia|].
  assert (bal c s1 a = 0) as Hb1.
  { unfold bal. rewrite Hs1, decide_False, decide_True by (done || by intros [_ ?]%accKey_inj). by apply balance_kept. }
  destruct (IH s2 Ha Hr2) as (s3 & H3 & Hr3 & Hin3 & Hout3). exists s3.
  split_and!; [simpl; unfold mbind, st_bind; by rewrite H1, H2|done| |].
  - intros a' Ha'. destruct (decide (a' ∈ rest)) as [Hin|Hout]; [by apply Hin3|].
    apply elem_of_cons in Ha' as [-> |?]; [|done]. unfold bal. rewrite !Hout3 by done. fold (bal c s2 a).
    rewrite Hb2, Hb1, Z.add_0_l, Hs2, Hs1, decide_True by (done || by intros [_ ?]%accKey_inj).
    split; [|done]. apply Z.mod_small. lia.
  - intros a' [Hne Hout]%not_elem_of_cons typ. rewrite Hout3 by done.
    rewrite Hs2, Hs1, !decide_False; try done; by intros [? _]%accKey_inj.
Qed.

(** *** Directives *)

(** The key a directive sets, and the arguments the RPC layer lets through:
    [hexutil.Big] has at most 256 bits. *)
Definition directive_key (d : directive) : string :=
  match d with
  | SetBalanceOf a _ => accKey a "bal"
  | SetCodeOf a _ => accKey a "code"
  | SetStorageOf a k _ => storeKey a k
  end.

Definition directive_ok (d : directive) : Prop :=
  match d with SetBalanceOf _ balance => is_u256 balance | _ => True end.

(** What the key shows stands for the directive's value. *)
Definition directive_holds (d : directive) (v : option byte_slice) : Prop :=
  match d with
  | SetBalanceOf _ balance => bytesToUint256 (slice_bytes v) = balance
  | SetCodeOf _ code => slice_bytes v = code
  | SetStorageOf _ _ val => toHash v = val
  end.

Lemma apply_ok d s :
  directive_ok d → run_ok s →
  ∃ s', apply c d s = Done (tt, s') ∧ run_ok s' ∧ directive_holds d (shown c s' (directive_key d)) ∧
    ∀ key, key ≠ directive_key d → shown c s' key = shown c s key.
Proof.
  intros Hd Hr. destruct d as [a balance|a code|a k v]; simpl.
  - destruct (sp_SetBalance_ok a balance s Hd Hr) as (s' & H & Hr' & Hb & Hs). by exists s'.
  - destruct (SetCode_ok a (Some code) s Hr) as (r & s' & H & Hr' & Hs). exists s'.
    split_and!; [unfold mbind, st_bind; by rewrite H|done| |].
    + rewrite Hs, decide_True by done. unfold kept. by destruct code.
    + intros key Hk. by rewrite Hs, decide_False.
  - destruct (SetState_ok a k v s Hr) as (r & s' & H & Hr' & Hs). exists s'.
    split_and!; [unfold mbind, st_bind; by rewrite H|done| |].
    + rewrite Hs, decide_True by done. case_decide as Hv; [by subst v|]. apply toHash_kept.
    + intros key Hk. by rewrite Hs, decide_False.
Qed.
End effects.

(** ** On a test node *)

Section node.
Context {G : GethTypes} {L : GethLaws G} {T : EthTxTypes G} {C : EthCodec G T} {V : GethEVM G T}.
Context {W : Wire} {K : EndorsementSDK W}.
Context (ns : string) (mono : bool) (cfg : EVMConfig) (now : Z).

(** The endorser over the revertible store, as the gateway's backend. *)
Definition rev_engine (kvs : LightKVS) : EVMEngine := {|
  eng_namespace := ns; eng_monotonicVersions := mono; eng_evmConfig := cfg;
  eng_NewSnapshot blockNumber :=
    match rev_NewSnapshot kvs blockNumber with Ok r => Ok (light_reads r) | Err _ => Err "no snapshot" end |}.

Definition node_backend (kvs : LightKVS) : Service := endorser_service now (Endorser_New (rev_engine kvs) 0 0).

Definition latest (kvs : LightKVS) : result string ReadStore :=
  eng_NewSnapshot (rev_engine kvs) None.

Notation tip := (tip_config ns mono).

(** A key of the latest state, without a run of its own. *)
Definition value (kvs : LightKVS) (key : string) : option byte_slice := shown (tip kvs) NewStateDB key.

(** What the backend answers for the latest state. *)
Lemma backend_reads kvs a k :
  svc_BalanceAt (node_backend kvs) a None = Ok (bytesToUint256 (slice_bytes (value kvs (accKey a "bal")))) ∧
  svc_CodeAt (node_backend kvs) a None = Ok (slice_bytes (value kvs (accKey a "code"))) ∧
  svc_StorageAt (node_backend kvs) a k None = Ok (Hash_Bytes (toHash (value kvs (storeKey a k)))) ∧
  svc_NonceAt (node_backend kvs) a None = match bytesToUint64 (slice_bytes (value kvs (accKey a "nonce"))) with
                                         | Done n => Ok n | Panic msg => Err msg end.
Proof.
  destruct NewStateDB_wf as [Hwf _].
  assert (∀ key, ∃ s', getState (tip kvs) key NewStateDB = Done (Ok (value kvs key), s')) as Hg.
  { intros key. destruct (getState_shown (tip kvs) (tip_store ns mono kvs) key NewStateDB Hwf) as (s' & H & _).
    by exists s'. }
  destruct (queries_tip (rev_engine kvs) kvs None (tip kvs) NewStateDB a k) as (Hb & Hn & Hc & Hs);
    [done|apply Hwf|apply tip_store|].
  unfold node_backend. cbn [svc_BalanceAt svc_CodeAt svc_StorageAt svc_NonceAt endorser_service en_Engine Endorser_New].
  rewrite Hb, Hn, Hc, Hs by done. unfold GetBalance, GetNonce, GetCode, GetState, mbind, st_bind.
  destruct (Hg (accKey a "bal")) as [s1 ->], (Hg (accKey a "nonce")) as [s2 ->],
    (Hg (accKey a "code")) as [s3 ->], (Hg (storeKey a k)) as [s4 ->].
  split_and!; try done. simpl. unfold lift. by destruct (bytesToUint64 _).
Qed.

(** [confirm] never fails on it, and is true when the value is there. *)
Lemma confirm_value kvs d :
  ∃ ok, confirm (node_backend kvs) d = Ok ok ∧
    (directive_holds d (value kvs (directive_key d)) → ok = true).
Proof.
  destruct d as [a balance|a code|a k v]; cbn [confirm directive_holds directive_key].
  - destruct (backend_reads kvs a Hash_zero) as (-> & _). eexists. split; [done|]. intros ->. apply Z.eqb_refl.
  - destruct (backend_reads kvs a Hash_zero) as (_ & -> & _). eexists. split; [done|]. intros ->.
    apply bytes_Equal_refl.
  - destruct (backend_reads kvs a k) as (_ & _ & -> & _). eexists. split; [done|]. intros <-.
    apply bool_decide_eq_true. apply BytesToHash_Bytes.
Qed.

(** A run's writes in a block above the ledger of the node. *)
Lemma node_commit h ops kvs0 kvs s b ftx :
  0 ≤ h < 2 ^ 32 → NewLightKVS h = Done kvs0 → rev_run ops (NewRevertibleLightKVS kvs0) = Done kvs →
  run_ok (tip kvs) s →
  increasing (ledger_of (RevertibleKVS.delivered ops ++ [b])) →
  Forall (λ b, 0 ≤ b_Number b) (RevertibleKVS.delivered ops ++ [b]) →
  ftx ∈ b_Transactions b → tx_Valid ftx = true → tx_NsRWS ftx = [{| ns_Namespace := ns; ns_RWS := Result s |}] →
  ∃ kvs', rev_Handle b kvs = Done (None, kvs') ∧
    ∀ key, sole_writer b ftx ns key → value kvs' key = shown (tip kvs) s key.
Proof.
  intros Hh H0 Hrun [_ Ht] Hinc Hpos Hin Hv Hrws.
  destruct (rev_run_state (Z.to_nat h) ops [] (NewRevertibleLightKVS kvs0)) as (kvs1 & Hr & Hst).
  - by apply NewRevertible_state.
  - unfold ledger_of in *. rewrite fmap_app in Hinc. by apply StronglySorted_app_1_l in Hinc.
  - by apply Forall_app in Hpos as [? _].
  - rewrite Hrun in Hr. injection Hr as <-.
    apply Forall_app in Hpos as [_ Hpos]. apply Forall_cons in Hpos as [Hb _].
    destruct (rev_state_apply (Z.to_nat h) _ b kvs Hst Hinc Hb) as (hs & kvs' & Hb' & _ & Hc).
    exists kvs'. split; [done|]. intros key. eapply commit_shown; try done. rewrite Hc. simpl. apply applyUpdates_eq.
Qed.

(** The rounds of a wait that reads the store [kvs] in time. *)
Definition reads_of (kvs : LightKVS) (d : directive) : poll := {|
  po_confirm := confirm (node_backend kvs) d; po_ctxErr := None; po_done := None |}.

Lemma prime_wait_reads what kvs kvs' d n rest :
  confirm (node_backend kvs') d = Ok true →
  prime_wait what (replicate n (reads_of kvs d) ++ reads_of kvs' d :: rest) = Some None.
Proof.
  intros Hc. destruct (confirm_value kvs d) as ([] & Hk & _); induction n as [|n IH]; simpl; by rewrite ?Hk, ?Hc.
Qed.

(** C16: A Hardhat directive does what it says.  On a test node, after any blocks
    and reverts, [hardhat_setBalance], [hardhat_setCode] and
    [hardhat_setStorageAt] simulate without a panic.  Once a block above the
    ledger carries the primed write set in a valid transaction, the node's reads
    show the value asked for, and every other key that no other transaction of
    the block writes shows what it showed before.  The call returns without an
    error as soon as one read sees the block, however many rounds it waited. *)
Theorem directive_confirmed {Net} what h ops kvs0 kvs d (commit : StateDB → Net → option string * Net) net :
  0 ≤ h < 2 ^ 32 → NewLightKVS h = Done kvs0 → rev_run ops (NewRevertibleLightKVS kvs0) = Done kvs →
  directive_ok d → (∀ s, (commit s net).1 = None) →
  ∃ s, apply (tip kvs) d NewStateDB = Done (tt, s) ∧
  ∀ b ftx, increasing (ledger_of (RevertibleKVS.delivered ops ++ [b])) →
    Forall (λ b, 0 ≤ b_Number b) (RevertibleKVS.delivered ops ++ [b]) →
    ftx ∈ b_Transactions b → tx_Valid ftx = true → tx_NsRWS ftx = [{| ns_Namespace := ns; ns_RWS := Result s |}] →
    sole_writer b ftx ns (directive_key d) →
  ∃ kvs', rev_Handle b kvs = Done (None, kvs') ∧ confirm (node_backend kvs') d = Ok true ∧
    (∀ key, key ≠ directive_key d → sole_writer b ftx ns key → value kvs' key = value kvs key) ∧
    (∀ n rest, ∃ net', prime what ns mono d (confirm (node_backend kvs) d) (latest kvs) commit
       (replicate n (reads_of kvs d) ++ reads_of kvs' d :: rest) net = Done (Some None, net')).
Proof.
  intros Hh H0 Hrun Hd Hcommit.
  destruct (apply_ok (tip kvs) (tip_store ns mono kvs) d NewStateDB Hd (run_ok_new _)) as (s & Ha & Hr & Hv & Hs).
  exists s. split; [done|]. intros b ftx Hinc Hpos Hin Hval Hrws Hsole.
  destruct (node_commit h ops kvs0 kvs s b ftx) as (kvs' & Hb & Hkey); [done..|].
  destruct (confirm_value kvs' d) as (ok & Hc & Hok). rewrite Hkey in Hok by done. rewrite Hok in Hc by done.
  exists kvs'. split_and!; [done..| |].
  - intros key Hk Hw. rewrite Hkey by done. by apply Hs.
  - intros n rest. destruct (confirm_value kvs d) as ([] & Hk & _); rewrite Hk; simpl; [by eexists|].
    change {| cfg_namespace := ns; cfg_store := _; cfg_monotonicVersions := mono |} with (tip kvs). rewrite Ha.
    specialize (Hcommit s). destruct (commit s net) as [[e|] net'] eqn:Hc'; [done|].
    exists net'. by rewrite prime_wait_reads.
Qed.
End node.

Section funding.
Context {G : GethTypes} {L : GethLaws G} {T : EthTxTypes G} {C : EthCodec G T} {V : GethEVM G T}.
Context {W : Wire} {K : EndorsementSDK W}.
Context (ns : string) (cfg : EVMConfig) (now : Z).

Notation tip := (tip_config ns true).
Notation backend := (node_backend ns true cfg now).

(** Funding a new store: every listed account has the balance, however often it
    is listed, every other account has none, and all nonces are zero. *)
Theorem FundTestAccounts_funds h kvs0 addresses balance :
  0 ≤ h < 2 ^ 32 → NewLightKVS h = Done kvs0 → addresses ≠ [] → 0 < balance < 2 ^ 256 →
  ∃ kvs', FundTestAccounts ns addresses (Some balance) (NewRevertibleLightKVS kvs0) = Done (None, kvs') ∧
    ∀ a, svc_BalanceAt (backend kvs') a None = Ok (if decide (a ∈ addresses) then balance else 0) ∧
         svc_NonceAt (backend kvs') a None = Ok 0.
Proof.
  intros Hh H0 Hne Hb. set (kvs := NewRevertibleLightKVS kvs0).
  destruct (fund_ok (tip kvs) (tip_store ns true kvs) balance addresses NewStateDB Hb (run_ok_new _))
    as (s & Hf & Hr & Hin & Hout).
  assert (∀ key, value ns true kvs key = None) as Hnew.
  { intros key. unfold value, shown, kvs. cbn. revert H0. unfold NewLightKVS. case_match; [done|]. by intros [= <-]. }
  assert (rws_Writes (Result s) ≠ []) as Hw.
  { destruct addresses as [|a rest]; [done|]. destruct (Hin a) as [_ Hn]; [apply list_elem_of_here|].
    unfold shown in Hn. destruct (journal_value (accKey a "nonce") (journal s)) as [v|] eqn:Hj.
    - unfold journal_value in Hj. apply fmap_Some in Hj as (e & Hf' & _).
      destruct (find_last_Some _ _ _ Hf') as [_ Hp]. destruct e as [|w| | | | | | ]; try done.
      intros Hnil. apply (not_elem_of_nil w). rewrite <-Hnil. apply Result_writes.
      simpl in Hp. apply String.eqb_eq in Hp. by rewrite Hp.
    - specialize (Hnew (accKey a "nonce")). unfold value, shown in Hnew. simpl in Hnew, Hn. by rewrite Hnew in Hn. }
  set (b := funding_block 0 ns (Result s)).
  destruct (node_commit ns true h [] kvs0 kvs s b
    {| tx_ID := "test-account-funding"; tx_Number := 0; tx_Status := StatusCommitted;
       tx_NsRWS := [{| ns_Namespace := ns; ns_RWS := Result s |}];
       tx_EventName := ""; tx_Event := []; tx_InputArgs := []; tx_Payload := [] |})
    as (kvs' & Hk & Hkey); try done; [by repeat constructor|by repeat constructor|apply list_elem_of_here|].
  assert (∀ key, value ns true kvs' key = shown (tip kvs) s key) as Hval.
  { intros key. apply Hkey. intros tx Htx _ _. by apply list_elem_of_singleton in Htx. }
  exists kvs'. split.
  - destruct addresses as [|a rest]; [done|]. unfold FundTestAccounts. cbn [rev_NewSnapshot].
    destruct (Z.leb_spec balance 0); [lia|]. destruct (Z.leb_spec (2 ^ 256) balance); [lia|].
    change {| cfg_namespace := ns; cfg_store := _; cfg_monotonicVersions := true |} with (tip kvs).
    rewrite Hf, decide_False by done. replace (sn_BlockNumber (Current kvs)) with 0; [by fold b; rewrite Hk|].
    unfold kvs. revert H0. unfold NewLightKVS. case_match; [done|]. by intros [= <-].
  - intros a. destruct (backend_reads ns true cfg now kvs' a Hash_zero) as (-> & _ & _ & ->). rewrite !Hval.
    destruct (decide (a ∈ addresses)) as [Ha|Ha].
    + destruct (Hin a Ha) as [<- ->]. done.
    + rewrite !(Hout a Ha). fold (value ns true kvs (accKey a "bal")) (value ns true kvs (accKey a "nonce")).
      by rewrite !Hnew.
Qed.

(** On a store that has blocks the funding block is a second delivery of the
    last one, which never changes the store. *)
Lemma FundTestAccounts_used addresses balance kvs r kvs' :
  sn_Placeholder (Current kvs) = false → FundTestAccounts ns addresses balance kvs = Done (r, kvs') → kvs' = kvs.
Proof.
  intros Hp. unfold FundTestAccounts, rev_Handle. rewrite Hp. simpl. rewrite Z.ltb_irrefl, Z.eqb_refl.
  repeat case_match; by intros [= _ <-].
Qed.
End funding.

(** ** What is submitted *)

Section submitted.
Context {G : GethTypes} {W : Wire} {K : EndorsementSDK W} {KL : SDKLaws W K}.

Lemma endorse_all_signed builders inv res presps :
  Forall (λ builder, ∀ presp, builder inv res = Ok presp → pr_Signed presp = Some res) builders →
  endorse_all builders inv res = Ok presps →
  length presps = length builders ∧ Forall (λ presp, pr_Signed presp = Some res) presps.
Proof.
  intros Hb. revert presps. induction Hb as [|builder builders Hb _ IH]; intros presps H; simpl in H.
  { by injection H as <-. }
  destruct (builder inv res) as [presp|] eqn:E1; [|done].
  destruct (endorse_all builders inv res) as [rest|]; [|done]. injection H as <-.
  destruct (IH rest eq_refl) as [Hl Hf]. split; [simpl; by rewrite Hl|]. constructor; [by apply Hb|done].
Qed.

(** A commit without an error submitted one endorsement per builder, each
    signing the write set of the simulation with status 200. *)
Theorem sp_Commit_signs {Net} ParseFloat fakeEthTx NewInvocation nsVersion builders
    (submit : list ProposalResponse → Net → option string * Net) client (s : StateDB) wait net net' :
  (∀ inv res, Forall (λ builder : Invocation → ExecutionResult → result string ProposalResponse,
     ∀ presp, builder inv res = Ok presp → pr_Signed presp = Some res) builders) →
  sp_Commit ParseFloat fakeEthTx NewInvocation nsVersion builders submit client s wait net = (None, net') →
  ∃ presps res, submit presps net = (None, net') ∧ length presps = length builders ∧
    Forall (λ presp, pr_Signed presp = Some res) presps ∧ e_RWS res = Result s ∧ e_Status res = StatusOK.
Proof.
  intros Hb. unfold sp_Commit. destruct fakeEthTx as [bs|]; [|done].
  destruct (NsVersionUint64 ParseFloat nsVersion) as [v|]; [|done].
  destruct (NewInvocation v bs) as [inv|]; [|done].
  destruct (NewResult (Result s) [] primer_metadata EmptyString) as [res|] eqn:Hres; [|done].
  destruct (endorse_all builders inv res) as [presps|] eqn:He; [|done].
  destruct (endorse_all_signed _ _ _ _ (Hb inv res) He) as [Hl Hf]. unfold commitAndWait.
  destruct (submit presps net) as [[e|] net1] eqn:Hs; [done|]. intros H.
  assert (net1 = net') as -> by (destruct wait; [by injection H|by injection H]).
  exists presps, res. revert Hres. unfold NewResult. simpl. destruct (proto_Marshal _) as [payload|]; [|done]. intros [= <-].
  destruct (Success_spec (Result s) ProposalTypeEVMTx [] payload) as (H1 & H2 & _). by split_and!.
Qed.
End submitted.

(** ** What mining waits for *)

Lemma mine_wait_nil target polls :
  mine_wait target polls = Some None → ∃ p height, p ∈ polls ∧ mp_height p = Ok height ∧ target ≤ height.
Proof.
  induction polls as [|p polls IH]; simpl; [done|]. destruct (mp_height p) as [height|] eqn:Hh; [|done].
  destruct (Z.leb_spec target height) as [Hle|_].
  - intros _. exists p, height. split_and!; [apply list_elem_of_here|done..].
  - destruct (mp_expired p); [done|]. destruct (mp_done p); [done|]. intros H.
    destruct (IH H) as (p' & h' & Hp & ?). exists p', h'. split; [by apply list_elem_of_further|done].
Qed.

(** [hardhat_mine] returns when all cuts were made and a height that many above
    the one before was read. *)
Theorem mineBlocks_done {Net} (CutBlock : Net → option string * Net) start n polls net net' :
  n ≠ 0 → 0 ≤ start → 0 ≤ n → start + n < 2 ^ 64 →
  mineBlocks (Some CutBlock) (Some (Ok start)) n polls net = (Some None, net') →
  cut_blocks CutBlock (Z.to_nat n) net = (None, net') ∧
  ∃ p height, p ∈ polls ∧ mp_height p = Ok height ∧ start + n ≤ height.
Proof.
  intros Hn H1 H2 H3. unfold mineBlocks. apply Z.eqb_neq in Hn as ->.
  destruct (cut_blocks CutBlock (Z.to_nat n) net) as [[e|] net1] eqn:Hc; [done|].
  rewrite u64_small by (unfold is_u64; lia). intros [= Hw <-]. split; [done|]. by apply mine_wait_nil.
Qed.

(** ** Concrete runs *)

Module Trial.
#[local] Existing Instances four_types four_txs demo_codec demo_evm enc_wire enc_sdk.

(** A balance of 9, then 50, then back to the first block. *)
Definition ops : list rev_op :=
  [OpHandle (put_block 1 "evm" (accKey true "bal") (uint256ToBytes 9));
   OpHandle (put_block 2 "evm" (accKey true "bal") (uint256ToBytes 50)); RevertibleKVS.OpRevert 1].

Definition kvs0 : LightKVS := {| Current := placeholder; History := replicate 8 None; NextIndex := 0 |}.

Definition kvs : LightKVS :=
  match rev_run ops (NewRevertibleLightKVS kvs0) with Done kvs => kvs | Panic _ => kvs0 end.

Definition d : directive := SetBalanceOf true 70.

(** The primed state is submitted without an error and kept. *)
Definition submit (s : StateDB) (net : list ReadWriteSet) : option string * list ReadWriteSet :=
  (None, Result s :: net).

Definition primed : StateDB :=
  match apply (tip_config "evm" true kvs) d NewStateDB with Done (_, s) => s | Panic _ => NewStateDB end.

Definition ftx : Transaction := {|
  tx_ID := "p"; tx_Number := 0; tx_Status := StatusCommitted;
  tx_NsRWS := [{| ns_Namespace := "evm"; ns_RWS := Result primed |}];
  tx_EventName := ""; tx_Event := []; tx_InputArgs := []; tx_Payload := [] |}.

Definition block : Block := {|
  b_Number := 3; b_Hash := [3]; b_ParentHash := [2]; b_Timestamp := 1003; b_Transactions := [ftx] |}.

Definition backend := node_backend "evm" true demo_config 0.

Lemma directive_confirmed_witness :
  svc_BalanceAt (backend kvs) true None = Ok 9 ∧
  ∃ kvs', rev_Handle block kvs = Done (None, kvs') ∧ confirm (backend kvs') d = Ok true ∧
    ∃ net, prime "setBalance" "evm" true d (confirm (backend kvs) d) (latest "evm" true demo_config kvs) submit
      (replicate 2 (reads_of "evm" true demo_config 0 kvs d) ++ [reads_of "evm" true demo_config 0 kvs' d]) []
      = Done (Some None, net).
Proof.
  split; [vm_compute; reflexivity|].
  destruct (directive_confirmed "evm" true demo_config 0 "setBalance" 8 ops kvs0 kvs d submit [])
    as (s & Ha & H).
  - lia.
  - reflexivity.
  - vm_compute. reflexivity.
  - simpl. unfold is_u256. lia.
  - reflexivity.
  - assert (s = primed) as -> by (unfold primed; by rewrite Ha).
    destruct (H block ftx) as (kvs' & Hb & Hc & _ & Hp).
    + repeat constructor.
    + repeat constructor; simpl; lia.
    + apply list_elem_of_here.
    + reflexivity.
    + reflexivity.
    + intros tx Htx _ _. by apply list_elem_of_singleton in Htx.
    + exists kvs'. split; [exact Hb|]. split; [exact Hc|]. exact (Hp 2%nat []).
Defined.

(** *** What the code does not do *)

(** The two leading characters of a number are dropped whatever they are: a
    decimal balance of a genesis file is read as its other digits, and a nonce
    of one digit or of "0x" stops the process. *)
Theorem alloc_numbers_misread :
  alloc_balance "1000" = Done (Some 0) ∧ alloc_balance "12345" = Done (Some 837) ∧
  alloc_nonce "7" = Panic "slice bounds out of range" ∧
  alloc_nonce "0x" = Panic "invalid memory address or nil pointer dereference".
Proof. by vm_compute. Qed.

(** After a revert from block 10 to block 5 the ledger goes on with block 11.
    Mining ten blocks waits for height 15, which the fifth of them has: the
    call returns while the blocks up to 20 are not visible. *)
Theorem mine_returns_early :
  mineBlocks (Some (λ ledger : Z, (None, ledger + 1))) (Some (Ok 5)) 10
    [{| mp_height := Ok 15; mp_expired := false; mp_done := None |}] 10 = (Some None, 20).
Proof. reflexivity. Qed.
End Trial.
