(* ===== verification/Wiring.v ===== *)
(** * Wiring: starting a process from its configuration

    [runStart] of cmd/fxevm/main.go: a validated configuration becomes a
    gateway with its embedded endorser (gateway/app/app.go, wiring.go) or a
    standalone endorser (endorser/app/standalone.go), both through
    [NewEndorserCore] (endorser/app/factory.go).  The constructors of the
    repository are those of the other files or defined here; what a library call
    does, an error or a panic included, is part of [World].  A validated
    configuration whose sizes can be allocated makes no code of the repository
    panic on its way up, and what it starts has the sizes the pipeline's theorems
    ask for. *)

From Stdlib Require Import ZArith Lia QArith Ascii.
From stdpp Require Import base numbers list gmap strings.
From S2P Require Import Prelude Blocks Geth Domain KVSpec KVHistory LightKVS RevertibleKVS PebbleCodec PebbleKVS PebbleKVSProps.
From S2P Require Import Convert Store StoreProps Trie Chain Filters DepGraph Executor Engine Endorse Config Lifecycle Hardhat.

Local Open Scope Z_scope.

(** A constructor's three ways out: a panic, an error, a value. *)
Definition proceed {A B} (m : outcome (result string A)) (f : A → outcome (result string B))
    : outcome (result string B) :=
  match m with
  | Panic msg => Panic msg
  | Done (Err e) => Done (Err e)
  | Done (Ok a) => f a
  end.

Declare Scope wiring_scope.
Notation "x ⇐ m ; f" := (proceed m (λ x, f)) (at level 100, m at level 99, f at level 200, right associativity) : wiring_scope.
Local Open Scope wiring_scope.

Section wiring.
Context {G : GethTypes} {D : Driver} {W : Wire} {ST : StateTrie G} {P : PebbleDB}.

(** The store [NewEndorserCore] chose. *)
Inductive kvs_choice :=
| VersionedKVS
| MemoryKVS (revertible : bool) (kvs : LightKVS)
| PersistentKVS (kvs : PebbleKVS)
| ServiceKVS (conns : list NodeConf) (height : Z).

Record endorser_core := {
  co_kvs : kvs_choice;
  co_monotonicVersions : bool;
  co_maxFuture : Z;
  co_maxPast : Z
}.

(** What runs after a start. *)
Inductive process :=
| StandaloneEndorser (core : endorser_core) (committer : NodeConf) (server : ServerConfig)
| GatewayProcess (core : endorser_core) (orderers : list NodeConf) (remotes : list string) (committer : NodeConf)
    (chain : Chain) (submitters goroutines workers chanSize : nat) (queue : DepGraphConfig) (filterAPI : FilterAPI).

(** What a start finds outside the repository: files, [strconv.ParseFloat], what a
    library call named by its function and arguments does, the logging library,
    the longest slice or channel [make] can allocate, the databases found at a
    path, the committer's height, and the libraries behind the test accounts. *)
Record World := {
  w_stat : string → result string bool;
  w_ParseFloat : string → option Q;
  w_call : list string → outcome (option string);
  w_Init : Logging → outcome ();
  w_MustGetLogger : string → outcome ();
  w_makeMax : Z;
  w_pebble : string → PebbleKVS.DB;
  w_sqlite : string → Store.DB;
  w_height : outcome (result string Z);
  w_ReadFile : string → result string byte_slice;
  w_embedded : byte_slice;
  w_Unmarshal : byte_slice → result string (list (string * string));
  w_HexToAddress : string → Address;
  w_HexToECDSA : string → option string;
  w_fund : kvs_choice → outcome (option string)
}.

Context (w : World) {Sub : Type} (newSubmitter : string → nat → result string Sub).

Definition libcall (what : list string) : outcome (result string ()) :=
  match w_call w what with
  | Panic msg => Panic msg
  | Done (Some e) => Done (Err e)
  | Done None => Done (Ok ())
  end.

Definition lift {A} (m : outcome A) : outcome (result string A) :=
  match m with Panic msg => Panic msg | Done a => Done (Ok a) end.

(** [make] of [n] elements. *)
Definition make_len (n : Z) : outcome (result string ()) :=
  if (n <? 0) || (w_makeMax w <? n) then Panic "make: size out of range" else Done (Ok ()).

Fixpoint each {A B} (f : A → outcome (result string B)) (l : list A) : outcome (result string (list B)) :=
  match l with
  | [] => Done (Ok [])
  | x :: l => y ⇐ f x; ys ⇐ each f l; Done (Ok (y :: ys))
  end.

(** ** The endorser *)

Definition badDatabase : string := "invalid endorser database type".
Definition corruptMeta : string := "corrupt meta value".

Definition pebble_text (e : pebble_error) : string :=
  match e with
  | EmptyDir => "pebble kvs requires a non-empty data directory (connection-string)"
  | _ => corruptMeta
  end.

(** [storage.NewPebbleKVS]: the database is opened, then read. *)
Definition open_pebble (dir : string) (hs : Z) : outcome (result string PebbleKVS) :=
  if decide (dir = "") then Done (Err (pebble_text EmptyDir))
  else
    _ ⇐ libcall ["gethpebble.New"; dir];
    Done (match NewPebbleKVS dir (w_pebble w dir) hs with Err e => Err (pebble_text e) | Ok kvs => Ok kvs end).

(** [query.NewGRPCClient]. *)
Definition NewGRPCClient (c : ClientConfig) (conns : nat) : outcome (result string (list NodeConf)) :=
  each (λ i, conf ⇐ lift (ToNodeConf c);
             _ ⇐ libcall ["network.NewPeer"; nc_Address conf; Itoa (Z.of_nat i)]; Done (Ok conf)) (seq 0 conns).

Definition query_Connections : nat := 8.

Definition history_size (dbCfg : EndorserDB) (testImpl : bool) : Z :=
  if db_HistorySize dbCfg =? 0 then (if testImpl then 16384 else 2) else db_HistorySize dbCfg.

Definition open_kvs (dbCfg : EndorserDB) (testImpl : bool) : outcome (result string kvs_choice) :=
  let historySize := history_size dbCfg testImpl in
  if decide (db_Database dbCfg = DBSQLite) then
    _ ⇐ libcall ["state.NewWriteDB"; db_ConnString dbCfg]; Done (Ok VersionedKVS)
  else if decide (db_Database dbCfg = DBMemory) then
    _ ⇐ make_len historySize;
    kvs ⇐ lift (NewLightKVS historySize);
    Done (Ok (MemoryKVS testImpl (if testImpl then NewRevertibleLightKVS kvs else kvs)))
  else if decide (db_Database dbCfg = DBPebble) then
    kvs ⇐ open_pebble (db_ConnString dbCfg) historySize; Done (Ok (PersistentKVS kvs))
  else if decide (db_Database dbCfg = DBQueryService) then
    match db_QueryService dbCfg with
    | None => Panic "nil dereference"
    | Some q => conns ⇐ NewGRPCClient q query_Connections; Done (Ok (ServiceKVS conns 0))
    end
  else Done (Err badDatabase).

Definition NewEndorserCore (ecfg : EndorserConfig) (protocol : string) (testImpl : bool)
    : outcome (result string endorser_core) :=
  protocol ⇐ Done (NormalizeProtocol protocol);
  kvs ⇐ open_kvs (ec_Database ecfg) testImpl;
  Done (Ok {| co_kvs := kvs; co_monotonicVersions := bool_decide (protocol = ProtocolFabricX);
              co_maxFuture := TimestampFutureSkew (ec_MaxTimestampFuture ecfg);
              co_maxPast := TimestampPastSkew (ec_MaxTimestampPast ecfg) |}).

(** [eclient.Dial]. *)
Definition Dial (c : ClientConfig) : outcome (result string string) :=
  _ ⇐ libcall ["connection.NewClientTLSCredentials"; tls_Mode (cc_TLS c); tls_CertPath (cc_TLS c)];
  _ ⇐ libcall ["connection.NewClientGRPCTransportCredentials"; tls_Mode (cc_TLS c); tls_CertPath (cc_TLS c)];
  conf ⇐ lift (ToNodeConf c);
  _ ⇐ libcall ["grpc.NewClient"; nc_Address conf];
  Done (Ok (nc_Address conf)).

(** [synchronizer.New] with [hybridx.New]. *)
Definition NewSynchronizer (protocol namespace channel : string) (committer : NodeConf) : outcome (result string ()) :=
  protocol ⇐ Done (NormalizeProtocol protocol);
  if decide (namespace = "") then Done (Err "namespace is required")
  else if decide (protocol = ProtocolFabric) then libcall ["nfab.NewSynchronizer"; channel; nc_Address committer]
  else
    _ ⇐ libcall ["nfabx.NewSynchronizer"; channel; nc_Address committer];
    libcall ["nfabx.NewPeer"; channel; nc_Address committer].

(** ** The gateway *)

Definition newInvocationBuilder (protocol nsVersion : string) : result string () :=
  match NormalizeProtocol protocol with
  | Err e => Err e
  | Ok protocol =>
      if decide (protocol = ProtocolFabricX) then
        match NsVersionUint64 (w_ParseFloat w) nsVersion with Err e => Err e | Ok _ => Ok () end
      else Ok ()
  end.

(** [NewChain] without a trie: the database is opened, its schema created and the
    last block read. *)
Definition open_chain (dbConnStr : string) : outcome (result string Chain) :=
  _ ⇐ libcall ["sqlite.Open"; dbConnStr];
  _ ⇐ libcall ["sql.ExecContext"; dbConnStr];
  _ ⇐ libcall ["sql.QueryRowContext"; dbConnStr];
  Done (match NewChain (w_sqlite w dbConnStr) None with
        | Err _ => Err "open trie store"
        | Ok c => Ok c
        end).

Definition submitter_count (count : Z) : Z := if count <=? 0 then DefaultNumWorkers else count.

Definition chan_size (endorsementChanSize : Z) : Z := if endorsementChanSize <=? 0 then 1000 else endorsementChanSize.

(** The configuration [NewDepGraphQueue] runs with; it makes five channels. *)
Definition queue_sizes (cfg : DepGraphConfig) : DepGraphConfig := {|
  cfg_EndorseWorkers := positiveOrDefault (cfg_EndorseWorkers cfg) defaultEndorseWorkers;
  cfg_ChanSize := positiveOrDefault (cfg_ChanSize cfg) defaultChanSize;
  cfg_WaitingTxsLimit := positiveOrDefault (cfg_WaitingTxsLimit cfg) defaultWaitingTxsLimit;
  cfg_BatchThreshold := positiveOrDefault (cfg_BatchThreshold cfg) defaultBatchThreshold;
  cfg_BatchTimeout := positiveOrDefault (cfg_BatchTimeout cfg) defaultBatchTimeout |}.

Definition open_queue (cfg : DepGraphConfig) : outcome (result string DepGraphConfig) :=
  let cfg := queue_sizes cfg in
  _ ⇐ make_len (cfg_ChanSize cfg);
  _ ⇐ libcall ["monitoring.NewProvider"];
  _ ⇐ libcall ["dependencygraph.NewManager"; Itoa (cfg_WaitingTxsLimit cfg)];
  Done (Ok cfg).

(** [BuildGateway]: the submission goroutines, the workers, the room in the
    endorsement channel and the queue's sizes. *)
Definition BuildGateway (nw : Network) (g : GatewayConfig) (submitters : list Sub)
    : outcome (result string (nat * nat * nat * DepGraphConfig)) :=
  _ ⇐ Done (newInvocationBuilder (nw_Protocol nw) (nw_NsVersion nw));
  queue ⇐ open_queue (gc_DepGraphQueue g);
  _ ⇐ make_len (chan_size (gc_EndorsementChanSize g));
  goroutines ⇐ lift (NewBatchSubmitter submitters (gc_SubmitterCount g));
  Done (Ok (goroutines, worker_count (gc_WorkerCount g), endorsement_chan_size (gc_EndorsementChanSize g), queue)).

Definition filterLimits (f : option FiltersConfig) : Limits :=
  let '(mf, mspc, msg) :=
    ResolvedLimits f (MaxFilters DefaultLimits) (MaxSubscriptionsPerConn DefaultLimits)
      (MaxSubscriptionsGlobal DefaultLimits) in
  {| MaxFilters := mf; MaxSubscriptionsPerConn := mspc; MaxSubscriptionsGlobal := msg;
     MaxFilterBuffer := MaxFilterBuffer DefaultLimits |}.

Definition register (names : list string) : outcome (result string ()) :=
  _ ⇐ each (λ i, libcall ["rpc.Server.RegisterName"; default "" (names !! i); Itoa (Z.of_nat i)]) (seq 0 (length names));
  Done (Ok ()).

(** [api.NewServer]. *)
Definition NewServer : outcome (result string ()) := register ["eth"; "eth"; "eth"; "net"; "web3"].

(** *** The test RPC *)

(** [strings.TrimPrefix] with "0x". *)
Definition trim_0x (s : string) : string :=
  match s with String "0"%char (String "x"%char rest) => rest | _ => s end.

(** [testimpl.LoadTestAccounts]. *)
Definition parseTestAccounts (data : byte_slice) : result string (list Address) :=
  match w_Unmarshal w data with
  | Err e => Err e
  | Ok accounts =>
      foldr (λ acc rest,
        match w_HexToECDSA w (trim_0x acc.2), rest with
        | Some e, _ => Err e
        | None, Err e => Err e
        | None, Ok l => Ok (w_HexToAddress w acc.1 :: l)
        end) (Ok []) accounts
  end.

Definition LoadTestAccounts (path : string) : result string (list Address) :=
  if decide (path = "") then parseTestAccounts (w_embedded w)
  else match w_ReadFile w path with Err e => Err e | Ok data => parseTestAccounts data end.

Definition DefaultTestAccountBalance : Z := 10000 * 10 ^ 18.

(** The accounts are funded before the store is asked whether it can revert. *)
Definition fund_store (namespace : string) (addresses : list Address) (kvs : kvs_choice)
    : outcome (result string kvs_choice) :=
  match kvs with
  | MemoryKVS rev kvs =>
      match FundTestAccounts namespace addresses (Some DefaultTestAccountBalance) kvs with
      | Panic msg => Panic msg
      | Done (Some e, _) => Done (Err e)
      | Done (None, kvs) => Done (Ok (MemoryKVS rev kvs))
      end
  | _ =>
      match w_fund w kvs with
      | Panic msg => Panic msg
      | Done (Some e) => Done (Err e)
      | Done None => Done (Ok kvs)
      end
  end.

(** [primer.NewStatePrimer] on a memory store, whose latest state always opens. *)
Definition NewStatePrimer (monotonicVersions : bool) (nsVersion : string) : outcome (result string ()) :=
  _ ⇐ lift (w_MustGetLogger w "endorser.execution.dual_statedb");
  _ ⇐ libcall ["crypto.GenerateKey"];
  if monotonicVersions
  then Done (match NsVersionUint64 (w_ParseFloat w) nsVersion with Err e => Err e | Ok _ => Ok () end)
  else Done (Ok ()).

(** [testimpl.NewTestServer]. *)
Definition NewTestServer : outcome (result string ()) :=
  register ["eth"; "eth"; "eth"; "net"; "web3"; "hardhat"; "evm"; "personal"].

Definition test_server (nw : Network) (core : endorser_core) (accountsPath : string)
    : outcome (result string endorser_core) :=
  addresses ⇐ Done (LoadTestAccounts accountsPath);
  kvs ⇐ fund_store (nw_Namespace nw) addresses (co_kvs core);
  match kvs with
  | MemoryKVS true _ =>
      protocol ⇐ Done (NormalizeProtocol (nw_Protocol nw));
      _ ⇐ NewStatePrimer (bool_decide (protocol = ProtocolFabricX)) (nw_NsVersion nw);
      _ ⇐ NewTestServer;
      Done (Ok {| co_kvs := kvs; co_monotonicVersions := co_monotonicVersions core;
                  co_maxFuture := co_maxFuture core; co_maxPast := co_maxPast core |})
  | _ => Done (Err "test RPC enabled but the endorser KVS is not Revertible")
  end.

(** *** The processes *)

Definition filterTimeout : Z := 300 * nanos.

(** [buildApp]; [test] is the path of the test accounts when the test RPC is on. *)
Definition buildApp (cfg : Config) (g : GatewayConfig) (core : endorser_core) (remotes : list string)
    (test : option string) : outcome (result string process) :=
  let nw := cf_Network cfg in
  orderers ⇐ each (λ c, lift (ToNodeConf c)) (gc_Orderers g);
  _ ⇐ Done (NormalizeProtocol (nw_Protocol nw));
  _ ⇐ make_len (submitter_count (gc_SubmitterCount g));
  submitters ⇐ Done (NewNetworkSubmitters newSubmitter (nw_Protocol nw) (gc_SubmitterCount g));
  chain ⇐ open_chain (gc_ConnString g);
  sizes ⇐ BuildGateway nw g submitters;
  let '(goroutines, workers, chanSize, queue) := sizes in
  committer ⇐ lift (ToNodeConf (cf_Committer cfg));
  _ ⇐ NewSynchronizer (nw_Protocol nw) (nw_Namespace nw) (nw_Channel nw) committer;
  core ⇐ match test with
         | Some accountsPath => test_server nw core accountsPath
         | None => _ ⇐ NewServer; Done (Ok core)
         end;
  Done (Ok (GatewayProcess core orderers remotes committer chain (length submitters) goroutines workers chanSize
    queue (newFilterAPI filterTimeout (filterLimits (gc_Filters g))))).

Definition SignerFromMSP (id : IdentityConfig) : outcome (result string ()) :=
  libcall ["identity.SignerFromMSP"; id_MSPDir id; id_MspID id].

(** [app.New] and [app.NewTestNodeWithConfig], with [newApp]. *)
Definition app_New (cfg : Config) (test : option string) : outcome (result string process) :=
  match cf_Gateway cfg with
  | None => Panic "nil dereference"
  | Some g =>
      _ ⇐ SignerFromMSP (gc_Identity g);
      _ ⇐ lift (w_MustGetLogger w "gateway.app");
      match cf_Endorser cfg with
      | None => Done (Err "endorser is required when gateway is present")
      | Some ecfg =>
          remotes ⇐ each Dial (gc_Endorsers g);
          _ ⇐ SignerFromMSP (ec_Identity ecfg);
          core ⇐ NewEndorserCore ecfg (nw_Protocol (cf_Network cfg)) (bool_decide (is_Some test));
          buildApp cfg g core remotes test
      end
  end.

(** [committerHeight]. *)
Definition committerHeight (cfg : Config) : outcome (result string Z) :=
  conf ⇐ lift (ToNodeConf (cf_Committer cfg));
  _ ⇐ libcall ["nfabx.NewPeer"; nw_Channel (cf_Network cfg); nc_Address conf];
  w_height w.

(** A query-service store starts at the committer's tip. *)
Definition resume_at_tip (cfg : Config) (core : endorser_core) : outcome (result string endorser_core) :=
  match co_kvs core with
  | ServiceKVS conns h =>
      height ⇐ committerHeight cfg;
      Done (Ok {| co_kvs := ServiceKVS conns (if 0 <? height then height - 1 else h);
                  co_monotonicVersions := co_monotonicVersions core;
                  co_maxFuture := co_maxFuture core; co_maxPast := co_maxPast core |})
  | _ => Done (Ok core)
  end.

(** [eapp.New] and the server [Run] dereferences. *)
Definition standalone_New (cfg : Config) : outcome (result string process) :=
  match cf_Endorser cfg with
  | None => Done (Err "endorser config is required")
  | Some ecfg =>
      let nw := cf_Network cfg in
      _ ⇐ SignerFromMSP (ec_Identity ecfg);
      core ⇐ NewEndorserCore ecfg (nw_Protocol nw) false;
      core ⇐ resume_at_tip cfg core;
      _ ⇐ lift (w_MustGetLogger w ("endorser.app." +:+ ec_Name ecfg));
      committer ⇐ lift (ToNodeConf (cf_Committer cfg));
      _ ⇐ NewSynchronizer (nw_Protocol nw) (nw_Namespace nw) (nw_Channel nw) committer;
      match ec_Server ecfg with
      | None => Panic "nil dereference"
      | Some sv => Done (Ok (StandaloneEndorser core committer sv))
      end
  end.

(** [runStart] without reading the file. *)
Definition runStart (cfg : Config) : outcome (result string process) :=
  match Validate (w_stat w) (w_ParseFloat w) cfg with
  | [] =>
      _ ⇐ lift (w_Init w (cf_Logging cfg));
      match cf_Gateway cfg with None => standalone_New cfg | Some _ => app_New cfg None end
  | errs => Done (Err ("invalid config: " +:+ String.concat "; " errs))
  end.

Definition runTestNodeWithConfig (cfg : Config) (testAccountsPath : string) : outcome (result string process) :=
  match Validate (w_stat w) (w_ParseFloat w) cfg with
  | [] => app_New cfg (Some testAccountsPath)
  | errs => Done (Err ("invalid config: " +:+ String.concat "; " errs))
  end.

(** ** What validation rules out *)

Lemma require_nil b msg : require b msg = [] → b = false.
Proof. by destruct b. Qed.

Lemma wrap_nil what errs : wrap what errs = [] → errs = [].
Proof. by destruct errs. Qed.

Lemma client_ok c : Client_Validate (w_stat w) c = [] → ∃ conf, ToNodeConf c = Done conf.
Proof.
  unfold Client_Validate. intros [Hr%require_nil _]%app_eq_nil. unfold ToNodeConf.
  destruct (cc_Endpoint c); [by eexists|]. by rewrite bool_decide_eq_true_2 in Hr.
Qed.

Lemma validate_each_ok what cs :
  validate_each (w_stat w) what cs = [] → Forall (λ c, Client_Validate (w_stat w) c = []) cs.
Proof.
  unfold validate_each.
  assert (∀ f : nat → nat, concat (imap (λ i c, wrap (what +:+ "[" +:+ Itoa (Z.of_nat (f i)) +:+ "]")
      (Client_Validate (w_stat w) c)) cs) = [] → Forall (λ c, Client_Validate (w_stat w) c = []) cs) as H; [|exact (H id)].
  induction cs as [|c cs IH]; intros f; [constructor|]. simpl.
  intros [Hc%wrap_nil Hcs]%app_eq_nil. constructor; [done|]. exact (IH (f ∘ S) Hcs).
Qed.

(** ** How a start may end *)

(** A panic of a library, and an error of one. *)
Definition lib_panic (msg : string) : Prop :=
  (∃ what, w_call w what = Panic msg) ∨ (∃ l, w_Init w l = Panic msg) ∨ (∃ n, w_MustGetLogger w n = Panic msg) ∨
  w_height w = Panic msg.

Definition lib_error (e : string) : Prop :=
  (∃ what, w_call w what = Done (Some e)) ∨ (∃ p i, newSubmitter p i = Err e) ∨ w_height w = Done (Err e).

Definition known_database (db : EndorserDB) : Prop :=
  db_Database db = DBSQLite ∨ db_Database db = DBMemory ∨ db_Database db = DBPebble ∨ db_Database db = DBQueryService.

(** A database whose block number or oldest block does not have eight bytes. *)
Definition corrupt_store (dir : string) : Prop :=
  ∃ key raw, key ∈ [metaBlockKey; metaOldestKey] ∧ db_Get (w_pebble w dir) key = Some raw ∧ length raw ≠ 8%nat.

(** The errors that are not a library's: a database type that does not exist, and
    a store that is damaged. *)
Definition fails (db : EndorserDB) (e : string) : Prop :=
  lib_error e ∨ (¬ known_database db ∧ e = badDatabase) ∨
  (db_Database db = DBPebble ∧ corrupt_store (db_ConnString db) ∧ e = corruptMeta).

Definition fine {A} (err : string → Prop) (R : A → Prop) (m : outcome (result string A)) : Prop :=
  match m with
  | Panic msg => lib_panic msg
  | Done (Err e) => err e
  | Done (Ok a) => R a
  end.

Section fine.
Context (err : string → Prop) (Hlib : ∀ e, lib_error e → err e).

Lemma fine_proceed {A B} (R : A → Prop) (R' : B → Prop) m f :
  fine err R m → (∀ a, R a → fine err R' (f a)) → fine err R' (proceed m f).
Proof. destruct m as [[a|e]|]; simpl; auto. Qed.

Lemma fine_call what : fine err (λ _, True) (libcall what).
Proof.
  unfold libcall, fine, lib_panic, lib_error in *. destruct (w_call w what) as [[e|]|msg] eqn:He; eauto 6.
Qed.

Lemma fine_call_then {B} (R : B → Prop) what f :
  fine err R f → fine err R (proceed (libcall what) (λ _, f)).
Proof. intros Hf. eapply fine_proceed; [apply fine_call|]. done. Qed.

Lemma fine_logger {B} (R : B → Prop) name f :
  fine err R f → fine err R (proceed (lift (w_MustGetLogger w name)) (λ _, f)).
Proof.
  intros Hf. unfold lift. destruct (w_MustGetLogger w name) eqn:He; simpl; [done|]. unfold lib_panic. eauto 6.
Qed.

Lemma fine_conf c : Client_Validate (w_stat w) c = [] → fine err (λ _, True) (lift (ToNodeConf c)).
Proof. intros (conf & ->)%client_ok. done. Qed.

Lemma fine_make n : 0 ≤ n ≤ w_makeMax w → fine err (λ _, True) (make_len n).
Proof.
  intros Hn. unfold make_len. rewrite (proj2 (Z.ltb_ge _ _)), (proj2 (Z.ltb_ge _ _)) by lia. done.
Qed.

Lemma fine_each {A B} (R : A → Prop) (f : A → outcome (result string B)) l :
  Forall R l → (∀ x, R x → fine err (λ _, True) (f x)) → fine err (λ ys, length ys = length l) (each f l).
Proof.
  intros Hl Hf. induction Hl as [|x l Hx _ IH]; simpl; [done|].
  eapply fine_proceed; [by apply Hf|]. intros y _. eapply fine_proceed; [exact IH|]. intros ys Hys. simpl. by rewrite Hys.
Qed.

Lemma fine_dial c : Client_Validate (w_stat w) c = [] → fine err (λ _, True) (Dial c).
Proof.
  intros Hc. unfold Dial. do 2 apply fine_call_then. eapply fine_proceed; [by apply fine_conf|]. intros conf _.
  by apply fine_call_then.
Qed.

Lemma fine_mono {A} (R R' : A → Prop) m : fine err R m → (∀ a, R a → R' a) → fine err R' m.
Proof. destruct m as [[a|e]|]; simpl; auto. Qed.

Lemma fine_client c n : Client_Validate (w_stat w) c = [] → fine err (λ cs, length cs = n) (NewGRPCClient c n).
Proof.
  intros Hc. unfold NewGRPCClient.
  eapply fine_mono; [apply (fine_each (λ _, True)); [by apply Forall_true|]|intros cs ->; apply length_seq].
  intros i _. eapply fine_proceed; [by apply fine_conf|]. intros conf _. by apply fine_call_then.
Qed.

Lemma fine_synchronizer protocol namespace channel committer p :
  NormalizeProtocol protocol = Ok p → namespace ≠ "" →
  fine err (λ _, True) (NewSynchronizer protocol namespace channel committer).
Proof.
  intros Hp Hn. unfold NewSynchronizer. rewrite Hp. simpl. rewrite decide_False by done.
  case_decide; [apply fine_call|]. apply fine_call_then, fine_call.
Qed.

Lemma fine_register names : fine err (λ _, True) (register names).
Proof.
  unfold register. eapply fine_proceed; [apply (fine_each (λ _, True)); [by apply Forall_true|intros; apply fine_call]|done].
Qed.

Lemma fine_chain conn : fine err (λ c, ch_Store c = Init (w_sqlite w conn) ∧ ch_ts c = None) (open_chain conn).
Proof.
  unfold open_chain. do 3 apply fine_call_then. unfold NewChain.
  by destruct (LatestBlock (Init (w_sqlite w conn))).
Qed.
End fine.

(** ** Starting *)

(** What the stores and the endorser rely on. *)
Definition core_ok (core : endorser_core) : Prop :=
  0 < co_maxFuture core ∧ 0 < co_maxPast core ∧
  match co_kvs core with
  | VersionedKVS => True
  | MemoryKVS revertible kvs => revertible = false ∧ (0 < length (History kvs))%nat
  | PersistentKVS kvs => 0 < historySize kvs
  | ServiceKVS conns _ => length conns = query_Connections
  end.

(** What the pipeline and the filters rely on. *)
Definition process_ok (cfg : Config) (p : process) : Prop :=
  match p with
  | StandaloneEndorser core _ _ => core_ok core
  | GatewayProcess core orderers _ _ chain subs goroutines workers chanSize queue api =>
      core_ok core ∧ orderers ≠ [] ∧ ch_ts chain = None ∧
      (∀ g, cf_Gateway cfg = Some g → ch_Store chain = Init (w_sqlite w (gc_ConnString g))) ∧
      (0 < goroutines ≤ subs)%nat ∧ (0 < workers)%nat ∧ (0 < chanSize)%nat ∧
      0 < cfg_EndorseWorkers queue ∧ 0 < cfg_ChanSize queue ∧ 0 < cfg_WaitingTxsLimit queue ∧ 0 < cfg_BatchThreshold queue ∧
      0 ≤ MaxFilters (fa_limits api) ∧ 0 ≤ MaxSubscriptionsPerConn (fa_limits api) ∧
      0 ≤ MaxSubscriptionsGlobal (fa_limits api) ∧ 0 < MaxFilterBuffer (fa_limits api)
  end.

(** [make] can allocate what the configuration asks for. *)
Definition sizes_ok (cfg : Config) : Prop :=
  (∀ e, cf_Endorser cfg = Some e → db_Database (ec_Database e) = DBMemory →
   0 ≤ history_size (ec_Database e) false ≤ w_makeMax w) ∧
  (∀ g, cf_Gateway cfg = Some g →
   submitter_count (gc_SubmitterCount g) ≤ w_makeMax w ∧
   chan_size (gc_EndorsementChanSize g) ≤ w_makeMax w ∧
   cfg_ChanSize (queue_sizes (gc_DepGraphQueue g)) ≤ w_makeMax w).

Lemma lib_fails db e : lib_error e → fails db e.
Proof. by left. Qed.

Lemma fine_pebble db hs :
  db_Database db = DBPebble → db_ConnString db ≠ "" → 
  fine (fails db) (λ kvs, 0 < historySize kvs) (open_pebble (db_ConnString db) hs).
Proof.
  intros Hdb Hdir. unfold open_pebble. rewrite decide_False by done. apply fine_call_then; [apply lib_fails|].
  unfold NewPebbleKVS. rewrite decide_False by done.
  assert (∀ key e, key ∈ [metaBlockKey; metaOldestKey] → readMeta (w_pebble w (db_ConnString db)) key = Err e →
    fails db (pebble_text e)) as Hm.
  { intros key e Hk. unfold readMeta. destruct (db_Get _ key) as [raw|] eqn:Hg; [|done].
    destruct (Nat.eqb_spec (length raw) 8); simpl; [done|]. intros [= <-]. right. right. split; [done|].
    split; [by exists key, raw|done]. }
  unfold readMetaBlock. destruct (readMeta _ metaBlockKey) as [[block found]|e] eqn:H1; [|apply (Hm metaBlockKey); set_solver].
  destruct (readMeta _ metaOldestKey) as [[oldest f]|e] eqn:H2; [|apply (Hm metaOldestKey); set_solver].
  simpl. unfold defaultHistorySize. destruct (Z.leb_spec hs 0); lia.
Qed.

Lemma fine_kvs protocol ecfg :
  Endorser_Validate (w_stat w) protocol ecfg = [] →
  (db_Database (ec_Database ecfg) = DBMemory → 0 ≤ history_size (ec_Database ecfg) false ≤ w_makeMax w) →
  fine (fails (ec_Database ecfg)) (λ kvs, core_ok {| co_kvs := kvs; co_monotonicVersions := true; co_maxFuture := 1; co_maxPast := 1 |})
    (open_kvs (ec_Database ecfg) false).
Proof.
  intros Hv Hh. unfold Endorser_Validate in Hv. repeat apply app_eq_nil in Hv as [? Hv].
  unfold core_ok, open_kvs. cbv zeta.
  destruct (decide (db_Database (ec_Database ecfg) = DBSQLite)); [apply fine_call_then; [apply lib_fails|simpl; split_and!; done || lia]|].
  destruct (decide (db_Database (ec_Database ecfg) = DBMemory)) as [Hm|].
  { specialize (Hh Hm). eapply fine_proceed; [by apply fine_make|]. intros _ _. unfold NewLightKVS.
    rewrite (proj2 (Z.ltb_ge _ _)) by lia. simpl. rewrite length_replicate. unfold history_size in *.
    destruct (Z.eqb_spec (db_HistorySize (ec_Database ecfg)) 0); split_and!; done || lia. }
  destruct (decide (db_Database (ec_Database ecfg) = DBPebble)) as [Hp|].
  { eapply fine_proceed; [apply fine_pebble; [done|]|intros kvs Hk; simpl; split_and!; done || lia].
    intros Hc. match goal with H : require _ "database.connection-string (data directory) is required for pebble" = [] |- _ =>
      apply require_nil, bool_decide_eq_false in H; by apply H end. }
  destruct (decide (db_Database (ec_Database ecfg) = DBQueryService)).
  - match goal with H : _ ++ match db_QueryService _ with _ => _ end = [] |- _ => apply app_eq_nil in H as [_ Hq] end.
    destruct (db_QueryService (ec_Database ecfg)) as [q|]; [apply wrap_nil in Hq|done].
    eapply fine_proceed; [by apply fine_client; [apply lib_fails|]|]. intros conns Hc. simpl. split_and!; done || lia.
  - simpl. right. left. split; [|done]. unfold known_database. by intros [?|[?|[?|?]]].
Qed.

Lemma skew_pos d x : 0 < d → 0 < (if x <=? 0 then d else x).
Proof. destruct (Z.leb_spec x 0); lia. Qed.

Lemma fine_core protocol p ecfg :
  NormalizeProtocol protocol = Ok p → Endorser_Validate (w_stat w) protocol ecfg = [] →
  (db_Database (ec_Database ecfg) = DBMemory → 0 ≤ history_size (ec_Database ecfg) false ≤ w_makeMax w) →
  fine (fails (ec_Database ecfg)) core_ok (NewEndorserCore ecfg protocol false).
Proof.
  intros Hp Hv Hh. unfold NewEndorserCore. rewrite Hp. cbn [proceed].
  eapply fine_proceed; [by apply (fine_kvs protocol)|]. intros kvs (_ & _ & Hk). unfold core_ok. simpl.
  unfold TimestampFutureSkew, TimestampPastSkew, DefaultTimestampFutureSkew, DefaultTimestampPastSkew, nanos.
  split; [apply skew_pos; lia|]. split; [apply skew_pos; lia|done].
Qed.

Lemma default_bound d o : 0 ≤ d → negative o = false → 0 ≤ default d o.
Proof. destruct o as [n|]; simpl; [|done]. intros _. destruct (Z.ltb_spec n 0); [done|lia]. Qed.

Lemma filterLimits_bound f :
  match f with None => [] | Some f => Filters_Validate f end = [] →
  let l := fa_limits (newFilterAPI filterTimeout (filterLimits f)) in
  0 ≤ MaxFilters l ∧ 0 ≤ MaxSubscriptionsPerConn l ∧ 0 ≤ MaxSubscriptionsGlobal l ∧ 0 < MaxFilterBuffer l.
Proof.
  destruct f as [f|]; [|by vm_compute]. unfold Filters_Validate.
  intros [H1%require_nil [H2%require_nil H3%require_nil]%app_eq_nil]%app_eq_nil.
  unfold filterLimits, ResolvedLimits. simpl. split_and!; try done; by apply default_bound.
Qed.

Lemma NewNetworkSubmitters_error protocol p count e :
  NormalizeProtocol protocol = Ok p → NewNetworkSubmitters newSubmitter protocol count = Err e → lib_error e.
Proof.
  unfold NewNetworkSubmitters. intros ->.
  assert (∀ idx acc, foldl (λ acc i,
    match acc with
    | Err e => Err e
    | Ok l => match newSubmitter p i with Err e => Err e | Ok s => Ok (l ++ [s]) end
    end) acc idx = Err e → acc = Err e ∨ lib_error e) as Hf.
  { induction idx as [|i idx IH]; intros acc; simpl; [by left|]. intros [H|H]%IH; [|by right].
    destruct acc as [l|]; [|by left]. destruct (newSubmitter p i) eqn:Hs; [done|]. injection H as <-.
    right. right. left. eauto. }
  by intros [?|?]%Hf.
Qed.

Lemma positive_pos x d : 0 < d → 0 < positiveOrDefault x d.
Proof. unfold positiveOrDefault. intros Hd. repeat case_match; lia. Qed.

Lemma fine_queue db cfg :
  cfg_ChanSize (queue_sizes cfg) ≤ w_makeMax w →
  fine (fails db) (λ q, 0 < cfg_EndorseWorkers q ∧ 0 < cfg_ChanSize q ∧ 0 < cfg_WaitingTxsLimit q ∧ 0 < cfg_BatchThreshold q)
    (open_queue cfg).
Proof.
  intros Hm. unfold open_queue. cbv zeta.
  assert (0 < cfg_ChanSize (queue_sizes cfg)) as Hc by by apply positive_pos.
  eapply fine_proceed; [apply fine_make; lia|]. intros _ _.
  do 2 (apply fine_call_then; [apply lib_fails|]). simpl. split_and!; by apply positive_pos.
Qed.

Lemma fine_gateway db nw g submitters :
  newInvocationBuilder (nw_Protocol nw) (nw_NsVersion nw) = Ok () →
  NewNetworkSubmitters newSubmitter (nw_Protocol nw) (gc_SubmitterCount g) = Ok submitters →
  chan_size (gc_EndorsementChanSize g) ≤ w_makeMax w →
  cfg_ChanSize (queue_sizes (gc_DepGraphQueue g)) ≤ w_makeMax w →
  fine (fails db) (λ '(goroutines, workers, chanSize, queue),
      (0 < goroutines ≤ length submitters)%nat ∧ (0 < workers)%nat ∧ (0 < chanSize)%nat ∧
      0 < cfg_EndorseWorkers queue ∧ 0 < cfg_ChanSize queue ∧ 0 < cfg_WaitingTxsLimit queue ∧ 0 < cfg_BatchThreshold queue)
    (BuildGateway nw g submitters).
Proof.
  intros Hb Hs He Hq. unfold BuildGateway. rewrite Hb. cbn [proceed].
  eapply fine_proceed; [by apply fine_queue|]. intros queue Hqueue.
  eapply fine_proceed; [apply fine_make; split; [|done]; unfold chan_size; destruct (Z.leb_spec (gc_EndorsementChanSize g) 0); lia|].
  intros _ _. destruct (wiring_sizes newSubmitter (nw_Protocol nw) (gc_SubmitterCount g) (gc_WorkerCount g)
    (gc_EndorsementChanSize g) submitters Hs) as (n & -> & Hn & Hw & Hch). by cbn.
Qed.

Lemma fine_buildApp db cfg g core remotes p :
  cf_Gateway cfg = Some g → core_ok core →
  Gateway_Validate (w_stat w) (cf_Endorser cfg) g = [] → Client_Validate (w_stat w) (cf_Committer cfg) = [] →
  NormalizeProtocol (nw_Protocol (cf_Network cfg)) = Ok p → nw_Namespace (cf_Network cfg) ≠ "" →
  newInvocationBuilder (nw_Protocol (cf_Network cfg)) (nw_NsVersion (cf_Network cfg)) = Ok () →
  sizes_ok cfg → fine (fails db) (process_ok cfg) (buildApp cfg g core remotes None).
Proof.
  intros Hgw Hcore Hg Hc Hp Hns Hb [_ Hsz]. destruct (Hsz g Hgw) as (Hs1 & Hs2 & Hs3).
  unfold Gateway_Validate in Hg. repeat apply app_eq_nil in Hg as [? Hg].
  match goal with H : validate_each _ "gateway.orderers" _ = [] |- _ => apply validate_each_ok in H as Hord end.
  match goal with H : require (bool_decide (length _ = 0%nat)) _ = [] |- _ =>
    apply require_nil, bool_decide_eq_false in H as Hlen end.
  unfold buildApp. cbv zeta. eapply fine_proceed; [eapply fine_each; [exact Hord|intros; by apply fine_conf]|].
  intros orderers Ho. eapply (fine_proceed _ (λ _, True)); [by rewrite Hp|]. intros _ _.
  eapply fine_proceed; [apply fine_make; split; [|done]; unfold submitter_count, DefaultNumWorkers;
    destruct (Z.leb_spec (gc_SubmitterCount g) 0); lia|].
  intros _ _.
  eapply (fine_proceed _ (λ l, NewNetworkSubmitters newSubmitter (nw_Protocol (cf_Network cfg)) (gc_SubmitterCount g) = Ok l)).
  { destruct (NewNetworkSubmitters _ _ _) as [l|e] eqn:He; simpl; [done|]. left. by eapply NewNetworkSubmitters_error. }
  intros subs Hsubs. eapply fine_proceed; [apply fine_chain, lib_fails|]. intros chain [Hst Hts].
  eapply fine_proceed; [by apply fine_gateway|]. intros [[[n wk] ch] q] Hsizes.
  eapply fine_proceed; [by apply fine_conf|]. intros committer _.
  eapply fine_proceed; [by eapply fine_synchronizer; [apply lib_fails| |]|]. intros _ _.
  eapply (fine_proceed _ (λ c, c = core)).
  { eapply fine_proceed; [apply fine_register, lib_fails|]. done. }
  intros ? ->. cbn [fine process_ok]. split; [done|]. split; [by intros ->|]. split; [done|].
  split; [intros g' Hg'; rewrite Hgw in Hg'; by injection Hg' as <-|].
  destruct Hsizes as (? & ? & ? & ? & ? & ? & ?). split_and!; try done; try lia; by apply filterLimits_bound.
Qed.

Lemma fine_tip db cfg core :
  core_ok core → Client_Validate (w_stat w) (cf_Committer cfg) = [] → fine (fails db) core_ok (resume_at_tip cfg core).
Proof.
  intros Hcore Hc. unfold resume_at_tip, core_ok in *. destruct (co_kvs core) as [| | |conns h] eqn:Hk; simpl; try by rewrite Hk.
  eapply (fine_proceed _ (λ _, True)); [|done]. unfold committerHeight. eapply fine_proceed; [by apply fine_conf|].
  intros conf _. apply fine_call_then; [apply lib_fails|]. unfold fine, lib_panic, fails, lib_error.
  destruct (w_height w) as [[height|e]|msg]; auto 6.
Qed.

End wiring.

(** ** Concrete configurations *)

#[local] Existing Instances four_types demo_wire nil_driver map_trie mem_db.

Module Sample.
Definition tls : TLSConfig :=
  {| tls_Mode := "none"; tls_CertPath := ""; tls_KeyPath := ""; tls_CACertPaths := []; tls_ServerName := "" |}.

Definition client (port : Z) : ClientConfig :=
  {| cc_Endpoint := Some {| ep_Host := "127.0.0.1"; ep_Port := port |}; cc_TLS := tls |}.

Definition msp : IdentityConfig := {| id_MspID := "Org1MSP"; id_MSPDir := "/msp" |}.

Definition endorser (historySize : Z) : EndorserConfig := {|
  ec_Name := "endorser1"; ec_Identity := msp;
  ec_Database := {| db_Database := "memory"; db_ConnString := ""; db_HistorySize := historySize; db_QueryService := None |};
  ec_MaxTimestampFuture := 0; ec_MaxTimestampPast := 0;
  ec_Server := Some {| sv_Empty := false; sv_TLS := tls |} |}.

Definition gateway (chanSize : Z) : GatewayConfig := {|
  gc_Listen := ":8545"; gc_Identity := msp; gc_ConnString := ":memory:"; gc_TriePath := "";
  gc_Orderers := [client 7050]; gc_Endorsers := [client 9001]; gc_Vhosts := []; gc_WorkerCount := 0;
  gc_SubmitterCount := 2; gc_EndorsementChanSize := chanSize; gc_Filters := None;
  gc_DepGraphQueue := {| cfg_EndorseWorkers := 0; cfg_ChanSize := 0; cfg_WaitingTxsLimit := 0; cfg_BatchThreshold := 0;
                         cfg_BatchTimeout := 0 |} |}.

Definition config (g : option GatewayConfig) (historySize : Z) : Config := {|
  cf_Logging := {| lg_Format := ""; lg_Spec := "info" |};
  cf_Network := {| nw_Protocol := ""; nw_Channel := "mychannel"; nw_Namespace := "basic"; nw_NsVersion := "0";
                   nw_ChainID := 31337; nw_MaxTxGas := 0 |};
  cf_Committer := client 4001; cf_Synchronizer := {| sy_Timeout := 0; sy_AllTxQueueDepth := 0 |};
  cf_Gateway := g; cf_Endorser := Some (endorser historySize) |}.

(** Every path is a directory, every library call succeeds, the databases are
    empty and [make] allocates up to [2 ^ 40] elements. *)
Definition world : World := {|
  w_stat := λ _, Ok true; w_ParseFloat := λ _, None; w_call := λ _, Done None;
  w_Init := λ _, Done (); w_MustGetLogger := λ _, Done (); w_makeMax := 2 ^ 40;
  w_pebble := λ _, []; w_sqlite := λ _, empty_db; w_height := Done (Ok 7);
  w_ReadFile := λ _, Err "no such file"; w_embedded := []; w_Unmarshal := λ _, Ok [];
  w_HexToAddress := λ _, false; w_HexToECDSA := λ _, None; w_fund := λ _, Done None |}.

Definition submitter (p : string) (i : nat) : result string nat := Ok i.


(** A start that succeeds, of either kind. *)
Lemma both_start :
  (∃ p, runStart world submitter (config (Some (gateway 0)) 0) = Done (Ok p)) ∧
  ∃ p, runStart world submitter (config None 0) = Done (Ok p).
Proof. split; eexists; vm_compute; reflexivity. Qed.

(** *** A negative history size passes validation and panics

    [Validate] does not look at [history_size]; [NewLightKVS] makes a slice of it. *)
Lemma negative_history_panics :
  let cfg := config (Some (gateway 0)) (-1) in
  Validate (w_stat world) (w_ParseFloat world) cfg = [] ∧ ∃ msg, runStart world submitter cfg = Panic msg.
Proof. split; [vm_compute; reflexivity|]. eexists. vm_compute. reflexivity. Qed.

(** *** A size that cannot be allocated passes validation and panics *)
Lemma oversized_channel_panics :
  let cfg := config (Some (gateway (2 ^ 62))) 0 in
  Validate (w_stat world) (w_ParseFloat world) cfg = [] ∧ ∃ msg, runStart world submitter cfg = Panic msg.
Proof. split; [vm_compute; reflexivity|]. eexists. vm_compute. reflexivity. Qed.

(** *** The logging section is not validated

    Whatever its levels are, they reach the logging library after validation, and
    [Init] has no error to return. *)
Lemma logging_unchecked spec (refuses : string → bool) :
  refuses spec = true →
  let w := {| w_stat := w_stat world; w_ParseFloat := w_ParseFloat world; w_call := w_call world;
              w_Init := λ l, if refuses (lg_Spec l) then Panic "invalid logging specification" else Done ();
              w_MustGetLogger := w_MustGetLogger world; w_makeMax := w_makeMax world; w_pebble := w_pebble world;
              w_sqlite := w_sqlite world; w_height := w_height world; w_ReadFile := w_ReadFile world;
              w_embedded := w_embedded world; w_Unmarshal := w_Unmarshal world;
              w_HexToAddress := w_HexToAddress world; w_HexToECDSA := w_HexToECDSA world; w_fund := w_fund world |} in
  let c := config None 0 in
  let cfg := {| cf_Logging := {| lg_Format := ""; lg_Spec := spec |}; cf_Network := cf_Network c;
                cf_Committer := cf_Committer c; cf_Synchronizer := cf_Synchronizer c; cf_Gateway := None;
                cf_Endorser := cf_Endorser c |} in
  Validate (w_stat w) (w_ParseFloat w) cfg = [] ∧
  runStart w submitter cfg = Panic "invalid logging specification".
Proof.
  intros Hr w c cfg. assert (Validate (w_stat w) (w_ParseFloat w) cfg = []) as Hv by (vm_compute; reflexivity).
  split; [done|]. unfold runStart. rewrite Hv. simpl. by rewrite Hr.
Qed.

(** *** A test node from an endorser's configuration panics

    [Validate] accepts a configuration without a gateway, as a standalone
    endorser's; [NewTestNodeWithConfig] reads the gateway's identity from it. *)
Lemma testnode_needs_gateway :
  Validate (w_stat world) (w_ParseFloat world) (config None 0) = [] ∧
  ∃ msg, runTestNodeWithConfig world submitter (config None 0) "" = Panic msg.
Proof. split; [vm_compute; reflexivity|]. eexists. vm_compute. reflexivity. Qed.
End Sample.
